(** * Elevator simulator: the engine state machine and its SCAN scheduler

    A shallow embedding of the two engines of the repository:

    - [Monolith]: the single-file engine (package [elevator], one
      [Elevator] struct that owns state, scheduler and door machine);
    - [Domain] and [Service]: the logic-split engine of [pkg/elevator]
      ([domain.go] holds [ElevatorLogic], [elevator.go] the service that
      drives it).

    Conventions of the embedding.

    - Go [int] and [time.Duration] are 64-bit; they are [Z] here and every
      addition and subtraction the code performs is wrapped by [wrap64].
    - A Go map that is used as a set ([map[int]bool] whose values are only
      ever [true]) is a [gset Z].  Go visits the keys of a map in an order
      that is not specified and may change from one [range] to the next, so
      every function that ranges over the call set takes the visiting order
      as an argument; a run of the engine supplies some permutation of the
      elements of the set.
    - The door map is created with the two keys [Front] and [Rear] and the
      engine only stores the four [DoorState] constants in it: it is a
      record of two door states.
    - A one-shot timer is [option Z]: [Some d] when armed to fire after [d],
      [None] when stopped or already fired.
    - The event channel is a bounded queue (capacity 1000); an event offered
      to a full queue is dropped and counted.  Time stamps and log lines are
      not modelled. *)

From Stdlib Require Import ZArith Lia Bool.
From Stdlib Require Strings.String.
From stdpp Require Import base option list gmap sets sorting.

Local Open Scope Z_scope.

(** ** Machine integers *)

Definition MaxInt64 : Z := 2 ^ 63 - 1.

Definition wrap64 (z : Z) : Z := (z + 2 ^ 63) mod 2 ^ 64 - 2 ^ 63.

(** [float64(x)]: the nearest double, ties to even (53-bit significand). *)
Definition roundFloat64 (a : Z) : Z :=
  if a <? 2 ^ 53 then a
  else
    let k := Z.log2 a - 52 in
    let q := a / 2 ^ k in
    let r := a mod 2 ^ k in
    let h := 2 ^ (k - 1) in
    (if r <? h then q
     else if h <? r then q + 1
     else if Z.even q then q else q + 1) * 2 ^ k.

(** [int(math.Abs(float64(x)))]. *)
Definition absViaFloat64 (x : Z) : Z := wrap64 (roundFloat64 (Z.abs x)).

(** Floors that fit in 32 bits: far from every overflow and rounding. *)
Definition fits32 (z : Z) : Prop := - 2 ^ 31 <= z < 2 ^ 31.

(** ** Domain values shared by both engines *)

(** [Direction] is a string type.  [DirEmpty] is the empty string, its zero
    value: a [LogicAction] that is not a move carries it in [Dir]. *)
Inductive Direction := DirUp | DirDown | DirNone | DirEmpty.

Inductive DoorState := DoorOpen | DoorOpening | DoorClosing | DoorClose.

Inductive DoorSide := Front | Rear.

#[global] Instance Direction_eq_dec : EqDecision Direction.
Proof. solve_decision. Defined.
#[global] Instance DoorState_eq_dec : EqDecision DoorState.
Proof. solve_decision. Defined.
#[global] Instance DoorSide_eq_dec : EqDecision DoorSide.
Proof. solve_decision. Defined.

(** The bit of a side in an [OpenDoorSide] mask ([Front = 1 << iota]). *)
Definition sideBit (s : DoorSide) : Z :=
  match s with Front => 1 | Rear => 2 end.

Definition Both : Z := Z.lor (sideBit Front) (sideBit Rear).

(** [mask & side != 0] *)
Definition hasSide (mask : Z) (s : DoorSide) : bool :=
  negb (Z.land mask (sideBit s) =? 0).

Record Doors := mkDoors { front : DoorState; rear : DoorState }.

Definition getDoor (d : Doors) (s : DoorSide) : DoorState :=
  match s with Front => front d | Rear => rear d end.

Definition putDoor (d : Doors) (s : DoorSide) (st : DoorState) : Doors :=
  match s with
  | Front => mkDoors st (rear d)
  | Rear => mkDoors (front d) st
  end.

Definition closedDoors : Doors := mkDoors DoorClose DoorClose.

(** [for _, state := range doors { if state != DoorClose { return false } }] *)
Definition allClosed (d : Doors) : bool :=
  bool_decide (front d = DoorClose) && bool_decide (rear d = DoorClose).

(** Operation modes are plain integers ([iota]). *)
Definition ModeAuto : Z := 0.
Definition ModeManual : Z := 1.
Definition ModeMoving : Z := 2.
Definition ModeEmergency : Z := 3.

Record FloorConfig := mkFloorConfig {
  FloorNumber : Z;
  IsAccessible : bool;
  OpenDoorSide : Z
}.

(** The zero value Go returns for a key that is not in the map. *)
Definition zeroFloorConfig : FloorConfig := mkFloorConfig 0 false 0.

Definition defaultFloorConfig (i : Z) : FloorConfig :=
  mkFloorConfig i true (sideBit Front).

(** [FloorConfigs] may be [nil]: [None]. *)
Record Config := mkConfig {
  TravelTime : Z;
  TravelTimeEdge : Z;
  DoorSpeed : Z;
  DoorOpenTime : Z;
  DoorReopenTime : Z;
  InitialFloor : Z;
  MinFloor : Z;
  MaxFloor : Z;
  MaxWeight : Z;
  FloorConfigs : option (gmap Z FloorConfig)
}.

(** [cfg, ok := m[floor]] *)
Definition lookupFloor (m : option (gmap Z FloorConfig)) (f : Z)
  : option FloorConfig :=
  match m with Some fcs => fcs !! f | None => None end.

(** [m[floor]] *)
Definition floorConfigAt (m : option (gmap Z FloorConfig)) (f : Z)
  : FloorConfig :=
  default zeroFloorConfig (lookupFloor m f).

(** The loop [for i := min; i <= max; i++] that gives every floor without a
    configuration the default one; [n] is the number of floors left.  The
    loop makes [max - min + 1] rounds when [max] is below the largest
    [int]; at the largest [int] its test never fails. *)
Fixpoint fillFrom (n : nat) (i : Z) (fcs : gmap Z FloorConfig)
  : gmap Z FloorConfig :=
  match n with
  | O => fcs
  | S n' =>
      fillFrom n' (i + 1)
        (match fcs !! i with
         | Some _ => fcs
         | None => <[i := defaultFloorConfig i]> fcs
         end)
  end.

Definition fillDefaults (lo hi : Z) (m : option (gmap Z FloorConfig))
  : gmap Z FloorConfig :=
  fillFrom (Z.to_nat (hi - lo + 1)) lo (default ∅ m).

Inductive Event :=
  | EventFloorChange (f : Z)
  | EventDoorChange (side : DoorSide) (st : DoorState)
  | EventModeChange (m : Z)
  | EventDirectionChange (d : Direction)
  | EventArrived (f : Z) (openDoorSide : Z).

Definition eventCapacity : nat := 1000.

Definition Timer := option Z.

(** ** The scan loops

    Each loop of [selectNextTarget] keeps the triple
    [(minDist, target, found)], starts from [(MaxInt64, -1, false)] and
    visits the calls in the order the map hands them out. *)

Definition scanStep (keep : Z → bool) (dist : Z → Z)
    (acc : Z * Z * bool) (f : Z) : Z * Z * bool :=
  let '(minDist, target, found) := acc in
  if keep f then
    if dist f <? minDist then (dist f, f, true) else acc
  else acc.

Definition scan (keep : Z → bool) (dist : Z → Z) (order : list Z)
  : Z * Z * bool :=
  foldl (scanStep keep dist) (MaxInt64, -1, false) order.

Definition scanTarget (r : Z * Z * bool) : Z := snd (fst r).
Definition scanFound (r : Z * Z * bool) : bool := snd r.

(** Phase 2 is the same loop in both engines. *)
Definition nearest (floor : Z) (order : list Z) : Z * Z * bool :=
  scan (λ _, true) (λ f, absViaFloat64 (wrap64 (f - floor))) order.

(** ** The single-file engine *)

Module Monolith.

Record Elevator := mkElevator {
  Cfg : Config;
  Mode : Z;
  floor : Z;
  direction : Direction;
  doors : Doors;
  weight : Z;
  openWaitTime : Z;
  callFloors : gset Z;
  doorTimer : Timer;
  eventCh : list Event;
  droppedEventCount : Z;
  isOpenButtonPressed : bool
}.

Definition withMode (m : Z) (e : Elevator) : Elevator :=
  mkElevator (Cfg e) m (floor e) (direction e) (doors e) (weight e)
    (openWaitTime e) (callFloors e) (doorTimer e) (eventCh e)
    (droppedEventCount e) (isOpenButtonPressed e).
Definition withFloor (f : Z) (e : Elevator) : Elevator :=
  mkElevator (Cfg e) (Mode e) f (direction e) (doors e) (weight e)
    (openWaitTime e) (callFloors e) (doorTimer e) (eventCh e)
    (droppedEventCount e) (isOpenButtonPressed e).
Definition withDirection (d : Direction) (e : Elevator) : Elevator :=
  mkElevator (Cfg e) (Mode e) (floor e) d (doors e) (weight e)
    (openWaitTime e) (callFloors e) (doorTimer e) (eventCh e)
    (droppedEventCount e) (isOpenButtonPressed e).
Definition withDoors (d : Doors) (e : Elevator) : Elevator :=
  mkElevator (Cfg e) (Mode e) (floor e) (direction e) d (weight e)
    (openWaitTime e) (callFloors e) (doorTimer e) (eventCh e)
    (droppedEventCount e) (isOpenButtonPressed e).
Definition withWeight (w : Z) (e : Elevator) : Elevator :=
  mkElevator (Cfg e) (Mode e) (floor e) (direction e) (doors e) w
    (openWaitTime e) (callFloors e) (doorTimer e) (eventCh e)
    (droppedEventCount e) (isOpenButtonPressed e).
Definition withOpenWaitTime (t : Z) (e : Elevator) : Elevator :=
  mkElevator (Cfg e) (Mode e) (floor e) (direction e) (doors e) (weight e)
    t (callFloors e) (doorTimer e) (eventCh e)
    (droppedEventCount e) (isOpenButtonPressed e).
Definition withCallFloors (c : gset Z) (e : Elevator) : Elevator :=
  mkElevator (Cfg e) (Mode e) (floor e) (direction e) (doors e) (weight e)
    (openWaitTime e) c (doorTimer e) (eventCh e)
    (droppedEventCount e) (isOpenButtonPressed e).
Definition withDoorTimer (t : Timer) (e : Elevator) : Elevator :=
  mkElevator (Cfg e) (Mode e) (floor e) (direction e) (doors e) (weight e)
    (openWaitTime e) (callFloors e) t (eventCh e)
    (droppedEventCount e) (isOpenButtonPressed e).
Definition withEvents (q : list Event) (n : Z) (e : Elevator) : Elevator :=
  mkElevator (Cfg e) (Mode e) (floor e) (direction e) (doors e) (weight e)
    (openWaitTime e) (callFloors e) (doorTimer e) q n
    (isOpenButtonPressed e).
Definition withOpenButton (b : bool) (e : Elevator) : Elevator :=
  mkElevator (Cfg e) (Mode e) (floor e) (direction e) (doors e) (weight e)
    (openWaitTime e) (callFloors e) (doorTimer e) (eventCh e)
    (droppedEventCount e) b.

Inductive Error :=
  | ErrMinAboveMax (lo hi : Z)
  | ErrOutOfRange (f : Z)
  | ErrInaccessible (f : Z).

(** [New]: the only validation is [MinFloor > MaxFloor]. *)
Definition New (config : Config) : Error + Elevator :=
  if MaxFloor config <? MinFloor config then
    inl (ErrMinAboveMax (MinFloor config) (MaxFloor config))
  else
    let fcs :=
      fillDefaults (MinFloor config) (MaxFloor config) (FloorConfigs config) in
    let reopen :=
      if DoorReopenTime config =? 0 then DoorOpenTime config
      else DoorReopenTime config in
    let config' :=
      mkConfig (TravelTime config) (TravelTimeEdge config) (DoorSpeed config)
        (DoorOpenTime config) reopen (InitialFloor config) (MinFloor config)
        (MaxFloor config) (MaxWeight config) (Some fcs) in
    inr (mkElevator config' ModeAuto (InitialFloor config) DirNone
           closedDoors 0 (DoorOpenTime config) ∅ None [] 0 false).

(** Non-blocking offer to the event channel. *)
Definition publishEvent (ev : Event) (e : Elevator) : Elevator :=
  if (length (eventCh e) <? eventCapacity)%nat then
    withEvents (eventCh e ++ [ev]) (droppedEventCount e) e
  else
    withEvents (eventCh e) ((droppedEventCount e + 1) mod 2 ^ 64) e.

Definition setFloor (f : Z) (e : Elevator) : Elevator :=
  if decide (floor e = f) then e
  else publishEvent (EventFloorChange f) (withFloor f e).

Definition setDirection (d : Direction) (e : Elevator) : Elevator :=
  if decide (direction e = d) then e
  else publishEvent (EventDirectionChange d) (withDirection d e).

Definition setDoor (side : DoorSide) (st : DoorState) (e : Elevator)
  : Elevator :=
  if decide (getDoor (doors e) side = st) then e
  else publishEvent (EventDoorChange side st)
         (withDoors (putDoor (doors e) side st) e).

Definition Reset (e : Elevator) : Elevator :=
  setDoor Rear DoorClose
    (setDoor Front DoorClose
       (setDirection DirNone (withCallFloors ∅ e))).

Definition SetMode (mode : Z) (e : Elevator) : Elevator :=
  if Mode e =? mode then e
  else
    let e1 := publishEvent (EventModeChange mode) (withMode mode e) in
    if mode =? ModeEmergency then
      withDirection DirNone (withDoorTimer None e1)
    else e1.

Definition AddCall (f : Z) (isCarCall : bool) (e : Elevator)
  : option Error * Elevator :=
  if (f <? MinFloor (Cfg e)) || (MaxFloor (Cfg e) <? f) then
    (Some (ErrOutOfRange f), e)
  else if negb (IsAccessible (floorConfigAt (FloorConfigs (Cfg e)) f)) then
    (Some (ErrInaccessible f), e)
  else if bool_decide (f ∈ callFloors e) then (None, e)
  else (None, withCallFloors ({[f]} ∪ callFloors e) e).

Definition RemoveCall (f : Z) (e : Elevator) : Elevator :=
  withCallFloors (callFloors e ∖ {[f]}) e.

Definition ClearCalls (e : Elevator) : Elevator := withCallFloors ∅ e.

Definition AddWeight (w : Z) (e : Elevator) : Elevator :=
  withWeight (wrap64 (weight e + w)) e.

Definition SetDoor (side : DoorSide) (st : DoorState) (e : Elevator)
  : Elevator := setDoor side st e.

(** Phase 1 of the scan, for a heading [Up] or [Down]: strictly beyond
    the current floor. *)
Definition ahead (order : list Z) (e : Elevator) : Z * Z * bool :=
  match direction e with
  | DirUp =>
      scan (λ f, floor e <? f) (λ f, wrap64 (f - floor e)) order
  | DirDown =>
      scan (λ f, f <? floor e) (λ f, wrap64 (floor e - f)) order
  | _ => (MaxInt64, -1, false)
  end.

Definition selectNextTarget (order : list Z) (e : Elevator) : Z * bool :=
  if bool_decide (callFloors e = ∅) then (0, false)
  else if scanFound (ahead order e) then
    (scanTarget (ahead order e), true)
  else if scanFound (nearest (floor e) order) then
    (scanTarget (nearest (floor e) order), true)
  else (0, false).

Definition getFloorConfig (f : Z) (e : Elevator) : option FloorConfig :=
  lookupFloor (FloorConfigs (Cfg e)) f.

Definition handleArrival (f : Z) (e : Elevator) : Elevator :=
  let openDoorSide :=
    match getFloorConfig f e with
    | Some cfg => OpenDoorSide cfg
    | None => sideBit Front
    end in
  let e1 := if hasSide openDoorSide Front
            then setDoor Front DoorOpening e else e in
  let e2 := if hasSide openDoorSide Rear
            then setDoor Rear DoorOpening e1 else e1 in
  let e3 := withCallFloors (callFloors e2 ∖ {[f]}) e2 in
  let e4 := publishEvent (EventArrived f openDoorSide) e3 in
  let e5 := withOpenWaitTime (DoorOpenTime (Cfg e4)) e4 in
  withDoorTimer (Some (DoorSpeed (Cfg e5))) e5.

Definition getNextMoveDuration (target : Z) (e : Elevator) : Z :=
  let dist := absViaFloat64 (wrap64 (target - floor e)) in
  if bool_decide (direction e = DirNone) || (dist =? 1)
  then TravelTimeEdge (Cfg e)
  else TravelTime (Cfg e).

(** The door under way: the front one unless it is closed. *)
Definition activeDoor (d : Doors) : DoorState :=
  match front d with DoorClose => rear d | st => st end.

Definition handleDoorTimeout (e : Elevator) : Elevator :=
  match activeDoor (doors e) with
  | DoorClose => e
  | DoorOpening =>
      let e1 := if decide (front (doors e) = DoorOpening)
                then setDoor Front DoorOpen e else e in
      let e2 := if decide (rear (doors e1) = DoorOpening)
                then setDoor Rear DoorOpen e1 else e1 in
      withDoorTimer (Some (openWaitTime e2)) e2
  | DoorOpen =>
      if isOpenButtonPressed e then
        withDoorTimer (Some (DoorReopenTime (Cfg e))) e
      else if (0 <? MaxWeight (Cfg e)) && (MaxWeight (Cfg e) <? weight e)
      then withDoorTimer (Some (openWaitTime e)) e
      else
        let e1 := if decide (front (doors e) = DoorOpen)
                  then setDoor Front DoorClosing e else e in
        let e2 := if decide (rear (doors e1) = DoorOpen)
                  then setDoor Rear DoorClosing e1 else e1 in
        withDoorTimer (Some (DoorSpeed (Cfg e2))) e2
  | DoorClosing =>
      let e1 := if decide (front (doors e) = DoorClosing)
                then setDoor Front DoorClose e else e in
      if decide (rear (doors e1) = DoorClosing)
      then setDoor Rear DoorClose e1 else e1
  end.

(** [handleMove]: one hop is over; returns [(shouldContinue, duration)]
    next to the new state. *)
Definition handleMove (order : list Z) (e : Elevator)
  : bool * Z * Elevator :=
  let e1 :=
    match direction e with
    | DirUp => setFloor (wrap64 (floor e + 1)) e
    | DirDown => setFloor (wrap64 (floor e - 1)) e
    | _ => e
    end in
  if bool_decide (floor e1 ∈ callFloors e1) then
    (false, 0, handleArrival (floor e1) e1)
  else
    let '(target, found) := selectNextTarget order e1 in
    if negb found then (false, 0, setDirection DirNone e1)
    else
      let keepDirection :=
        (bool_decide (direction e1 = DirUp) && (floor e1 <? target))
        || (bool_decide (direction e1 = DirDown) && (target <? floor e1)) in
      if keepDirection then (true, getNextMoveDuration target e1, e1)
      else (false, 0, setDirection DirNone e1).

Definition PressOpenButton (e : Elevator) : Elevator :=
  let e0 := withOpenButton true e in
  match activeDoor (doors e0) with
  | DoorClosing =>
      let e1 := if decide (front (doors e0) = DoorClosing)
                then setDoor Front DoorOpening e0 else e0 in
      let e2 := if decide (rear (doors e1) = DoorClosing)
                then setDoor Rear DoorOpening e1 else e1 in
      let e3 := withOpenWaitTime (DoorReopenTime (Cfg e2)) e2 in
      withDoorTimer (Some (DoorSpeed (Cfg e3))) e3
  | DoorOpen =>
      let e1 := withOpenWaitTime (DoorReopenTime (Cfg e0)) e0 in
      withDoorTimer (Some (DoorReopenTime (Cfg e1))) e1
  | DoorClose =>
      if bool_decide (direction e0 = DirNone) then
        let openSide :=
          match lookupFloor (FloorConfigs (Cfg e0)) (floor e0) with
          | Some cfg => OpenDoorSide cfg
          | None => sideBit Front
          end in
        let e1 := if hasSide openSide Front
                  then setDoor Front DoorOpening e0 else e0 in
        let e2 := if hasSide openSide Rear
                  then setDoor Rear DoorOpening e1 else e1 in
        let e3 := withOpenWaitTime (DoorReopenTime (Cfg e2)) e2 in
        withDoorTimer (Some (DoorSpeed (Cfg e3))) e3
      else e0
  | DoorOpening => e0
  end.

Definition ReleaseOpenButton (e : Elevator) : Elevator :=
  let e0 := withOpenButton false e in
  if decide (front (doors e0) = DoorOpen) then
    withDoorTimer (Some (DoorReopenTime (Cfg e0)))
      (withOpenWaitTime (DoorReopenTime (Cfg e0)) e0)
  else e0.

Definition PressCloseButton (e : Elevator) : Elevator :=
  if isOpenButtonPressed e then e
  else if decide (front (doors e) = DoorOpen) then withDoorTimer (Some 0) e
  else e.

(** *** The loop of [Run]

    [isMoving] and [travelTimer] are locals of [Run]; together with the
    elevator they are the state of the running engine. *)

Record Engine := mkEngine {
  elev : Elevator;
  isMoving : bool;
  travelTimer : Timer
}.

Definition start (e : Elevator) : Engine := mkEngine e false None.

Definition onElevator (f : Elevator → Elevator) (g : Engine) : Engine :=
  mkEngine (f (elev g)) (isMoving g) (travelTimer g).

Definition step (order : list Z) (g : Engine) : Engine :=
  let e := elev g in
  if negb (Mode e =? ModeAuto) then g
  else if isMoving g then g
  else if negb (allClosed (doors e)) then g
  else
    let '(target, found) := selectNextTarget order e in
    if negb found then
      if decide (direction e = DirNone) then g
      else onElevator (withDirection DirNone) g
    else
      let go (nextDir : Direction) :=
        let duration := getNextMoveDuration target e in
        mkEngine (setDirection nextDir e) true (Some duration) in
      if floor e <? target then go DirUp
      else if target <? floor e then go DirDown
      else onElevator (handleArrival target) g.

(** The [travelTimer.C] case of the [select].  The handler and the update
    of the locals that follows it are one step here: a command that runs in
    between reads and writes neither local. *)
Definition travelDone (order : list Z) (g : Engine) : Engine :=
  let '(shouldContinue, duration, e') := handleMove order (elev g) in
  if shouldContinue then mkEngine e' (isMoving g) (Some duration)
  else mkEngine e' false None.

(** What can happen to a running engine: the cases of the [select] in
    [Run], the commands of the public API, and a reader taking an event
    off the channel.  A timer case only runs when its timer is armed;
    [StaleDoorFire] is the door handler run on a fire left over from
    before a [Reset] of the timer. *)
Inductive Op :=
  | Tick (order : list Z)
  | TravelFire (order : list Z)
  | DoorFire
  | StaleDoorFire
  | CmdAddCall (f : Z) (isCarCall : bool)
  | CmdRemoveCall (f : Z)
  | CmdClearCalls
  | CmdReset
  | CmdSetMode (m : Z)
  | CmdAddWeight (w : Z)
  | CmdSetDoor (side : DoorSide) (st : DoorState)
  | CmdPressOpen
  | CmdReleaseOpen
  | CmdPressClose
  | ReadEvent.

Definition exec (op : Op) (g : Engine) : Engine :=
  match op with
  | Tick order => step order g
  | TravelFire order =>
      match travelTimer g with
      | Some _ => travelDone order (mkEngine (elev g) (isMoving g) None)
      | None => g
      end
  | DoorFire =>
      match doorTimer (elev g) with
      | Some _ =>
          onElevator (λ e, handleDoorTimeout (withDoorTimer None e)) g
      | None => g
      end
  | StaleDoorFire => onElevator handleDoorTimeout g
  | CmdAddCall f c => onElevator (λ e, snd (AddCall f c e)) g
  | CmdRemoveCall f => onElevator (RemoveCall f) g
  | CmdClearCalls => onElevator ClearCalls g
  | CmdReset => onElevator Reset g
  | CmdSetMode m => onElevator (SetMode m) g
  | CmdAddWeight w => onElevator (AddWeight w) g
  | CmdSetDoor side st => onElevator (SetDoor side st) g
  | CmdPressOpen => onElevator PressOpenButton g
  | CmdReleaseOpen => onElevator ReleaseOpenButton g
  | CmdPressClose => onElevator PressCloseButton g
  | ReadEvent =>
      onElevator (λ e, withEvents (tail (eventCh e)) (droppedEventCount e) e) g
  end.

(** The visiting order of a [range] is some permutation of the keys. *)
Definition orderOk (op : Op) (g : Engine) : Prop :=
  match op with
  | Tick order | TravelFire order =>
      order ≡ₚ elements (callFloors (elev g))
  | _ => True
  end.

(** States the engine can be in, started from [g0], when it only takes
    the operations that [allowed] admits. *)
Inductive reachableBy (allowed : Op → Prop) (g0 : Engine) : Engine → Prop :=
  | reach_start : reachableBy allowed g0 g0
  | reach_exec g op :
      reachableBy allowed g0 g → allowed op → orderOk op g →
      reachableBy allowed g0 (exec op g).

Definition reachable : Engine → Engine → Prop := reachableBy (λ _, True).

Definition notManualDoor (op : Op) : Prop :=
  match op with CmdSetDoor _ _ => False | _ => True end.

End Monolith.


(** ** The logic-split engine: the domain logic ([domain.go]) *)

Module Domain.

Record LogicConfig := mkLogicConfig {
  MinFloor : Z;
  MaxFloor : Z;
  InitialFloor : Z;
  MaxWeight : Z;
  FloorConfigs : option (gmap Z FloorConfig)
}.

Inductive LogicActionType :=
  | ActionNone
  | ActionMove
  | ActionOpenDoor
  | ActionCloseDoor
  | ActionStop.

Record LogicAction := mkLogicAction {
  Type_ : LogicActionType;
  Target : Z;
  Dir : Direction
}.

Record ElevatorLogic := mkElevatorLogic {
  LConfig : LogicConfig;
  Floor : Z;
  LDirection : Direction;
  LDoors : Doors;
  Weight : Z;
  Calls : gset Z
}.

Inductive Error :=
  | ErrOutOfRange (f : Z)
  | ErrInaccessible (f : Z).

Definition NewElevatorLogic (cfg : LogicConfig) : ElevatorLogic :=
  let fcs := fillDefaults (MinFloor cfg) (MaxFloor cfg) (FloorConfigs cfg) in
  let cfg' :=
    mkLogicConfig (MinFloor cfg) (MaxFloor cfg) (InitialFloor cfg)
      (MaxWeight cfg) (Some fcs) in
  mkElevatorLogic cfg' (InitialFloor cfg) DirNone closedDoors 0 ∅.

Definition withCalls (c : gset Z) (l : ElevatorLogic) : ElevatorLogic :=
  mkElevatorLogic (LConfig l) (Floor l) (LDirection l) (LDoors l) (Weight l) c.

Definition AddCall (f : Z) (l : ElevatorLogic) : option Error * ElevatorLogic :=
  if (f <? MinFloor (LConfig l)) || (MaxFloor (LConfig l) <? f) then
    (Some (ErrOutOfRange f), l)
  else if negb (IsAccessible (floorConfigAt (FloorConfigs (LConfig l)) f)) then
    (Some (ErrInaccessible f), l)
  else (None, withCalls ({[f]} ∪ Calls l) l).

Definition RemoveCall (f : Z) (l : ElevatorLogic) : ElevatorLogic :=
  withCalls (Calls l ∖ {[f]}) l.

Definition SetDoor (side : DoorSide) (st : DoorState) (l : ElevatorLogic)
  : ElevatorLogic :=
  mkElevatorLogic (LConfig l) (Floor l) (LDirection l)
    (putDoor (LDoors l) side st) (Weight l) (Calls l).

Definition SetFloor (f : Z) (l : ElevatorLogic) : ElevatorLogic :=
  mkElevatorLogic (LConfig l) f (LDirection l) (LDoors l) (Weight l) (Calls l).

Definition SetDirection (d : Direction) (l : ElevatorLogic) : ElevatorLogic :=
  mkElevatorLogic (LConfig l) (Floor l) d (LDoors l) (Weight l) (Calls l).

Definition withWeight (w : Z) (l : ElevatorLogic) : ElevatorLogic :=
  mkElevatorLogic (LConfig l) (Floor l) (LDirection l) (LDoors l) w (Calls l).

Definition AreDoorsClosed (l : ElevatorLogic) : bool := allClosed (LDoors l).

(** Phase 1 of the scan: the current floor is included. *)
Definition ahead (order : list Z) (l : ElevatorLogic) : Z * Z * bool :=
  match LDirection l with
  | DirUp =>
      scan (λ f, Floor l <=? f) (λ f, wrap64 (f - Floor l)) order
  | DirDown =>
      scan (λ f, f <=? Floor l) (λ f, wrap64 (Floor l - f)) order
  | _ => (MaxInt64, -1, false)
  end.

Definition selectNextTarget (order : list Z) (l : ElevatorLogic) : Z * bool :=
  if bool_decide (Calls l = ∅) then (0, false)
  else if scanFound (ahead order l) then (scanTarget (ahead order l), true)
  else (scanTarget (nearest (Floor l) order),
        scanFound (nearest (Floor l) order)).

Definition DecideNextStep (order : list Z) (l : ElevatorLogic) : LogicAction :=
  if negb (AreDoorsClosed l) then mkLogicAction ActionNone 0 DirEmpty
  else if bool_decide (Calls l = ∅) then
    if decide (LDirection l = DirNone)
    then mkLogicAction ActionNone 0 DirEmpty
    else mkLogicAction ActionStop 0 DirNone
  else
    let '(target, found) := selectNextTarget order l in
    if negb found then
      if decide (LDirection l = DirNone)
      then mkLogicAction ActionNone 0 DirEmpty
      else mkLogicAction ActionStop 0 DirNone
    else if target =? Floor l then mkLogicAction ActionOpenDoor target DirEmpty
    else if Floor l <? target then mkLogicAction ActionMove target DirUp
    else mkLogicAction ActionMove target DirDown.

End Domain.

(** ** The logic-split engine: the service ([pkg/elevator/elevator.go]) *)

Module Service.

Record Elevator := mkElevator {
  Cfg : Config;
  Logic : Domain.ElevatorLogic;
  Mode : Z;
  openWaitTime : Z;
  doorTimer : Timer;
  eventCh : list Event;
  droppedEventCount : Z;
  isOpenButtonPressed : bool
}.

Definition withLogic (l : Domain.ElevatorLogic) (e : Elevator) : Elevator :=
  mkElevator (Cfg e) l (Mode e) (openWaitTime e) (doorTimer e) (eventCh e)
    (droppedEventCount e) (isOpenButtonPressed e).
Definition withMode (m : Z) (e : Elevator) : Elevator :=
  mkElevator (Cfg e) (Logic e) m (openWaitTime e) (doorTimer e) (eventCh e)
    (droppedEventCount e) (isOpenButtonPressed e).
Definition withOpenWaitTime (t : Z) (e : Elevator) : Elevator :=
  mkElevator (Cfg e) (Logic e) (Mode e) t (doorTimer e) (eventCh e)
    (droppedEventCount e) (isOpenButtonPressed e).
Definition withDoorTimer (t : Timer) (e : Elevator) : Elevator :=
  mkElevator (Cfg e) (Logic e) (Mode e) (openWaitTime e) t (eventCh e)
    (droppedEventCount e) (isOpenButtonPressed e).
Definition withEvents (q : list Event) (n : Z) (e : Elevator) : Elevator :=
  mkElevator (Cfg e) (Logic e) (Mode e) (openWaitTime e) (doorTimer e) q n
    (isOpenButtonPressed e).
Definition withOpenButton (b : bool) (e : Elevator) : Elevator :=
  mkElevator (Cfg e) (Logic e) (Mode e) (openWaitTime e) (doorTimer e)
    (eventCh e) (droppedEventCount e) b.

Inductive Error :=
  | ErrMinAboveMax (lo hi : Z)
  | ErrLogic (err : Domain.Error).

(** [New] builds the logic first; the floor configurations are one map
    shared with the logic when the caller supplied one, and stay [nil] in
    the service's own [Config] when the caller supplied none. *)
Definition New (config : Config) : Error + Elevator :=
  let logicConfig :=
    Domain.mkLogicConfig (MinFloor config) (MaxFloor config)
      (InitialFloor config) (MaxWeight config) (FloorConfigs config) in
  let logic := Domain.NewElevatorLogic logicConfig in
  if MaxFloor config <? MinFloor config then
    inl (ErrMinAboveMax (MinFloor config) (MaxFloor config))
  else
    let reopen :=
      if DoorReopenTime config =? 0 then DoorOpenTime config
      else DoorReopenTime config in
    let shared :=
      match FloorConfigs config with
      | Some _ => Domain.FloorConfigs (Domain.LConfig logic)
      | None => None
      end in
    let config' :=
      mkConfig (TravelTime config) (TravelTimeEdge config) (DoorSpeed config)
        (DoorOpenTime config) reopen (InitialFloor config) (MinFloor config)
        (MaxFloor config) (MaxWeight config) shared in
    inr (mkElevator config' logic ModeAuto (DoorOpenTime config) None [] 0
           false).

Definition publishEvent (ev : Event) (e : Elevator) : Elevator :=
  if (length (eventCh e) <? eventCapacity)%nat then
    withEvents (eventCh e ++ [ev]) (droppedEventCount e) e
  else
    withEvents (eventCh e) ((droppedEventCount e + 1) mod 2 ^ 64) e.

Definition setDirection (d : Direction) (e : Elevator) : Elevator :=
  if decide (Domain.LDirection (Logic e) = d) then e
  else publishEvent (EventDirectionChange d)
         (withLogic (Domain.SetDirection d (Logic e)) e).

Definition setFloor (f : Z) (e : Elevator) : Elevator :=
  if decide (Domain.Floor (Logic e) = f) then e
  else publishEvent (EventFloorChange f)
         (withLogic (Domain.SetFloor f (Logic e)) e).

Definition setDoor (side : DoorSide) (st : DoorState) (e : Elevator)
  : Elevator :=
  if decide (getDoor (Domain.LDoors (Logic e)) side = st) then e
  else publishEvent (EventDoorChange side st)
         (withLogic (Domain.SetDoor side st (Logic e)) e).

(** [Reset] replaces the logic by a new one built from the same
    configuration and announces floor, direction and both doors. *)
Definition Reset (e : Elevator) : Elevator :=
  let e1 := withLogic (Domain.NewElevatorLogic (Domain.LConfig (Logic e))) e in
  let e2 := publishEvent (EventFloorChange (Domain.Floor (Logic e1))) e1 in
  let e3 :=
    publishEvent (EventDirectionChange (Domain.LDirection (Logic e2))) e2 in
  let e4 := publishEvent (EventDoorChange Front DoorClose) e3 in
  publishEvent (EventDoorChange Rear DoorClose) e4.

Definition AddCall (f : Z) (isCarCall : bool) (e : Elevator)
  : option Error * Elevator :=
  match Domain.AddCall f (Logic e) with
  | (Some err, l) => (Some (ErrLogic err), withLogic l e)
  | (None, l) => (None, withLogic l e)
  end.

Definition RemoveCall (f : Z) (e : Elevator) : Elevator :=
  withLogic (Domain.RemoveCall f (Logic e)) e.

Definition ClearCalls (e : Elevator) : Elevator :=
  withLogic (Domain.withCalls ∅ (Logic e)) e.

Definition AddWeight (w : Z) (e : Elevator) : Elevator :=
  withLogic
    (Domain.withWeight (wrap64 (Domain.Weight (Logic e) + w)) (Logic e)) e.

Definition PressOpenButton (e : Elevator) : Elevator :=
  let e0 := withOpenButton true e in
  let d := Domain.LDoors (Logic e0) in
  if bool_decide (front d = DoorClosing) || bool_decide (rear d = DoorClosing)
  then
    let e2 := setDoor Rear DoorOpening (setDoor Front DoorOpening e0) in
    withDoorTimer (Some (DoorSpeed (Cfg e2))) e2
  else if bool_decide (front d = DoorOpen) then
    withDoorTimer (Some (DoorReopenTime (Cfg e0))) e0
  else e0.

Definition ReleaseOpenButton (e : Elevator) : Elevator :=
  withOpenButton false e.

(** One millisecond, in nanoseconds. *)
Definition Millisecond : Z := 1000000.

Definition PressCloseButton (e : Elevator) : Elevator :=
  let d := Domain.LDoors (Logic e) in
  if (bool_decide (front d = DoorOpen) || bool_decide (rear d = DoorOpen))
     && negb (isOpenButtonPressed e)
  then withDoorTimer (Some (1 * Millisecond)) e
  else e.

Definition SetDoor (side : DoorSide) (st : DoorState) (e : Elevator)
  : Elevator :=
  if decide (getDoor (Domain.LDoors (Logic e)) side = st) then e
  else publishEvent (EventDoorChange side st)
         (withLogic (Domain.SetDoor side st (Logic e)) e).

Definition SetMode (mode : Z) (e : Elevator) : Elevator :=
  if Mode e =? mode then e
  else
    let e1 := publishEvent (EventModeChange mode) (withMode mode e) in
    if mode =? ModeEmergency then
      setDirection DirNone (withDoorTimer None e1)
    else e1.

Definition handleArrival (f : Z) (e : Elevator) : Elevator :=
  let openSide :=
    match lookupFloor (FloorConfigs (Cfg e)) f with
    | Some cfg => OpenDoorSide cfg
    | None => sideBit Front
    end in
  let e1 := if hasSide openSide Front
            then setDoor Front DoorOpening e else e in
  let e2 := if hasSide openSide Rear
            then setDoor Rear DoorOpening e1 else e1 in
  let e3 := withLogic (Domain.RemoveCall f (Logic e2)) e2 in
  let e4 := publishEvent (EventArrived f openSide) e3 in
  let e5 := withOpenWaitTime (DoorOpenTime (Cfg e4)) e4 in
  withDoorTimer (Some (DoorSpeed (Cfg e5))) e5.

Definition activeDoor (d : Doors) : DoorState :=
  match front d with DoorClose => rear d | st => st end.

Definition handleDoorTimeout (e : Elevator) : Elevator :=
  match activeDoor (Domain.LDoors (Logic e)) with
  | DoorOpening =>
      let e1 := if decide (front (Domain.LDoors (Logic e)) = DoorOpening)
                then setDoor Front DoorOpen e else e in
      let e2 := if decide (rear (Domain.LDoors (Logic e1)) = DoorOpening)
                then setDoor Rear DoorOpen e1 else e1 in
      withDoorTimer (Some (openWaitTime e2)) e2
  | DoorOpen =>
      if (0 <? MaxWeight (Cfg e))
         && (MaxWeight (Cfg e) <? Domain.Weight (Logic e))
      then withDoorTimer (Some (openWaitTime e)) e
      else if isOpenButtonPressed e then
        withDoorTimer (Some (DoorReopenTime (Cfg e))) e
      else
        let e1 := if decide (front (Domain.LDoors (Logic e)) = DoorOpen)
                  then setDoor Front DoorClosing e else e in
        let e2 := if decide (rear (Domain.LDoors (Logic e1)) = DoorOpen)
                  then setDoor Rear DoorClosing e1 else e1 in
        withDoorTimer (Some (DoorSpeed (Cfg e2))) e2
  | DoorClosing =>
      setDoor Rear DoorClose (setDoor Front DoorClose e)
  | DoorClose => e
  end.

Definition handleMoveComplete (order : list Z) (e : Elevator)
  : bool * Z * Elevator :=
  let newFloor :=
    match Domain.LDirection (Logic e) with
    | DirUp => wrap64 (Domain.Floor (Logic e) + 1)
    | DirDown => wrap64 (Domain.Floor (Logic e) - 1)
    | _ => Domain.Floor (Logic e)
    end in
  let e1 := setFloor newFloor e in
  let action := Domain.DecideNextStep order (Logic e1) in
  match Domain.Type_ action with
  | Domain.ActionOpenDoor =>
      (false, 0, handleArrival (Domain.Floor (Logic e1)) e1)
  | Domain.ActionMove =>
      let e2 :=
        if decide (Domain.Dir action = Domain.LDirection (Logic e1)) then e1
        else setDirection (Domain.Dir action) e1 in
      (true, TravelTime (Cfg e2), e2)
  | _ => (false, 0, setDirection DirNone e1)
  end.

Record Engine := mkEngine {
  elev : Elevator;
  isMoving : bool;
  travelTimer : Timer
}.

Definition start (e : Elevator) : Engine := mkEngine e false None.

Definition onElevator (f : Elevator → Elevator) (g : Engine) : Engine :=
  mkEngine (f (elev g)) (isMoving g) (travelTimer g).

Definition step (order : list Z) (g : Engine) : Engine :=
  let e := elev g in
  if negb (Mode e =? ModeAuto) then g
  else if isMoving g then g
  else
    let action := Domain.DecideNextStep order (Logic e) in
    match Domain.Type_ action with
    | Domain.ActionMove =>
        let e1 := setDirection (Domain.Dir action) e in
        let duration := TravelTime (Cfg e1) in
        mkEngine e1 true (Some duration)
    | Domain.ActionStop =>
        if decide (Domain.LDirection (Logic e) = DirNone) then g
        else onElevator (setDirection DirNone) g
    | Domain.ActionOpenDoor =>
        onElevator (handleArrival (Domain.Target action)) g
    | _ => g
    end.

Definition travelDone (order : list Z) (g : Engine) : Engine :=
  let '(shouldContinue, duration, e') := handleMoveComplete order (elev g) in
  if shouldContinue then mkEngine e' (isMoving g) (Some duration)
  else mkEngine e' false None.

Inductive Op :=
  | Tick (order : list Z)
  | TravelFire (order : list Z)
  | DoorFire
  | StaleDoorFire
  | CmdAddCall (f : Z) (isCarCall : bool)
  | CmdRemoveCall (f : Z)
  | CmdClearCalls
  | CmdReset
  | CmdSetMode (m : Z)
  | CmdAddWeight (w : Z)
  | CmdSetDoor (side : DoorSide) (st : DoorState)
  | CmdPressOpen
  | CmdReleaseOpen
  | CmdPressClose
  | ReadEvent.

Definition exec (op : Op) (g : Engine) : Engine :=
  match op with
  | Tick order => step order g
  | TravelFire order =>
      match travelTimer g with
      | Some _ => travelDone order (mkEngine (elev g) (isMoving g) None)
      | None => g
      end
  | DoorFire =>
      match doorTimer (elev g) with
      | Some _ =>
          onElevator (λ e, handleDoorTimeout (withDoorTimer None e)) g
      | None => g
      end
  | StaleDoorFire => onElevator handleDoorTimeout g
  | CmdAddCall f c => onElevator (λ e, snd (AddCall f c e)) g
  | CmdRemoveCall f => onElevator (RemoveCall f) g
  | CmdClearCalls => onElevator ClearCalls g
  | CmdReset => onElevator Reset g
  | CmdSetMode m => onElevator (SetMode m) g
  | CmdAddWeight w => onElevator (AddWeight w) g
  | CmdSetDoor side st => onElevator (SetDoor side st) g
  | CmdPressOpen => onElevator PressOpenButton g
  | CmdReleaseOpen => onElevator ReleaseOpenButton g
  | CmdPressClose => onElevator PressCloseButton g
  | ReadEvent =>
      onElevator (λ e, withEvents (tail (eventCh e)) (droppedEventCount e) e) g
  end.

Definition orderOk (op : Op) (g : Engine) : Prop :=
  match op with
  | Tick order | TravelFire order =>
      order ≡ₚ elements (Domain.Calls (Logic (elev g)))
  | _ => True
  end.

Inductive reachableBy (allowed : Op → Prop) (g0 : Engine) : Engine → Prop :=
  | reach_start : reachableBy allowed g0 g0
  | reach_exec g op :
      reachableBy allowed g0 g → allowed op → orderOk op g →
      reachableBy allowed g0 (exec op g).

Definition reachable : Engine → Engine → Prop := reachableBy (λ _, True).

Definition notManualDoor (op : Op) : Prop :=
  match op with CmdSetDoor _ _ => False | _ => True end.

End Service.

(** * Vocabulary of the properties *)

(** The loop invariant: nothing kept so far, or the accumulator holds a
    kept floor of least distance among those seen. *)
Definition scanInv (keep : Z → bool) (dist : Z → Z) (seen : list Z)
    (acc : Z * Z * bool) : Prop :=
  (acc = (MaxInt64, -1, false) ∧ ∀ f, f ∈ seen → keep f = false)
  ∨ (∃ t, acc = (dist t, t, true) ∧ t ∈ seen ∧ keep t = true
          ∧ ∀ f, f ∈ seen → keep f = true → dist t <= dist f).

(** [t] is a pending call that satisfies [P] and no pending call that
    satisfies [P] is nearer to [floor]. *)
Definition nearestOf (P : Z → Prop) (floor : Z) (calls : gset Z) (t : Z)
  : Prop :=
  t ∈ calls ∧ P t
  ∧ ∀ f, f ∈ calls → P f → Z.abs (t - floor) <= Z.abs (f - floor).

(** What Phase 1 does with the calls that satisfy [P]: the loop result [r]
    reports a floor exactly when such a call is pending, that floor is the
    nearest of them, and it is what the scheduler [sel] returns. *)
Definition phase1Spec (P : Z → Prop) (floor : Z) (calls : gset Z)
    (r : Z * Z * bool) (sel : Z * bool) : Prop :=
  (scanFound r = true ↔ ∃ f, f ∈ calls ∧ P f)
  ∧ (scanFound r = true →
     nearestOf P floor calls (scanTarget r) ∧ sel = (scanTarget r, true)).

(** Floor and calls are small enough for 64-bit arithmetic to be exact. *)
Definition floorsFit (floor : Z) (calls : gset Z) : Prop :=
  fits32 floor ∧ ∀ f, f ∈ calls → fits32 f.

(** A logic as the domain tests build it: at floor 5 of 1..10, heading up,
    with calls at 5 and 8. *)
Definition logicAt5Up : Domain.ElevatorLogic :=
  snd (Domain.AddCall 8
         (snd (Domain.AddCall 5
                 (Domain.SetDirection DirUp
                    (Domain.NewElevatorLogic
                       (Domain.mkLogicConfig 1 10 5 0 None)))))).

(** The configuration of the end-to-end scenarios: floors 1..10, start at
    floor 1, hop 1 s (1.5 s at the edges), door travel 0.5 s, hold 3 s,
    1000 kg; durations in nanoseconds. *)
Definition scenarioConfig : Config :=
  mkConfig 1000000000 1500000000 500000000 3000000000 3000000000
    1 1 10 1000 None.

(** [New] on a configuration that it accepts; the second argument stands
    in for the result on a configuration that it rejects. *)
Definition monolithOf (config : Config) (otherwise : Monolith.Elevator)
  : Monolith.Elevator :=
  match Monolith.New config with inr e => e | inl _ => otherwise end.

Definition serviceOf (config : Config) (otherwise : Service.Elevator)
  : Service.Elevator :=
  match Service.New config with inr e => e | inl _ => otherwise end.

Definition monolithBlank : Monolith.Elevator :=
  Monolith.mkElevator scenarioConfig 0 0 DirNone closedDoors 0 0 ∅ None [] 0
    false.

Definition serviceBlank : Service.Elevator :=
  Service.mkElevator scenarioConfig
    (Domain.NewElevatorLogic (Domain.mkLogicConfig 0 0 0 0 None))
    0 0 None [] 0 false.

Definition monolith0 : Monolith.Elevator :=
  monolithOf scenarioConfig monolithBlank.

Definition service0 : Service.Elevator :=
  serviceOf scenarioConfig serviceBlank.

(** The single-file engine at floor 5, heading up, calls at 5 and 8. *)
Definition monolithAt5Up : Monolith.Elevator :=
  snd (Monolith.AddCall 8 true
         (snd (Monolith.AddCall 5 true
                 (Monolith.withDirection DirUp
                    (Monolith.withFloor 5 monolith0))))).

(** No two pending calls are at the same distance from [floor]. *)
Definition noTie (floor : Z) (calls : gset Z) : Prop :=
  ∀ f g, f ∈ calls → g ∈ calls →
         Z.abs (f - floor) = Z.abs (g - floor) → f = g.

(** Two results of the scheduler agree up to the choice between
    equidistant calls: same verdict, same distance from [floor]. *)
Definition sameUpToTie (floor : Z) (r1 r2 : Z * bool) : Prop :=
  snd r1 = snd r2 ∧ Z.abs (fst r1 - floor) = Z.abs (fst r2 - floor).

(** The single-file engine idle at floor 5 with calls at 3 and 7. *)
Definition monolithAt5Idle : Monolith.Elevator :=
  snd (Monolith.AddCall 7 true
         (snd (Monolith.AddCall 3 true (Monolith.withFloor 5 monolith0)))).

(** The logic of scenario 6: idle at floor 5 of 1..10, calls at 3 and 7. *)
Definition logicAt5Idle : Domain.ElevatorLogic :=
  snd (Domain.AddCall 7
         (snd (Domain.AddCall 3
                 (Domain.NewElevatorLogic
                    (Domain.mkLogicConfig 1 10 5 0 None))))).

(** Running a list of operations, and the condition that every [range] in
    it visits the calls in some order of the call set of its moment. *)
Fixpoint monolithRun (ops : list Monolith.Op) (g : Monolith.Engine)
  : Monolith.Engine :=
  match ops with
  | [] => g
  | op :: rest => monolithRun rest (Monolith.exec op g)
  end.

Fixpoint monolithOrdersOk (ops : list Monolith.Op) (g : Monolith.Engine)
  : Prop :=
  match ops with
  | [] => True
  | op :: rest =>
      Monolith.orderOk op g ∧ monolithOrdersOk rest (Monolith.exec op g)
  end.

Fixpoint serviceRun (ops : list Service.Op) (g : Service.Engine)
  : Service.Engine :=
  match ops with
  | [] => g
  | op :: rest => serviceRun rest (Service.exec op g)
  end.

Fixpoint serviceOrdersOk (ops : list Service.Op) (g : Service.Engine)
  : Prop :=
  match ops with
  | [] => True
  | op :: rest =>
      Service.orderOk op g ∧ serviceOrdersOk rest (Service.exec op g)
  end.


(** One hop up to a call at floor 2, in either engine. *)
Definition monolithHopTo2 : list Monolith.Op :=
  [Monolith.CmdAddCall 2 true; Monolith.Tick [2]; Monolith.TravelFire [2]].

Definition serviceHopTo2 : list Service.Op :=
  [Service.CmdAddCall 2 true; Service.Tick [2]; Service.TravelFire [2]].

Definition monolithAt2 : Monolith.Engine :=
  monolithRun monolithHopTo2 (Monolith.start monolith0).

Definition serviceAt2 : Service.Engine :=
  serviceRun serviceHopTo2 (Service.start service0).

(** The overload condition of the door handler. *)
Definition overloaded (maxWeight weight : Z) : Prop :=
  0 < maxWeight ∧ maxWeight < weight.

(** The scenario configuration with a reopen hold of 5 s (arrival hold 3 s). *)
Definition holdConfig : Config :=
  mkConfig 1000000000 1500000000 500000000 3000000000 5000000000
    1 1 10 1000 None.

(** A call at the current floor opens the front door; the OPEN button is
    pressed while the door is opening and stays held; the door reaches
    Open; 1500 kg come aboard. *)
Definition monolithHeldOverload : Monolith.Engine :=
  monolithRun
    [Monolith.CmdAddCall 1 true; Monolith.Tick [1]; Monolith.CmdPressOpen;
     Monolith.DoorFire; Monolith.CmdAddWeight 1500]
    (Monolith.start (monolithOf holdConfig monolithBlank)).

(** The same without the button: the door is open and the car overloaded. *)
Definition monolithOverload : Monolith.Engine :=
  monolithRun
    [Monolith.CmdAddCall 1 true; Monolith.Tick [1];
     Monolith.DoorFire; Monolith.CmdAddWeight 1500]
    (Monolith.start (monolithOf holdConfig monolithBlank)).

Definition serviceOverload : Service.Engine :=
  serviceRun
    [Service.CmdAddCall 1 true; Service.Tick [1];
     Service.DoorFire; Service.CmdAddWeight 1500]
    (Service.start (serviceOf holdConfig serviceBlank)).

(** The logic-split engine at rest at floor 1 with a call at floor 5. *)
Definition serviceCall5 : Service.Engine :=
  serviceRun [Service.CmdAddCall 5 true] (Service.start service0).

Definition monolithCall5 : Monolith.Engine :=
  monolithRun [Monolith.CmdAddCall 5 true] (Monolith.start monolith0).

(** A floor that may be called under the configuration handed to [New]:
    within the range, and accessible by its entry in [FloorConfigs] or, when
    it has none, by the default entry. *)
Definition callable (config : Config) (f : Z) : Prop :=
  MinFloor config <= f <= MaxFloor config
  ∧ IsAccessible
      (default (defaultFloorConfig f) (lookupFloor (FloorConfigs config) f))
    = true.

(** A floor that passes the two tests of [AddCall] under the configuration
    an engine carries. *)
Definition validIn (lo hi : Z) (fcs : option (gmap Z FloorConfig)) (f : Z)
  : Prop :=
  lo <= f <= hi ∧ IsAccessible (floorConfigAt fcs f) = true.

(** An operation on the single-file elevator that keeps the configuration
    and adds no call. *)
Definition monolithShrinks (f : Monolith.Elevator → Monolith.Elevator)
  : Prop :=
  ∀ e, Monolith.Cfg (f e) = Monolith.Cfg e
       ∧ Monolith.callFloors (f e) ⊆ Monolith.callFloors e.

(** An operation on the single-file elevator that gives the car no new
    heading and, while the car has a heading, leaves closed doors closed. *)
Definition monolithQuiet (f : Monolith.Elevator → Monolith.Elevator) : Prop :=
  ∀ e, (Monolith.direction (f e) = Monolith.direction e
        ∨ Monolith.direction (f e) = DirNone)
       ∧ (Monolith.doors e = closedDoors →
          Monolith.direction e ≠ DirNone →
          Monolith.doors (f e) = closedDoors).

(** The motion invariant of the single-file engine: the travel timer is
    armed only during a motion, and during a motion with a heading both
    doors are closed. *)
Definition monolithSafe (g : Monolith.Engine) : Prop :=
  (Monolith.travelTimer g ≠ None → Monolith.isMoving g = true)
  ∧ (Monolith.isMoving g = true →
     Monolith.direction (Monolith.elev g) ≠ DirNone →
     Monolith.doors (Monolith.elev g) = closedDoors).

Definition serviceShrinks (f : Service.Elevator → Service.Elevator) : Prop :=
  ∀ s, Domain.LConfig (Service.Logic (f s))
       = Domain.LConfig (Service.Logic s)
       ∧ Domain.Calls (Service.Logic (f s))
         ⊆ Domain.Calls (Service.Logic s).

Definition serviceQuiet (f : Service.Elevator → Service.Elevator) : Prop :=
  ∀ s, (Domain.LDirection (Service.Logic (f s))
        = Domain.LDirection (Service.Logic s)
        ∨ Domain.LDirection (Service.Logic (f s)) = DirNone)
       ∧ (Domain.LDoors (Service.Logic s) = closedDoors →
          Domain.LDirection (Service.Logic s) ≠ DirNone →
          Domain.LDoors (Service.Logic (f s)) = closedDoors).

Definition serviceSafe (h : Service.Engine) : Prop :=
  (Service.travelTimer h ≠ None → Service.isMoving h = true)
  ∧ (Service.isMoving h = true →
     Domain.LDirection (Service.Logic (Service.elev h)) ≠ DirNone →
     Domain.LDoors (Service.Logic (Service.elev h)) = closedDoors).

(** A logic configuration whose floor configurations are the result of the
    fill of [NewElevatorLogic]. *)
Definition filled (cfg : Domain.LogicConfig) : Prop :=
  ∃ m, Domain.FloorConfigs cfg
       = Some (fillDefaults (Domain.MinFloor cfg) (Domain.MaxFloor cfg) m).

(** A floor that [AddCall] must refuse under the configuration handed to
    [New]: outside the range, or marked inaccessible. *)
Definition refused (config : Config) (f : Z) : Prop :=
  f < MinFloor config ∨ MaxFloor config < f
  ∨ IsAccessible
      (default (defaultFloorConfig f) (lookupFloor (FloorConfigs config) f))
    = false.

(** Floors 1..5 with floor 2 marked inaccessible, as in the domain tests. *)
Definition testConfig : Config :=
  mkConfig 1000000000 1500000000 500000000 3000000000 3000000000
    1 1 5 1000 (Some {[ 2 := mkFloorConfig 2 false 0 ]}).

Definition monolithTest : Monolith.Engine :=
  monolithRun [Monolith.CmdAddCall 3 true]
    (Monolith.start (monolithOf testConfig monolithBlank)).

Definition serviceTest : Service.Engine :=
  serviceRun [Service.CmdAddCall 3 true]
    (Service.start (serviceOf testConfig serviceBlank)).

(** The engines on their way from floor 1 to a call at floor 5. *)
Definition monolithMoving : Monolith.Engine :=
  monolithRun [Monolith.CmdAddCall 5 true; Monolith.Tick [5]]
    (Monolith.start monolith0).

Definition serviceMoving : Service.Engine :=
  serviceRun [Service.CmdAddCall 5 true; Service.Tick [5]]
    (Service.start service0).

(** The door is held open by the overload guard: the door under way is
    Open and the car is overloaded. *)
Definition monolithHeld (e : Monolith.Elevator) : Prop :=
  Monolith.activeDoor (Monolith.doors e) = DoorOpen
  ∧ overloaded (MaxWeight (Monolith.Cfg e)) (Monolith.weight e).

Definition serviceHeld (s : Service.Elevator) : Prop :=
  Service.activeDoor (Domain.LDoors (Service.Logic s)) = DoorOpen
  ∧ rear (Domain.LDoors (Service.Logic s)) ≠ DoorClosing
  ∧ overloaded (MaxWeight (Service.Cfg s)) (Domain.Weight (Service.Logic s)).

(** What may happen while the overload lasts: everything but a change of
    weight, a reset, the manual door override and the end of a hop. *)
Definition monolithWhileHeld (op : Monolith.Op) : Prop :=
  match op with
  | Monolith.TravelFire _ | Monolith.CmdReset | Monolith.CmdAddWeight _
  | Monolith.CmdSetDoor _ _ => False
  | _ => True
  end.

Definition serviceWhileHeld (op : Service.Op) : Prop :=
  match op with
  | Service.TravelFire _ | Service.CmdReset | Service.CmdAddWeight _
  | Service.CmdSetDoor _ _ => False
  | _ => True
  end.


(** * More of the code *)

(** ** Readers

    [CallFloors] of both engines and of the logic: the keys of the call
    map, appended in the order the map hands them out, then sorted by
    [sort.Ints].  The ascending arrangement of a list of integers is
    unique, so any sorting function stands for [sort.Ints]. *)
Definition CallFloors (order : list Z) : list Z := merge_sort Z.le order.

(** The [String] methods index a fixed array with the value itself; an
    index outside the array panics ([None]). *)
Module Names.
Import Stdlib.Strings.String.StringSyntax.
Local Open Scope string_scope.

Definition DoorSideNames : list String.string :=
  ["Front"; "Rear"; "Both"].

Definition OperationModeNames : list String.string :=
  ["Auto"; "Manual"; "Moving"; "Emergency"].

(** [array[d]] *)
Definition index (names : list String.string) (d : Z)
  : option String.string :=
  if (d <? 0)%Z then None else names !! Z.to_nat d.

Definition DoorSideString (d : Z) : option String.string :=
  index DoorSideNames d.

Definition OperationModeString (m : Z) : option String.string :=
  index OperationModeNames m.

End Names.

(** ** The weight command of the web session

    [handleAction], case ["setWeight"]: the session reads the weight and
    adds the difference. *)
Definition setWeight (w : Z) (s : Service.Elevator) : Service.Elevator :=
  let current := Domain.Weight (Service.Logic s) in
  let delta := wrap64 (w - current) in
  Service.AddWeight delta s.

(** The values of a Go [int]. *)
Definition inInt64 (z : Z) : Prop := - 2 ^ 63 <= z < 2 ^ 63.

(** The floor configuration an engine built by [New] has for floor [f]: the
    one supplied, else the default one for a floor of the range, else
    none. *)
Definition filledLookup (config : Config) (f : Z) : option FloorConfig :=
  match lookupFloor (FloorConfigs config) f with
  | Some c => Some c
  | None =>
      if bool_decide (MinFloor config <= f <= MaxFloor config)
      then Some (defaultFloorConfig f) else None
  end.

(** ** The scheduler as a whole *)

(** The calls Phase 1 of a scheduler looks at: those beyond the current
    floor in the heading, the current floor included in the logic-split
    engine only. *)
Definition monolithAhead (e : Monolith.Elevator) (f : Z) : Prop :=
  match Monolith.direction e with
  | DirUp => Monolith.floor e < f
  | DirDown => f < Monolith.floor e
  | _ => False
  end.

Definition domainAhead (l : Domain.ElevatorLogic) (f : Z) : Prop :=
  match Domain.LDirection l with
  | DirUp => Domain.Floor l <= f
  | DirDown => f <= Domain.Floor l
  | _ => False
  end.

(** What a scheduler returns for the set [calls] of pending calls, of which
    those satisfying [ahead] lie ahead: nothing when no call is pending,
    else a pending call, the nearest of all of them when none lies
    ahead. *)
Definition schedules (ahead : Z → Prop) (floor : Z) (calls : gset Z)
    (sel : Z * bool) : Prop :=
  (calls = ∅ → sel = (0, false))
  ∧ (calls ≠ ∅ →
     snd sel = true ∧ fst sel ∈ calls
     ∧ ((∀ f, f ∈ calls → ¬ ahead f) →
        nearestOf (λ _, True) floor calls (fst sel))).

(** ** The car stays within the floor range *)

(** An operation on the single-file elevator that leaves the car where it
    is and gives it no new heading. *)
Definition monolithStays (f : Monolith.Elevator → Monolith.Elevator) : Prop :=
  ∀ e, Monolith.floor (f e) = Monolith.floor e
       ∧ (Monolith.direction (f e) = Monolith.direction e
          ∨ Monolith.direction (f e) = DirNone).

(** The invariant behind it: the floor range consists of Go [int]s, the
    car and every pending call are within it, and while a hop is under way
    the car is not yet at the end of the range it is heading to. *)
Definition monolithInRange (g : Monolith.Engine) : Prop :=
  let e := Monolith.elev g in
  let lo := MinFloor (Monolith.Cfg e) in
  let hi := MaxFloor (Monolith.Cfg e) in
  inInt64 lo ∧ inInt64 hi
  ∧ lo <= Monolith.floor e <= hi
  ∧ (∀ f, f ∈ Monolith.callFloors e → lo <= f <= hi)
  ∧ (Monolith.travelTimer g ≠ None → Monolith.direction e = DirUp →
     Monolith.floor e < hi)
  ∧ (Monolith.travelTimer g ≠ None → Monolith.direction e = DirDown →
     lo < Monolith.floor e).

Definition serviceStays (f : Service.Elevator → Service.Elevator) : Prop :=
  ∀ s, Domain.Floor (Service.Logic (f s)) = Domain.Floor (Service.Logic s)
       ∧ (Domain.LDirection (Service.Logic (f s))
          = Domain.LDirection (Service.Logic s)
          ∨ Domain.LDirection (Service.Logic (f s)) = DirNone).

(** The same invariant for the logic-split engine, whose [Reset] builds a
    new logic: the range [lo..hi] and an initial floor within it stay in
    the configuration of the logic. *)
Definition serviceInRange (lo hi : Z) (h : Service.Engine) : Prop :=
  let l := Service.Logic (Service.elev h) in
  Domain.MinFloor (Domain.LConfig l) = lo
  ∧ Domain.MaxFloor (Domain.LConfig l) = hi
  ∧ lo <= Domain.InitialFloor (Domain.LConfig l) <= hi
  ∧ inInt64 lo ∧ inInt64 hi
  ∧ lo <= Domain.Floor l <= hi
  ∧ (∀ f, f ∈ Domain.Calls l → lo <= f <= hi)
  ∧ (Service.travelTimer h ≠ None → Domain.LDirection l = DirUp →
     Domain.Floor l < hi)
  ∧ (Service.travelTimer h ≠ None → Domain.LDirection l = DirDown →
     lo < Domain.Floor l).

(** ** The emergency mode *)

Definition monolithKeepsMode (f : Monolith.Elevator → Monolith.Elevator)
  : Prop :=
  ∀ e, Monolith.Mode (f e) = Monolith.Mode e.

Definition serviceKeepsMode (f : Service.Elevator → Service.Elevator)
  : Prop :=
  ∀ s, Service.Mode (f s) = Service.Mode s.

(** The car is stopped at floor [f0] in emergency mode. *)
Definition monolithFrozen (f0 : Z) (g : Monolith.Engine) : Prop :=
  Monolith.Mode (Monolith.elev g) = ModeEmergency
  ∧ Monolith.direction (Monolith.elev g) = DirNone
  ∧ Monolith.floor (Monolith.elev g) = f0.

Definition serviceFrozen (f0 : Z) (h : Service.Engine) : Prop :=
  Service.Mode (Service.elev h) = ModeEmergency
  ∧ Domain.LDirection (Service.Logic (Service.elev h)) = DirNone
  ∧ Domain.Floor (Service.Logic (Service.elev h)) = f0.

(** What may happen while the emergency lasts.  Single-file engine:
    everything but the choice of another mode.  Logic-split engine: its
    [Reset] moves the car to the initial floor, and the end of a hop asks
    the logic for the next action without looking at the mode, so these two
    are left out as well. *)
Definition monolithInEmergency (op : Monolith.Op) : Prop :=
  match op with
  | Monolith.CmdSetMode m => m = ModeEmergency
  | _ => True
  end.

Definition serviceInEmergency (op : Service.Op) : Prop :=
  match op with
  | Service.CmdSetMode m => m = ModeEmergency
  | Service.CmdReset | Service.TravelFire _ => False
  | _ => True
  end.

(** The emergency mode selected on the way from floor 1 to floor 5; then
    the hop ends (single-file engine) or a tick and a call arrive
    (logic-split engine). *)
Definition monolithEmergency : Monolith.Engine :=
  monolithRun [Monolith.TravelFire [5]; Monolith.Tick [5]]
    (Monolith.exec (Monolith.CmdSetMode ModeEmergency) monolithMoving).

Definition serviceEmergency : Service.Engine :=
  serviceRun [Service.Tick [5]; Service.CmdAddCall 7 true]
    (Service.exec (Service.CmdSetMode ModeEmergency) serviceMoving).

(** ** The locals of [Run] *)

(** [isMoving] is set exactly while the travel timer is armed. *)
Definition movingIffArmed (isMoving : bool) (travelTimer : Timer) : Prop :=
  isMoving = true ↔ travelTimer ≠ None.

(** ** Arrivals *)

(** The sides that open at floor [f]: those of its configuration, the
    front door when it has none. *)
Definition openSideAt (fcs : option (gmap Z FloorConfig)) (f : Z) : Z :=
  match lookupFloor fcs f with
  | Some cfg => OpenDoorSide cfg
  | None => sideBit Front
  end.

(** The doors [d] after those of the mask were set to Opening. *)
Definition opened (mask : Z) (d : Doors) : Doors :=
  mkDoors (if hasSide mask Front then DoorOpening else front d)
          (if hasSide mask Rear then DoorOpening else rear d).

(** The floor a hop ends at. *)
Definition nextFloor (dir : Direction) (floor : Z) : Z :=
  match dir with
  | DirUp => wrap64 (floor + 1)
  | DirDown => wrap64 (floor - 1)
  | _ => floor
  end.

(** The single-file elevator [e'] is [e] after the call at floor [f] was
    served: the call is gone, the doors of the floor are opening, the door
    timer runs for the door travel time and the hold time is the
    configured one; floor, heading, mode and weight are as they were. *)
Definition monolithServed (f : Z) (e e' : Monolith.Elevator) : Prop :=
  Monolith.callFloors e' = Monolith.callFloors e ∖ {[f]}
  ∧ Monolith.doors e'
    = opened (openSideAt (FloorConfigs (Monolith.Cfg e)) f) (Monolith.doors e)
  ∧ Monolith.doorTimer e' = Some (DoorSpeed (Monolith.Cfg e))
  ∧ Monolith.openWaitTime e' = DoorOpenTime (Monolith.Cfg e)
  ∧ Monolith.floor e' = Monolith.floor e
  ∧ Monolith.direction e' = Monolith.direction e
  ∧ Monolith.Mode e' = Monolith.Mode e
  ∧ Monolith.weight e' = Monolith.weight e.

Definition serviceServed (f : Z) (s s' : Service.Elevator) : Prop :=
  Domain.Calls (Service.Logic s') = Domain.Calls (Service.Logic s) ∖ {[f]}
  ∧ Domain.LDoors (Service.Logic s')
    = opened (openSideAt (FloorConfigs (Service.Cfg s)) f)
        (Domain.LDoors (Service.Logic s))
  ∧ Service.doorTimer s' = Some (DoorSpeed (Service.Cfg s))
  ∧ Service.openWaitTime s' = DoorOpenTime (Service.Cfg s)
  ∧ Domain.Floor (Service.Logic s') = Domain.Floor (Service.Logic s)
  ∧ Domain.LDirection (Service.Logic s')
    = Domain.LDirection (Service.Logic s)
  ∧ Service.Mode s' = Service.Mode s
  ∧ Domain.Weight (Service.Logic s') = Domain.Weight (Service.Logic s).

(** The engines at floor 1 on their way to a call at floor 2, and at rest
    at floor 1 with a call at floor 1. *)
Definition monolithTo2 : Monolith.Engine :=
  monolithRun [Monolith.CmdAddCall 2 true; Monolith.Tick [2]]
    (Monolith.start monolith0).

Definition serviceTo2 : Service.Engine :=
  serviceRun [Service.CmdAddCall 2 true; Service.Tick [2]]
    (Service.start service0).

Definition monolithCallHere : Monolith.Engine :=
  monolithRun [Monolith.CmdAddCall 1 true] (Monolith.start monolith0).

Definition serviceCallHere : Service.Engine :=
  serviceRun [Service.CmdAddCall 1 true] (Service.start service0).

(** The logic-split engine put in emergency mode on its way from floor 1
    to floor 5. *)
Definition serviceStoppedUnderWay : Service.Engine :=
  Service.exec (Service.CmdSetMode ModeEmergency) serviceMoving.

(** ** The door cycle *)

(** The doors [d] after every door in state [from] went to state [to]. *)
Definition advance (from to : DoorState) (d : Doors) : Doors :=
  mkDoors (if decide (front d = from) then to else front d)
          (if decide (rear d = from) then to else rear d).

(** The doors of the mask in state [st], the others closed. *)
Definition doorsAt (mask : Z) (st : DoorState) : Doors :=
  mkDoors (if hasSide mask Front then st else DoorClose)
          (if hasSide mask Rear then st else DoorClose).

(** What the door handler of the single-file engine does with doors [d]
    under way: [e'] has the doors [d'] and the door timer [t'], and is
    otherwise in the state of [e]. *)
Definition monolithDoorStep (e e' : Monolith.Elevator)
    (d' : Doors) (t' : Timer) : Prop :=
  Monolith.doors e' = d' ∧ Monolith.doorTimer e' = t'
  ∧ Monolith.Cfg e' = Monolith.Cfg e
  ∧ Monolith.callFloors e' = Monolith.callFloors e
  ∧ Monolith.openWaitTime e' = Monolith.openWaitTime e
  ∧ Monolith.floor e' = Monolith.floor e
  ∧ Monolith.direction e' = Monolith.direction e
  ∧ Monolith.Mode e' = Monolith.Mode e
  ∧ Monolith.weight e' = Monolith.weight e
  ∧ Monolith.isOpenButtonPressed e' = Monolith.isOpenButtonPressed e.

Definition serviceDoorStep (s s' : Service.Elevator)
    (d' : Doors) (t' : Timer) : Prop :=
  Service.Logic s'
  = Domain.mkElevatorLogic (Domain.LConfig (Service.Logic s))
      (Domain.Floor (Service.Logic s)) (Domain.LDirection (Service.Logic s))
      d' (Domain.Weight (Service.Logic s)) (Domain.Calls (Service.Logic s))
  ∧ Service.doorTimer s' = t'
  ∧ Service.Cfg s' = Service.Cfg s
  ∧ Service.openWaitTime s' = Service.openWaitTime s
  ∧ Service.Mode s' = Service.Mode s
  ∧ Service.isOpenButtonPressed s' = Service.isOpenButtonPressed s.

(** ** The door buttons *)

(** The OPEN button holds the doors: the door under way is Open and the
    button is down. *)
Definition monolithButtonHeld (e : Monolith.Elevator) : Prop :=
  Monolith.activeDoor (Monolith.doors e) = DoorOpen
  ∧ Monolith.isOpenButtonPressed e = true.

Definition serviceButtonHeld (s : Service.Elevator) : Prop :=
  Service.activeDoor (Domain.LDoors (Service.Logic s)) = DoorOpen
  ∧ rear (Domain.LDoors (Service.Logic s)) ≠ DoorClosing
  ∧ Service.isOpenButtonPressed s = true.

(** What may happen while the button is down: everything but its release,
    a reset, the manual door override and the end of a hop. *)
Definition monolithWhileButton (op : Monolith.Op) : Prop :=
  match op with
  | Monolith.TravelFire _ | Monolith.CmdReset | Monolith.CmdReleaseOpen
  | Monolith.CmdSetDoor _ _ => False
  | _ => True
  end.

Definition serviceWhileButton (op : Service.Op) : Prop :=
  match op with
  | Service.TravelFire _ | Service.CmdReset | Service.CmdReleaseOpen
  | Service.CmdSetDoor _ _ => False
  | _ => True
  end.

(** The engines at floor 2 with the front door open and the OPEN button
    down. *)
Definition monolithButton : Monolith.Engine :=
  monolithRun [Monolith.DoorFire; Monolith.CmdPressOpen] monolithAt2.

Definition serviceButton : Service.Engine :=
  serviceRun [Service.DoorFire; Service.CmdPressOpen] serviceAt2.

(** The elevator after the OPEN button went down and the hold time was
    set to the reopen time (the latter only in the single-file engine). *)
Definition monolithPressed (e : Monolith.Elevator) : Monolith.Elevator :=
  Monolith.withOpenWaitTime (DoorReopenTime (Monolith.Cfg e))
    (Monolith.withOpenButton true e).

(** The engines at floor 2 with the front door closing. *)
Definition monolithClosing : Monolith.Engine :=
  monolithRun [Monolith.DoorFire; Monolith.DoorFire] monolithAt2.

Definition serviceClosing : Service.Engine :=
  serviceRun [Service.DoorFire; Service.DoorFire] serviceAt2.

(** ** An undisturbed trip *)

(** The heading from [floor] to another floor [t]. *)
Definition towards (floor t : Z) : Direction :=
  if floor <? t then DirUp else DirDown.

(** The floor [k] floors before [t] on the way there with heading [dir]. *)
Definition floorsBefore (dir : Direction) (t : Z) (k : nat) : Z :=
  match dir with
  | DirUp => t - Z.of_nat k
  | DirDown => t + Z.of_nat k
  | _ => t
  end.

(** The engine is under way to the only pending call, at floor [t], with
    [k] floors to go, the doors closed. *)
Definition monolithOnTrip (cfg : Config) (dir : Direction) (t : Z) (k : nat)
    (g : Monolith.Engine) : Prop :=
  let e := Monolith.elev g in
  (dir = DirUp ∨ dir = DirDown) ∧ fits32 t ∧ fits32 (Monolith.floor e)
  ∧ Monolith.travelTimer g ≠ None
  ∧ Monolith.direction e = dir
  ∧ Monolith.floor e = floorsBefore dir t k
  ∧ Monolith.callFloors e = {[t]}
  ∧ Monolith.doors e = closedDoors
  ∧ Monolith.Cfg e = cfg.

Definition serviceOnTrip (cfg : Config) (dir : Direction) (t : Z) (k : nat)
    (h : Service.Engine) : Prop :=
  let l := Service.Logic (Service.elev h) in
  (dir = DirUp ∨ dir = DirDown) ∧ fits32 t ∧ fits32 (Domain.Floor l)
  ∧ Service.travelTimer h ≠ None
  ∧ Domain.LDirection l = dir
  ∧ Domain.Floor l = floorsBefore dir t k
  ∧ Domain.Calls l = {[t]}
  ∧ Domain.LDoors l = closedDoors
  ∧ Service.Cfg (Service.elev h) = cfg.

(** The trip is over: the car stands at floor [t] with no call pending,
    the doors of the floor opening and the door timer running. *)
Definition monolithArrived (cfg : Config) (dir : Direction) (t : Z)
    (g : Monolith.Engine) : Prop :=
  let e := Monolith.elev g in
  Monolith.isMoving g = false ∧ Monolith.travelTimer g = None
  ∧ Monolith.floor e = t ∧ Monolith.direction e = dir
  ∧ Monolith.callFloors e = ∅
  ∧ Monolith.doors e = opened (openSideAt (FloorConfigs cfg) t) closedDoors
  ∧ Monolith.doorTimer e = Some (DoorSpeed cfg)
  ∧ Monolith.Cfg e = cfg.

Definition serviceArrived (cfg : Config) (dir : Direction) (t : Z)
    (h : Service.Engine) : Prop :=
  let l := Service.Logic (Service.elev h) in
  Service.isMoving h = false ∧ Service.travelTimer h = None
  ∧ Domain.Floor l = t ∧ Domain.LDirection l = dir
  ∧ Domain.Calls l = ∅
  ∧ Domain.LDoors l = opened (openSideAt (FloorConfigs cfg) t) closedDoors
  ∧ Service.doorTimer (Service.elev h) = Some (DoorSpeed cfg)
  ∧ Service.Cfg (Service.elev h) = cfg.

(** ** The heading is a named one *)

(** [Direction] is a string type; the engines only ever store one of its
    three constants. *)
Definition named (d : Direction) : Prop :=
  d = DirUp ∨ d = DirDown ∨ d = DirNone.

(** * Properties *)

Set Warnings "-clear-no-such-hyp".

Arguments eventCapacity : simpl never.
Arguments wrap64 : simpl never.
Arguments Monolith.selectNextTarget : simpl never.
Arguments Monolith.getNextMoveDuration : simpl never.
Arguments Domain.selectNextTarget : simpl never.
Arguments Domain.DecideNextStep : simpl never.

(** ** Machine integers in the range of floors *)

Lemma wrap64_small (z : Z) : - 2 ^ 63 <= z < 2 ^ 63 → wrap64 z = z.
Proof.
intros Hz. unfold wrap64.
rewrite Z.mod_small; lia.
Qed.

Lemma absViaFloat64_small (x : Z) :
Z.abs x < 2 ^ 53 → absViaFloat64 x = Z.abs x.
Proof.
intros Hx. unfold absViaFloat64, roundFloat64.
destruct (Z.ltb_spec (Z.abs x) (2 ^ 53)) as [_|Hge]; [|lia].
apply wrap64_small. lia.
Qed.

Lemma dist_fits32 (a b : Z) :
fits32 a → fits32 b → absViaFloat64 (wrap64 (a - b)) = Z.abs (a - b).
Proof.
unfold fits32. intros Ha Hb.
rewrite wrap64_small by lia.
apply absViaFloat64_small. lia.
Qed.

Lemma sub_fits32 (a b : Z) : fits32 a → fits32 b → wrap64 (a - b) = a - b.
Proof. unfold fits32. intros Ha Hb. apply wrap64_small. lia. Qed.

(** ** What a scan loop computes *)

Section ScanLoop.
Variables (keep : Z → bool) (dist : Z → Z).

Lemma scan_snoc (l : list Z) (x : Z) :
  scan keep dist (l ++ [x]) = scanStep keep dist (scan keep dist l) x.
Proof. unfold scan. by rewrite foldl_app. Qed.

Lemma scan_inv (order : list Z) :
  (∀ f, f ∈ order → keep f = true → dist f < MaxInt64) →
  scanInv keep dist order (scan keep dist order).
Proof.
  induction order as [|x l IH] using rev_ind; intros Hlt.
  - left. split; [done|]. intros f Hf. by apply elem_of_nil in Hf.
  - rewrite scan_snoc.
    assert (Hl : ∀ f, f ∈ l → keep f = true → dist f < MaxInt64).
    { intros f Hf. apply Hlt, elem_of_app. by left. }
    assert (Hx : keep x = true → dist x < MaxInt64).
    { apply Hlt, elem_of_app. right. by apply list_elem_of_singleton. }
    destruct (IH Hl) as [[-> Hnone]|(t & -> & Ht & Hkt & Hmin)];
      unfold scanStep; destruct (keep x) eqn:Hk.
    + destruct (Z.ltb_spec (dist x) MaxInt64) as [_|Hge];
        [|specialize (Hx eq_refl); lia].
      right. exists x. repeat split; try done.
      * apply elem_of_app. right. by apply list_elem_of_singleton.
      * intros f [Hf| ->%list_elem_of_singleton]%elem_of_app Hkf; [|lia].
        rewrite (Hnone f Hf) in Hkf. discriminate.
    + left. split; [done|].
      intros f [Hf| ->%list_elem_of_singleton]%elem_of_app; auto.
    + destruct (Z.ltb_spec (dist x) (dist t)) as [Hlt'|Hge].
      * right. exists x. repeat split; try done.
        -- apply elem_of_app. right. by apply list_elem_of_singleton.
        -- intros f [Hf| ->%list_elem_of_singleton]%elem_of_app Hkf; [|lia].
           specialize (Hmin f Hf Hkf). lia.
      * right. exists t. repeat split; try done.
        -- apply elem_of_app. by left.
        -- intros f [Hf| ->%list_elem_of_singleton]%elem_of_app Hkf;
             [by apply Hmin|lia].
    + right. exists t. repeat split; try done.
      * apply elem_of_app. by left.
      * intros f [Hf| ->%list_elem_of_singleton]%elem_of_app Hkf;
          [by apply Hmin|congruence].
Qed.

(** The loop finds a floor exactly when the set has one to keep. *)
Lemma scan_found_iff (order : list Z) :
  (∀ f, f ∈ order → keep f = true → dist f < MaxInt64) →
  scanFound (scan keep dist order) = true ↔ ∃ f, f ∈ order ∧ keep f = true.
Proof.
  intros Hlt.
  destruct (scan_inv order Hlt) as [[-> Hnone]|(t & -> & Ht & Hkt & _)];
    cbn; split; try done.
  - intros (f & Hf & Hk). rewrite (Hnone f Hf) in Hk. discriminate.
  - intros _. by exists t.
Qed.

Lemma scan_found_min (order : list Z) :
  (∀ f, f ∈ order → keep f = true → dist f < MaxInt64) →
  scanFound (scan keep dist order) = true →
  let t := scanTarget (scan keep dist order) in
  t ∈ order ∧ keep t = true
  ∧ fst (fst (scan keep dist order)) = dist t
  ∧ ∀ f, f ∈ order → keep f = true → dist t <= dist f.
Proof.
  intros Hlt.
  destruct (scan_inv order Hlt) as [[-> Hnone]|(t & -> & Ht & Hkt & Hmin)];
    cbn; [discriminate|done].
Qed.

(** Two visiting orders of the same set agree on whether a floor is found
    and on its distance; they agree on the floor when no two kept floors
    are at the same distance. *)
Lemma scan_perm_found (o1 o2 : list Z) :
  o1 ≡ₚ o2 →
  (∀ f, f ∈ o1 → keep f = true → dist f < MaxInt64) →
  scanFound (scan keep dist o1) = scanFound (scan keep dist o2)
  ∧ fst (fst (scan keep dist o1)) = fst (fst (scan keep dist o2)).
Proof.
  intros Hp Hlt1.
  assert (Hlt2 : ∀ f, f ∈ o2 → keep f = true → dist f < MaxInt64).
  { intros f Hf. apply Hlt1. by rewrite Hp. }
  destruct (scan_inv o1 Hlt1) as [[-> Hn1]|(t1 & -> & Ht1 & Hk1 & Hm1)];
    destruct (scan_inv o2 Hlt2) as [[-> Hn2]|(t2 & -> & Ht2 & Hk2 & Hm2)];
    cbn; try done.
  - rewrite <- Hp in Ht2. rewrite (Hn1 t2 Ht2) in Hk2. discriminate.
  - rewrite Hp in Ht1. rewrite (Hn2 t1 Ht1) in Hk1. discriminate.
  - split; [done|].
    assert (dist t1 <= dist t2) by (apply Hm1; [by rewrite Hp|done]).
    assert (dist t2 <= dist t1) by (apply Hm2; [by rewrite <- Hp|done]).
    lia.
Qed.

Lemma scan_perm_eq (o1 o2 : list Z) :
  o1 ≡ₚ o2 →
  (∀ f, f ∈ o1 → keep f = true → dist f < MaxInt64) →
  (∀ f g, f ∈ o1 → g ∈ o1 → keep f = true → keep g = true →
          dist f = dist g → f = g) →
  scan keep dist o1 = scan keep dist o2.
Proof.
  intros Hp Hlt1 Hinj.
  assert (Hlt2 : ∀ f, f ∈ o2 → keep f = true → dist f < MaxInt64).
  { intros f Hf. apply Hlt1. by rewrite Hp. }
  destruct (scan_inv o1 Hlt1) as [[-> Hn1]|(t1 & -> & Ht1 & Hk1 & Hm1)];
    destruct (scan_inv o2 Hlt2) as [[-> Hn2]|(t2 & -> & Ht2 & Hk2 & Hm2)];
    try done.
  - rewrite <- Hp in Ht2. rewrite (Hn1 t2 Ht2) in Hk2. discriminate.
  - rewrite Hp in Ht1. rewrite (Hn2 t1 Ht1) in Hk1. discriminate.
  - assert (dist t1 <= dist t2) by (apply Hm1; [by rewrite Hp|done]).
    assert (dist t2 <= dist t1) by (apply Hm2; [by rewrite <- Hp|done]).
    assert (t1 = t2) as ->; [|done].
    apply Hinj; try done; [by rewrite Hp|lia].
Qed.
End ScanLoop.

(** ** Phase 1 of the scheduler *)

Lemma elem_of_order (order : list Z) (calls : gset Z) (f : Z) :
  order ≡ₚ elements calls → f ∈ order ↔ f ∈ calls.
Proof. intros ->. apply elem_of_elements. Qed.

Lemma phase1_generic (keep : Z → bool) (dist : Z → Z) (P : Z → Prop)
    (floor : Z) (calls : gset Z) (order : list Z) (sel : Z * bool) :
  order ≡ₚ elements calls →
  (∀ f, f ∈ calls → keep f = true ↔ P f) →
  (∀ f, f ∈ calls → keep f = true →
        dist f = Z.abs (f - floor) ∧ dist f < MaxInt64) →
  (scanFound (scan keep dist order) = true →
   sel = (scanTarget (scan keep dist order), true)) →
  phase1Spec P floor calls (scan keep dist order) sel.
Proof.
  intros Hp HP Hd Hsel.
  assert (Hlt : ∀ f, f ∈ order → keep f = true → dist f < MaxInt64).
  { intros f Hf Hk. apply Hd; [by apply (elem_of_order order)|done]. }
  split.
  - rewrite (scan_found_iff keep dist order Hlt). split.
    + intros (f & Hf & Hk). apply (elem_of_order _ _ _ Hp) in Hf.
      exists f. split; [done|by apply HP].
    + intros (f & Hf & Hk). exists f.
      split; [by apply (elem_of_order _ _ _ Hp)|by apply HP].
  - intros Hfound. split; [|by apply Hsel].
    destruct (scan_found_min keep dist order Hlt Hfound)
      as (Ht & Hkt & _ & Hmin).
    apply (elem_of_order _ _ _ Hp) in Ht.
    split; [done|]. split; [by apply HP|].
    intros f Hf HPf.
    assert (Hkf : keep f = true) by by apply HP.
    specialize (Hmin f (proj2 (elem_of_order _ _ _ Hp) Hf) Hkf).
    destruct (Hd _ Ht Hkt) as [<- _]. destruct (Hd _ Hf Hkf) as [<- _]. done.
Qed.

Lemma select_of_ahead_mono (order : list Z) (e : Monolith.Elevator) :
  order ≡ₚ elements (Monolith.callFloors e) →
  scanFound (Monolith.ahead order e) = true →
  (∃ f, f ∈ order) →
  Monolith.selectNextTarget order e
  = (scanTarget (Monolith.ahead order e), true).
Proof.
  intros Hp Hfound (f & Hf). unfold Monolith.selectNextTarget.
  rewrite bool_decide_eq_false_2.
  - by rewrite Hfound.
  - intros Hempty. apply (elem_of_order _ _ _ Hp) in Hf.
    rewrite Hempty in Hf. by apply not_elem_of_empty in Hf.
Qed.

Lemma select_of_ahead_domain (order : list Z) (l : Domain.ElevatorLogic) :
  order ≡ₚ elements (Domain.Calls l) →
  scanFound (Domain.ahead order l) = true →
  (∃ f, f ∈ order) →
  Domain.selectNextTarget order l
  = (scanTarget (Domain.ahead order l), true).
Proof.
  intros Hp Hfound (f & Hf). unfold Domain.selectNextTarget.
  rewrite bool_decide_eq_false_2.
  - by rewrite Hfound.
  - intros Hempty. apply (elem_of_order _ _ _ Hp) in Hf.
    rewrite Hempty in Hf. by apply not_elem_of_empty in Hf.
Qed.

Lemma scan_found_nonempty (keep : Z → bool) (dist : Z → Z) (order : list Z) :
  scanFound (scan keep dist order) = true → ∃ f, f ∈ order.
Proof.
  destruct order as [|x l]; [discriminate|].
  intros _. exists x. by left.
Qed.

Lemma monolith_phase1_up (order : list Z) (e : Monolith.Elevator) :
  order ≡ₚ elements (Monolith.callFloors e) →
  floorsFit (Monolith.floor e) (Monolith.callFloors e) →
  Monolith.direction e = DirUp →
  phase1Spec (λ f, Monolith.floor e < f) (Monolith.floor e)
    (Monolith.callFloors e) (Monolith.ahead order e)
    (Monolith.selectNextTarget order e).
Proof.
  intros Hp [Hfl Hfc] Hdir.
  pose proof (select_of_ahead_mono order e Hp) as Hsel.
  unfold Monolith.ahead in *. rewrite Hdir in *.
  apply phase1_generic; try done.
  - intros f _. apply Z.ltb_lt.
  - intros f Hf Hk%Z.ltb_lt. specialize (Hfc f Hf).
    rewrite sub_fits32 by done. unfold fits32, MaxInt64 in *. lia.
  - intros Hfound. apply Hsel; [done|]. by eapply scan_found_nonempty.
Qed.

Lemma monolith_phase1_down (order : list Z) (e : Monolith.Elevator) :
  order ≡ₚ elements (Monolith.callFloors e) →
  floorsFit (Monolith.floor e) (Monolith.callFloors e) →
  Monolith.direction e = DirDown →
  phase1Spec (λ f, f < Monolith.floor e) (Monolith.floor e)
    (Monolith.callFloors e) (Monolith.ahead order e)
    (Monolith.selectNextTarget order e).
Proof.
  intros Hp [Hfl Hfc] Hdir.
  pose proof (select_of_ahead_mono order e Hp) as Hsel.
  unfold Monolith.ahead in *. rewrite Hdir in *.
  apply phase1_generic; try done.
  - intros f _. apply Z.ltb_lt.
  - intros f Hf Hk%Z.ltb_lt. specialize (Hfc f Hf).
    rewrite sub_fits32 by done. unfold fits32, MaxInt64 in *. lia.
  - intros Hfound. apply Hsel; [done|]. by eapply scan_found_nonempty.
Qed.

Lemma domain_phase1_up (order : list Z) (l : Domain.ElevatorLogic) :
  order ≡ₚ elements (Domain.Calls l) →
  floorsFit (Domain.Floor l) (Domain.Calls l) →
  Domain.LDirection l = DirUp →
  phase1Spec (λ f, Domain.Floor l <= f) (Domain.Floor l)
    (Domain.Calls l) (Domain.ahead order l)
    (Domain.selectNextTarget order l).
Proof.
  intros Hp [Hfl Hfc] Hdir.
  pose proof (select_of_ahead_domain order l Hp) as Hsel.
  unfold Domain.ahead in *. rewrite Hdir in *.
  apply phase1_generic; try done.
  - intros f _. apply Z.leb_le.
  - intros f Hf Hk%Z.leb_le. specialize (Hfc f Hf).
    rewrite sub_fits32 by done. unfold fits32, MaxInt64 in *. lia.
  - intros Hfound. apply Hsel; [done|]. by eapply scan_found_nonempty.
Qed.

Lemma domain_phase1_down (order : list Z) (l : Domain.ElevatorLogic) :
  order ≡ₚ elements (Domain.Calls l) →
  floorsFit (Domain.Floor l) (Domain.Calls l) →
  Domain.LDirection l = DirDown →
  phase1Spec (λ f, f <= Domain.Floor l) (Domain.Floor l)
    (Domain.Calls l) (Domain.ahead order l)
    (Domain.selectNextTarget order l).
Proof.
  intros Hp [Hfl Hfc] Hdir.
  pose proof (select_of_ahead_domain order l Hp) as Hsel.
  unfold Domain.ahead in *. rewrite Hdir in *.
  apply phase1_generic; try done.
  - intros f _. apply Z.leb_le.
  - intros f Hf Hk%Z.leb_le. specialize (Hfc f Hf).
    rewrite sub_fits32 by done. unfold fits32, MaxInt64 in *. lia.
  - intros Hfound. apply Hsel; [done|]. by eapply scan_found_nonempty.
Qed.

Example scenario_new_monolith :
  Monolith.New scenarioConfig = inr monolith0.
Proof. reflexivity. Qed.

Example scenario_new_service :
  Service.New scenarioConfig = inr service0.
Proof. reflexivity. Qed.

Example logicAt5Up_calls : elements (Domain.Calls logicAt5Up) = [5; 8].
Proof. vm_compute. reflexivity. Qed.

Example monolithAt5Up_calls :
  elements (Monolith.callFloors monolithAt5Up) = [5; 8].
Proof. vm_compute. reflexivity. Qed.

Lemma nearestOf_not_floor (P : Z → Prop) (floor : Z) (calls : gset Z) (t : Z) :
  (∀ f, P f → f ≠ floor) → nearestOf P floor calls t → t ≠ floor.
Proof. intros HP (_ & Ht & _). by apply HP. Qed.

Lemma nearestOf_floor (P : Z → Prop) (floor : Z) (calls : gset Z) (t : Z) :
  floor ∈ calls → P floor → nearestOf P floor calls t → t = floor.
Proof. intros Hin HPf (_ & _ & Hmin). specialize (Hmin floor Hin HPf). lia. Qed.

(** C2, as the code has it.  In the single-file engine Phase 1 keeps the
    calls strictly beyond the current floor in the heading ([f > floor]
    going up, [f < floor] going down), returns the nearest of them, and so
    never returns the current floor.  In the logic-split engine Phase 1
    keeps the current floor too ([f >= floor], [f <= floor]): it returns
    the nearest of those calls, and a pending call at the current floor is
    the one Phase 1 selects. *)
Theorem scheduler_phase1_heading
    (oe ol : list Z) (e : Monolith.Elevator) (l : Domain.ElevatorLogic) :
  oe ≡ₚ elements (Monolith.callFloors e) →
  floorsFit (Monolith.floor e) (Monolith.callFloors e) →
  ol ≡ₚ elements (Domain.Calls l) →
  floorsFit (Domain.Floor l) (Domain.Calls l) →
  (Monolith.direction e = DirUp →
   phase1Spec (λ f, Monolith.floor e < f) (Monolith.floor e)
     (Monolith.callFloors e) (Monolith.ahead oe e)
     (Monolith.selectNextTarget oe e))
  ∧ (Monolith.direction e = DirDown →
     phase1Spec (λ f, f < Monolith.floor e) (Monolith.floor e)
       (Monolith.callFloors e) (Monolith.ahead oe e)
       (Monolith.selectNextTarget oe e))
  ∧ (scanFound (Monolith.ahead oe e) = true →
     scanTarget (Monolith.ahead oe e) ≠ Monolith.floor e)
  ∧ (Domain.LDirection l = DirUp →
     phase1Spec (λ f, Domain.Floor l <= f) (Domain.Floor l)
       (Domain.Calls l) (Domain.ahead ol l)
       (Domain.selectNextTarget ol l))
  ∧ (Domain.LDirection l = DirDown →
     phase1Spec (λ f, f <= Domain.Floor l) (Domain.Floor l)
       (Domain.Calls l) (Domain.ahead ol l)
       (Domain.selectNextTarget ol l))
  ∧ (Domain.LDirection l = DirUp ∨ Domain.LDirection l = DirDown →
     Domain.Floor l ∈ Domain.Calls l →
     scanFound (Domain.ahead ol l) = true
     ∧ scanTarget (Domain.ahead ol l) = Domain.Floor l
     ∧ Domain.selectNextTarget ol l = (Domain.Floor l, true)).
Proof.
  intros Hpe Hfe Hpl Hfl.
  split; [by apply monolith_phase1_up|].
  split; [by apply monolith_phase1_down|].
  split.
  { intros Hfound.
    destruct (Monolith.direction e) eqn:Hdir;
      try (unfold Monolith.ahead in Hfound; rewrite Hdir in Hfound;
           discriminate).
    - destruct (monolith_phase1_up oe e Hpe Hfe Hdir) as [_ Hsp].
      destruct (Hsp Hfound) as [Hn _].
      eapply nearestOf_not_floor; [|exact Hn]. cbn. lia.
    - destruct (monolith_phase1_down oe e Hpe Hfe Hdir) as [_ Hsp].
      destruct (Hsp Hfound) as [Hn _].
      eapply nearestOf_not_floor; [|exact Hn]. cbn. lia. }
  split; [by apply domain_phase1_up|].
  split; [by apply domain_phase1_down|].
  intros [Hdir|Hdir] Hin.
  - destruct (domain_phase1_up ol l Hpl Hfl Hdir) as [Hiff Hsp].
    assert (Hfound : scanFound (Domain.ahead ol l) = true).
    { apply Hiff. exists (Domain.Floor l). split; [done|lia]. }
    destruct (Hsp Hfound) as [Hn Hsel].
    assert (Ht : scanTarget (Domain.ahead ol l) = Domain.Floor l).
    { eapply nearestOf_floor; [exact Hin| |exact Hn]. cbn. lia. }
    by rewrite Hsel, Ht.
  - destruct (domain_phase1_down ol l Hpl Hfl Hdir) as [Hiff Hsp].
    assert (Hfound : scanFound (Domain.ahead ol l) = true).
    { apply Hiff. exists (Domain.Floor l). split; [done|lia]. }
    destruct (Hsp Hfound) as [Hn Hsel].
    assert (Ht : scanTarget (Domain.ahead ol l) = Domain.Floor l).
    { eapply nearestOf_floor; [exact Hin| |exact Hn]. cbn. lia. }
    by rewrite Hsel, Ht.
Qed.

Lemma floorsFit_of_elements (floor : Z) (calls : gset Z) (l : list Z) :
  elements calls = l → fits32 floor → Forall fits32 l → floorsFit floor calls.
Proof.
  intros Hel Hfl Hall. split; [done|].
  intros f Hf%elem_of_elements. rewrite Hel in Hf.
  by eapply Forall_forall in Hall.
Qed.

Lemma fits32_small (z : Z) : (-100 <=? z) && (z <=? 100) = true → fits32 z.
Proof. unfold fits32. lia. Qed.

Ltac solve_floorsFit Hel :=
  eapply floorsFit_of_elements;
  [ apply Hel
  | apply fits32_small; reflexivity
  | repeat (apply List.Forall_cons; [apply fits32_small; reflexivity|]);
    apply List.Forall_nil ].

(** The theorem at floor 5, heading up, calls at 5 and 8, visited as 8
    then 5: the single-file engine selects 8, the logic-split one 5. *)
Lemma scheduler_phase1_heading_witness :
  Monolith.selectNextTarget [8; 5] monolithAt5Up = (8, true)
  ∧ Domain.selectNextTarget [8; 5] logicAt5Up = (5, true).
Proof.
  assert (Hp : [8; 5] ≡ₚ [5; 8]) by apply perm_swap.
  destruct (scheduler_phase1_heading [8; 5] [8; 5] monolithAt5Up logicAt5Up)
    as (Hup & _ & _ & _ & _ & Hcur).
  - rewrite monolithAt5Up_calls. exact Hp.
  - solve_floorsFit monolithAt5Up_calls.
  - rewrite logicAt5Up_calls. exact Hp.
  - solve_floorsFit logicAt5Up_calls.
  - split.
    + destruct (Hup eq_refl) as [_ Hsp].
      destruct (Hsp eq_refl) as [_ Hsel]. exact Hsel.
    + destruct Hcur as (_ & _ & Hsel).
      * left. reflexivity.
      * apply elem_of_elements. rewrite logicAt5Up_calls. by left.
      * exact Hsel.
Defined.

(** C2 fails on the logic-split engine: heading up at floor 5 with calls
    at 5 and 8, Phase 1 returns floor 5 itself. *)
Lemma phase1_selects_current_floor :
  Domain.LDirection logicAt5Up = DirUp
  ∧ Domain.Floor logicAt5Up = 5
  ∧ [8; 5] ≡ₚ elements (Domain.Calls logicAt5Up)
  ∧ Domain.ahead [8; 5] logicAt5Up = (0, 5, true)
  ∧ Domain.selectNextTarget [8; 5] logicAt5Up = (5, true).
Proof.
  repeat split.
  rewrite logicAt5Up_calls. apply perm_swap.
Qed.

(** ** The scheduler and the order in which the map is visited *)

Lemma nearest_perm (floor : Z) (calls : gset Z) (o1 o2 : list Z) :
  o1 ≡ₚ elements calls → o2 ≡ₚ elements calls → floorsFit floor calls →
  scanFound (nearest floor o1) = scanFound (nearest floor o2)
  ∧ Z.abs (scanTarget (nearest floor o1) - floor)
    = Z.abs (scanTarget (nearest floor o2) - floor)
  ∧ (noTie floor calls → nearest floor o1 = nearest floor o2).
Proof.
  intros Hp1 Hp2 [Hfl Hfc]. unfold nearest.
  set (keep := λ _ : Z, true).
  set (dist := λ f, absViaFloat64 (wrap64 (f - floor))).
  assert (Hp : o1 ≡ₚ o2) by by rewrite Hp1, Hp2.
  assert (Hd : ∀ f, f ∈ calls → dist f = Z.abs (f - floor)).
  { intros f Hf. unfold dist. by apply dist_fits32; [apply Hfc|]. }
  assert (Hlt1 : ∀ f, f ∈ o1 → keep f = true → dist f < MaxInt64).
  { intros f Hf%(elem_of_order _ _ _ Hp1) _. rewrite Hd by done.
    specialize (Hfc f Hf). unfold fits32, MaxInt64 in *. lia. }
  assert (Hlt2 : ∀ f, f ∈ o2 → keep f = true → dist f < MaxInt64).
  { intros f Hf. apply Hlt1. by rewrite Hp. }
  destruct (scan_perm_found keep dist o1 o2 Hp Hlt1) as [Hfd Hmin].
  split; [done|]. split.
  - destruct (scanFound (scan keep dist o1)) eqn:Hf1.
    + symmetry in Hfd.
      destruct (scan_found_min keep dist o1 Hlt1 Hf1) as (Ht1 & _ & Hm1 & _).
      destruct (scan_found_min keep dist o2 Hlt2 Hfd) as (Ht2 & _ & Hm2 & _).
      apply (elem_of_order _ _ _ Hp1) in Ht1.
      apply (elem_of_order _ _ _ Hp2) in Ht2.
      rewrite <- (Hd _ Ht1), <- (Hd _ Ht2). congruence.
    + symmetry in Hfd.
      destruct (scan_inv keep dist o1 Hlt1) as [[E1 _]|(? & E1 & _)];
        rewrite E1 in Hf1; [|discriminate].
      destruct (scan_inv keep dist o2 Hlt2) as [[E2 _]|(? & E2 & _)];
        rewrite E2 in Hfd; [|discriminate].
      by rewrite E1, E2.
  - intros Hnt. apply scan_perm_eq; try done.
    intros f g Hf%(elem_of_order _ _ _ Hp1) Hg%(elem_of_order _ _ _ Hp1) _ _.
    rewrite !Hd by done. by apply Hnt.
Qed.

Lemma monolith_ahead_perm (e : Monolith.Elevator) (o1 o2 : list Z) :
  o1 ≡ₚ elements (Monolith.callFloors e) →
  o2 ≡ₚ elements (Monolith.callFloors e) →
  floorsFit (Monolith.floor e) (Monolith.callFloors e) →
  Monolith.ahead o1 e = Monolith.ahead o2 e.
Proof.
  intros Hp1 Hp2 [Hfl Hfc]. unfold Monolith.ahead.
  assert (Hp : o1 ≡ₚ o2) by by rewrite Hp1, Hp2.
  destruct (Monolith.direction e); try done.
  - apply scan_perm_eq; try done.
    + intros f Hf%(elem_of_order _ _ _ Hp1) Hk%Z.ltb_lt.
      rewrite sub_fits32 by auto. specialize (Hfc f Hf).
      unfold fits32, MaxInt64 in *. lia.
    + intros f g Hf%(elem_of_order _ _ _ Hp1) Hg%(elem_of_order _ _ _ Hp1) _ _.
      rewrite !sub_fits32 by auto. lia.
  - apply scan_perm_eq; try done.
    + intros f Hf%(elem_of_order _ _ _ Hp1) Hk%Z.ltb_lt.
      rewrite sub_fits32 by auto. specialize (Hfc f Hf).
      unfold fits32, MaxInt64 in *. lia.
    + intros f g Hf%(elem_of_order _ _ _ Hp1) Hg%(elem_of_order _ _ _ Hp1) _ _.
      rewrite !sub_fits32 by auto. lia.
Qed.

Lemma domain_ahead_perm (l : Domain.ElevatorLogic) (o1 o2 : list Z) :
  o1 ≡ₚ elements (Domain.Calls l) →
  o2 ≡ₚ elements (Domain.Calls l) →
  floorsFit (Domain.Floor l) (Domain.Calls l) →
  Domain.ahead o1 l = Domain.ahead o2 l.
Proof.
  intros Hp1 Hp2 [Hfl Hfc]. unfold Domain.ahead.
  assert (Hp : o1 ≡ₚ o2) by by rewrite Hp1, Hp2.
  destruct (Domain.LDirection l); try done.
  - apply scan_perm_eq; try done.
    + intros f Hf%(elem_of_order _ _ _ Hp1) Hk%Z.leb_le.
      rewrite sub_fits32 by auto. specialize (Hfc f Hf).
      unfold fits32, MaxInt64 in *. lia.
    + intros f g Hf%(elem_of_order _ _ _ Hp1) Hg%(elem_of_order _ _ _ Hp1) _ _.
      rewrite !sub_fits32 by auto. lia.
  - apply scan_perm_eq; try done.
    + intros f Hf%(elem_of_order _ _ _ Hp1) Hk%Z.leb_le.
      rewrite sub_fits32 by auto. specialize (Hfc f Hf).
      unfold fits32, MaxInt64 in *. lia.
    + intros f g Hf%(elem_of_order _ _ _ Hp1) Hg%(elem_of_order _ _ _ Hp1) _ _.
      rewrite !sub_fits32 by auto. lia.
Qed.

Lemma monolith_select_perm (e : Monolith.Elevator) (o1 o2 : list Z) :
  o1 ≡ₚ elements (Monolith.callFloors e) →
  o2 ≡ₚ elements (Monolith.callFloors e) →
  floorsFit (Monolith.floor e) (Monolith.callFloors e) →
  sameUpToTie (Monolith.floor e)
    (Monolith.selectNextTarget o1 e) (Monolith.selectNextTarget o2 e)
  ∧ (scanFound (Monolith.ahead o1 e) = true
     ∨ noTie (Monolith.floor e) (Monolith.callFloors e) →
     Monolith.selectNextTarget o1 e = Monolith.selectNextTarget o2 e).
Proof.
  intros Hp1 Hp2 Hfit. unfold Monolith.selectNextTarget, sameUpToTie.
  rewrite <- (monolith_ahead_perm e o1 o2 Hp1 Hp2 Hfit).
  destruct (nearest_perm _ _ o1 o2 Hp1 Hp2 Hfit) as (Hfd & Hdist & Heq).
  destruct (bool_decide (Monolith.callFloors e = ∅)); [done|].
  destruct (scanFound (Monolith.ahead o1 e)); [done|].
  rewrite <- Hfd.
  destruct (scanFound (nearest (Monolith.floor e) o1)); cbn.
  - split; [done|]. intros [?|Hnt]; [done|]. by rewrite (Heq Hnt).
  - done.
Qed.

Lemma domain_select_perm (l : Domain.ElevatorLogic) (o1 o2 : list Z) :
  o1 ≡ₚ elements (Domain.Calls l) →
  o2 ≡ₚ elements (Domain.Calls l) →
  floorsFit (Domain.Floor l) (Domain.Calls l) →
  sameUpToTie (Domain.Floor l)
    (Domain.selectNextTarget o1 l) (Domain.selectNextTarget o2 l)
  ∧ (scanFound (Domain.ahead o1 l) = true
     ∨ noTie (Domain.Floor l) (Domain.Calls l) →
     Domain.selectNextTarget o1 l = Domain.selectNextTarget o2 l).
Proof.
  intros Hp1 Hp2 Hfit. unfold Domain.selectNextTarget, sameUpToTie.
  rewrite <- (domain_ahead_perm l o1 o2 Hp1 Hp2 Hfit).
  destruct (nearest_perm _ _ o1 o2 Hp1 Hp2 Hfit) as (Hfd & Hdist & Heq).
  destruct (bool_decide (Domain.Calls l = ∅)); [done|].
  destruct (scanFound (Domain.ahead o1 l)); [done|].
  rewrite <- Hfd. cbn.
  split; [done|]. intros [?|Hnt]; [done|]. by rewrite (Heq Hnt).
Qed.

(** C8, as the code has it.  Whatever order the map hands out the calls in,
    both schedulers give the same verdict and a target at the same
    distance from the current floor; the target itself is the same when
    Phase 1 finds it, or when no two calls are equidistant from the
    current floor.  Between two equidistant calls the first one visited
    wins, so there the target depends on the visiting order. *)
Theorem scheduler_deterministic_up_to_ties
    (e : Monolith.Elevator) (l : Domain.ElevatorLogic) (o1 o2 p1 p2 : list Z) :
  o1 ≡ₚ elements (Monolith.callFloors e) →
  o2 ≡ₚ elements (Monolith.callFloors e) →
  floorsFit (Monolith.floor e) (Monolith.callFloors e) →
  p1 ≡ₚ elements (Domain.Calls l) →
  p2 ≡ₚ elements (Domain.Calls l) →
  floorsFit (Domain.Floor l) (Domain.Calls l) →
  (sameUpToTie (Monolith.floor e)
     (Monolith.selectNextTarget o1 e) (Monolith.selectNextTarget o2 e)
   ∧ (scanFound (Monolith.ahead o1 e) = true
      ∨ noTie (Monolith.floor e) (Monolith.callFloors e) →
      Monolith.selectNextTarget o1 e = Monolith.selectNextTarget o2 e))
  ∧ (sameUpToTie (Domain.Floor l)
       (Domain.selectNextTarget p1 l) (Domain.selectNextTarget p2 l)
     ∧ (scanFound (Domain.ahead p1 l) = true
        ∨ noTie (Domain.Floor l) (Domain.Calls l) →
        Domain.selectNextTarget p1 l = Domain.selectNextTarget p2 l)).
Proof.
  intros Ho1 Ho2 Hfe Hp1 Hp2 Hfl.
  split; [by apply monolith_select_perm|by apply domain_select_perm].
Qed.

Example monolithAt5Idle_calls :
  elements (Monolith.callFloors monolithAt5Idle) = [7; 3].
Proof. vm_compute. reflexivity. Qed.

Example logicAt5Idle_calls : elements (Domain.Calls logicAt5Idle) = [7; 3].
Proof. vm_compute. reflexivity. Qed.

(** The theorem at floor 5 with calls at 5 and 8 heading up (Phase 1
    decides) and at floor 5 idle with calls at 3 and 7 (a tie). *)
Lemma scheduler_deterministic_up_to_ties_witness :
  Monolith.selectNextTarget [5; 8] monolithAt5Up
  = Monolith.selectNextTarget [8; 5] monolithAt5Up
  ∧ sameUpToTie 5 (Domain.selectNextTarget [3; 7] logicAt5Idle)
      (Domain.selectNextTarget [7; 3] logicAt5Idle).
Proof.
  destruct (scheduler_deterministic_up_to_ties monolithAt5Up logicAt5Idle
              [5; 8] [8; 5] [3; 7] [7; 3])
    as [[_ Hm] [Hd _]].
  - by rewrite monolithAt5Up_calls.
  - rewrite monolithAt5Up_calls. apply perm_swap.
  - solve_floorsFit monolithAt5Up_calls.
  - rewrite logicAt5Idle_calls. apply perm_swap.
  - by rewrite logicAt5Idle_calls.
  - solve_floorsFit logicAt5Idle_calls.
  - split; [|exact Hd]. apply Hm. left. reflexivity.
Defined.

(** C8 fails on a tie: idle at floor 5 with calls at 3 and 7, both
    schedulers return 3 when the map hands out 3 first and 7 when it hands
    out 7 first. *)
Lemma scheduler_tie_depends_on_order :
  [3; 7] ≡ₚ elements (Monolith.callFloors monolithAt5Idle)
  ∧ [7; 3] ≡ₚ elements (Monolith.callFloors monolithAt5Idle)
  ∧ Monolith.selectNextTarget [3; 7] monolithAt5Idle = (3, true)
  ∧ Monolith.selectNextTarget [7; 3] monolithAt5Idle = (7, true)
  ∧ [3; 7] ≡ₚ elements (Domain.Calls logicAt5Idle)
  ∧ [7; 3] ≡ₚ elements (Domain.Calls logicAt5Idle)
  ∧ Domain.selectNextTarget [3; 7] logicAt5Idle = (3, true)
  ∧ Domain.selectNextTarget [7; 3] logicAt5Idle = (7, true).
Proof.
  rewrite monolithAt5Idle_calls, logicAt5Idle_calls.
  repeat split; try reflexivity; apply perm_swap.
Qed.

(** ** Runs and reachable states *)

Lemma monolith_run_reachable (allowed : Monolith.Op → Prop)
    (ops : list Monolith.Op) (g0 g : Monolith.Engine) :
  Monolith.reachableBy allowed g0 g →
  Forall allowed ops → monolithOrdersOk ops g →
  Monolith.reachableBy allowed g0 (monolithRun ops g).
Proof.
  revert g. induction ops as [|op rest IH]; intros g Hg Hall Hok; [done|].
  cbn in *. destruct Hok as [Hop Hrest].
  apply Forall_cons in Hall as [Ha Hall].
  apply IH; [|done|done]. by apply Monolith.reach_exec.
Qed.

Lemma service_run_reachable (allowed : Service.Op → Prop)
    (ops : list Service.Op) (g0 g : Service.Engine) :
  Service.reachableBy allowed g0 g →
  Forall allowed ops → serviceOrdersOk ops g →
  Service.reachableBy allowed g0 (serviceRun ops g).
Proof.
  revert g. induction ops as [|op rest IH]; intros g Hg Hall Hok; [done|].
  cbn in *. destruct Hok as [Hop Hrest].
  apply Forall_cons in Hall as [Ha Hall].
  apply IH; [|done|done]. by apply Service.reach_exec.
Qed.

(** ** The door timer with both doors closed *)

(** C10.  With both doors in state Close the door-timeout handler of either
    engine returns the elevator it was given: floor, direction, doors,
    calls, weight, mode, timers, event queue and drop counter are all
    untouched, and a fire left over from an earlier arming leaves the
    running engine as it was. *)
Theorem door_timeout_closed_noop
    (g : Monolith.Engine) (h : Service.Engine) :
  Monolith.doors (Monolith.elev g) = closedDoors →
  Domain.LDoors (Service.Logic (Service.elev h)) = closedDoors →
  Monolith.handleDoorTimeout (Monolith.elev g) = Monolith.elev g
  ∧ Monolith.exec Monolith.StaleDoorFire g = g
  ∧ Service.handleDoorTimeout (Service.elev h) = Service.elev h
  ∧ Service.exec Service.StaleDoorFire h = h.
Proof.
  intros Hg Hh.
  assert (Hm : Monolith.handleDoorTimeout (Monolith.elev g) = Monolith.elev g).
  { unfold Monolith.handleDoorTimeout. by rewrite Hg. }
  assert (Hs : Service.handleDoorTimeout (Service.elev h) = Service.elev h).
  { unfold Service.handleDoorTimeout. by rewrite Hh. }
  repeat split; try done.
  - cbn. unfold Monolith.onElevator. rewrite Hm. by destruct g.
  - cbn. unfold Service.onElevator. rewrite Hs. by destruct h.
Qed.

(** The theorem on the two engines as [New] makes them. *)
Lemma door_timeout_closed_noop_witness :
  Monolith.handleDoorTimeout monolith0 = monolith0
  ∧ Service.handleDoorTimeout service0 = service0.
Proof.
  destruct (door_timeout_closed_noop (Monolith.start monolith0)
              (Service.start service0)) as (Hm & _ & Hs & _).
  - reflexivity.
  - reflexivity.
  - split; [exact Hm|exact Hs].
Defined.

(** ** Reset *)

Lemma monolith_reset_post (e : Monolith.Elevator) :
  Monolith.direction (Monolith.Reset e) = DirNone
  ∧ Monolith.doors (Monolith.Reset e) = closedDoors
  ∧ Monolith.callFloors (Monolith.Reset e) = ∅
  ∧ Monolith.floor (Monolith.Reset e) = Monolith.floor e
  ∧ Monolith.weight (Monolith.Reset e) = Monolith.weight e
  ∧ Monolith.Mode (Monolith.Reset e) = Monolith.Mode e.
Proof.
  destruct e as [cfg m fl dir [df dr] w owt calls dt ch n b].
  unfold Monolith.Reset, Monolith.setDoor, Monolith.setDirection,
    Monolith.publishEvent, closedDoors.
  cbn. repeat (case_decide; cbn in *); repeat case_match; cbn in *;
    subst; repeat split; congruence.
Qed.

Lemma service_reset_post (s : Service.Elevator) :
  let l' := Service.Logic (Service.Reset s) in
  Domain.LDirection l' = DirNone
  ∧ Domain.LDoors l' = closedDoors
  ∧ Domain.Calls l' = ∅
  ∧ Domain.Floor l' = Domain.InitialFloor (Domain.LConfig (Service.Logic s))
  ∧ Domain.Weight l' = 0
  ∧ Service.Mode (Service.Reset s) = Service.Mode s.
Proof.
  unfold Service.Reset, Service.publishEvent. cbn.
  repeat case_match; cbn; done.
Qed.

(** C4, as the code has it.  In both engines [Reset] leaves direction None,
    both doors Close and no calls, and keeps the mode.  The single-file
    engine keeps the floor (and the weight); the logic-split engine builds
    a new logic from its configuration, so its floor becomes
    [InitialFloor] (and its weight 0). *)
Theorem reset_postcondition (e : Monolith.Elevator) (s : Service.Elevator) :
  (Monolith.direction (Monolith.Reset e) = DirNone
   ∧ Monolith.doors (Monolith.Reset e) = closedDoors
   ∧ Monolith.callFloors (Monolith.Reset e) = ∅
   ∧ Monolith.floor (Monolith.Reset e) = Monolith.floor e
   ∧ Monolith.weight (Monolith.Reset e) = Monolith.weight e
   ∧ Monolith.Mode (Monolith.Reset e) = Monolith.Mode e)
  ∧ (Domain.LDirection (Service.Logic (Service.Reset s)) = DirNone
     ∧ Domain.LDoors (Service.Logic (Service.Reset s)) = closedDoors
     ∧ Domain.Calls (Service.Logic (Service.Reset s)) = ∅
     ∧ Domain.Floor (Service.Logic (Service.Reset s))
       = Domain.InitialFloor (Domain.LConfig (Service.Logic s))
     ∧ Domain.Weight (Service.Logic (Service.Reset s)) = 0
     ∧ Service.Mode (Service.Reset s) = Service.Mode s).
Proof.
  split; [apply monolith_reset_post|apply service_reset_post].
Qed.

Example serviceAt2_state :
  Domain.Floor (Service.Logic (Service.elev serviceAt2)) = 2
  ∧ Domain.LDirection (Service.Logic (Service.elev serviceAt2)) = DirUp
  ∧ Domain.LDoors (Service.Logic (Service.elev serviceAt2))
    = mkDoors DoorOpening DoorClose
  ∧ Service.isMoving serviceAt2 = false.
Proof. vm_compute. done. Qed.

Example monolithAt2_state :
  Monolith.floor (Monolith.elev monolithAt2) = 2
  ∧ Monolith.direction (Monolith.elev monolithAt2) = DirUp
  ∧ Monolith.doors (Monolith.elev monolithAt2) = mkDoors DoorOpening DoorClose
  ∧ Monolith.isMoving monolithAt2 = false.
Proof. vm_compute. done. Qed.

Lemma serviceAt2_reachable :
  Service.reachableBy Service.notManualDoor (Service.start service0) serviceAt2.
Proof.
  apply service_run_reachable; [apply Service.reach_start| |].
  - repeat constructor.
  - cbn -[Service.exec]. repeat split; vm_compute; reflexivity.
Qed.

Lemma monolithAt2_reachable :
  Monolith.reachableBy Monolith.notManualDoor (Monolith.start monolith0)
    monolithAt2.
Proof.
  apply monolith_run_reachable; [apply Monolith.reach_start| |].
  - repeat constructor.
  - cbn -[Monolith.exec]. repeat split; vm_compute; reflexivity.
Qed.

Lemma reachableBy_weaken_service (allowed : Service.Op → Prop)
    (g0 g : Service.Engine) :
  Service.reachableBy allowed g0 g → Service.reachable g0 g.
Proof.
  induction 1; [apply Service.reach_start|].
  by apply Service.reach_exec.
Qed.

Lemma reachableBy_weaken_monolith (allowed : Monolith.Op → Prop)
    (g0 g : Monolith.Engine) :
  Monolith.reachableBy allowed g0 g → Monolith.reachable g0 g.
Proof.
  induction 1; [apply Monolith.reach_start|].
  by apply Monolith.reach_exec.
Qed.

(** C4 fails on the logic-split engine: after one hop from floor 1 to a
    call at floor 2 the car is at floor 2, and [Reset] puts it at floor 1. *)
Lemma service_reset_moves_floor :
  Service.reachable (Service.start service0) serviceAt2
  ∧ Domain.Floor (Service.Logic (Service.elev serviceAt2)) = 2
  ∧ Domain.Floor (Service.Logic (Service.Reset (Service.elev serviceAt2))) = 1.
Proof.
  split; [|split; vm_compute; reflexivity].
  eapply reachableBy_weaken_service, serviceAt2_reachable.
Qed.

(** ** New *)



(** ** The overload guard *)

Lemma monolith_overload_fire (e : Monolith.Elevator) :
  Monolith.activeDoor (Monolith.doors e) = DoorOpen →
  overloaded (MaxWeight (Monolith.Cfg e)) (Monolith.weight e) →
  Monolith.handleDoorTimeout e
  = Monolith.withDoorTimer
      (Some (if Monolith.isOpenButtonPressed e
             then DoorReopenTime (Monolith.Cfg e)
             else Monolith.openWaitTime e)) e.
Proof.
  intros Hact [Hpos Hover]. unfold Monolith.handleDoorTimeout. rewrite Hact.
  destruct (Monolith.isOpenButtonPressed e); [done|].
  destruct (Z.ltb_spec 0 (MaxWeight (Monolith.Cfg e))); [|lia].
  destruct (Z.ltb_spec (MaxWeight (Monolith.Cfg e)) (Monolith.weight e));
    [done|lia].
Qed.

Lemma service_overload_fire (s : Service.Elevator) :
  Service.activeDoor (Domain.LDoors (Service.Logic s)) = DoorOpen →
  overloaded (MaxWeight (Service.Cfg s)) (Domain.Weight (Service.Logic s)) →
  Service.handleDoorTimeout s
  = Service.withDoorTimer (Some (Service.openWaitTime s)) s.
Proof.
  intros Hact [Hpos Hover]. unfold Service.handleDoorTimeout. rewrite Hact.
  destruct (Z.ltb_spec 0 (MaxWeight (Service.Cfg s))); [|lia].
  destruct (Z.ltb_spec (MaxWeight (Service.Cfg s))
              (Domain.Weight (Service.Logic s))); [done|lia].
Qed.

Lemma monolith_overload_fires (n : nat) (e : Monolith.Elevator) :
  Monolith.activeDoor (Monolith.doors e) = DoorOpen →
  overloaded (MaxWeight (Monolith.Cfg e)) (Monolith.weight e) →
  Nat.iter n Monolith.handleDoorTimeout e
  = match n with
    | O => e
    | S _ => Monolith.handleDoorTimeout e
    end.
Proof.
  intros Hact Hover. induction n as [|n IH]; [done|].
  rewrite Nat.iter_succ, IH. destruct n as [|n]; [done|].
  rewrite (monolith_overload_fire e Hact Hover).
  by rewrite monolith_overload_fire.
Qed.

Lemma service_overload_fires (n : nat) (s : Service.Elevator) :
  Service.activeDoor (Domain.LDoors (Service.Logic s)) = DoorOpen →
  overloaded (MaxWeight (Service.Cfg s)) (Domain.Weight (Service.Logic s)) →
  Nat.iter n Service.handleDoorTimeout s
  = match n with
    | O => s
    | S _ => Service.handleDoorTimeout s
    end.
Proof.
  intros Hact Hover. induction n as [|n IH]; [done|].
  rewrite Nat.iter_succ, IH. destruct n as [|n]; [done|].
  rewrite (service_overload_fire s Hact Hover).
  by rewrite service_overload_fire.
Qed.

(** ** Travel durations *)

Lemma nearest_member (floor : Z) (calls : gset Z) (order : list Z) :
  order ≡ₚ elements calls → floorsFit floor calls →
  scanFound (nearest floor order) = true →
  nearestOf (λ _, True) floor calls (scanTarget (nearest floor order)).
Proof.
  intros Hp [Hfl Hfc] Hfound.
  assert (Hsp : phase1Spec (λ _, True) floor calls (nearest floor order)
                  (scanTarget (nearest floor order), true)).
  { unfold nearest. apply phase1_generic; try done.
    intros f Hf _. rewrite dist_fits32 by auto.
    split; [done|]. specialize (Hfc f Hf). unfold fits32, MaxInt64 in *. lia. }
  destruct Hsp as [_ Hsp]. by destruct (Hsp Hfound).
Qed.

Lemma monolith_select_member (order : list Z) (e : Monolith.Elevator) (t : Z) :
  order ≡ₚ elements (Monolith.callFloors e) →
  floorsFit (Monolith.floor e) (Monolith.callFloors e) →
  Monolith.selectNextTarget order e = (t, true) →
  t ∈ Monolith.callFloors e.
Proof.
  intros Hp Hfit. unfold Monolith.selectNextTarget.
  destruct (bool_decide (Monolith.callFloors e = ∅)); [discriminate|].
  destruct (scanFound (Monolith.ahead order e)) eqn:Hah.
  - intros [= <-].
    destruct (Monolith.direction e) eqn:Hdir;
      try (unfold Monolith.ahead in Hah; rewrite Hdir in Hah; discriminate).
    + destruct (monolith_phase1_up order e Hp Hfit Hdir) as [_ Hsp].
      by destruct (Hsp Hah) as [(Hin & _) _].
    + destruct (monolith_phase1_down order e Hp Hfit Hdir) as [_ Hsp].
      by destruct (Hsp Hah) as [(Hin & _) _].
  - destruct (scanFound (nearest (Monolith.floor e) order)) eqn:Hn;
      [|discriminate].
    intros [= <-]. by destruct (nearest_member _ _ _ Hp Hfit Hn).
Qed.

Lemma monolith_step_from_rest (order : list Z) (g : Monolith.Engine) :
  Monolith.isMoving g = false →
  Monolith.direction (Monolith.elev g) = DirNone →
  Monolith.isMoving (Monolith.step order g) = true →
  Monolith.travelTimer (Monolith.step order g)
  = Some (TravelTimeEdge (Monolith.Cfg (Monolith.elev g))).
Proof.
  intros Hmv Hdir. unfold Monolith.step, Monolith.getNextMoveDuration,
    Monolith.onElevator.
  rewrite Hdir, bool_decide_eq_true_2 by done.
  destruct (Monolith.selectNextTarget order (Monolith.elev g)) as [t fd].
  repeat case_match; cbn in *; congruence.
Qed.

Lemma monolith_handleMove_continue
    (order : list Z) (e e' : Monolith.Elevator) (d : Z) :
  Monolith.handleMove order e = (true, d, e') →
  Monolith.Cfg e' = Monolith.Cfg e
  ∧ ∃ target,
      Monolith.selectNextTarget order e' = (target, true)
      ∧ (Monolith.direction e' = DirUp ∧ Monolith.floor e' < target
         ∨ Monolith.direction e' = DirDown ∧ target < Monolith.floor e')
      ∧ d = Monolith.getNextMoveDuration target e'.
Proof.
  unfold Monolith.handleMove.
  set (e1 := match Monolith.direction e with
             | DirUp => _ | DirDown => _ | _ => _ end).
  assert (Hcfg : Monolith.Cfg e1 = Monolith.Cfg e).
  { unfold e1, Monolith.setFloor, Monolith.publishEvent.
    repeat case_match; done. }
  destruct (bool_decide (Monolith.floor e1 ∈ Monolith.callFloors e1));
    [discriminate|].
  destruct (Monolith.selectNextTarget order e1) as [t fd] eqn:Hsel.
  destruct fd; cbn; [|discriminate].
  destruct (_ || _) eqn:Hkeep; [|discriminate].
  intros [= <- <-]. split; [done|]. exists t. split; [done|]. split; [|done].
  apply orb_true_iff in Hkeep as [Hk|Hk];
    apply andb_true_iff in Hk as [Hd Hc];
    apply bool_decide_eq_true in Hd; apply Z.ltb_lt in Hc; auto.
Qed.

Lemma service_cfg_publish (ev : Event) (s : Service.Elevator) :
  Service.Cfg (Service.publishEvent ev s) = Service.Cfg s.
Proof. unfold Service.publishEvent. by case_match. Qed.

Lemma service_cfg_setDirection (d : Direction) (s : Service.Elevator) :
  Service.Cfg (Service.setDirection d s) = Service.Cfg s.
Proof.
  unfold Service.setDirection. case_decide; [done|].
  by rewrite service_cfg_publish.
Qed.

Lemma service_cfg_setFloor (f : Z) (s : Service.Elevator) :
  Service.Cfg (Service.setFloor f s) = Service.Cfg s.
Proof.
  unfold Service.setFloor. case_decide; [done|].
  by rewrite service_cfg_publish.
Qed.

Lemma service_step_duration (order : list Z) (h : Service.Engine) :
  Service.isMoving h = false →
  Service.isMoving (Service.step order h) = true →
  Service.travelTimer (Service.step order h)
  = Some (TravelTime (Service.Cfg (Service.elev h))).
Proof.
  intros Hmv. unfold Service.step, Service.onElevator.
  repeat case_match; cbn; try congruence.
  intros _. by rewrite service_cfg_setDirection.
Qed.

Lemma service_handleMoveComplete_continue
    (order : list Z) (s s' : Service.Elevator) (d : Z) :
  Service.handleMoveComplete order s = (true, d, s') →
  d = TravelTime (Service.Cfg s).
Proof.
  unfold Service.handleMoveComplete.
  repeat case_match; intros [= <- <-];
    rewrite ?service_cfg_setDirection, ?service_cfg_setFloor; done.
Qed.

(** C3, as the code has it.  Single-file engine: a step that starts a
    motion while the direction is None arms the travel timer with
    [TravelTimeEdge]; a hop that is followed by another one arms it with
    [TravelTimeEdge] when the target chosen at the new floor is exactly
    one floor away and with [TravelTime] when it is further.  Logic-split
    engine: both the step that starts a motion and the hop that continues
    arm the timer with [TravelTime]; [TravelTimeEdge] is not used. *)
Theorem travel_durations
    (order : list Z) (g : Monolith.Engine) (h : Service.Engine) :
  Monolith.isMoving g = false →
  Service.isMoving h = false →
  (Monolith.direction (Monolith.elev g) = DirNone →
   Monolith.isMoving (Monolith.step order g) = true →
   Monolith.travelTimer (Monolith.step order g)
   = Some (TravelTimeEdge (Monolith.Cfg (Monolith.elev g))))
  ∧ (∀ e e' d,
       Monolith.handleMove order e = (true, d, e') →
       order ≡ₚ elements (Monolith.callFloors e') →
       floorsFit (Monolith.floor e') (Monolith.callFloors e') →
       ∃ target,
         Monolith.selectNextTarget order e' = (target, true)
         ∧ target ≠ Monolith.floor e'
         ∧ d = if Z.abs (target - Monolith.floor e') =? 1
               then TravelTimeEdge (Monolith.Cfg e)
               else TravelTime (Monolith.Cfg e))
  ∧ (Service.isMoving (Service.step order h) = true →
     Service.travelTimer (Service.step order h)
     = Some (TravelTime (Service.Cfg (Service.elev h))))
  ∧ (∀ s s' d,
       Service.handleMoveComplete order s = (true, d, s') →
       d = TravelTime (Service.Cfg s)).
Proof.
  intros Hg Hh.
  split; [by apply monolith_step_from_rest|].
  split.
  { intros e e' d Hmove Hp Hfit.
    destruct (monolith_handleMove_continue order e e' d Hmove)
      as (Hcfg & t & Hsel & Hdir & ->).
    exists t. split; [done|]. split; [lia|].
    pose proof (monolith_select_member order e' t Hp Hfit Hsel) as Hin.
    destruct Hfit as [Hfl Hfc].
    unfold Monolith.getNextMoveDuration.
    rewrite dist_fits32 by auto. rewrite Hcfg.
    rewrite bool_decide_eq_false_2; [done|].
    destruct Hdir as [[-> _]|[-> _]]; discriminate. }
  split; [by apply service_step_duration|].
  apply service_handleMoveComplete_continue.
Qed.

(** The theorem at rest at floor 1 with a call at floor 5: the single-file
    engine arms 1.5 s, the logic-split engine 1 s. *)
Lemma travel_durations_witness :
  Monolith.travelTimer (Monolith.step [5] monolithCall5) = Some 1500000000
  ∧ Service.travelTimer (Service.step [5] serviceCall5) = Some 1000000000.
Proof.
  destruct (travel_durations [5] monolithCall5 serviceCall5)
    as (Hm & _ & Hs & _).
  - reflexivity.
  - reflexivity.
  - split; [apply Hm|apply Hs]; reflexivity.
Defined.

(** C3 fails on the logic-split engine: at rest (direction None) at floor 1
    with a call at floor 5, the step that starts the motion arms the
    travel timer with [TravelTime] (1 s), not [TravelTimeEdge] (1.5 s). *)
Lemma service_starts_with_cruise_time :
  Service.reachable (Service.start service0) serviceCall5
  ∧ Domain.LDirection (Service.Logic (Service.elev serviceCall5)) = DirNone
  ∧ Service.isMoving (Service.step [5] serviceCall5) = true
  ∧ Service.travelTimer (Service.step [5] serviceCall5)
    = Some (TravelTime scenarioConfig)
  ∧ TravelTime scenarioConfig ≠ TravelTimeEdge scenarioConfig.
Proof.
  split.
  { apply service_run_reachable; [apply Service.reach_start| |].
    - repeat constructor.
    - cbn -[Service.exec]. done. }
  repeat split. discriminate.
Qed.

(** ** Floor configurations after the fill *)

Lemma fillFrom_lookup (n : nat) (i : Z) (fcs : gmap Z FloorConfig) (k : Z) :
  fillFrom n i fcs !! k
  = match fcs !! k with
    | Some c => Some c
    | None =>
        if bool_decide (i <= k < i + Z.of_nat n)
        then Some (defaultFloorConfig k) else None
    end.
Proof.
  revert i fcs. induction n as [|n IH]; intros i fcs.
  - cbn. destruct (fcs !! k); [done|].
    rewrite bool_decide_eq_false_2; [done|lia].
  - cbn [fillFrom]. rewrite IH.
    destruct (fcs !! i) eqn:Hi.
    + destruct (fcs !! k) eqn:Hk; [done|].
      assert (k ≠ i) by congruence.
      rewrite (bool_decide_ext (i + 1 <= k < i + 1 + Z.of_nat n)
                 (i <= k < i + Z.of_nat (S n))); [done|lia].
    + destruct (decide (k = i)) as [->|Hne].
      * rewrite lookup_insert_eq, Hi.
        rewrite bool_decide_eq_true_2; [done|lia].
      * rewrite lookup_insert_ne by done.
        destruct (fcs !! k); [done|].
        rewrite (bool_decide_ext (i + 1 <= k < i + 1 + Z.of_nat n)
                   (i <= k < i + Z.of_nat (S n))); [done|lia].
Qed.

Lemma fillDefaults_at (lo hi : Z) (m : option (gmap Z FloorConfig)) (f : Z) :
  lo <= f <= hi →
  floorConfigAt (Some (fillDefaults lo hi m)) f
  = default (defaultFloorConfig f) (lookupFloor m f).
Proof.
  intros Hf. unfold floorConfigAt, fillDefaults. cbn [lookupFloor].
  rewrite fillFrom_lookup.
  destruct m as [fcs|]; cbn.
  - destruct (fcs !! f); [done|].
    rewrite bool_decide_eq_true_2 by lia. reflexivity.
  - rewrite lookup_empty. rewrite bool_decide_eq_true_2 by lia. reflexivity.
Qed.

Lemma fillDefaults_idem (lo hi : Z) (m : option (gmap Z FloorConfig)) :
  fillDefaults lo hi (Some (fillDefaults lo hi m)) = fillDefaults lo hi m.
Proof.
  apply map_eq. intros k. unfold fillDefaults at 1.
  rewrite fillFrom_lookup.
  change (default ∅ (Some (fillDefaults lo hi m)))
    with (fillDefaults lo hi m).
  destruct (fillDefaults lo hi m !! k) eqn:Hk; [done|].
  unfold fillDefaults in Hk. rewrite fillFrom_lookup in Hk.
  destruct (default ∅ m !! k); [done|].
  destruct (bool_decide (lo <= k < _)) eqn:Hb; [done|]. done.
Qed.

(** ** Frame facts of the single-file engine *)

Lemma mono_publish_Cfg ev e :
  Monolith.Cfg (Monolith.publishEvent ev e) = Monolith.Cfg e.
Proof. unfold Monolith.publishEvent. by case_match. Qed.
Lemma mono_publish_calls ev e :
  Monolith.callFloors (Monolith.publishEvent ev e) = Monolith.callFloors e.
Proof. unfold Monolith.publishEvent. by case_match. Qed.
Lemma mono_publish_doors ev e :
  Monolith.doors (Monolith.publishEvent ev e) = Monolith.doors e.
Proof. unfold Monolith.publishEvent. by case_match. Qed.
Lemma mono_publish_direction ev e :
  Monolith.direction (Monolith.publishEvent ev e) = Monolith.direction e.
Proof. unfold Monolith.publishEvent. by case_match. Qed.
Lemma mono_publish_floor ev e :
  Monolith.floor (Monolith.publishEvent ev e) = Monolith.floor e.
Proof. unfold Monolith.publishEvent. by case_match. Qed.
Lemma mono_publish_mode ev e :
  Monolith.Mode (Monolith.publishEvent ev e) = Monolith.Mode e.
Proof. unfold Monolith.publishEvent. by case_match. Qed.
Lemma mono_publish_button ev e :
  Monolith.isOpenButtonPressed (Monolith.publishEvent ev e)
  = Monolith.isOpenButtonPressed e.
Proof. unfold Monolith.publishEvent. by case_match. Qed.
Lemma mono_publish_wait ev e :
  Monolith.openWaitTime (Monolith.publishEvent ev e) = Monolith.openWaitTime e.
Proof. unfold Monolith.publishEvent. by case_match. Qed.
Lemma mono_publish_weight ev e :
  Monolith.weight (Monolith.publishEvent ev e) = Monolith.weight e.
Proof. unfold Monolith.publishEvent. by case_match. Qed.

Ltac mono_unfold :=
  unfold Monolith.Reset, Monolith.SetMode,
    Monolith.RemoveCall, Monolith.ClearCalls, Monolith.AddWeight,
    Monolith.SetDoor, Monolith.PressOpenButton, Monolith.ReleaseOpenButton,
    Monolith.PressCloseButton, Monolith.handleDoorTimeout,
    Monolith.handleArrival, Monolith.getFloorConfig, Monolith.setDoor,
    Monolith.setDirection, Monolith.setFloor in *.

Ltac mono_simpl :=
  cbn;
  repeat (progress
    (rewrite ?mono_publish_Cfg, ?mono_publish_calls, ?mono_publish_doors,
       ?mono_publish_direction, ?mono_publish_floor, ?mono_publish_mode,
       ?mono_publish_button, ?mono_publish_wait, ?mono_publish_weight;
     cbn)).

Ltac mono_shrinks :=
  intros e; mono_unfold; mono_simpl;
  repeat (case_match; mono_simpl); (split; [done|set_solver]).

Ltac mono_quiet :=
  intros e; split;
  [ mono_unfold; mono_simpl; repeat (case_match; mono_simpl); auto
  | intros Hd Hdir; mono_unfold; mono_simpl;
    rewrite ?Hd; rewrite ?(bool_decide_eq_false_2 _ Hdir); mono_simpl;
    repeat (case_match; mono_simpl; rewrite ?Hd; mono_simpl);
    simplify_eq/=; try done ].

Lemma monolith_shrinks_setFloor f : monolithShrinks (Monolith.setFloor f).
Proof. mono_shrinks. Qed.
Lemma monolith_shrinks_setDirection d :
  monolithShrinks (Monolith.setDirection d).
Proof. mono_shrinks. Qed.
Lemma monolith_shrinks_handleArrival f :
  monolithShrinks (Monolith.handleArrival f).
Proof. mono_shrinks. Qed.
Lemma monolith_shrinks_handleDoorTimeout :
  monolithShrinks Monolith.handleDoorTimeout.
Proof. mono_shrinks. Qed.
Lemma monolith_shrinks_Reset : monolithShrinks Monolith.Reset.
Proof. mono_shrinks. Qed.
Lemma monolith_shrinks_SetMode m : monolithShrinks (Monolith.SetMode m).
Proof. mono_shrinks. Qed.
Lemma monolith_shrinks_RemoveCall f : monolithShrinks (Monolith.RemoveCall f).
Proof. mono_shrinks. Qed.
Lemma monolith_shrinks_ClearCalls : monolithShrinks Monolith.ClearCalls.
Proof. mono_shrinks. Qed.
Lemma monolith_shrinks_AddWeight w : monolithShrinks (Monolith.AddWeight w).
Proof. mono_shrinks. Qed.
Lemma monolith_shrinks_SetDoor side st :
  monolithShrinks (Monolith.SetDoor side st).
Proof. mono_shrinks. Qed.
Lemma monolith_shrinks_PressOpenButton :
  monolithShrinks Monolith.PressOpenButton.
Proof. mono_shrinks. Qed.
Lemma monolith_shrinks_ReleaseOpenButton :
  monolithShrinks Monolith.ReleaseOpenButton.
Proof. mono_shrinks. Qed.
Lemma monolith_shrinks_PressCloseButton :
  monolithShrinks Monolith.PressCloseButton.
Proof. mono_shrinks. Qed.

Lemma monolith_quiet_handleDoorTimeout :
  monolithQuiet Monolith.handleDoorTimeout.
Proof. mono_quiet. Qed.
Lemma monolith_quiet_Reset : monolithQuiet Monolith.Reset.
Proof. mono_quiet. Qed.
Lemma monolith_quiet_SetMode m : monolithQuiet (Monolith.SetMode m).
Proof. mono_quiet. Qed.
Lemma monolith_quiet_RemoveCall f : monolithQuiet (Monolith.RemoveCall f).
Proof. mono_quiet. Qed.
Lemma monolith_quiet_ClearCalls : monolithQuiet Monolith.ClearCalls.
Proof. mono_quiet. Qed.
Lemma monolith_quiet_AddWeight w : monolithQuiet (Monolith.AddWeight w).
Proof. mono_quiet. Qed.
Lemma monolith_quiet_PressOpenButton : monolithQuiet Monolith.PressOpenButton.
Proof. mono_quiet. Qed.
Lemma monolith_quiet_ReleaseOpenButton :
  monolithQuiet Monolith.ReleaseOpenButton.
Proof. mono_quiet. Qed.
Lemma monolith_quiet_PressCloseButton :
  monolithQuiet Monolith.PressCloseButton.
Proof. mono_quiet. Qed.

Lemma monolith_AddCall_frame (f : Z) (c : bool) (e : Monolith.Elevator) :
  Monolith.Cfg (snd (Monolith.AddCall f c e)) = Monolith.Cfg e
  ∧ Monolith.direction (snd (Monolith.AddCall f c e)) = Monolith.direction e
  ∧ Monolith.doors (snd (Monolith.AddCall f c e)) = Monolith.doors e.
Proof. unfold Monolith.AddCall. repeat case_match; done. Qed.

Lemma monolith_AddCall_cases (f : Z) (c : bool) (e : Monolith.Elevator) :
  (∃ err, Monolith.AddCall f c e = (Some err, e)
          ∧ ¬ validIn (MinFloor (Monolith.Cfg e)) (MaxFloor (Monolith.Cfg e))
                (FloorConfigs (Monolith.Cfg e)) f)
  ∨ (validIn (MinFloor (Monolith.Cfg e)) (MaxFloor (Monolith.Cfg e))
       (FloorConfigs (Monolith.Cfg e)) f
     ∧ ((f ∈ Monolith.callFloors e ∧ Monolith.AddCall f c e = (None, e))
        ∨ ((f ∉ Monolith.callFloors e)
           ∧ Monolith.AddCall f c e
             = (None,
                Monolith.withCallFloors ({[f]} ∪ Monolith.callFloors e) e)))).
Proof.
  unfold Monolith.AddCall, validIn.
  destruct (Z.ltb_spec f (MinFloor (Monolith.Cfg e))); cbn.
  { left. eexists. split; [done|]. lia. }
  destruct (Z.ltb_spec (MaxFloor (Monolith.Cfg e)) f); cbn.
  { left. eexists. split; [done|]. lia. }
  destruct (IsAccessible _) eqn:Hacc; cbn.
  - right. split; [split; [lia|done]|].
    case_bool_decide; [left|right]; done.
  - left. eexists. split; [done|]. intros [_ ?]. congruence.
Qed.

Lemma monolith_handleMove_shrinks (order : list Z) (e : Monolith.Elevator) :
  Monolith.Cfg (snd (Monolith.handleMove order e)) = Monolith.Cfg e
  ∧ Monolith.callFloors (snd (Monolith.handleMove order e))
    ⊆ Monolith.callFloors e.
Proof.
  unfold Monolith.handleMove.
  set (e1 := match Monolith.direction e with
             | DirUp => _ | DirDown => _ | _ => _ end).
  assert (H1 : Monolith.Cfg e1 = Monolith.Cfg e
               ∧ Monolith.callFloors e1 ⊆ Monolith.callFloors e).
  { unfold e1. destruct (Monolith.direction e);
      try apply monolith_shrinks_setFloor; done. }
  destruct H1 as [Hc Hs].
  destruct (bool_decide _).
  { destruct (monolith_shrinks_handleArrival (Monolith.floor e1) e1).
    cbn [snd]. split; [congruence|set_solver]. }
  destruct (Monolith.selectNextTarget order e1) as [t fd].
  destruct (monolith_shrinks_setDirection DirNone e1).
  destruct fd; cbn [negb snd]; [|split; [congruence|set_solver]].
  destruct (_ || _); cbn [snd]; split; (congruence || set_solver).
Qed.

Lemma monolith_step_shrinks (order : list Z) (g : Monolith.Engine) :
  Monolith.Cfg (Monolith.elev (Monolith.step order g))
  = Monolith.Cfg (Monolith.elev g)
  ∧ Monolith.callFloors (Monolith.elev (Monolith.step order g))
    ⊆ Monolith.callFloors (Monolith.elev g).
Proof.
  unfold Monolith.step, Monolith.onElevator.
  destruct (Monolith.selectNextTarget order (Monolith.elev g)) as [t fd].
  repeat case_match; cbn [Monolith.elev]; try done;
    try apply monolith_shrinks_setDirection;
    try apply monolith_shrinks_handleArrival.
Qed.

Lemma monolith_exec_calls (op : Monolith.Op) (g : Monolith.Engine) :
  Monolith.Cfg (Monolith.elev (Monolith.exec op g))
  = Monolith.Cfg (Monolith.elev g)
  ∧ ∀ f, f ∈ Monolith.callFloors (Monolith.elev (Monolith.exec op g)) →
      f ∈ Monolith.callFloors (Monolith.elev g)
      ∨ validIn (MinFloor (Monolith.Cfg (Monolith.elev g)))
          (MaxFloor (Monolith.Cfg (Monolith.elev g)))
          (FloorConfigs (Monolith.Cfg (Monolith.elev g))) f.
Proof.
  assert (Hsub : ∀ e e' : Monolith.Elevator,
            Monolith.Cfg e' = Monolith.Cfg e
            ∧ Monolith.callFloors e' ⊆ Monolith.callFloors e →
            Monolith.Cfg e' = Monolith.Cfg e
            ∧ ∀ f, f ∈ Monolith.callFloors e' →
                f ∈ Monolith.callFloors e
                ∨ validIn (MinFloor (Monolith.Cfg e))
                    (MaxFloor (Monolith.Cfg e))
                    (FloorConfigs (Monolith.Cfg e)) f).
  { intros e e' [Hc Hs]. split; [done|]. intros f Hf. left. by apply Hs. }
  destruct op as [o|o| | |fa ca|fr| | |md|wd|sd st| | | |];
    cbn [Monolith.exec].
  - apply Hsub, monolith_step_shrinks.
  - destruct (Monolith.travelTimer g); [|by apply Hsub].
    unfold Monolith.travelDone. cbn [Monolith.elev].
    pose proof (monolith_handleMove_shrinks o (Monolith.elev g)) as Hm.
    destruct (Monolith.handleMove o (Monolith.elev g)) as [[c d] e'].
    destruct c; by apply Hsub.
  - destruct (Monolith.doorTimer (Monolith.elev g)); [|by apply Hsub].
    apply Hsub. cbn [Monolith.onElevator Monolith.elev].
    destruct (monolith_shrinks_handleDoorTimeout
                (Monolith.withDoorTimer None (Monolith.elev g))).
    done.
  - apply Hsub, monolith_shrinks_handleDoorTimeout.
  - cbn [Monolith.onElevator Monolith.elev].
    destruct (monolith_AddCall_cases fa ca (Monolith.elev g))
      as [(err & -> & _)|[Hv [[_ ->]|[_ ->]]]]; cbn; try by apply Hsub.
    split; [done|]. intros f [->%elem_of_singleton|?]%elem_of_union; auto.
  - apply Hsub, monolith_shrinks_RemoveCall.
  - apply Hsub, monolith_shrinks_ClearCalls.
  - apply Hsub, monolith_shrinks_Reset.
  - apply Hsub, monolith_shrinks_SetMode.
  - apply Hsub, monolith_shrinks_AddWeight.
  - apply Hsub, monolith_shrinks_SetDoor.
  - apply Hsub, monolith_shrinks_PressOpenButton.
  - apply Hsub, monolith_shrinks_ReleaseOpenButton.
  - apply Hsub, monolith_shrinks_PressCloseButton.
  - by apply Hsub.
Qed.

Lemma monolith_calls_valid
    (allowed : Monolith.Op → Prop) (e0 : Monolith.Elevator)
    (g : Monolith.Engine) :
  Monolith.callFloors e0 = ∅ →
  Monolith.reachableBy allowed (Monolith.start e0) g →
  Monolith.Cfg (Monolith.elev g) = Monolith.Cfg e0
  ∧ ∀ f, f ∈ Monolith.callFloors (Monolith.elev g) →
      validIn (MinFloor (Monolith.Cfg e0)) (MaxFloor (Monolith.Cfg e0))
        (FloorConfigs (Monolith.Cfg e0)) f.
Proof.
  intros Hempty Hreach. induction Hreach as [|g op _ [IHc IHv] _ _].
  - cbn. split; [done|]. intros f. rewrite Hempty. set_solver.
  - destruct (monolith_exec_calls op g) as [Hc Hv].
    split; [congruence|]. intros f Hf.
    destruct (Hv f Hf) as [Hin|Hval]; [by apply IHv|].
    by rewrite IHc in Hval.
Qed.

Lemma monolith_New_config (config : Config) (e0 : Monolith.Elevator) :
  Monolith.New config = inr e0 →
  Monolith.callFloors e0 = ∅
  ∧ MinFloor (Monolith.Cfg e0) = MinFloor config
  ∧ MaxFloor (Monolith.Cfg e0) = MaxFloor config
  ∧ FloorConfigs (Monolith.Cfg e0)
    = Some (fillDefaults (MinFloor config) (MaxFloor config)
              (FloorConfigs config)).
Proof.
  unfold Monolith.New. case_match; [discriminate|].
  intros [= <-]. done.
Qed.

Lemma validIn_callable (config : Config) (f : Z) :
  validIn (MinFloor config) (MaxFloor config)
    (Some (fillDefaults (MinFloor config) (MaxFloor config)
             (FloorConfigs config))) f
  ↔ callable config f.
Proof.
  unfold validIn, callable. split; intros [Hr Ha]; (split; [done|]).
  - by rewrite fillDefaults_at in Ha.
  - by rewrite fillDefaults_at.
Qed.

(** ** Frame facts of the logic-split engine *)

Lemma service_publish_Logic ev s :
  Service.Logic (Service.publishEvent ev s) = Service.Logic s.
Proof. unfold Service.publishEvent. by case_match. Qed.
Lemma service_publish_mode ev s :
  Service.Mode (Service.publishEvent ev s) = Service.Mode s.
Proof. unfold Service.publishEvent. by case_match. Qed.
Lemma service_publish_button ev s :
  Service.isOpenButtonPressed (Service.publishEvent ev s)
  = Service.isOpenButtonPressed s.
Proof. unfold Service.publishEvent. by case_match. Qed.
Lemma service_publish_wait ev s :
  Service.openWaitTime (Service.publishEvent ev s) = Service.openWaitTime s.
Proof. unfold Service.publishEvent. by case_match. Qed.

Ltac service_unfold :=
  unfold Service.SetMode, Service.RemoveCall, Service.ClearCalls,
    Service.AddWeight, Service.SetDoor, Service.PressOpenButton,
    Service.ReleaseOpenButton, Service.PressCloseButton,
    Service.handleDoorTimeout, Service.handleArrival, Service.setDoor,
    Service.setDirection, Service.setFloor in *.

Ltac service_simpl :=
  cbn;
  repeat (progress
    (rewrite ?service_cfg_publish, ?service_publish_Logic,
       ?service_publish_mode, ?service_publish_button,
       ?service_publish_wait;
     cbn)).

Ltac service_shrinks :=
  intros s; service_unfold; service_simpl;
  repeat (case_match; service_simpl); (split; [done|set_solver]).

Ltac service_quiet :=
  intros s; split;
  [ service_unfold; service_simpl; repeat (case_match; service_simpl); auto
  | intros Hd Hdir; service_unfold; service_simpl;
    rewrite ?Hd; service_simpl;
    repeat (case_match; service_simpl; rewrite ?Hd; service_simpl);
    simplify_eq/=; try done ].

Lemma service_shrinks_setFloor f : serviceShrinks (Service.setFloor f).
Proof. service_shrinks. Qed.
Lemma service_shrinks_setDirection d :
  serviceShrinks (Service.setDirection d).
Proof. service_shrinks. Qed.
Lemma service_shrinks_handleArrival f :
  serviceShrinks (Service.handleArrival f).
Proof. service_shrinks. Qed.
Lemma service_shrinks_handleDoorTimeout :
  serviceShrinks Service.handleDoorTimeout.
Proof. service_shrinks. Qed.
Lemma service_shrinks_SetMode m : serviceShrinks (Service.SetMode m).
Proof. service_shrinks. Qed.
Lemma service_shrinks_RemoveCall f : serviceShrinks (Service.RemoveCall f).
Proof. service_shrinks. Qed.
Lemma service_shrinks_ClearCalls : serviceShrinks Service.ClearCalls.
Proof. service_shrinks. Qed.
Lemma service_shrinks_AddWeight w : serviceShrinks (Service.AddWeight w).
Proof. service_shrinks. Qed.
Lemma service_shrinks_SetDoor side st :
  serviceShrinks (Service.SetDoor side st).
Proof. service_shrinks. Qed.
Lemma service_shrinks_PressOpenButton :
  serviceShrinks Service.PressOpenButton.
Proof. service_shrinks. Qed.
Lemma service_shrinks_ReleaseOpenButton :
  serviceShrinks Service.ReleaseOpenButton.
Proof. service_shrinks. Qed.
Lemma service_shrinks_PressCloseButton :
  serviceShrinks Service.PressCloseButton.
Proof. service_shrinks. Qed.

Lemma service_quiet_handleDoorTimeout :
  serviceQuiet Service.handleDoorTimeout.
Proof. service_quiet. Qed.
Lemma service_quiet_Reset : serviceQuiet Service.Reset.
Proof.
  intros s. pose proof (service_reset_post s) as (Hd & Hc & _). cbn in *.
  split; [by right|by intros _ _].
Qed.
Lemma service_quiet_SetMode m : serviceQuiet (Service.SetMode m).
Proof. service_quiet. Qed.
Lemma service_quiet_RemoveCall f : serviceQuiet (Service.RemoveCall f).
Proof. service_quiet. Qed.
Lemma service_quiet_ClearCalls : serviceQuiet Service.ClearCalls.
Proof. service_quiet. Qed.
Lemma service_quiet_AddWeight w : serviceQuiet (Service.AddWeight w).
Proof. service_quiet. Qed.
Lemma service_quiet_PressOpenButton : serviceQuiet Service.PressOpenButton.
Proof. service_quiet. Qed.
Lemma service_quiet_ReleaseOpenButton :
  serviceQuiet Service.ReleaseOpenButton.
Proof. service_quiet. Qed.
Lemma service_quiet_PressCloseButton :
  serviceQuiet Service.PressCloseButton.
Proof. service_quiet. Qed.

Lemma domain_AddCall_cases (f : Z) (l : Domain.ElevatorLogic) :
  (∃ err, Domain.AddCall f l = (Some err, l)
          ∧ ¬ validIn (Domain.MinFloor (Domain.LConfig l))
                (Domain.MaxFloor (Domain.LConfig l))
                (Domain.FloorConfigs (Domain.LConfig l)) f)
  ∨ (validIn (Domain.MinFloor (Domain.LConfig l))
       (Domain.MaxFloor (Domain.LConfig l))
       (Domain.FloorConfigs (Domain.LConfig l)) f
     ∧ Domain.AddCall f l
       = (None, Domain.withCalls ({[f]} ∪ Domain.Calls l) l)).
Proof.
  unfold Domain.AddCall, validIn.
  destruct (Z.ltb_spec f (Domain.MinFloor (Domain.LConfig l))); cbn.
  { left. eexists. split; [done|]. lia. }
  destruct (Z.ltb_spec (Domain.MaxFloor (Domain.LConfig l)) f); cbn.
  { left. eexists. split; [done|]. lia. }
  destruct (IsAccessible _) eqn:Hacc; cbn.
  - right. split; [split; [lia|done]|done].
  - left. eexists. split; [done|]. intros [_ ?]. congruence.
Qed.

Lemma service_AddCall_cases (f : Z) (c : bool) (s : Service.Elevator) :
  (∃ err, Service.AddCall f c s = (Some err, s)
          ∧ ¬ validIn (Domain.MinFloor (Domain.LConfig (Service.Logic s)))
                (Domain.MaxFloor (Domain.LConfig (Service.Logic s)))
                (Domain.FloorConfigs (Domain.LConfig (Service.Logic s))) f)
  ∨ (validIn (Domain.MinFloor (Domain.LConfig (Service.Logic s)))
       (Domain.MaxFloor (Domain.LConfig (Service.Logic s)))
       (Domain.FloorConfigs (Domain.LConfig (Service.Logic s))) f
     ∧ Service.AddCall f c s
       = (None,
          Service.withLogic
            (Domain.withCalls ({[f]} ∪ Domain.Calls (Service.Logic s))
               (Service.Logic s)) s)).
Proof.
  unfold Service.AddCall.
  destruct (domain_AddCall_cases f (Service.Logic s))
    as [(err & -> & Hn)|[Hv ->]].
  - left. exists (Service.ErrLogic err). split; [|done].
    by destruct s.
  - by right.
Qed.

Lemma withCalls_same (l : Domain.ElevatorLogic) (c : gset Z) :
  c = Domain.Calls l → Domain.withCalls c l = l.
Proof. intros ->. by destruct l. Qed.

Lemma withLogic_same (s : Service.Elevator) (l : Domain.ElevatorLogic) :
  l = Service.Logic s → Service.withLogic l s = s.
Proof. intros ->. by destruct s. Qed.

Lemma domain_New_filled (cfg : Domain.LogicConfig) :
  filled cfg → Domain.LConfig (Domain.NewElevatorLogic cfg) = cfg.
Proof.
  intros [m Hm]. destruct cfg as [lo hi i w fcs]. cbn in *. subst fcs.
  by rewrite fillDefaults_idem.
Qed.

Lemma service_handleMoveComplete_shrinks
    (order : list Z) (s : Service.Elevator) :
  Domain.LConfig (Service.Logic (snd (Service.handleMoveComplete order s)))
  = Domain.LConfig (Service.Logic s)
  ∧ Domain.Calls (Service.Logic (snd (Service.handleMoveComplete order s)))
    ⊆ Domain.Calls (Service.Logic s).
Proof.
  unfold Service.handleMoveComplete.
  set (s1 := Service.setFloor _ s).
  destruct (service_shrinks_setFloor
              match Domain.LDirection (Service.Logic s) with
              | DirUp => wrap64 (Domain.Floor (Service.Logic s) + 1)
              | DirDown => wrap64 (Domain.Floor (Service.Logic s) - 1)
              | _ => Domain.Floor (Service.Logic s)
              end s) as [Hc Hs].
  fold s1 in Hc, Hs.
  destruct (service_shrinks_handleArrival
              (Domain.Floor (Service.Logic s1)) s1).
  destruct (service_shrinks_setDirection DirNone s1).
  destruct (service_shrinks_setDirection
              (Domain.Dir (Domain.DecideNextStep order (Service.Logic s1)))
              s1).
  destruct (Domain.Type_ _); cbn [snd];
    try (split; [congruence|set_solver]).
  case_decide; split; (congruence || set_solver).
Qed.

Lemma service_step_shrinks (order : list Z) (h : Service.Engine) :
  Domain.LConfig (Service.Logic (Service.elev (Service.step order h)))
  = Domain.LConfig (Service.Logic (Service.elev h))
  ∧ Domain.Calls (Service.Logic (Service.elev (Service.step order h)))
    ⊆ Domain.Calls (Service.Logic (Service.elev h)).
Proof.
  unfold Service.step, Service.onElevator.
  repeat case_match; cbn [Service.elev]; try done;
    try apply service_shrinks_setDirection;
    try apply service_shrinks_handleArrival.
Qed.

Lemma service_exec_calls (op : Service.Op) (h : Service.Engine) :
  filled (Domain.LConfig (Service.Logic (Service.elev h))) →
  Domain.LConfig (Service.Logic (Service.elev (Service.exec op h)))
  = Domain.LConfig (Service.Logic (Service.elev h))
  ∧ ∀ f, f ∈ Domain.Calls (Service.Logic (Service.elev (Service.exec op h))) →
      f ∈ Domain.Calls (Service.Logic (Service.elev h))
      ∨ validIn
          (Domain.MinFloor (Domain.LConfig (Service.Logic (Service.elev h))))
          (Domain.MaxFloor (Domain.LConfig (Service.Logic (Service.elev h))))
          (Domain.FloorConfigs
             (Domain.LConfig (Service.Logic (Service.elev h)))) f.
Proof.
  intros Hfilled.
  assert (Hsub : ∀ s s' : Service.Elevator,
            Domain.LConfig (Service.Logic s')
            = Domain.LConfig (Service.Logic s)
            ∧ Domain.Calls (Service.Logic s')
              ⊆ Domain.Calls (Service.Logic s) →
            Domain.LConfig (Service.Logic s')
            = Domain.LConfig (Service.Logic s)
            ∧ ∀ f, f ∈ Domain.Calls (Service.Logic s') →
                f ∈ Domain.Calls (Service.Logic s)
                ∨ validIn
                    (Domain.MinFloor (Domain.LConfig (Service.Logic s)))
                    (Domain.MaxFloor (Domain.LConfig (Service.Logic s)))
                    (Domain.FloorConfigs (Domain.LConfig (Service.Logic s)))
                    f).
  { intros s s' [Hc Hs]. split; [done|]. intros f Hf. left. by apply Hs. }
  destruct op as [o|o| | |fa ca|fr| | |md|wd|sd st| | | |];
    cbn [Service.exec].
  - apply Hsub, service_step_shrinks.
  - destruct (Service.travelTimer h); [|by apply Hsub].
    unfold Service.travelDone. cbn [Service.elev].
    pose proof (service_handleMoveComplete_shrinks o (Service.elev h)) as Hm.
    destruct (Service.handleMoveComplete o (Service.elev h)) as [[c d] s'].
    destruct c; by apply Hsub.
  - destruct (Service.doorTimer (Service.elev h)); [|by apply Hsub].
    apply Hsub. cbn [Service.onElevator Service.elev].
    destruct (service_shrinks_handleDoorTimeout
                (Service.withDoorTimer None (Service.elev h))).
    done.
  - apply Hsub, service_shrinks_handleDoorTimeout.
  - cbn [Service.onElevator Service.elev].
    destruct (service_AddCall_cases fa ca (Service.elev h))
      as [(err & -> & _)|[Hv ->]]; cbn; [by apply Hsub|].
    split; [done|]. intros f [->%elem_of_singleton|?]%elem_of_union; auto.
  - apply Hsub, service_shrinks_RemoveCall.
  - apply Hsub, service_shrinks_ClearCalls.
  - cbn [Service.onElevator Service.elev]. apply Hsub.
    unfold Service.Reset. rewrite !service_publish_Logic.
    cbn [Service.withLogic Service.Logic].
    rewrite domain_New_filled by done. split; [done|]. cbn. set_solver.
  - apply Hsub, service_shrinks_SetMode.
  - apply Hsub, service_shrinks_AddWeight.
  - apply Hsub, service_shrinks_SetDoor.
  - apply Hsub, service_shrinks_PressOpenButton.
  - apply Hsub, service_shrinks_ReleaseOpenButton.
  - apply Hsub, service_shrinks_PressCloseButton.
  - by apply Hsub.
Qed.

Lemma service_calls_valid
    (allowed : Service.Op → Prop) (s0 : Service.Elevator)
    (h : Service.Engine) :
  Domain.Calls (Service.Logic s0) = ∅ →
  filled (Domain.LConfig (Service.Logic s0)) →
  Service.reachableBy allowed (Service.start s0) h →
  Domain.LConfig (Service.Logic (Service.elev h))
  = Domain.LConfig (Service.Logic s0)
  ∧ ∀ f, f ∈ Domain.Calls (Service.Logic (Service.elev h)) →
      validIn (Domain.MinFloor (Domain.LConfig (Service.Logic s0)))
        (Domain.MaxFloor (Domain.LConfig (Service.Logic s0)))
        (Domain.FloorConfigs (Domain.LConfig (Service.Logic s0))) f.
Proof.
  intros Hempty Hfilled Hreach.
  induction Hreach as [|h op _ [IHc IHv] _ _].
  - cbn. split; [done|]. intros f. rewrite Hempty. set_solver.
  - destruct (service_exec_calls op h) as [Hc Hv]; [by rewrite IHc|].
    split; [congruence|]. intros f Hf.
    destruct (Hv f Hf) as [Hin|Hval]; [by apply IHv|].
    by rewrite IHc in Hval.
Qed.

Lemma service_New_config (config : Config) (s0 : Service.Elevator) :
  Service.New config = inr s0 →
  Domain.Calls (Service.Logic s0) = ∅
  ∧ filled (Domain.LConfig (Service.Logic s0))
  ∧ Domain.MinFloor (Domain.LConfig (Service.Logic s0)) = MinFloor config
  ∧ Domain.MaxFloor (Domain.LConfig (Service.Logic s0)) = MaxFloor config
  ∧ Domain.FloorConfigs (Domain.LConfig (Service.Logic s0))
    = Some (fillDefaults (MinFloor config) (MaxFloor config)
              (FloorConfigs config)).
Proof.
  unfold Service.New. case_match; [discriminate|].
  intros [= <-]. cbn. repeat split. by eexists.
Qed.

(** ** Calls *)

Lemma refused_not_callable (config : Config) (f : Z) :
  refused config f ↔ ¬ callable config f.
Proof.
  unfold refused, callable. split.
  - intros [?|[?|Hacc]] [Hr Ha]; [lia|lia|congruence].
  - intros Hn.
    destruct (decide (f < MinFloor config)); [by left|].
    destruct (decide (MaxFloor config < f)); [by right; left|].
    right. right. apply not_true_is_false. intros Ha. apply Hn.
    split; [lia|done].
Qed.

(** C9.  In every state that either engine reaches from [New], by any
    sequence of ticks, timer fires and commands, each pending call lies
    within [MinFloor, MaxFloor] and is accessible (by its entry in
    [FloorConfigs], or by the default entry when it has none). *)
Theorem calls_stay_valid
    (config : Config) (e0 : Monolith.Elevator) (g : Monolith.Engine)
    (s0 : Service.Elevator) (h : Service.Engine) :
  Monolith.New config = inr e0 →
  Monolith.reachable (Monolith.start e0) g →
  Service.New config = inr s0 →
  Service.reachable (Service.start s0) h →
  (∀ f, f ∈ Monolith.callFloors (Monolith.elev g) → callable config f)
  ∧ (∀ f, f ∈ Domain.Calls (Service.Logic (Service.elev h)) →
          callable config f).
Proof.
  intros Hne Hrg Hns Hrh. split; intros f Hf.
  - destruct (monolith_New_config config e0 Hne) as (He & Hlo & Hhi & Hfc).
    destruct (monolith_calls_valid _ e0 g He Hrg) as [_ Hv].
    specialize (Hv f Hf). rewrite Hlo, Hhi, Hfc in Hv.
    by apply validIn_callable.
  - destruct (service_New_config config s0 Hns)
      as (He & Hfil & Hlo & Hhi & Hfc).
    destruct (service_calls_valid _ s0 h He Hfil Hrh) as [_ Hv].
    specialize (Hv f Hf). rewrite Hlo, Hhi, Hfc in Hv.
    by apply validIn_callable.
Qed.

Lemma monolithTest_reachable :
  Monolith.reachable (Monolith.start (monolithOf testConfig monolithBlank))
    monolithTest.
Proof.
  apply monolith_run_reachable; [apply Monolith.reach_start| |].
  - repeat constructor.
  - cbn -[Monolith.exec]. done.
Qed.

Lemma serviceTest_reachable :
  Service.reachable (Service.start (serviceOf testConfig serviceBlank))
    serviceTest.
Proof.
  apply service_run_reachable; [apply Service.reach_start| |].
  - repeat constructor.
  - cbn -[Service.exec]. done.
Qed.

(** The theorem on floors 1..5 with floor 2 inaccessible, after a call to
    floor 3 in each engine. *)
Lemma calls_stay_valid_witness :
  callable testConfig 3.
Proof.
  destruct (calls_stay_valid testConfig
              (monolithOf testConfig monolithBlank) monolithTest
              (serviceOf testConfig serviceBlank) serviceTest)
    as [Hm _].
  - reflexivity.
  - apply monolithTest_reachable.
  - reflexivity.
  - apply serviceTest_reachable.
  - apply Hm. vm_compute. reflexivity.
Defined.

(** C7.  In every state that either engine reaches from [New], [AddCall]
    returns an error exactly for a floor outside [MinFloor, MaxFloor] or
    marked inaccessible; on an error the elevator is unchanged; a floor
    that is already called is accepted and the elevator is unchanged; any
    other accepted floor is added to the calls. *)
Theorem addCall_validation
    (config : Config) (e0 : Monolith.Elevator) (g : Monolith.Engine)
    (s0 : Service.Elevator) (h : Service.Engine) (f : Z) (isCarCall : bool) :
  Monolith.New config = inr e0 →
  Monolith.reachable (Monolith.start e0) g →
  Service.New config = inr s0 →
  Service.reachable (Service.start s0) h →
  ((is_Some (fst (Monolith.AddCall f isCarCall (Monolith.elev g)))
    ↔ refused config f)
   ∧ (is_Some (fst (Monolith.AddCall f isCarCall (Monolith.elev g))) →
      snd (Monolith.AddCall f isCarCall (Monolith.elev g)) = Monolith.elev g)
   ∧ (f ∈ Monolith.callFloors (Monolith.elev g) →
      Monolith.AddCall f isCarCall (Monolith.elev g)
      = (None, Monolith.elev g))
   ∧ (fst (Monolith.AddCall f isCarCall (Monolith.elev g)) = None →
      Monolith.callFloors
        (snd (Monolith.AddCall f isCarCall (Monolith.elev g)))
      = {[f]} ∪ Monolith.callFloors (Monolith.elev g)))
  ∧ ((is_Some (fst (Service.AddCall f isCarCall (Service.elev h)))
      ↔ refused config f)
     ∧ (is_Some (fst (Service.AddCall f isCarCall (Service.elev h))) →
        snd (Service.AddCall f isCarCall (Service.elev h)) = Service.elev h)
     ∧ (f ∈ Domain.Calls (Service.Logic (Service.elev h)) →
        Service.AddCall f isCarCall (Service.elev h)
        = (None, Service.elev h))
     ∧ (fst (Service.AddCall f isCarCall (Service.elev h)) = None →
        Domain.Calls
          (Service.Logic
             (snd (Service.AddCall f isCarCall (Service.elev h))))
        = {[f]} ∪ Domain.Calls (Service.Logic (Service.elev h)))).
Proof.
  intros Hne Hrg Hns Hrh. split.
  - destruct (monolith_New_config config e0 Hne) as (He & Hlo & Hhi & Hfc).
    destruct (monolith_calls_valid _ e0 g He Hrg) as [Hc Hv].
    assert (Hcall : ∀ x, x ∈ Monolith.callFloors (Monolith.elev g) →
                         callable config x).
    { intros x Hx. specialize (Hv x Hx). rewrite Hlo, Hhi, Hfc in Hv.
      by apply validIn_callable. }
    destruct (monolith_AddCall_cases f isCarCall (Monolith.elev g))
      as [(err & Heq & Hn)|[Hval Hcases]];
      rewrite Hc, Hlo, Hhi, Hfc, validIn_callable in *.
    + rewrite Heq. cbn [fst snd]. split; [|split; [|split]].
      * split; [intros _; by apply refused_not_callable|by eexists].
      * done.
      * intros Hin. destruct Hn. by apply Hcall.
      * discriminate.
    + assert (Hnr : ¬ refused config f).
      { rewrite refused_not_callable. tauto. }
      destruct Hcases as [[Hin ->]|[Hnin ->]]; cbn [fst snd];
        (split; [|split; [|split]]).
      * split; [by intros ?%is_Some_None|done].
      * by intros ?%is_Some_None.
      * done.
      * intros _. set_solver.
      * split; [by intros ?%is_Some_None|done].
      * by intros ?%is_Some_None.
      * done.
      * done.
  - destruct (service_New_config config s0 Hns)
      as (He & Hfil & Hlo & Hhi & Hfc).
    destruct (service_calls_valid _ s0 h He Hfil Hrh) as [Hc Hv].
    assert (Hcall : ∀ x, x ∈ Domain.Calls (Service.Logic (Service.elev h)) →
                         callable config x).
    { intros x Hx. specialize (Hv x Hx). rewrite Hlo, Hhi, Hfc in Hv.
      by apply validIn_callable. }
    destruct (service_AddCall_cases f isCarCall (Service.elev h))
      as [(err & Heq & Hn)|[Hval Heq]];
      rewrite Hc, Hlo, Hhi, Hfc, validIn_callable in *.
    + rewrite Heq. cbn [fst snd]. split; [|split; [|split]].
      * split; [intros _; by apply refused_not_callable|by eexists].
      * done.
      * intros Hin. destruct Hn. by apply Hcall.
      * discriminate.
    + assert (Hnr : ¬ refused config f).
      { rewrite refused_not_callable. tauto. }
      rewrite Heq. cbn [fst snd]. split; [|split; [|split]].
      * split; [by intros ?%is_Some_None|done].
      * by intros ?%is_Some_None.
      * intros Hin. f_equal. apply withLogic_same, withCalls_same.
        set_solver.
      * done.
Qed.

(** The theorem on floors 1..5 with floor 2 inaccessible, after a call to
    floor 3: floor 2 is refused by the single-file engine, and a second
    call to floor 3 leaves the logic-split engine as it is. *)
Lemma addCall_validation_witness :
  is_Some (fst (Monolith.AddCall 2 true (Monolith.elev monolithTest)))
  ∧ Service.AddCall 3 true (Service.elev serviceTest)
    = (None, Service.elev serviceTest).
Proof.
  destruct (addCall_validation testConfig
              (monolithOf testConfig monolithBlank) monolithTest
              (serviceOf testConfig serviceBlank) serviceTest 2 true)
    as [(Hm & _) _];
    [reflexivity|apply monolithTest_reachable
    |reflexivity|apply serviceTest_reachable|].
  destruct (addCall_validation testConfig
              (monolithOf testConfig monolithBlank) monolithTest
              (serviceOf testConfig serviceBlank) serviceTest 3 true)
    as [_ (_ & _ & Hs & _)];
    [reflexivity|apply monolithTest_reachable
    |reflexivity|apply serviceTest_reachable|].
  split.
  - apply Hm. right. right. reflexivity.
  - apply Hs. vm_compute. reflexivity.
Defined.

(** ** Motion and doors *)

Lemma allClosed_true (d : Doors) : allClosed d = true ↔ d = closedDoors.
Proof.
  unfold allClosed, closedDoors. destruct d as [df dr]. cbn.
  rewrite andb_true_iff, !bool_decide_eq_true. split.
  - by intros [-> ->].
  - by intros [= -> ->].
Qed.

Lemma monolith_quiet_safe
    (f : Monolith.Elevator → Monolith.Elevator) (g : Monolith.Engine) :
  monolithQuiet f → monolithSafe g → monolithSafe (Monolith.onElevator f g).
Proof.
  intros Hq [Ht Hm]. destruct (Hq (Monolith.elev g)) as [Hdir Hdoors].
  split; [done|]. cbn. intros Hmv Hnn.
  assert (Hpre : Monolith.direction (Monolith.elev g) ≠ DirNone).
  { destruct Hdir as [Hd|Hd]; congruence. }
  apply Hdoors; [by apply Hm|done].
Qed.

Lemma monolith_handleMove_keeps
    (order : list Z) (e e' : Monolith.Elevator) (d : Z) :
  Monolith.handleMove order e = (true, d, e') →
  Monolith.direction e' = Monolith.direction e
  ∧ Monolith.doors e' = Monolith.doors e.
Proof.
  unfold Monolith.handleMove.
  set (e1 := match Monolith.direction e with
             | DirUp => _ | DirDown => _ | _ => _ end).
  assert (H1 : Monolith.direction e1 = Monolith.direction e
               ∧ Monolith.doors e1 = Monolith.doors e).
  { unfold e1, Monolith.setFloor.
    repeat case_match;
      rewrite ?mono_publish_direction, ?mono_publish_doors; done. }
  destruct (bool_decide _); [discriminate|].
  destruct (Monolith.selectNextTarget order e1) as [t fd].
  destruct fd; cbn [negb]; [|discriminate].
  destruct (_ || _); [|discriminate].
  by intros [= _ <-].
Qed.

Lemma monolith_step_safe (order : list Z) (g : Monolith.Engine) :
  monolithSafe g → monolithSafe (Monolith.step order g).
Proof.
  intros Hsafe. unfold Monolith.step.
  destruct (negb (Monolith.Mode (Monolith.elev g) =? ModeAuto)); [done|].
  destruct (Monolith.isMoving g) eqn:Hmv; [done|].
  destruct (allClosed (Monolith.doors (Monolith.elev g))) eqn:Hcl;
    cbn [negb]; [|done].
  apply allClosed_true in Hcl.
  assert (Hidle : Monolith.travelTimer g = None).
  { destruct Hsafe as [Ht _].
    destruct (Monolith.travelTimer g) eqn:Htt; [|done].
    assert (Monolith.isMoving g = true) by (apply Ht; congruence).
    congruence. }
  destruct (Monolith.selectNextTarget order (Monolith.elev g)) as [t fd].
  assert (Hgo : ∀ dir dur,
            monolithSafe
              (Monolith.mkEngine (Monolith.setDirection dir (Monolith.elev g))
                 true (Some dur))).
  { intros dir dur. split; [done|]. cbn. intros _ _.
    unfold Monolith.setDirection. case_decide; [done|].
    by rewrite mono_publish_doors. }
  destruct fd; cbn [negb].
  - repeat case_match; try apply Hgo.
    split; cbn; [by rewrite Hidle|by rewrite Hmv].
  - case_decide; [done|]. split; cbn; rewrite ?Hidle, ?Hmv; done.
Qed.

Lemma monolith_travel_safe (order : list Z) (g : Monolith.Engine) :
  monolithSafe g → monolithSafe (Monolith.exec (Monolith.TravelFire order) g).
Proof.
  intros Hsafe. cbn [Monolith.exec].
  destruct (Monolith.travelTimer g) eqn:Htt; [|done].
  destruct Hsafe as [Ht Hm].
  assert (Hmv : Monolith.isMoving g = true) by (apply Ht; congruence).
  unfold Monolith.travelDone. cbn [Monolith.elev Monolith.isMoving].
  destruct (Monolith.handleMove order (Monolith.elev g)) as [[c d] e'] eqn:Hh.
  destruct c; [|done].
  destruct (monolith_handleMove_keeps _ _ _ _ Hh) as [Hdir Hdoors].
  split; [done|]. cbn. intros _ Hnn. rewrite Hdoors. apply Hm; congruence.
Qed.

Lemma monolith_exec_safe (op : Monolith.Op) (g : Monolith.Engine) :
  Monolith.notManualDoor op → monolithSafe g →
  monolithSafe (Monolith.exec op g).
Proof.
  intros Hop Hsafe.
  destruct op as [o|o| | |fa ca|fr| | |md|wd|sd st| | | |].
  - by apply monolith_step_safe.
  - by apply monolith_travel_safe.
  - cbn [Monolith.exec].
    destruct (Monolith.doorTimer (Monolith.elev g)); [|done].
    apply monolith_quiet_safe; [|done]. intros e.
    apply (monolith_quiet_handleDoorTimeout (Monolith.withDoorTimer None e)).
  - by apply monolith_quiet_safe; [apply monolith_quiet_handleDoorTimeout|].
  - apply monolith_quiet_safe; [|done]. intros e.
    destruct (monolith_AddCall_frame fa ca e) as (_ & -> & ->). auto.
  - by apply monolith_quiet_safe; [apply monolith_quiet_RemoveCall|].
  - by apply monolith_quiet_safe; [apply monolith_quiet_ClearCalls|].
  - by apply monolith_quiet_safe; [apply monolith_quiet_Reset|].
  - by apply monolith_quiet_safe; [apply monolith_quiet_SetMode|].
  - by apply monolith_quiet_safe; [apply monolith_quiet_AddWeight|].
  - destruct Hop.
  - by apply monolith_quiet_safe; [apply monolith_quiet_PressOpenButton|].
  - by apply monolith_quiet_safe; [apply monolith_quiet_ReleaseOpenButton|].
  - by apply monolith_quiet_safe; [apply monolith_quiet_PressCloseButton|].
  - apply monolith_quiet_safe; [|done]. intros e. cbn. auto.
Qed.

Lemma monolith_reachable_safe (e0 : Monolith.Elevator) (g : Monolith.Engine) :
  Monolith.reachableBy Monolith.notManualDoor (Monolith.start e0) g →
  monolithSafe g.
Proof.
  induction 1 as [|g op _ IH Hop _]; [done|].
  by apply monolith_exec_safe.
Qed.

Lemma monolith_step_doors_open (order : list Z) (g : Monolith.Engine) :
  allClosed (Monolith.doors (Monolith.elev g)) = false →
  Monolith.step order g = g.
Proof.
  intros Hcl. unfold Monolith.step. rewrite Hcl. cbn [negb].
  by repeat case_match.
Qed.

Lemma monolith_handleArrival_direction (f : Z) (e : Monolith.Elevator) :
  Monolith.direction (Monolith.handleArrival f e) = Monolith.direction e.
Proof.
  mono_unfold. mono_simpl. repeat (case_match; mono_simpl); done.
Qed.

Lemma domain_decide_doors_open (order : list Z) (l : Domain.ElevatorLogic) :
  allClosed (Domain.LDoors l) = false →
  Domain.DecideNextStep order l = Domain.mkLogicAction Domain.ActionNone 0 DirEmpty.
Proof.
  intros Hcl. unfold Domain.DecideNextStep, Domain.AreDoorsClosed.
  by rewrite Hcl.
Qed.

Lemma domain_decide_acts_closed (order : list Z) (l : Domain.ElevatorLogic) :
  Domain.Type_ (Domain.DecideNextStep order l) ≠ Domain.ActionNone →
  Domain.LDoors l = closedDoors.
Proof.
  intros Hact. apply allClosed_true.
  destruct (allClosed (Domain.LDoors l)) eqn:Hcl; [done|].
  by rewrite domain_decide_doors_open in Hact.
Qed.

Lemma service_setDirection_doors (d : Direction) (s : Service.Elevator) :
  Domain.LDoors (Service.Logic (Service.setDirection d s))
  = Domain.LDoors (Service.Logic s).
Proof.
  unfold Service.setDirection. case_decide; [done|].
  by rewrite service_publish_Logic.
Qed.

Lemma service_setFloor_keeps (f : Z) (s : Service.Elevator) :
  Domain.LDoors (Service.Logic (Service.setFloor f s))
  = Domain.LDoors (Service.Logic s)
  ∧ Domain.LDirection (Service.Logic (Service.setFloor f s))
    = Domain.LDirection (Service.Logic s).
Proof.
  unfold Service.setFloor. case_decide; [done|].
  by rewrite service_publish_Logic.
Qed.

Lemma service_quiet_safe
    (f : Service.Elevator → Service.Elevator) (h : Service.Engine) :
  serviceQuiet f → serviceSafe h → serviceSafe (Service.onElevator f h).
Proof.
  intros Hq [Ht Hm]. destruct (Hq (Service.elev h)) as [Hdir Hdoors].
  split; [done|]. cbn. intros Hmv Hnn.
  assert (Hpre : Domain.LDirection (Service.Logic (Service.elev h))
                 ≠ DirNone).
  { destruct Hdir as [Hd|Hd]; congruence. }
  apply Hdoors; [by apply Hm|done].
Qed.

Lemma service_step_safe (order : list Z) (h : Service.Engine) :
  serviceSafe h → serviceSafe (Service.step order h).
Proof.
  intros Hsafe. unfold Service.step.
  destruct (negb (Service.Mode (Service.elev h) =? ModeAuto)); [done|].
  destruct (Service.isMoving h) eqn:Hmv; [done|].
  assert (Hidle : Service.travelTimer h = None).
  { destruct Hsafe as [Ht _].
    destruct (Service.travelTimer h) eqn:Htt; [|done].
    assert (Service.isMoving h = true) by (apply Ht; congruence).
    congruence. }
  pose proof (domain_decide_acts_closed order
                (Service.Logic (Service.elev h))) as Hclosed.
  destruct (Domain.Type_ _); try done.
  - split; [done|]. cbn. intros _ _.
    rewrite service_setDirection_doors. by apply Hclosed.
  - split; cbn; [by rewrite Hidle|by rewrite Hmv].
  - case_decide; [done|]. split; cbn; [by rewrite Hidle|by rewrite Hmv].
Qed.

Lemma service_travel_safe (order : list Z) (h : Service.Engine) :
  serviceSafe h → serviceSafe (Service.exec (Service.TravelFire order) h).
Proof.
  intros Hsafe. cbn [Service.exec].
  destruct (Service.travelTimer h) eqn:Htt; [|done].
  destruct Hsafe as [Ht Hm].
  assert (Hmv : Service.isMoving h = true) by (apply Ht; congruence).
  unfold Service.travelDone, Service.handleMoveComplete.
  cbn [Service.elev Service.isMoving].
  set (s1 := Service.setFloor _ (Service.elev h)).
  pose proof (domain_decide_acts_closed order (Service.Logic s1)) as Hclosed.
  destruct (Domain.Type_ _); try done.
  split; [done|]. cbn. intros _ _.
  case_decide; rewrite ?service_setDirection_doors; by apply Hclosed.
Qed.

Lemma service_AddCall_frame (f : Z) (c : bool) (s : Service.Elevator) :
  Domain.LDirection (Service.Logic (snd (Service.AddCall f c s)))
  = Domain.LDirection (Service.Logic s)
  ∧ Domain.LDoors (Service.Logic (snd (Service.AddCall f c s)))
    = Domain.LDoors (Service.Logic s).
Proof.
  destruct (service_AddCall_cases f c s) as [(err & -> & _)|[_ ->]]; done.
Qed.

Lemma service_exec_safe (op : Service.Op) (h : Service.Engine) :
  Service.notManualDoor op → serviceSafe h →
  serviceSafe (Service.exec op h).
Proof.
  intros Hop Hsafe.
  destruct op as [o|o| | |fa ca|fr| | |md|wd|sd st| | | |].
  - by apply service_step_safe.
  - by apply service_travel_safe.
  - cbn [Service.exec].
    destruct (Service.doorTimer (Service.elev h)); [|done].
    apply service_quiet_safe; [|done]. intros s.
    apply (service_quiet_handleDoorTimeout (Service.withDoorTimer None s)).
  - by apply service_quiet_safe; [apply service_quiet_handleDoorTimeout|].
  - apply service_quiet_safe; [|done]. intros s.
    destruct (service_AddCall_frame fa ca s) as (-> & ->). auto.
  - by apply service_quiet_safe; [apply service_quiet_RemoveCall|].
  - by apply service_quiet_safe; [apply service_quiet_ClearCalls|].
  - by apply service_quiet_safe; [apply service_quiet_Reset|].
  - by apply service_quiet_safe; [apply service_quiet_SetMode|].
  - by apply service_quiet_safe; [apply service_quiet_AddWeight|].
  - destruct Hop.
  - by apply service_quiet_safe; [apply service_quiet_PressOpenButton|].
  - by apply service_quiet_safe; [apply service_quiet_ReleaseOpenButton|].
  - by apply service_quiet_safe; [apply service_quiet_PressCloseButton|].
  - apply service_quiet_safe; [|done]. intros s. cbn. auto.
Qed.

Lemma service_reachable_safe (s0 : Service.Elevator) (h : Service.Engine) :
  Service.reachableBy Service.notManualDoor (Service.start s0) h →
  serviceSafe h.
Proof.
  induction 1 as [|h op _ IH Hop _]; [done|].
  by apply service_exec_safe.
Qed.

Lemma service_step_doors_open (order : list Z) (h : Service.Engine) :
  allClosed (Domain.LDoors (Service.Logic (Service.elev h))) = false →
  Service.step order h = h.
Proof.
  intros Hcl. unfold Service.step.
  rewrite (domain_decide_doors_open order _ Hcl). cbn.
  by repeat case_match.
Qed.

Lemma service_handleArrival_direction (f : Z) (s : Service.Elevator) :
  Domain.LDirection (Service.Logic (Service.handleArrival f s))
  = Domain.LDirection (Service.Logic s).
Proof.
  service_unfold. service_simpl. repeat (case_match; service_simpl); done.
Qed.

(** C1, as the code has it.  In every state that either engine reaches
    without the manual door override [SetDoor]: while a hop is under way
    and the direction is Up or Down, both doors are in state Close.  A
    step taken while some door is not Close changes nothing, so it starts
    no motion.  An arrival sets doors to Opening and leaves the direction
    as it was: the heading is kept through the door cycle, for the next
    scan. *)
Theorem motion_keeps_doors_closed
    (e0 : Monolith.Elevator) (g : Monolith.Engine)
    (s0 : Service.Elevator) (h : Service.Engine) :
  Monolith.reachableBy Monolith.notManualDoor (Monolith.start e0) g →
  Service.reachableBy Service.notManualDoor (Service.start s0) h →
  ((Monolith.isMoving g = true →
    Monolith.direction (Monolith.elev g) = DirUp
    ∨ Monolith.direction (Monolith.elev g) = DirDown →
    Monolith.doors (Monolith.elev g) = closedDoors)
   ∧ (∀ order, allClosed (Monolith.doors (Monolith.elev g)) = false →
               Monolith.step order g = g)
   ∧ (∀ f, Monolith.direction (Monolith.handleArrival f (Monolith.elev g))
           = Monolith.direction (Monolith.elev g)))
  ∧ ((Service.isMoving h = true →
      Domain.LDirection (Service.Logic (Service.elev h)) = DirUp
      ∨ Domain.LDirection (Service.Logic (Service.elev h)) = DirDown →
      Domain.LDoors (Service.Logic (Service.elev h)) = closedDoors)
     ∧ (∀ order,
          allClosed (Domain.LDoors (Service.Logic (Service.elev h))) = false →
          Service.step order h = h)
     ∧ (∀ f, Domain.LDirection
               (Service.Logic (Service.handleArrival f (Service.elev h)))
             = Domain.LDirection (Service.Logic (Service.elev h)))).
Proof.
  intros Hg Hh. split.
  - destruct (monolith_reachable_safe e0 g Hg) as [_ Hm].
    split; [|split].
    + intros Hmv Hdir. apply Hm; [done|]. destruct Hdir; congruence.
    + intros order. apply monolith_step_doors_open.
    + intros f. apply monolith_handleArrival_direction.
  - destruct (service_reachable_safe s0 h Hh) as [_ Hm].
    split; [|split].
    + intros Hmv Hdir. apply Hm; [done|]. destruct Hdir; congruence.
    + intros order. apply service_step_doors_open.
    + intros f. apply service_handleArrival_direction.
Qed.

Lemma monolithMoving_reachable :
  Monolith.reachableBy Monolith.notManualDoor (Monolith.start monolith0)
    monolithMoving.
Proof.
  apply monolith_run_reachable; [apply Monolith.reach_start| |].
  - repeat constructor.
  - cbn -[Monolith.exec]. repeat split; vm_compute; reflexivity.
Qed.

Lemma serviceMoving_reachable :
  Service.reachableBy Service.notManualDoor (Service.start service0)
    serviceMoving.
Proof.
  apply service_run_reachable; [apply Service.reach_start| |].
  - repeat constructor.
  - cbn -[Service.exec]. repeat split; vm_compute; reflexivity.
Qed.

(** The theorem on the way from floor 1 to a call at floor 5: both engines
    are moving up with their doors closed. *)
Lemma motion_keeps_doors_closed_witness :
  Monolith.doors (Monolith.elev monolithMoving) = closedDoors
  ∧ Domain.LDoors (Service.Logic (Service.elev serviceMoving)) = closedDoors.
Proof.
  destruct (motion_keeps_doors_closed monolith0 monolithMoving
              service0 serviceMoving) as [(Hm & _) (Hs & _)].
  - apply monolithMoving_reachable.
  - apply serviceMoving_reachable.
  - split; [apply Hm|apply Hs]; first [reflexivity|left; reflexivity].
Defined.

(** C1 fails after an arrival: one hop from floor 1 to a call at floor 2
    leaves both engines with the front door Opening and the direction
    still Up. *)
Lemma arrival_keeps_heading :
  (Monolith.reachable (Monolith.start monolith0) monolithAt2
   ∧ Monolith.direction (Monolith.elev monolithAt2) = DirUp
   ∧ front (Monolith.doors (Monolith.elev monolithAt2)) = DoorOpening)
  ∧ (Service.reachable (Service.start service0) serviceAt2
     ∧ Domain.LDirection (Service.Logic (Service.elev serviceAt2)) = DirUp
     ∧ front (Domain.LDoors (Service.Logic (Service.elev serviceAt2)))
       = DoorOpening).
Proof.
  split; (split; [|split; vm_compute; reflexivity]).
  - eapply reachableBy_weaken_monolith, monolithAt2_reachable.
  - eapply reachableBy_weaken_service, serviceAt2_reachable.
Qed.

(** ** The overload guard over a run *)

Lemma activeDoor_open_not_closed (d : Doors) :
  Monolith.activeDoor d = DoorOpen → allClosed d = false.
Proof. destruct d as [[] []]; cbn; done. Qed.

Lemma service_activeDoor_open_not_closed (d : Doors) :
  Service.activeDoor d = DoorOpen → allClosed d = false.
Proof. destruct d as [[] []]; cbn; done. Qed.

Lemma monolith_held_exec (op : Monolith.Op) (g : Monolith.Engine) :
  monolithWhileHeld op → monolithHeld (Monolith.elev g) →
  Monolith.doors (Monolith.elev (Monolith.exec op g))
  = Monolith.doors (Monolith.elev g)
  ∧ Monolith.weight (Monolith.elev (Monolith.exec op g))
    = Monolith.weight (Monolith.elev g)
  ∧ MaxWeight (Monolith.Cfg (Monolith.elev (Monolith.exec op g)))
    = MaxWeight (Monolith.Cfg (Monolith.elev g)).
Proof.
  intros Hop [Hact Hover].
  destruct op as [o|o| | |fa ca|fr| | |md|wd|sd st| | | |];
    unfold Monolith.exec, Monolith.onElevator; cbn [Monolith.elev].
  - rewrite monolith_step_doors_open; [done|].
    by apply activeDoor_open_not_closed.
  - destruct Hop.
  - destruct (Monolith.doorTimer (Monolith.elev g)); [|done].
    cbn [Monolith.elev]. by rewrite monolith_overload_fire.
  - by rewrite monolith_overload_fire.
  - unfold Monolith.AddCall. repeat case_match; done.
  - by cbn.
  - by cbn.
  - destruct Hop.
  - unfold Monolith.SetMode. repeat case_match; mono_simpl; done.
  - destruct Hop.
  - destruct Hop.
  - unfold Monolith.PressOpenButton. cbn. by rewrite Hact.
  - unfold Monolith.ReleaseOpenButton. by case_decide.
  - unfold Monolith.PressCloseButton. by repeat case_match.
  - by cbn.
Qed.

Lemma monolith_held_run (ops : list Monolith.Op) (g : Monolith.Engine) :
  Forall monolithWhileHeld ops → monolithHeld (Monolith.elev g) →
  Monolith.doors (Monolith.elev (monolithRun ops g))
  = Monolith.doors (Monolith.elev g)
  ∧ monolithHeld (Monolith.elev (monolithRun ops g)).
Proof.
  revert g. induction ops as [|op rest IH]; intros g Hall Hheld; [done|].
  apply Forall_cons in Hall as [Hop Hall]. cbn [monolithRun].
  destruct (monolith_held_exec op g Hop Hheld) as (Hd & Hw & Hc).
  assert (Hheld' : monolithHeld (Monolith.elev (Monolith.exec op g))).
  { destruct Hheld as [Hact Hover]. split; [by rewrite Hd|].
    by rewrite Hw, Hc. }
  destruct (IH _ Hall Hheld') as [IHd IHh]. split; [congruence|done].
Qed.

Lemma service_held_exec (op : Service.Op) (h : Service.Engine) :
  serviceWhileHeld op → serviceHeld (Service.elev h) →
  Domain.LDoors (Service.Logic (Service.elev (Service.exec op h)))
  = Domain.LDoors (Service.Logic (Service.elev h))
  ∧ Domain.Weight (Service.Logic (Service.elev (Service.exec op h)))
    = Domain.Weight (Service.Logic (Service.elev h))
  ∧ MaxWeight (Service.Cfg (Service.elev (Service.exec op h)))
    = MaxWeight (Service.Cfg (Service.elev h)).
Proof.
  intros Hop (Hact & Hrear & Hover).
  destruct op as [o|o| | |fa ca|fr| | |md|wd|sd st| | | |];
    unfold Service.exec, Service.onElevator; cbn [Service.elev].
  - rewrite service_step_doors_open; [done|].
    by apply service_activeDoor_open_not_closed.
  - destruct Hop.
  - destruct (Service.doorTimer (Service.elev h)); [|done].
    cbn [Service.elev]. by rewrite service_overload_fire.
  - by rewrite service_overload_fire.
  - by destruct (service_AddCall_cases fa ca (Service.elev h))
      as [(err & -> & _)|[_ ->]].
  - by cbn.
  - by cbn.
  - destruct Hop.
  - unfold Service.SetMode, Service.setDirection.
    repeat case_match; service_simpl; done.
  - destruct Hop.
  - destruct Hop.
  - unfold Service.PressOpenButton. cbn.
    assert (Hfront : front (Domain.LDoors (Service.Logic (Service.elev h)))
                     ≠ DoorClosing).
    { intros Hf. unfold Service.activeDoor in Hact. rewrite Hf in Hact.
      discriminate. }
    rewrite !bool_decide_eq_false_2 by done. cbn.
    by case_bool_decide.
  - by cbn.
  - unfold Service.PressCloseButton. by repeat case_match.
  - by cbn.
Qed.

Lemma service_held_run (ops : list Service.Op) (h : Service.Engine) :
  Forall serviceWhileHeld ops → serviceHeld (Service.elev h) →
  Domain.LDoors (Service.Logic (Service.elev (serviceRun ops h)))
  = Domain.LDoors (Service.Logic (Service.elev h))
  ∧ serviceHeld (Service.elev (serviceRun ops h)).
Proof.
  revert h. induction ops as [|op rest IH]; intros h Hall Hheld; [done|].
  apply Forall_cons in Hall as [Hop Hall]. cbn [serviceRun].
  destruct (service_held_exec op h Hop Hheld) as (Hd & Hw & Hc).
  assert (Hheld' : serviceHeld (Service.elev (Service.exec op h))).
  { destruct Hheld as (Hact & Hrear & Hover).
    split; [by rewrite Hd|]. split; [by rewrite Hd|]. by rewrite Hw, Hc. }
  destruct (IH _ Hall Hheld') as [IHd IHh]. split; [congruence|done].
Qed.

(** C6, as the code has it.  When the door handler runs on an open door
    with [MaxWeight > 0] and the weight above it, nothing changes but the
    door timer: the doors stay as they are, no event is queued or dropped,
    and the timer is armed again.  It is armed for [openWaitTime], except
    in the single-file engine while the OPEN button is held: there the
    check of the button comes first and arms it for [DoorReopenTime].
    However many times the timer fires in that condition the doors and the
    event queue stay the same, and the doors stay the same over any run of
    ticks, door-timer fires, button presses, calls and mode changes: as
    long as the weight is not changed no door leaves state Open. *)
Theorem overload_keeps_doors_open
    (n : nat) (g : Monolith.Engine) (h : Service.Engine)
    (ops : list Monolith.Op) (sops : list Service.Op) :
  monolithHeld (Monolith.elev g) →
  serviceHeld (Service.elev h) →
  Forall monolithWhileHeld ops →
  Forall serviceWhileHeld sops →
  (Monolith.handleDoorTimeout (Monolith.elev g)
   = Monolith.withDoorTimer
       (Some (if Monolith.isOpenButtonPressed (Monolith.elev g)
              then DoorReopenTime (Monolith.Cfg (Monolith.elev g))
              else Monolith.openWaitTime (Monolith.elev g)))
       (Monolith.elev g)
   ∧ Monolith.doors (Nat.iter n Monolith.handleDoorTimeout (Monolith.elev g))
     = Monolith.doors (Monolith.elev g)
   ∧ Monolith.eventCh
       (Nat.iter n Monolith.handleDoorTimeout (Monolith.elev g))
     = Monolith.eventCh (Monolith.elev g)
   ∧ Monolith.droppedEventCount
       (Nat.iter n Monolith.handleDoorTimeout (Monolith.elev g))
     = Monolith.droppedEventCount (Monolith.elev g)
   ∧ Monolith.doors (Monolith.elev (monolithRun ops g))
     = Monolith.doors (Monolith.elev g))
  ∧ (Service.handleDoorTimeout (Service.elev h)
     = Service.withDoorTimer (Some (Service.openWaitTime (Service.elev h)))
         (Service.elev h)
     ∧ Domain.LDoors
         (Service.Logic
            (Nat.iter n Service.handleDoorTimeout (Service.elev h)))
       = Domain.LDoors (Service.Logic (Service.elev h))
     ∧ Service.eventCh
         (Nat.iter n Service.handleDoorTimeout (Service.elev h))
       = Service.eventCh (Service.elev h)
     ∧ Service.droppedEventCount
         (Nat.iter n Service.handleDoorTimeout (Service.elev h))
       = Service.droppedEventCount (Service.elev h)
     ∧ Domain.LDoors (Service.Logic (Service.elev (serviceRun sops h)))
       = Domain.LDoors (Service.Logic (Service.elev h))).
Proof.
  intros Hg Hh Hops Hsops. split.
  - pose proof Hg as [Hae Hoe].
    split; [by apply monolith_overload_fire|].
    rewrite (monolith_overload_fires n _ Hae Hoe).
    destruct (monolith_held_run ops g Hops Hg) as [Hrun _].
    destruct n; [done|]. by rewrite monolith_overload_fire.
  - pose proof Hh as (Has & _ & Hos).
    split; [by apply service_overload_fire|].
    rewrite (service_overload_fires n _ Has Hos).
    destruct (service_held_run sops h Hsops Hh) as [Hrun _].
    destruct n; [done|]. by rewrite service_overload_fire.
Qed.

Example monolithOverload_state :
  Monolith.doors (Monolith.elev monolithOverload) = mkDoors DoorOpen DoorClose
  ∧ Monolith.weight (Monolith.elev monolithOverload) = 1500
  ∧ Monolith.isOpenButtonPressed (Monolith.elev monolithOverload) = false
  ∧ Monolith.openWaitTime (Monolith.elev monolithOverload) = 3000000000.
Proof. vm_compute. done. Qed.

Example serviceOverload_state :
  Domain.LDoors (Service.Logic (Service.elev serviceOverload))
  = mkDoors DoorOpen DoorClose
  ∧ Domain.Weight (Service.Logic (Service.elev serviceOverload)) = 1500
  ∧ Service.openWaitTime (Service.elev serviceOverload) = 3000000000.
Proof. vm_compute. done. Qed.

(** The theorem after an arrival with 1500 kg aboard (limit 1000 kg): the
    timer fires, the CLOSE button is pressed, the timer fires again and a
    tick passes, and the front door of the single-file engine is still
    open; a fire of the door timer arms the timer of the logic-split
    engine for the 3 s hold. *)
Lemma overload_keeps_doors_open_witness :
  Monolith.doors
    (Monolith.elev
       (monolithRun
          [Monolith.DoorFire; Monolith.CmdPressClose; Monolith.DoorFire;
           Monolith.Tick []]
          monolithOverload))
  = mkDoors DoorOpen DoorClose
  ∧ Service.doorTimer
      (Service.handleDoorTimeout (Service.elev serviceOverload))
    = Some 3000000000.
Proof.
  destruct (overload_keeps_doors_open 3 monolithOverload serviceOverload
              [Monolith.DoorFire; Monolith.CmdPressClose; Monolith.DoorFire;
               Monolith.Tick []]
              [Service.DoorFire])
    as [(_ & _ & _ & _ & Hd) (Hs & _)].
  - split; [reflexivity|split; reflexivity].
  - split; [reflexivity|]. split; [discriminate|split; reflexivity].
  - repeat constructor.
  - repeat constructor.
  - split; [rewrite Hd|rewrite Hs]; reflexivity.
Defined.

Lemma monolithHeldOverload_reachable :
  Monolith.reachable (Monolith.start (monolithOf holdConfig monolithBlank))
    monolithHeldOverload.
Proof.
  apply monolith_run_reachable; [apply Monolith.reach_start| |].
  - repeat constructor.
  - cbn -[Monolith.exec]. repeat split; vm_compute; reflexivity.
Qed.

(** C6 fails in the single-file engine when the OPEN button is held: the
    door is open, the car overloaded, the hold is the 3 s of the arrival,
    and the door timer is armed for the 5 s of [DoorReopenTime]. *)
Lemma overload_rearm_when_held :
  Monolith.reachable (Monolith.start (monolithOf holdConfig monolithBlank))
    monolithHeldOverload
  ∧ Monolith.doors (Monolith.elev monolithHeldOverload)
    = mkDoors DoorOpen DoorClose
  ∧ overloaded (MaxWeight (Monolith.Cfg (Monolith.elev monolithHeldOverload)))
      (Monolith.weight (Monolith.elev monolithHeldOverload))
  ∧ Monolith.openWaitTime (Monolith.elev monolithHeldOverload) = 3000000000
  ∧ Monolith.doorTimer
      (Monolith.handleDoorTimeout (Monolith.elev monolithHeldOverload))
    = Some 5000000000.
Proof.
  split; [apply monolithHeldOverload_reachable|].
  repeat split.
Qed.


(** * Properties of the rest of the code *)

(** ** Sorted snapshot of the calls *)

#[local] Instance Zle_total : Total Z.le.
Proof. intros x y. lia. Qed.

(** X1.  Sorted view of the calls.  Whatever order the map hands out the keys
    in, [CallFloors] returns the pending calls in ascending order, each
    once, and two snapshots of the same call set are equal. *)
Theorem CallFloors_sorted (calls : gset Z) (o1 o2 : list Z) :
  o1 ≡ₚ elements calls → o2 ≡ₚ elements calls →
  Sorted Z.le (CallFloors o1)
  ∧ NoDup (CallFloors o1)
  ∧ (∀ f, f ∈ CallFloors o1 ↔ f ∈ calls)
  ∧ CallFloors o1 = CallFloors o2.
Proof.
  intros Hp1 Hp2. unfold CallFloors.
  assert (Hs1 : Sorted Z.le (merge_sort Z.le o1)) by apply Sorted_merge_sort, _.
  assert (Hs2 : Sorted Z.le (merge_sort Z.le o2)) by apply Sorted_merge_sort, _.
  pose proof (merge_sort_Permutation Z.le o1) as Hm1.
  pose proof (merge_sort_Permutation Z.le o2) as Hm2.
  split; [done|]. split; [|split].
  - rewrite Hm1, Hp1. apply NoDup_elements.
  - intros f. rewrite Hm1, Hp1. apply elem_of_elements.
  - apply (Sorted_unique Z.le); try done. by rewrite Hm1, Hm2, Hp1, Hp2.
Qed.

Lemma CallFloors_sorted_witness :
  CallFloors [7; 3] = CallFloors [3; 7]
  ∧ (3 ∈ CallFloors [7; 3] ↔ 3 ∈ Monolith.callFloors monolithAt5Idle).
Proof.
  destruct (CallFloors_sorted (Monolith.callFloors monolithAt5Idle)
              [7; 3] [3; 7]) as (_ & _ & Hin & Heq).
  - by rewrite monolithAt5Idle_calls.
  - rewrite monolithAt5Idle_calls. apply perm_swap.
  - split; [exact Heq|apply Hin].
Defined.

(** ** Weight arithmetic *)

Lemma wrap64_inInt64 (z : Z) : inInt64 (wrap64 z).
Proof.
  unfold inInt64, wrap64.
  pose proof (Z.mod_pos_bound (z + 2 ^ 63) (2 ^ 64)). lia.
Qed.

Lemma wrap64_add_wrap (a b : Z) : wrap64 (a + wrap64 b) = wrap64 (a + b).
Proof.
  unfold wrap64.
  replace (a + ((b + 2 ^ 63) mod 2 ^ 64 - 2 ^ 63) + 2 ^ 63)
    with (a + (b + 2 ^ 63) mod 2 ^ 64) by lia.
  rewrite Z.add_mod_idemp_r by lia. f_equal. f_equal. lia.
Qed.

Lemma wrap64_id (z : Z) : inInt64 z → wrap64 z = z.
Proof. unfold inInt64. apply wrap64_small. Qed.

Lemma wrap64_add_twice (x a b : Z) :
  wrap64 (wrap64 (x + b) + a) = wrap64 (x + (a + b)).
Proof.
  rewrite (Z.add_comm (wrap64 _) a), wrap64_add_wrap. f_equal. lia.
Qed.

Lemma wrap64_set (x w : Z) : inInt64 w → wrap64 (x + wrap64 (w - x)) = w.
Proof.
  intros Hw. rewrite wrap64_add_wrap.
  replace (x + (w - x)) with w by lia. by apply wrap64_id.
Qed.

(** X2.  Setting the weight through the web session.  The session adds the
    difference between the wanted and the current weight; whatever the
    current weight, the result is the wanted weight (the two 64-bit
    overflows cancel) and nothing else of the elevator changes.  Two
    weight changes in a row are one change by the sum. *)
Theorem setWeight_round_trip
    (w a b : Z) (s : Service.Elevator) (e : Monolith.Elevator) :
  inInt64 w →
  setWeight w s = Service.withLogic (Domain.withWeight w (Service.Logic s)) s
  ∧ Domain.Weight (Service.Logic (setWeight w s)) = w
  ∧ Domain.Weight (Service.Logic (Service.AddWeight a (Service.AddWeight b s)))
    = Domain.Weight (Service.Logic (Service.AddWeight (a + b) s))
  ∧ Monolith.weight (Monolith.AddWeight a (Monolith.AddWeight b e))
    = Monolith.weight (Monolith.AddWeight (a + b) e).
Proof.
  intros Hw.
  assert (Hset : setWeight w s
                 = Service.withLogic
                     (Domain.withWeight w (Service.Logic s)) s).
  { unfold setWeight, Service.AddWeight. by rewrite wrap64_set. }
  split; [done|]. split; [by rewrite Hset|].
  split; cbn; apply wrap64_add_twice.
Qed.

(** The theorem on the overloaded car of 1500 kg: setting 900 kg gives
    900 kg. *)
Lemma setWeight_round_trip_witness :
  Domain.Weight (Service.Logic (setWeight 900 (Service.elev serviceOverload)))
  = 900.
Proof.
  destruct (setWeight_round_trip 900 0 0 (Service.elev serviceOverload)
              monolith0) as (_ & Hw & _).
  - unfold inInt64. lia.
  - exact Hw.
Defined.

(** ** Adding and removing a call *)

Lemma monolith_withCallFloors_same (e : Monolith.Elevator) (c : gset Z) :
  c = Monolith.callFloors e → Monolith.withCallFloors c e = e.
Proof. intros ->. by destruct e. Qed.

(** X3.  Calls come and go without a trace.  In both engines, removing a floor
    that is not called changes nothing; a call that was accepted for a
    floor not yet called is undone exactly by its removal; and after a
    removal the floor is never among the calls. *)
Theorem call_round_trip
    (f : Z) (isCarCall : bool) (e : Monolith.Elevator) (s : Service.Elevator) :
  f ∉ Monolith.callFloors e →
  f ∉ Domain.Calls (Service.Logic s) →
  (Monolith.RemoveCall f e = e
   ∧ Monolith.RemoveCall f (snd (Monolith.AddCall f isCarCall e)) = e
   ∧ ∀ e', f ∉ Monolith.callFloors (Monolith.RemoveCall f e'))
  ∧ (Service.RemoveCall f s = s
     ∧ Service.RemoveCall f (snd (Service.AddCall f isCarCall s)) = s
     ∧ ∀ s', f ∉ Domain.Calls (Service.Logic (Service.RemoveCall f s'))).
Proof.
  intros He Hs. split.
  - assert (Hrem : Monolith.RemoveCall f e = e).
    { apply monolith_withCallFloors_same. set_solver. }
    split; [done|]. split; [|intros e'; cbn; set_solver].
    destruct (monolith_AddCall_cases f isCarCall e)
      as [(err & -> & _)|[_ [[_ ->]|[_ ->]]]]; try done.
    destruct e. unfold Monolith.RemoveCall, Monolith.withCallFloors.
    cbn in *. f_equal. set_solver.
  - assert (Hrem : Service.RemoveCall f s = s).
    { apply withLogic_same, withCalls_same. set_solver. }
    split; [done|]. split; [|intros s'; cbn; set_solver].
    destruct (service_AddCall_cases f isCarCall s)
      as [(err & -> & _)|[_ ->]]; [done|].
    destruct s as [cfg [lc fl dir drs w calls] m owt dt ch n b].
    unfold Service.RemoveCall, Service.withLogic, Domain.RemoveCall,
      Domain.withCalls.
    cbn in *. do 2 f_equal. set_solver.
Qed.

(** The theorem on the engines as [New] makes them, for floor 4. *)
Lemma call_round_trip_witness :
  Monolith.RemoveCall 4 (snd (Monolith.AddCall 4 true monolith0)) = monolith0
  ∧ Service.RemoveCall 4 (snd (Service.AddCall 4 true service0)) = service0.
Proof.
  destruct (call_round_trip 4 true monolith0 service0)
    as [(_ & Hm & _) (_ & Hs & _)].
  - assert (Monolith.callFloors monolith0 = ∅) as -> by reflexivity.
    set_solver.
  - assert (Domain.Calls (Service.Logic service0) = ∅) as -> by reflexivity.
    set_solver.
  - split; [exact Hm|exact Hs].
Defined.

(** ** Names *)

Lemma index_is_Some (names : list String.string) (d : Z) :
  is_Some (Names.index names d) ↔ 0 <= d < Z.of_nat (length names).
Proof.
  unfold Names.index. destruct (Z.ltb_spec d 0).
  - split; [by intros ?%is_Some_None|lia].
  - rewrite lookup_lt_is_Some. lia.
Qed.

(** X4.  The [String] methods look the value up in a fixed array.  For an
    operation mode this gives its name for the four modes and is out of
    range for every other integer.  For a door side the array starts at
    index 0 but the sides are the bits 1, 2 and 3: [Front] prints as
    Rear, [Rear] prints as Both, and [Both] is out of range. *)
Theorem names_by_index (d m : Z) :
  (is_Some (Names.DoorSideString d) ↔ 0 <= d < 3)
  ∧ Names.DoorSideString (sideBit Front) = Names.DoorSideNames !! 1%nat
  ∧ Names.DoorSideString (sideBit Rear) = Names.DoorSideNames !! 2%nat
  ∧ Names.DoorSideString Both = None
  ∧ (is_Some (Names.OperationModeString m) ↔ 0 <= m < 4)
  ∧ Names.OperationModeString ModeAuto = Names.OperationModeNames !! 0%nat
  ∧ Names.OperationModeString ModeManual = Names.OperationModeNames !! 1%nat
  ∧ Names.OperationModeString ModeMoving = Names.OperationModeNames !! 2%nat
  ∧ Names.OperationModeString ModeEmergency
    = Names.OperationModeNames !! 3%nat.
Proof.
  split; [apply index_is_Some|].
  do 3 (split; [reflexivity|]).
  split; [apply index_is_Some|].
  repeat split.
Qed.

(** ** The floor configurations after [New] *)

Lemma fillDefaults_lookup (lo hi : Z) (m : option (gmap Z FloorConfig))
    (f : Z) :
  lo <= hi →
  fillDefaults lo hi m !! f
  = match lookupFloor m f with
    | Some c => Some c
    | None =>
        if bool_decide (lo <= f <= hi)
        then Some (defaultFloorConfig f) else None
    end.
Proof.
  intros Hle. unfold fillDefaults. rewrite fillFrom_lookup.
  assert (Hm : default ∅ m !! f = lookupFloor m f).
  { destruct m; [done|]. cbn. apply lookup_empty. }
  rewrite Hm. destruct (lookupFloor m f); [done|].
  rewrite (bool_decide_ext (lo <= f < lo + Z.of_nat (Z.to_nat (hi - lo + 1)))
             (lo <= f <= hi)); [done|lia].
Qed.

(** X5.  What [New] does to the floor configurations.  An engine that [New]
    returns has, for every floor, the configuration that was supplied for
    it (also outside the range); a floor of the range without one gets
    the default (accessible, front door); no other floor gets one.  The
    logic of the logic-split engine always has this map; the service's
    own [Config] has it only when the caller supplied a map, and keeps
    [nil] otherwise.  A reopen time of zero becomes the open time. *)
Theorem new_fills_floor_configs
    (config : Config) (e0 : Monolith.Elevator) (s0 : Service.Elevator)
    (f : Z) :
  Monolith.New config = inr e0 →
  Service.New config = inr s0 →
  lookupFloor (FloorConfigs (Monolith.Cfg e0)) f = filledLookup config f
  ∧ lookupFloor (Domain.FloorConfigs (Domain.LConfig (Service.Logic s0))) f
    = filledLookup config f
  ∧ lookupFloor (FloorConfigs (Service.Cfg s0)) f
    = (if FloorConfigs config is Some _ then filledLookup config f else None)
  ∧ DoorReopenTime (Monolith.Cfg e0)
    = (if DoorReopenTime config =? 0 then DoorOpenTime config
       else DoorReopenTime config)
  ∧ DoorReopenTime (Service.Cfg s0) = DoorReopenTime (Monolith.Cfg e0).
Proof.
  unfold Monolith.New, Service.New, filledLookup.
  destruct (Z.ltb_spec (MaxFloor config) (MinFloor config)); [discriminate|].
  intros [= <-] [= <-]. cbn.
  rewrite !fillDefaults_lookup by done.
  split; [done|]. split; [done|]. split; [|done].
  destruct (FloorConfigs config) eqn:Hfc; cbn; [|done].
  by rewrite fillDefaults_lookup.
Qed.

(** The theorem on floors 1..5 where only floor 2 was configured
    (inaccessible): floor 2 keeps its entry and floor 3 gets the default. *)
Lemma new_fills_floor_configs_witness :
  lookupFloor
    (FloorConfigs (Monolith.Cfg (monolithOf testConfig monolithBlank))) 3
  = Some (defaultFloorConfig 3)
  ∧ lookupFloor
      (Domain.FloorConfigs
         (Domain.LConfig
            (Service.Logic (serviceOf testConfig serviceBlank)))) 2
    = Some (mkFloorConfig 2 false 0).
Proof.
  destruct (new_fills_floor_configs testConfig
              (monolithOf testConfig monolithBlank)
              (serviceOf testConfig serviceBlank) 3) as (H3 & _);
    [reflexivity|reflexivity|].
  destruct (new_fills_floor_configs testConfig
              (monolithOf testConfig monolithBlank)
              (serviceOf testConfig serviceBlank) 2) as (_ & H2 & _);
    [reflexivity|reflexivity|].
  split; [rewrite H3|rewrite H2]; reflexivity.
Defined.

(** ** The scheduler as a whole *)

Lemma scan_target_in (keep : Z → bool) (dist : Z → Z) (order : list Z) :
  scanFound (scan keep dist order) = true →
  scanTarget (scan keep dist order) ∈ order.
Proof.
  induction order as [|x l IH] using rev_ind; [discriminate|].
  rewrite scan_snoc. unfold scanStep.
  destruct (scan keep dist l) as [[m t] fd].
  destruct (keep x); [destruct (dist x <? m)|]; cbn in *; intros Hf;
    rewrite elem_of_app, list_elem_of_singleton; auto.
Qed.

Lemma nearest_found (floor : Z) (calls : gset Z) (order : list Z) :
  order ≡ₚ elements calls → floorsFit floor calls → calls ≠ ∅ →
  scanFound (nearest floor order) = true.
Proof.
  intros Hp [Hfl Hfc] Hne. unfold nearest.
  apply set_choose_L in Hne as [f Hf].
  apply scan_found_iff.
  - intros g Hg _. apply (elem_of_order _ _ _ Hp) in Hg.
    rewrite dist_fits32 by auto.
    specialize (Hfc g Hg). unfold fits32, MaxInt64 in *. lia.
  - exists f. split; [by apply (elem_of_order _ _ _ Hp)|done].
Qed.

Lemma monolith_schedules (order : list Z) (e : Monolith.Elevator) :
  order ≡ₚ elements (Monolith.callFloors e) →
  floorsFit (Monolith.floor e) (Monolith.callFloors e) →
  schedules (monolithAhead e) (Monolith.floor e) (Monolith.callFloors e)
    (Monolith.selectNextTarget order e).
Proof.
  intros Hp Hfit. split.
  { intros He. unfold Monolith.selectNextTarget.
    by rewrite bool_decide_eq_true_2. }
  intros Hne.
  pose proof (nearest_found _ _ _ Hp Hfit Hne) as Hnf.
  pose proof (nearest_member _ _ _ Hp Hfit Hnf) as Hnm.
  assert (Hsel2 : scanFound (Monolith.ahead order e) = false →
            Monolith.selectNextTarget order e
            = (scanTarget (nearest (Monolith.floor e) order), true)).
  { intros Hah. unfold Monolith.selectNextTarget.
    by rewrite bool_decide_eq_false_2, Hah, Hnf. }
  assert (Hfall : scanFound (Monolith.ahead order e) = false →
            snd (Monolith.selectNextTarget order e) = true
            ∧ fst (Monolith.selectNextTarget order e) ∈ Monolith.callFloors e
            ∧ ((∀ f, f ∈ Monolith.callFloors e → ¬ monolithAhead e f) →
               nearestOf (λ _, True) (Monolith.floor e)
                 (Monolith.callFloors e)
                 (fst (Monolith.selectNextTarget order e)))).
  { intros Hah. rewrite (Hsel2 Hah). cbn. split; [done|].
    split; [by destruct Hnm|done]. }
  assert (Hph : ∀ P : Z → Prop,
            (∀ f, P f ↔ monolithAhead e f) →
            phase1Spec P (Monolith.floor e) (Monolith.callFloors e)
              (Monolith.ahead order e) (Monolith.selectNextTarget order e) →
            snd (Monolith.selectNextTarget order e) = true
            ∧ fst (Monolith.selectNextTarget order e) ∈ Monolith.callFloors e
            ∧ ((∀ f, f ∈ Monolith.callFloors e → ¬ monolithAhead e f) →
               nearestOf (λ _, True) (Monolith.floor e)
                 (Monolith.callFloors e)
                 (fst (Monolith.selectNextTarget order e)))).
  { intros P HP [Hiff Hsp].
    destruct (scanFound (Monolith.ahead order e)) eqn:Hah; [|by apply Hfall].
    destruct (Hsp eq_refl) as [(Hin & _) ->]. cbn.
    split; [done|]. split; [done|]. intros Hnone.
    destruct (proj1 Hiff eq_refl) as (f & Hf & HPf).
    destruct (Hnone f Hf). by apply HP. }
  destruct (Monolith.direction e) eqn:Hdir.
  - eapply Hph; [|by apply monolith_phase1_up].
    intros f. unfold monolithAhead. by rewrite Hdir.
  - eapply Hph; [|by apply monolith_phase1_down].
    intros f. unfold monolithAhead. by rewrite Hdir.
  - apply Hfall. unfold Monolith.ahead. by rewrite Hdir.
  - apply Hfall. unfold Monolith.ahead. by rewrite Hdir.
Qed.

Lemma domain_schedules (order : list Z) (l : Domain.ElevatorLogic) :
  order ≡ₚ elements (Domain.Calls l) →
  floorsFit (Domain.Floor l) (Domain.Calls l) →
  schedules (domainAhead l) (Domain.Floor l) (Domain.Calls l)
    (Domain.selectNextTarget order l).
Proof.
  intros Hp Hfit. split.
  { intros He. unfold Domain.selectNextTarget.
    by rewrite bool_decide_eq_true_2. }
  intros Hne.
  pose proof (nearest_found _ _ _ Hp Hfit Hne) as Hnf.
  pose proof (nearest_member _ _ _ Hp Hfit Hnf) as Hnm.
  assert (Hsel2 : scanFound (Domain.ahead order l) = false →
            Domain.selectNextTarget order l
            = (scanTarget (nearest (Domain.Floor l) order), true)).
  { intros Hah. unfold Domain.selectNextTarget.
    by rewrite bool_decide_eq_false_2, Hah, Hnf. }
  assert (Hfall : scanFound (Domain.ahead order l) = false →
            snd (Domain.selectNextTarget order l) = true
            ∧ fst (Domain.selectNextTarget order l) ∈ Domain.Calls l
            ∧ ((∀ f, f ∈ Domain.Calls l → ¬ domainAhead l f) →
               nearestOf (λ _, True) (Domain.Floor l) (Domain.Calls l)
                 (fst (Domain.selectNextTarget order l)))).
  { intros Hah. rewrite (Hsel2 Hah). cbn. split; [done|].
    split; [by destruct Hnm|done]. }
  assert (Hph : ∀ P : Z → Prop,
            (∀ f, P f ↔ domainAhead l f) →
            phase1Spec P (Domain.Floor l) (Domain.Calls l)
              (Domain.ahead order l) (Domain.selectNextTarget order l) →
            snd (Domain.selectNextTarget order l) = true
            ∧ fst (Domain.selectNextTarget order l) ∈ Domain.Calls l
            ∧ ((∀ f, f ∈ Domain.Calls l → ¬ domainAhead l f) →
               nearestOf (λ _, True) (Domain.Floor l) (Domain.Calls l)
                 (fst (Domain.selectNextTarget order l)))).
  { intros P HP [Hiff Hsp].
    destruct (scanFound (Domain.ahead order l)) eqn:Hah; [|by apply Hfall].
    destruct (Hsp eq_refl) as [(Hin & _) ->]. cbn.
    split; [done|]. split; [done|]. intros Hnone.
    destruct (proj1 Hiff eq_refl) as (f & Hf & HPf).
    destruct (Hnone f Hf). by apply HP. }
  destruct (Domain.LDirection l) eqn:Hdir.
  - eapply Hph; [|by apply domain_phase1_up].
    intros f. unfold domainAhead. by rewrite Hdir.
  - eapply Hph; [|by apply domain_phase1_down].
    intros f. unfold domainAhead. by rewrite Hdir.
  - apply Hfall. unfold Domain.ahead. by rewrite Hdir.
  - apply Hfall. unfold Domain.ahead. by rewrite Hdir.
Qed.

(** X6.  Both schedulers, whatever the order in which the calls are visited:
    with no pending call they find nothing; with a pending call they
    always find a target, the target is a pending call, and when no call
    lies ahead in the heading (the car is idle, or all calls are behind
    it) the target is the nearest of all pending calls, so the car
    reverses. *)
Theorem scheduler_falls_back_to_nearest
    (oe ol : list Z) (e : Monolith.Elevator) (l : Domain.ElevatorLogic) :
  oe ≡ₚ elements (Monolith.callFloors e) →
  floorsFit (Monolith.floor e) (Monolith.callFloors e) →
  ol ≡ₚ elements (Domain.Calls l) →
  floorsFit (Domain.Floor l) (Domain.Calls l) →
  schedules (monolithAhead e) (Monolith.floor e) (Monolith.callFloors e)
    (Monolith.selectNextTarget oe e)
  ∧ schedules (domainAhead l) (Domain.Floor l) (Domain.Calls l)
      (Domain.selectNextTarget ol l).
Proof.
  intros. split; [by apply monolith_schedules|by apply domain_schedules].
Qed.

(** The theorem on the idle car at floor 5 with calls at 3 and 7. *)
Lemma scheduler_falls_back_to_nearest_witness :
  schedules (monolithAhead monolithAt5Idle) 5
    (Monolith.callFloors monolithAt5Idle)
    (Monolith.selectNextTarget [7; 3] monolithAt5Idle)
  ∧ schedules (domainAhead logicAt5Idle) 5 (Domain.Calls logicAt5Idle)
      (Domain.selectNextTarget [7; 3] logicAt5Idle).
Proof.
  apply (scheduler_falls_back_to_nearest [7; 3] [7; 3]
           monolithAt5Idle logicAt5Idle).
  - by rewrite monolithAt5Idle_calls.
  - solve_floorsFit monolithAt5Idle_calls.
  - by rewrite logicAt5Idle_calls.
  - solve_floorsFit logicAt5Idle_calls.
Defined.

(** ** The car stays within the floor range *)

Ltac mono_stays :=
  intros e; mono_unfold; mono_simpl;
  repeat (case_match; mono_simpl); auto.

Lemma monolith_stays_handleArrival f : monolithStays (Monolith.handleArrival f).
Proof. mono_stays. Qed.
Lemma monolith_stays_handleDoorTimeout :
  monolithStays Monolith.handleDoorTimeout.
Proof. mono_stays. Qed.
Lemma monolith_stays_Reset : monolithStays Monolith.Reset.
Proof. mono_stays. Qed.
Lemma monolith_stays_SetMode m : monolithStays (Monolith.SetMode m).
Proof. mono_stays. Qed.
Lemma monolith_stays_RemoveCall f : monolithStays (Monolith.RemoveCall f).
Proof. mono_stays. Qed.
Lemma monolith_stays_ClearCalls : monolithStays Monolith.ClearCalls.
Proof. mono_stays. Qed.
Lemma monolith_stays_AddWeight w : monolithStays (Monolith.AddWeight w).
Proof. mono_stays. Qed.
Lemma monolith_stays_SetDoor side st : monolithStays (Monolith.SetDoor side st).
Proof. mono_stays. Qed.
Lemma monolith_stays_PressOpenButton : monolithStays Monolith.PressOpenButton.
Proof. mono_stays. Qed.
Lemma monolith_stays_ReleaseOpenButton :
  monolithStays Monolith.ReleaseOpenButton.
Proof. mono_stays. Qed.
Lemma monolith_stays_PressCloseButton :
  monolithStays Monolith.PressCloseButton.
Proof. mono_stays. Qed.

Lemma monolith_select_in_order
    (order : list Z) (e : Monolith.Elevator) (t : Z) :
  Monolith.selectNextTarget order e = (t, true) → t ∈ order.
Proof.
  unfold Monolith.selectNextTarget.
  destruct (bool_decide _); [discriminate|].
  destruct (scanFound (Monolith.ahead order e)) eqn:Hah.
  - intros [= <-]. unfold Monolith.ahead in *.
    destruct (Monolith.direction e); try discriminate;
      by apply scan_target_in.
  - destruct (scanFound (nearest (Monolith.floor e) order)) eqn:Hn;
      [|discriminate].
    intros [= <-]. by apply scan_target_in.
Qed.

Lemma monolith_setDirection_facts (d : Direction) (e : Monolith.Elevator) :
  Monolith.Cfg (Monolith.setDirection d e) = Monolith.Cfg e
  ∧ Monolith.floor (Monolith.setDirection d e) = Monolith.floor e
  ∧ Monolith.callFloors (Monolith.setDirection d e) = Monolith.callFloors e
  ∧ Monolith.direction (Monolith.setDirection d e) = d.
Proof.
  unfold Monolith.setDirection. case_decide; [done|].
  by rewrite mono_publish_Cfg, mono_publish_floor, mono_publish_calls,
    mono_publish_direction.
Qed.

Lemma monolith_setFloor_facts (f : Z) (e : Monolith.Elevator) :
  Monolith.Cfg (Monolith.setFloor f e) = Monolith.Cfg e
  ∧ Monolith.floor (Monolith.setFloor f e) = f
  ∧ Monolith.callFloors (Monolith.setFloor f e) = Monolith.callFloors e
  ∧ Monolith.direction (Monolith.setFloor f e) = Monolith.direction e.
Proof.
  unfold Monolith.setFloor. case_decide; [done|].
  by rewrite mono_publish_Cfg, mono_publish_floor, mono_publish_calls,
    mono_publish_direction.
Qed.

Lemma monolith_stays_inRange
    (f : Monolith.Elevator → Monolith.Elevator) (g : Monolith.Engine) :
  monolithStays f → monolithShrinks f →
  monolithInRange g → monolithInRange (Monolith.onElevator f g).
Proof.
  intros Hst Hsh (Hlo & Hhi & Hfl & Hcalls & Hup & Hdown).
  destruct (Hst (Monolith.elev g)) as [Hf Hd].
  destruct (Hsh (Monolith.elev g)) as [Hc Hs].
  unfold monolithInRange. cbn. rewrite Hc, Hf.
  split; [done|]. split; [done|]. split; [done|].
  split; [intros x Hx; apply Hcalls; set_solver|].
  split; intros Ht Hdir; [apply Hup|apply Hdown]; try done;
    destruct Hd; congruence.
Qed.

Lemma monolith_handleMove_floor (order : list Z) (e : Monolith.Elevator) :
  Monolith.floor (snd (Monolith.handleMove order e))
  = match Monolith.direction e with
    | DirUp => wrap64 (Monolith.floor e + 1)
    | DirDown => wrap64 (Monolith.floor e - 1)
    | _ => Monolith.floor e
    end.
Proof.
  unfold Monolith.handleMove.
  set (e1 := match Monolith.direction e with
             | DirUp => _ | DirDown => _ | _ => _ end).
  assert (H1 : Monolith.floor e1
               = match Monolith.direction e with
                 | DirUp => wrap64 (Monolith.floor e + 1)
                 | DirDown => wrap64 (Monolith.floor e - 1)
                 | _ => Monolith.floor e
                 end).
  { unfold e1. destruct (Monolith.direction e); try done;
      apply monolith_setFloor_facts. }
  rewrite <- H1.
  destruct (bool_decide _).
  { cbn [snd]. apply monolith_stays_handleArrival. }
  destruct (Monolith.selectNextTarget order e1) as [t fd].
  destruct fd; cbn [negb snd]; [|apply monolith_setDirection_facts].
  destruct (_ || _); cbn [snd]; [done|apply monolith_setDirection_facts].
Qed.

Lemma monolith_handleMove_calls (order : list Z) (e e' : Monolith.Elevator)
    (d : Z) :
  Monolith.handleMove order e = (true, d, e') →
  Monolith.callFloors e' = Monolith.callFloors e.
Proof.
  unfold Monolith.handleMove.
  set (e1 := match Monolith.direction e with
             | DirUp => _ | DirDown => _ | _ => _ end).
  assert (H1 : Monolith.callFloors e1 = Monolith.callFloors e).
  { unfold e1. destruct (Monolith.direction e); try done;
      apply monolith_setFloor_facts. }
  destruct (bool_decide _); [discriminate|].
  destruct (Monolith.selectNextTarget order e1) as [t fd].
  destruct fd; cbn [negb]; [|discriminate].
  destruct (_ || _); [|discriminate].
  by intros [= _ <-].
Qed.

Lemma monolith_step_inRange (order : list Z) (g : Monolith.Engine) :
  order ≡ₚ elements (Monolith.callFloors (Monolith.elev g)) →
  monolithInRange g → monolithInRange (Monolith.step order g).
Proof.
  intros Hp Hin. unfold Monolith.step.
  destruct (negb (Monolith.Mode (Monolith.elev g) =? ModeAuto)); [done|].
  destruct (Monolith.isMoving g); [done|].
  destruct (negb (allClosed (Monolith.doors (Monolith.elev g)))); [done|].
  destruct (Monolith.selectNextTarget order (Monolith.elev g))
    as [t fd] eqn:Hsel.
  destruct fd; cbn [negb].
  - assert (Ht : t ∈ Monolith.callFloors (Monolith.elev g)).
    { apply (elem_of_order _ _ _ Hp).
      by eapply monolith_select_in_order. }
    pose proof Hin as (Hlo & Hhi & Hfl & Hcalls & _ & _).
    specialize (Hcalls t Ht).
    assert (Hgo : ∀ dir dur,
              (dir = DirUp → Monolith.floor (Monolith.elev g) < t) →
              (dir = DirDown → t < Monolith.floor (Monolith.elev g)) →
              monolithInRange
                (Monolith.mkEngine
                   (Monolith.setDirection dir (Monolith.elev g))
                   true (Some dur))).
    { intros dir dur Hu Hd.
      destruct (monolith_setDirection_facts dir (Monolith.elev g))
        as (Hc & Hf & Hcf & Hdd).
      unfold monolithInRange. cbn. rewrite Hc, Hf, Hcf, Hdd.
      destruct Hin as (? & ? & ? & ? & _ & _).
      repeat (split; [done|]).
      split; intros _ ->; [specialize (Hu eq_refl)|specialize (Hd eq_refl)];
        lia. }
    destruct (Z.ltb_spec (Monolith.floor (Monolith.elev g)) t).
    { apply Hgo; [done|discriminate]. }
    destruct (Z.ltb_spec t (Monolith.floor (Monolith.elev g))).
    { apply Hgo; [discriminate|done]. }
    apply monolith_stays_inRange;
      [apply monolith_stays_handleArrival
      |apply monolith_shrinks_handleArrival|done].
  - case_decide; [done|].
    apply monolith_stays_inRange; [| |done]; intros e; cbn; auto.
Qed.

Lemma monolith_travel_inRange (order : list Z) (g : Monolith.Engine) :
  order ≡ₚ elements (Monolith.callFloors (Monolith.elev g)) →
  monolithInRange g →
  monolithInRange (Monolith.exec (Monolith.TravelFire order) g).
Proof.
  intros Hp Hin. cbn [Monolith.exec].
  destruct (Monolith.travelTimer g) eqn:Htt; [|done].
  destruct Hin as (Hlo & Hhi & Hfl & Hcalls & Hup & Hdown).
  rewrite Htt in Hup, Hdown.
  unfold Monolith.travelDone. cbn [Monolith.elev Monolith.isMoving].
  pose proof (monolith_handleMove_shrinks order (Monolith.elev g))
    as [Hc Hs].
  pose proof (monolith_handleMove_floor order (Monolith.elev g)) as Hf.
  destruct (Monolith.handleMove order (Monolith.elev g))
    as [[c d] e'] eqn:Hh.
  cbn [snd] in Hc, Hs, Hf.
  assert (Hfl' : MinFloor (Monolith.Cfg (Monolith.elev g))
                 <= Monolith.floor e'
                 <= MaxFloor (Monolith.Cfg (Monolith.elev g))).
  { rewrite Hf. unfold inInt64 in *.
    destruct (Monolith.direction (Monolith.elev g)) eqn:Hdir; [| |done|done].
    - specialize (Hup ltac:(done) eq_refl). rewrite wrap64_small; lia.
    - specialize (Hdown ltac:(done) eq_refl). rewrite wrap64_small; lia. }
  assert (Hcalls' : ∀ f, f ∈ Monolith.callFloors e' →
            MinFloor (Monolith.Cfg (Monolith.elev g)) <= f
            <= MaxFloor (Monolith.Cfg (Monolith.elev g))).
  { intros f Hin. apply Hcalls. by apply Hs. }
  destruct c; unfold monolithInRange; cbn; rewrite Hc;
    repeat (split; [done|]); [|done].
  destruct (monolith_handleMove_continue _ _ _ _ Hh)
    as (_ & t & Hsel & Hheading & _).
  pose proof (monolith_handleMove_calls _ _ _ _ Hh) as Hsame.
  assert (Ht : t ∈ Monolith.callFloors (Monolith.elev g)).
  { apply (elem_of_order _ _ _ Hp). by eapply monolith_select_in_order. }
  specialize (Hcalls t Ht).
  split; intros _ Hdir; destruct Hheading as [[Hd ?]|[Hd ?]];
    try congruence; lia.
Qed.

Lemma monolith_exec_inRange (op : Monolith.Op) (g : Monolith.Engine) :
  Monolith.orderOk op g → monolithInRange g →
  monolithInRange (Monolith.exec op g).
Proof.
  intros Hok Hin.
  destruct op as [o|o| | |fa ca|fr| | |md|wd|sd st| | | |].
  - by apply monolith_step_inRange.
  - by apply monolith_travel_inRange.
  - cbn [Monolith.exec].
    destruct (Monolith.doorTimer (Monolith.elev g)); [|done].
    apply monolith_stays_inRange; [| |done]; intros e.
    + apply (monolith_stays_handleDoorTimeout (Monolith.withDoorTimer None e)).
    + apply (monolith_shrinks_handleDoorTimeout
               (Monolith.withDoorTimer None e)).
  - by apply monolith_stays_inRange;
      [apply monolith_stays_handleDoorTimeout
      |apply monolith_shrinks_handleDoorTimeout|].
  - cbn [Monolith.exec].
    destruct (monolith_AddCall_cases fa ca (Monolith.elev g))
      as [(err & Heq & _)|[Hv [[_ Heq]|[_ Heq]]]].
    + unfold Monolith.onElevator. rewrite Heq. by destruct g.
    + unfold Monolith.onElevator. rewrite Heq. by destruct g.
    + destruct Hin as (Hlo & Hhi & Hfl & Hcalls & Hup & Hdown).
      unfold monolithInRange, Monolith.onElevator. rewrite Heq. cbn.
      repeat (split; [done|]).
      split; [|done].
      intros f [->%elem_of_singleton|?]%elem_of_union; [|by apply Hcalls].
      by destruct Hv.
  - by apply monolith_stays_inRange;
      [apply monolith_stays_RemoveCall|apply monolith_shrinks_RemoveCall|].
  - by apply monolith_stays_inRange;
      [apply monolith_stays_ClearCalls|apply monolith_shrinks_ClearCalls|].
  - by apply monolith_stays_inRange;
      [apply monolith_stays_Reset|apply monolith_shrinks_Reset|].
  - by apply monolith_stays_inRange;
      [apply monolith_stays_SetMode|apply monolith_shrinks_SetMode|].
  - by apply monolith_stays_inRange;
      [apply monolith_stays_AddWeight|apply monolith_shrinks_AddWeight|].
  - by apply monolith_stays_inRange;
      [apply monolith_stays_SetDoor|apply monolith_shrinks_SetDoor|].
  - by apply monolith_stays_inRange;
      [apply monolith_stays_PressOpenButton
      |apply monolith_shrinks_PressOpenButton|].
  - by apply monolith_stays_inRange;
      [apply monolith_stays_ReleaseOpenButton
      |apply monolith_shrinks_ReleaseOpenButton|].
  - by apply monolith_stays_inRange;
      [apply monolith_stays_PressCloseButton
      |apply monolith_shrinks_PressCloseButton|].
  - apply monolith_stays_inRange; [| |done]; intros e; cbn; auto.
Qed.

(** X7.  The single-file engine never leaves its floor range.  When [New] was
    given a range of Go [int]s and an initial floor within it (it does not
    check the latter), then whatever happens afterwards -- ticks, timers,
    commands, the manual door override and resets included, in any
    order -- the car is at a floor between [MinFloor] and [MaxFloor]. *)
Theorem monolith_floor_in_range
    (config : Config) (e0 : Monolith.Elevator) (g : Monolith.Engine) :
  Monolith.New config = inr e0 →
  inInt64 (MinFloor config) → inInt64 (MaxFloor config) →
  MinFloor config <= InitialFloor config <= MaxFloor config →
  Monolith.reachable (Monolith.start e0) g →
  MinFloor config <= Monolith.floor (Monolith.elev g) <= MaxFloor config.
Proof.
  intros Hnew Hlo Hhi Hinit Hreach.
  assert (Hcfg : MinFloor (Monolith.Cfg e0) = MinFloor config
                 ∧ MaxFloor (Monolith.Cfg e0) = MaxFloor config
                 ∧ Monolith.floor e0 = InitialFloor config
                 ∧ Monolith.callFloors e0 = ∅).
  { unfold Monolith.New in Hnew.
    destruct (MaxFloor config <? MinFloor config); [discriminate|].
    by injection Hnew as <-. }
  destruct Hcfg as (Hmin & Hmax & Hfl & Hcalls).
  assert (Hinv : monolithInRange g
                 ∧ Monolith.Cfg (Monolith.elev g) = Monolith.Cfg e0).
  { induction Hreach as [|g op _ [IH IHc] _ Hok].
    - split; [|done]. unfold monolithInRange. cbn.
      rewrite Hmin, Hmax, Hfl, Hcalls.
      repeat (split; [done|]). intros Hn. by destruct Hn.
    - split; [by apply monolith_exec_inRange|].
      destruct (monolith_exec_calls op g) as [Hc _]. congruence. }
  destruct Hinv as [(_ & _ & Hrange & _) Hc].
  by rewrite Hc, Hmin, Hmax in Hrange.
Qed.

(** The theorem on the way from floor 1 to a call at floor 5 of 1..10. *)
Lemma monolith_floor_in_range_witness :
  1 <= Monolith.floor (Monolith.elev monolithMoving) <= 10.
Proof.
  apply (monolith_floor_in_range scenarioConfig monolith0 monolithMoving).
  - reflexivity.
  - unfold inInt64. cbn. lia.
  - unfold inInt64. cbn. lia.
  - cbn. lia.
  - eapply reachableBy_weaken_monolith, monolithMoving_reachable.
Defined.

Ltac service_stays :=
  intros s; service_unfold; service_simpl;
  repeat (case_match; service_simpl); auto.

Lemma service_stays_handleArrival f : serviceStays (Service.handleArrival f).
Proof. service_stays. Qed.
Lemma service_stays_handleDoorTimeout :
  serviceStays Service.handleDoorTimeout.
Proof. service_stays. Qed.
Lemma service_stays_SetMode m : serviceStays (Service.SetMode m).
Proof. service_stays. Qed.
Lemma service_stays_RemoveCall f : serviceStays (Service.RemoveCall f).
Proof. service_stays. Qed.
Lemma service_stays_ClearCalls : serviceStays Service.ClearCalls.
Proof. service_stays. Qed.
Lemma service_stays_AddWeight w : serviceStays (Service.AddWeight w).
Proof. service_stays. Qed.
Lemma service_stays_SetDoor side st : serviceStays (Service.SetDoor side st).
Proof. service_stays. Qed.
Lemma service_stays_PressOpenButton : serviceStays Service.PressOpenButton.
Proof. service_stays. Qed.
Lemma service_stays_ReleaseOpenButton :
  serviceStays Service.ReleaseOpenButton.
Proof. service_stays. Qed.
Lemma service_stays_PressCloseButton :
  serviceStays Service.PressCloseButton.
Proof. service_stays. Qed.

Lemma domain_select_in_order
    (order : list Z) (l : Domain.ElevatorLogic) (t : Z) :
  Domain.selectNextTarget order l = (t, true) → t ∈ order.
Proof.
  unfold Domain.selectNextTarget.
  destruct (bool_decide _); [discriminate|].
  destruct (scanFound (Domain.ahead order l)) eqn:Hah.
  - intros [= <-]. unfold Domain.ahead in *.
    destruct (Domain.LDirection l); try discriminate;
      by apply scan_target_in.
  - intros [= <- Hn]. by apply scan_target_in.
Qed.

(** A decision to move names a pending call other than the current floor
    and the direction towards it. *)
Lemma domain_decide_move (order : list Z) (l : Domain.ElevatorLogic) :
  Domain.Type_ (Domain.DecideNextStep order l) = Domain.ActionMove →
  Domain.Target (Domain.DecideNextStep order l) ∈ order
  ∧ (Domain.Dir (Domain.DecideNextStep order l) = DirUp
     ∧ Domain.Floor l < Domain.Target (Domain.DecideNextStep order l)
     ∨ Domain.Dir (Domain.DecideNextStep order l) = DirDown
       ∧ Domain.Target (Domain.DecideNextStep order l) < Domain.Floor l).
Proof.
  unfold Domain.DecideNextStep.
  destruct (negb (Domain.AreDoorsClosed l)); [discriminate|].
  destruct (bool_decide (Domain.Calls l = ∅)); [by case_decide|].
  destruct (Domain.selectNextTarget order l) as [t fd] eqn:Hsel.
  destruct fd; cbn [negb]; [|by case_decide].
  apply domain_select_in_order in Hsel.
  destruct (Z.eqb_spec t (Domain.Floor l)); [discriminate|].
  destruct (Z.ltb_spec (Domain.Floor l) t); cbn; intros _;
    (split; [done|]); [left|right]; (split; [done|lia]).
Qed.

Lemma service_setDirection_facts (d : Direction) (s : Service.Elevator) :
  Domain.LConfig (Service.Logic (Service.setDirection d s))
  = Domain.LConfig (Service.Logic s)
  ∧ Domain.Floor (Service.Logic (Service.setDirection d s))
    = Domain.Floor (Service.Logic s)
  ∧ Domain.Calls (Service.Logic (Service.setDirection d s))
    = Domain.Calls (Service.Logic s)
  ∧ Domain.LDirection (Service.Logic (Service.setDirection d s)) = d.
Proof.
  unfold Service.setDirection. case_decide; [done|].
  by rewrite service_publish_Logic.
Qed.

Lemma service_setFloor_facts (f : Z) (s : Service.Elevator) :
  Domain.LConfig (Service.Logic (Service.setFloor f s))
  = Domain.LConfig (Service.Logic s)
  ∧ Domain.Floor (Service.Logic (Service.setFloor f s)) = f
  ∧ Domain.Calls (Service.Logic (Service.setFloor f s))
    = Domain.Calls (Service.Logic s)
  ∧ Domain.LDirection (Service.Logic (Service.setFloor f s))
    = Domain.LDirection (Service.Logic s).
Proof.
  unfold Service.setFloor. case_decide; [done|].
  by rewrite service_publish_Logic.
Qed.

Lemma service_stays_inRange (lo hi : Z)
    (f : Service.Elevator → Service.Elevator) (h : Service.Engine) :
  serviceStays f → serviceShrinks f →
  serviceInRange lo hi h → serviceInRange lo hi (Service.onElevator f h).
Proof.
  intros Hst Hsh (Hmin & Hmax & Hinit & Hlo & Hhi & Hfl & Hcalls & Hup & Hdown).
  destruct (Hst (Service.elev h)) as [Hf Hd].
  destruct (Hsh (Service.elev h)) as [Hc Hs].
  unfold serviceInRange. cbn. rewrite Hc, Hf.
  repeat (split; [done|]).
  split; [intros x Hx; apply Hcalls; set_solver|].
  split; intros Ht Hdir; [apply Hup|apply Hdown]; try done;
    destruct Hd; congruence.
Qed.

Lemma service_step_inRange (lo hi : Z) (order : list Z) (h : Service.Engine) :
  order ≡ₚ elements (Domain.Calls (Service.Logic (Service.elev h))) →
  serviceInRange lo hi h → serviceInRange lo hi (Service.step order h).
Proof.
  intros Hp Hin. unfold Service.step.
  destruct (negb (Service.Mode (Service.elev h) =? ModeAuto)); [done|].
  destruct (Service.isMoving h); [done|].
  pose proof (domain_decide_move order (Service.Logic (Service.elev h)))
    as Hmove.
  destruct (Domain.Type_ _) eqn:Hty; try done.
  - destruct (Hmove eq_refl) as [Ht Hheading].
    apply (elem_of_order _ _ _ Hp) in Ht.
    destruct (service_setDirection_facts
                (Domain.Dir (Domain.DecideNextStep order
                               (Service.Logic (Service.elev h))))
                (Service.elev h)) as (Hc & Hf & Hcf & Hdd).
    destruct Hin as (Hmin & Hmax & Hinit & Hlo & Hhi & Hfl & Hcalls & _ & _).
    pose proof (Hcalls _ Ht) as Hct.
    unfold serviceInRange. cbn. rewrite Hc, Hf, Hcf, Hdd.
    repeat (split; [done|]).
    split; intros _ Hdir; destruct Hheading as [[Hd ?]|[Hd ?]];
      try congruence; lia.
  - apply service_stays_inRange;
      [apply service_stays_handleArrival
      |apply service_shrinks_handleArrival|done].
  - case_decide; [done|].
    apply service_stays_inRange; [| |done]; intros s.
    + destruct (service_setDirection_facts DirNone s) as (_ & -> & _ & ->).
      auto.
    + apply service_shrinks_setDirection.
Qed.

Lemma service_handleMoveComplete_facts
    (order : list Z) (s : Service.Elevator) :
  let r := Service.handleMoveComplete order s in
  let newFloor :=
    match Domain.LDirection (Service.Logic s) with
    | DirUp => wrap64 (Domain.Floor (Service.Logic s) + 1)
    | DirDown => wrap64 (Domain.Floor (Service.Logic s) - 1)
    | _ => Domain.Floor (Service.Logic s)
    end in
  Domain.Floor (Service.Logic (snd r)) = newFloor
  ∧ (fst (fst r) = true →
     ∃ t, t ∈ order
          ∧ (Domain.LDirection (Service.Logic (snd r)) = DirUp ∧ newFloor < t
             ∨ Domain.LDirection (Service.Logic (snd r)) = DirDown
               ∧ t < newFloor)).
Proof.
  cbn zeta. unfold Service.handleMoveComplete.
  set (newFloor := match Domain.LDirection (Service.Logic s) with
                   | DirUp => _ | DirDown => _ | _ => _ end).
  set (s1 := Service.setFloor newFloor s).
  destruct (service_setFloor_facts newFloor s) as (_ & Hf1 & _ & _).
  fold s1 in Hf1.
  pose proof (domain_decide_move order (Service.Logic s1)) as Hmove.
  destruct (Domain.Type_ _) eqn:Hty; cbn [fst snd];
    try (split; [|discriminate]).
  - by destruct (service_setDirection_facts DirNone s1) as (_ & -> & _ & _).
  - destruct (Hmove eq_refl) as [Ht Hheading]. rewrite Hf1 in Hheading.
    set (a := Domain.DecideNextStep order (Service.Logic s1)) in *.
    assert (Hres : Domain.Floor
                     (Service.Logic
                        (if decide (Domain.Dir a
                                    = Domain.LDirection (Service.Logic s1))
                         then s1 else Service.setDirection (Domain.Dir a) s1))
                   = newFloor
                   ∧ Domain.LDirection
                       (Service.Logic
                          (if decide (Domain.Dir a
                                      = Domain.LDirection (Service.Logic s1))
                           then s1
                           else Service.setDirection (Domain.Dir a) s1))
                     = Domain.Dir a).
    { case_decide; [done|].
      by destruct (service_setDirection_facts (Domain.Dir a) s1)
        as (_ & -> & _ & ->). }
    destruct Hres as [-> ->]. split; [done|]. intros _. by exists (Domain.Target a).
  - destruct (service_stays_handleArrival
                (Domain.Floor (Service.Logic s1)) s1) as [-> _]. done.
  - by destruct (service_setDirection_facts DirNone s1) as (_ & -> & _ & _).
  - by destruct (service_setDirection_facts DirNone s1) as (_ & -> & _ & _).
Qed.

Lemma service_travel_inRange (lo hi : Z) (order : list Z)
    (h : Service.Engine) :
  order ≡ₚ elements (Domain.Calls (Service.Logic (Service.elev h))) →
  serviceInRange lo hi h →
  serviceInRange lo hi (Service.exec (Service.TravelFire order) h).
Proof.
  intros Hp Hin. cbn [Service.exec].
  destruct (Service.travelTimer h) eqn:Htt; [|done].
  destruct Hin as (Hmin & Hmax & Hinit & Hlo & Hhi & Hfl & Hcalls & Hup & Hdown).
  rewrite Htt in Hup, Hdown.
  unfold Service.travelDone. cbn [Service.elev Service.isMoving].
  pose proof (service_handleMoveComplete_shrinks order (Service.elev h))
    as [Hc Hs].
  pose proof (service_handleMoveComplete_facts order (Service.elev h))
    as [Hf Hcont].
  destruct (Service.handleMoveComplete order (Service.elev h))
    as [[c d] s'] eqn:Hh.
  cbn [fst snd] in Hc, Hs, Hf, Hcont.
  assert (Hnew : lo <= match Domain.LDirection
                               (Service.Logic (Service.elev h)) with
                       | DirUp =>
                           wrap64 (Domain.Floor
                                     (Service.Logic (Service.elev h)) + 1)
                       | DirDown =>
                           wrap64 (Domain.Floor
                                     (Service.Logic (Service.elev h)) - 1)
                       | _ => Domain.Floor (Service.Logic (Service.elev h))
                       end <= hi).
  { unfold inInt64 in *.
    destruct (Domain.LDirection (Service.Logic (Service.elev h))) eqn:Hdir;
      [| |done|done].
    - specialize (Hup ltac:(done) eq_refl). rewrite wrap64_small; lia.
    - specialize (Hdown ltac:(done) eq_refl). rewrite wrap64_small; lia. }
  assert (Hcalls' : ∀ f, f ∈ Domain.Calls (Service.Logic s') →
            lo <= f <= hi).
  { intros f Hf'. apply Hcalls. by apply Hs. }
  destruct c; unfold serviceInRange; cbn; rewrite Hc, Hf;
    repeat (split; [done|]); [|done].
  destruct (Hcont eq_refl) as (t & Ht & Hheading).
  apply (elem_of_order _ _ _ Hp) in Ht. pose proof (Hcalls t Ht) as Hct.
  split; intros _ Hdir; destruct Hheading as [[Hd ?]|[Hd ?]];
    try congruence; lia.
Qed.

Lemma service_exec_inRange (lo hi : Z) (op : Service.Op) (h : Service.Engine) :
  Service.orderOk op h → serviceInRange lo hi h →
  serviceInRange lo hi (Service.exec op h).
Proof.
  intros Hok Hin.
  destruct op as [o|o| | |fa ca|fr| | |md|wd|sd st| | | |].
  - by apply service_step_inRange.
  - by apply service_travel_inRange.
  - cbn [Service.exec].
    destruct (Service.doorTimer (Service.elev h)); [|done].
    apply service_stays_inRange; [| |done]; intros s.
    + apply (service_stays_handleDoorTimeout (Service.withDoorTimer None s)).
    + apply (service_shrinks_handleDoorTimeout
               (Service.withDoorTimer None s)).
  - by apply service_stays_inRange;
      [apply service_stays_handleDoorTimeout
      |apply service_shrinks_handleDoorTimeout|].
  - cbn [Service.exec].
    destruct (service_AddCall_cases fa ca (Service.elev h))
      as [(err & Heq & _)|[Hv Heq]].
    + unfold Service.onElevator. rewrite Heq. by destruct h.
    + destruct Hin
        as (Hmin & Hmax & Hinit & Hlo & Hhi & Hfl & Hcalls & Hup & Hdown).
      unfold serviceInRange, Service.onElevator. rewrite Heq. cbn.
      repeat (split; [done|]).
      split; [|done].
      intros f [->%elem_of_singleton|?]%elem_of_union; [|by apply Hcalls].
      destruct Hv as [Hv _]. by rewrite Hmin, Hmax in Hv.
  - by apply service_stays_inRange;
      [apply service_stays_RemoveCall|apply service_shrinks_RemoveCall|].
  - by apply service_stays_inRange;
      [apply service_stays_ClearCalls|apply service_shrinks_ClearCalls|].
  - destruct Hin
      as (Hmin & Hmax & Hinit & Hlo & Hhi & Hfl & Hcalls & Hup & Hdown).
    unfold serviceInRange. cbn [Service.exec Service.onElevator Service.elev
      Service.travelTimer].
    unfold Service.Reset. rewrite !service_publish_Logic. cbn.
    repeat (split; [done|]). intros _ [=].
  - by apply service_stays_inRange;
      [apply service_stays_SetMode|apply service_shrinks_SetMode|].
  - by apply service_stays_inRange;
      [apply service_stays_AddWeight|apply service_shrinks_AddWeight|].
  - by apply service_stays_inRange;
      [apply service_stays_SetDoor|apply service_shrinks_SetDoor|].
  - by apply service_stays_inRange;
      [apply service_stays_PressOpenButton
      |apply service_shrinks_PressOpenButton|].
  - by apply service_stays_inRange;
      [apply service_stays_ReleaseOpenButton
      |apply service_shrinks_ReleaseOpenButton|].
  - by apply service_stays_inRange;
      [apply service_stays_PressCloseButton
      |apply service_shrinks_PressCloseButton|].
  - apply service_stays_inRange; [| |done]; intros s; cbn; auto.
Qed.

(** X8.  The logic-split engine never leaves its floor range either, under the
    same condition on the initial floor: after any sequence of ticks,
    timers and commands the car is at a floor between [MinFloor] and
    [MaxFloor].  Here [Reset] moves the car, but only to the initial
    floor. *)
Theorem service_floor_in_range
    (config : Config) (s0 : Service.Elevator) (h : Service.Engine) :
  Service.New config = inr s0 →
  inInt64 (MinFloor config) → inInt64 (MaxFloor config) →
  MinFloor config <= InitialFloor config <= MaxFloor config →
  Service.reachable (Service.start s0) h →
  MinFloor config
  <= Domain.Floor (Service.Logic (Service.elev h))
  <= MaxFloor config.
Proof.
  intros Hnew Hlo Hhi Hinit Hreach.
  assert (Hinv : serviceInRange (MinFloor config) (MaxFloor config) h).
  { induction Hreach as [|h op _ IH _ Hok].
    - unfold Service.New in Hnew.
      destruct (MaxFloor config <? MinFloor config); [discriminate|].
      injection Hnew as <-. unfold serviceInRange. cbn.
      repeat (split; [done|]). intros Hn. by destruct Hn.
    - by apply service_exec_inRange. }
  by destruct Hinv as (_ & _ & _ & _ & _ & Hrange & _).
Qed.

(** The theorem on the way from floor 1 to a call at floor 5 of 1..10. *)
Lemma service_floor_in_range_witness :
  1 <= Domain.Floor (Service.Logic (Service.elev serviceMoving)) <= 10.
Proof.
  apply (service_floor_in_range scenarioConfig service0 serviceMoving).
  - reflexivity.
  - unfold inInt64. cbn. lia.
  - unfold inInt64. cbn. lia.
  - cbn. lia.
  - eapply reachableBy_weaken_service, serviceMoving_reachable.
Defined.

(** ** The emergency mode *)

Ltac mono_keeps_mode :=
  intros e; mono_unfold; mono_simpl;
  repeat (case_match; mono_simpl); done.

Lemma monolith_mode_handleArrival f :
  monolithKeepsMode (Monolith.handleArrival f).
Proof. mono_keeps_mode. Qed.
Lemma monolith_mode_handleDoorTimeout :
  monolithKeepsMode Monolith.handleDoorTimeout.
Proof. mono_keeps_mode. Qed.
Lemma monolith_mode_Reset : monolithKeepsMode Monolith.Reset.
Proof. mono_keeps_mode. Qed.
Lemma monolith_mode_RemoveCall f : monolithKeepsMode (Monolith.RemoveCall f).
Proof. mono_keeps_mode. Qed.
Lemma monolith_mode_ClearCalls : monolithKeepsMode Monolith.ClearCalls.
Proof. mono_keeps_mode. Qed.
Lemma monolith_mode_AddWeight w : monolithKeepsMode (Monolith.AddWeight w).
Proof. mono_keeps_mode. Qed.
Lemma monolith_mode_SetDoor side st :
  monolithKeepsMode (Monolith.SetDoor side st).
Proof. mono_keeps_mode. Qed.
Lemma monolith_mode_PressOpenButton :
  monolithKeepsMode Monolith.PressOpenButton.
Proof. mono_keeps_mode. Qed.
Lemma monolith_mode_ReleaseOpenButton :
  monolithKeepsMode Monolith.ReleaseOpenButton.
Proof. mono_keeps_mode. Qed.
Lemma monolith_mode_PressCloseButton :
  monolithKeepsMode Monolith.PressCloseButton.
Proof. mono_keeps_mode. Qed.
Lemma monolith_mode_setDirection d :
  monolithKeepsMode (Monolith.setDirection d).
Proof. mono_keeps_mode. Qed.

Lemma monolith_calm_frozen (f0 : Z)
    (f : Monolith.Elevator → Monolith.Elevator) (g : Monolith.Engine) :
  monolithKeepsMode f → monolithStays f →
  monolithFrozen f0 g → monolithFrozen f0 (Monolith.onElevator f g).
Proof.
  intros Hm Hs (Hmode & Hdir & Hfl).
  destruct (Hs (Monolith.elev g)) as [Hf Hd].
  unfold monolithFrozen. cbn. rewrite Hm, Hf.
  split; [done|]. split; [|done]. destruct Hd; congruence.
Qed.

Lemma monolith_handleMove_idle (order : list Z) (e : Monolith.Elevator) :
  Monolith.direction e = DirNone →
  fst (fst (Monolith.handleMove order e)) = false
  ∧ Monolith.Mode (snd (Monolith.handleMove order e)) = Monolith.Mode e
  ∧ Monolith.direction (snd (Monolith.handleMove order e)) = DirNone
  ∧ Monolith.floor (snd (Monolith.handleMove order e)) = Monolith.floor e.
Proof.
  intros Hdir. unfold Monolith.handleMove. rewrite Hdir.
  assert (Hset : Monolith.setDirection DirNone e = e).
  { unfold Monolith.setDirection. by rewrite decide_True. }
  destruct (bool_decide _).
  { cbn [fst snd]. rewrite monolith_mode_handleArrival.
    destruct (monolith_stays_handleArrival (Monolith.floor e) e) as [-> Hd].
    rewrite Hdir in Hd. by destruct Hd. }
  destruct (Monolith.selectNextTarget order e) as [t fd].
  rewrite Hset.
  destruct fd; cbn [negb fst snd]; [|done].
  rewrite !bool_decide_eq_false_2 by (rewrite Hdir; done). done.
Qed.

Lemma monolith_exec_frozen (f0 : Z) (op : Monolith.Op) (g : Monolith.Engine) :
  monolithInEmergency op → monolithFrozen f0 g →
  monolithFrozen f0 (Monolith.exec op g).
Proof.
  intros Hop Hfr.
  destruct op as [o|o| | |fa ca|fr| | |md|wd|sd st| | | |].
  - destruct Hfr as (Hmode & Hdir & Hfl).
    cbn [Monolith.exec]. unfold Monolith.step. by rewrite Hmode.
  - cbn [Monolith.exec]. destruct (Monolith.travelTimer g); [|done].
    destruct Hfr as (Hmode & Hdir & Hfl).
    unfold Monolith.travelDone. cbn [Monolith.elev Monolith.isMoving].
    destruct (monolith_handleMove_idle o (Monolith.elev g) Hdir)
      as (Hc & Hm & Hd & Hf).
    destruct (Monolith.handleMove o (Monolith.elev g)) as [[c d] e'].
    cbn [fst snd] in *. subst c. unfold monolithFrozen. cbn.
    split; [congruence|]. split; [done|congruence].
  - cbn [Monolith.exec].
    destruct (Monolith.doorTimer (Monolith.elev g)); [|done].
    apply monolith_calm_frozen; [| |done]; intros e.
    + apply (monolith_mode_handleDoorTimeout (Monolith.withDoorTimer None e)).
    + apply (monolith_stays_handleDoorTimeout (Monolith.withDoorTimer None e)).
  - by apply monolith_calm_frozen;
      [apply monolith_mode_handleDoorTimeout
      |apply monolith_stays_handleDoorTimeout|].
  - apply monolith_calm_frozen; [| |done]; intros e;
      unfold Monolith.AddCall; repeat case_match; cbn; auto.
  - by apply monolith_calm_frozen;
      [apply monolith_mode_RemoveCall|apply monolith_stays_RemoveCall|].
  - by apply monolith_calm_frozen;
      [apply monolith_mode_ClearCalls|apply monolith_stays_ClearCalls|].
  - by apply monolith_calm_frozen;
      [apply monolith_mode_Reset|apply monolith_stays_Reset|].
  - cbn in Hop. subst md. destruct Hfr as (Hmode & Hdir & Hfl).
    cbn [Monolith.exec]. unfold Monolith.onElevator, Monolith.SetMode.
    rewrite Hmode. cbn. unfold monolithFrozen. by cbn.
  - by apply monolith_calm_frozen;
      [apply monolith_mode_AddWeight|apply monolith_stays_AddWeight|].
  - by apply monolith_calm_frozen;
      [apply monolith_mode_SetDoor|apply monolith_stays_SetDoor|].
  - by apply monolith_calm_frozen;
      [apply monolith_mode_PressOpenButton
      |apply monolith_stays_PressOpenButton|].
  - by apply monolith_calm_frozen;
      [apply monolith_mode_ReleaseOpenButton
      |apply monolith_stays_ReleaseOpenButton|].
  - by apply monolith_calm_frozen;
      [apply monolith_mode_PressCloseButton
      |apply monolith_stays_PressCloseButton|].
  - apply monolith_calm_frozen; [| |done]; intros e; cbn; auto.
Qed.

Ltac service_keeps_mode :=
  intros s; service_unfold; service_simpl;
  repeat (case_match; service_simpl); done.

Lemma service_mode_handleArrival f :
  serviceKeepsMode (Service.handleArrival f).
Proof. service_keeps_mode. Qed.
Lemma service_mode_handleDoorTimeout :
  serviceKeepsMode Service.handleDoorTimeout.
Proof. service_keeps_mode. Qed.
Lemma service_mode_RemoveCall f : serviceKeepsMode (Service.RemoveCall f).
Proof. service_keeps_mode. Qed.
Lemma service_mode_ClearCalls : serviceKeepsMode Service.ClearCalls.
Proof. service_keeps_mode. Qed.
Lemma service_mode_AddWeight w : serviceKeepsMode (Service.AddWeight w).
Proof. service_keeps_mode. Qed.
Lemma service_mode_SetDoor side st :
  serviceKeepsMode (Service.SetDoor side st).
Proof. service_keeps_mode. Qed.
Lemma service_mode_PressOpenButton :
  serviceKeepsMode Service.PressOpenButton.
Proof. service_keeps_mode. Qed.
Lemma service_mode_ReleaseOpenButton :
  serviceKeepsMode Service.ReleaseOpenButton.
Proof. service_keeps_mode. Qed.
Lemma service_mode_PressCloseButton :
  serviceKeepsMode Service.PressCloseButton.
Proof. service_keeps_mode. Qed.

Lemma service_calm_frozen (f0 : Z)
    (f : Service.Elevator → Service.Elevator) (h : Service.Engine) :
  serviceKeepsMode f → serviceStays f →
  serviceFrozen f0 h → serviceFrozen f0 (Service.onElevator f h).
Proof.
  intros Hm Hs (Hmode & Hdir & Hfl).
  destruct (Hs (Service.elev h)) as [Hf Hd].
  unfold serviceFrozen. cbn. rewrite Hm, Hf.
  split; [done|]. split; [|done]. destruct Hd; congruence.
Qed.

Lemma service_exec_frozen (f0 : Z) (op : Service.Op) (h : Service.Engine) :
  serviceInEmergency op → serviceFrozen f0 h →
  serviceFrozen f0 (Service.exec op h).
Proof.
  intros Hop Hfr.
  destruct op as [o|o| | |fa ca|fr| | |md|wd|sd st| | | |].
  - destruct Hfr as (Hmode & Hdir & Hfl).
    cbn [Service.exec]. unfold Service.step. by rewrite Hmode.
  - destruct Hop.
  - cbn [Service.exec].
    destruct (Service.doorTimer (Service.elev h)); [|done].
    apply service_calm_frozen; [| |done]; intros s.
    + apply (service_mode_handleDoorTimeout (Service.withDoorTimer None s)).
    + apply (service_stays_handleDoorTimeout (Service.withDoorTimer None s)).
  - by apply service_calm_frozen;
      [apply service_mode_handleDoorTimeout
      |apply service_stays_handleDoorTimeout|].
  - apply service_calm_frozen; [| |done]; intros s;
      unfold Service.AddCall, Domain.AddCall; repeat case_match;
      simplify_eq/=; auto.
  - by apply service_calm_frozen;
      [apply service_mode_RemoveCall|apply service_stays_RemoveCall|].
  - by apply service_calm_frozen;
      [apply service_mode_ClearCalls|apply service_stays_ClearCalls|].
  - destruct Hop.
  - cbn in Hop. subst md. destruct Hfr as (Hmode & Hdir & Hfl).
    cbn [Service.exec]. unfold Service.onElevator, Service.SetMode.
    rewrite Hmode. cbn. unfold serviceFrozen. by cbn.
  - by apply service_calm_frozen;
      [apply service_mode_AddWeight|apply service_stays_AddWeight|].
  - by apply service_calm_frozen;
      [apply service_mode_SetDoor|apply service_stays_SetDoor|].
  - by apply service_calm_frozen;
      [apply service_mode_PressOpenButton
      |apply service_stays_PressOpenButton|].
  - by apply service_calm_frozen;
      [apply service_mode_ReleaseOpenButton
      |apply service_stays_ReleaseOpenButton|].
  - by apply service_calm_frozen;
      [apply service_mode_PressCloseButton
      |apply service_stays_PressCloseButton|].
  - apply service_calm_frozen; [| |done]; intros s; cbn; auto.
Qed.

Lemma monolith_emergency_stops (e : Monolith.Elevator) :
  Monolith.Mode e ≠ ModeEmergency →
  Monolith.Mode (Monolith.SetMode ModeEmergency e) = ModeEmergency
  ∧ Monolith.direction (Monolith.SetMode ModeEmergency e) = DirNone
  ∧ Monolith.floor (Monolith.SetMode ModeEmergency e) = Monolith.floor e
  ∧ Monolith.doorTimer (Monolith.SetMode ModeEmergency e) = None.
Proof.
  intros Hm. unfold Monolith.SetMode.
  destruct (Z.eqb_spec (Monolith.Mode e) ModeEmergency); [done|].
  cbn. by rewrite mono_publish_mode, mono_publish_floor.
Qed.

Lemma service_setDirection_keeps (d : Direction) (s : Service.Elevator) :
  Service.Mode (Service.setDirection d s) = Service.Mode s
  ∧ Service.doorTimer (Service.setDirection d s) = Service.doorTimer s.
Proof.
  unfold Service.setDirection, Service.publishEvent.
  repeat case_match; done.
Qed.

Lemma service_emergency_stops (s : Service.Elevator) :
  Service.Mode s ≠ ModeEmergency →
  Service.Mode (Service.SetMode ModeEmergency s) = ModeEmergency
  ∧ Domain.LDirection (Service.Logic (Service.SetMode ModeEmergency s))
    = DirNone
  ∧ Domain.Floor (Service.Logic (Service.SetMode ModeEmergency s))
    = Domain.Floor (Service.Logic s)
  ∧ Service.doorTimer (Service.SetMode ModeEmergency s) = None.
Proof.
  intros Hm. unfold Service.SetMode.
  destruct (Z.eqb_spec (Service.Mode s) ModeEmergency); [done|].
  cbn [Z.eqb ModeEmergency Pos.eqb].
  set (s1 := Service.withDoorTimer None _).
  destruct (service_setDirection_facts DirNone s1) as (_ & Hf & _ & Hd).
  destruct (service_setDirection_keeps DirNone s1) as [Hmode Ht].
  rewrite Hmode, Hd, Hf, Ht. unfold s1. cbn.
  by rewrite service_publish_mode, service_publish_Logic.
Qed.

(** X9.  The emergency mode holds the car.  Selecting [ModeEmergency] in
    another mode clears the heading, stops the door timer and keeps the
    floor.  From then on, in the single-file engine, nothing but the choice
    of another mode changes mode, heading or floor: ticks do nothing, and
    a hop that was under way ends without moving the car.  In the
    logic-split engine the same holds for ticks, door timer and commands
    other than [Reset]; the end of a hop is not covered, because
    [handleMoveComplete] follows the logic's decision whatever the mode. *)
Theorem emergency_holds_the_car
    (g g' : Monolith.Engine) (h h' : Service.Engine) :
  Monolith.Mode (Monolith.elev g) ≠ ModeEmergency →
  Monolith.reachableBy monolithInEmergency
    (Monolith.exec (Monolith.CmdSetMode ModeEmergency) g) g' →
  Service.Mode (Service.elev h) ≠ ModeEmergency →
  Service.reachableBy serviceInEmergency
    (Service.exec (Service.CmdSetMode ModeEmergency) h) h' →
  monolithFrozen (Monolith.floor (Monolith.elev g)) g'
  ∧ Monolith.doorTimer
      (Monolith.elev (Monolith.exec (Monolith.CmdSetMode ModeEmergency) g))
    = None
  ∧ (∀ o, Monolith.exec (Monolith.Tick o) g' = g')
  ∧ serviceFrozen (Domain.Floor (Service.Logic (Service.elev h))) h'
  ∧ Service.doorTimer
      (Service.elev (Service.exec (Service.CmdSetMode ModeEmergency) h))
    = None
  ∧ (∀ o, Service.exec (Service.Tick o) h' = h').
Proof.
  intros Hgm Hg Hhm Hh.
  destruct (monolith_emergency_stops _ Hgm) as (Hm1 & Hm2 & Hm3 & Hm4).
  destruct (service_emergency_stops _ Hhm) as (Hs1 & Hs2 & Hs3 & Hs4).
  assert (Hm : monolithFrozen (Monolith.floor (Monolith.elev g)) g').
  { induction Hg as [|g1 op _ IH Hop _]; [done|].
    by apply monolith_exec_frozen. }
  assert (Hs : serviceFrozen (Domain.Floor (Service.Logic (Service.elev h)))
                 h').
  { induction Hh as [|h1 op _ IH Hop _]; [done|].
    by apply service_exec_frozen. }
  split; [done|]. split; [done|]. split.
  { intros o. destruct Hm as (Hmode & _).
    cbn [Monolith.exec]. unfold Monolith.step. by rewrite Hmode. }
  split; [done|]. split; [done|].
  intros o. destruct Hs as (Hmode & _).
  cbn [Service.exec]. unfold Service.step. by rewrite Hmode.
Qed.

(** The theorem on the engines stopped on their way from floor 1 to a
    call at floor 5: both stay at floor 1. *)
Lemma emergency_holds_the_car_witness :
  monolithFrozen 1 monolithEmergency ∧ serviceFrozen 1 serviceEmergency.
Proof.
  destruct (emergency_holds_the_car monolithMoving monolithEmergency
              serviceMoving serviceEmergency) as (Hm & _ & _ & Hs & _).
  - intros H. vm_compute in H. discriminate H.
  - apply monolith_run_reachable; [apply Monolith.reach_start| |].
    + repeat constructor.
    + cbn -[Monolith.exec]. repeat split; vm_compute; reflexivity.
  - intros H. vm_compute in H. discriminate H.
  - apply service_run_reachable; [apply Service.reach_start| |].
    + repeat constructor.
    + cbn -[Service.exec]. repeat split; vm_compute; reflexivity.
  - split; [exact Hm|exact Hs].
Defined.

(** ** The locals of [Run] *)

Lemma monolith_exec_synced (op : Monolith.Op) (g : Monolith.Engine) :
  movingIffArmed (Monolith.isMoving g) (Monolith.travelTimer g) →
  movingIffArmed (Monolith.isMoving (Monolith.exec op g))
    (Monolith.travelTimer (Monolith.exec op g)).
Proof.
  unfold movingIffArmed. intros Hs.
  destruct op; cbn [Monolith.exec]; try done.
  - unfold Monolith.step, Monolith.onElevator.
    destruct (Monolith.selectNextTarget order (Monolith.elev g)) as [t fd].
    repeat case_match; cbn; first
      [ done | split; done
      | by match goal with H : Monolith.isMoving _ = _ |- _ => rewrite H end ].
  - destruct (Monolith.travelTimer g) as [d0|] eqn:Ht;
      [|by rewrite Ht].
    unfold Monolith.travelDone. cbn [Monolith.elev Monolith.isMoving].
    destruct (Monolith.handleMove order (Monolith.elev g)) as [[c d] e'].
    destruct c; cbn; [|done].
    split; [done|]. intros _. by apply Hs.
  - by destruct (Monolith.doorTimer (Monolith.elev g)).
Qed.

Lemma service_exec_synced (op : Service.Op) (h : Service.Engine) :
  movingIffArmed (Service.isMoving h) (Service.travelTimer h) →
  movingIffArmed (Service.isMoving (Service.exec op h))
    (Service.travelTimer (Service.exec op h)).
Proof.
  unfold movingIffArmed. intros Hs.
  destruct op; cbn [Service.exec]; try done.
  - unfold Service.step, Service.onElevator.
    repeat case_match; cbn; first
      [ done | split; done
      | by match goal with H : Service.isMoving _ = _ |- _ => rewrite H end ].
  - destruct (Service.travelTimer h) as [d0|] eqn:Ht;
      [|by rewrite Ht].
    unfold Service.travelDone. cbn [Service.elev Service.isMoving].
    destruct (Service.handleMoveComplete order (Service.elev h))
      as [[c d] e'].
    destruct c; cbn; [|done].
    split; [done|]. intros _. by apply Hs.
  - by destruct (Service.doorTimer (Service.elev h)).
Qed.

(** X10.  In both engines [Run] keeps its two locals in step: whatever happens
    after the start, [isMoving] is true exactly while the travel timer is
    armed.  So a moving car always has the end of its hop pending, and
    [step] (which returns at once while [isMoving]) never starts a hop on
    top of another. *)
Theorem moving_iff_travel_timer
    (e0 : Monolith.Elevator) (g : Monolith.Engine)
    (s0 : Service.Elevator) (h : Service.Engine) :
  Monolith.reachable (Monolith.start e0) g →
  Service.reachable (Service.start s0) h →
  movingIffArmed (Monolith.isMoving g) (Monolith.travelTimer g)
  ∧ movingIffArmed (Service.isMoving h) (Service.travelTimer h)
  ∧ (∀ o, Monolith.isMoving g = true → Monolith.exec (Monolith.Tick o) g = g)
  ∧ (∀ o, Service.isMoving h = true → Service.exec (Service.Tick o) h = h).
Proof.
  intros Hg Hh. split; [|split; [|split]].
  - induction Hg as [|g1 op _ IH _ _]; [done|].
    by apply monolith_exec_synced.
  - induction Hh as [|h1 op _ IH _ _]; [done|].
    by apply service_exec_synced.
  - intros o Hmv. cbn [Monolith.exec]. unfold Monolith.step.
    rewrite Hmv. by case_match.
  - intros o Hmv. cbn [Service.exec]. unfold Service.step.
    rewrite Hmv. by case_match.
Qed.

(** The theorem on the engines on their way from floor 1 to floor 5. *)
Lemma moving_iff_travel_timer_witness :
  movingIffArmed (Monolith.isMoving monolithMoving)
    (Monolith.travelTimer monolithMoving)
  ∧ movingIffArmed (Service.isMoving serviceMoving)
      (Service.travelTimer serviceMoving).
Proof.
  destruct (moving_iff_travel_timer monolith0 monolithMoving
              service0 serviceMoving) as (Hm & Hs & _).
  - eapply reachableBy_weaken_monolith, monolithMoving_reachable.
  - eapply reachableBy_weaken_service, serviceMoving_reachable.
  - split; [exact Hm|exact Hs].
Defined.

(** ** Arrivals *)

Lemma putDoor_same (d : Doors) (side : DoorSide) :
  putDoor d side (getDoor d side) = d.
Proof. by destruct d, side. Qed.

Lemma monolith_setDoor_facts (side : DoorSide) (st : DoorState)
    (e : Monolith.Elevator) :
  let e' := Monolith.setDoor side st e in
  Monolith.doors e' = putDoor (Monolith.doors e) side st
  ∧ Monolith.Cfg e' = Monolith.Cfg e
  ∧ Monolith.callFloors e' = Monolith.callFloors e
  ∧ Monolith.doorTimer e' = Monolith.doorTimer e
  ∧ Monolith.openWaitTime e' = Monolith.openWaitTime e
  ∧ Monolith.floor e' = Monolith.floor e
  ∧ Monolith.direction e' = Monolith.direction e
  ∧ Monolith.Mode e' = Monolith.Mode e
  ∧ Monolith.weight e' = Monolith.weight e
  ∧ Monolith.isOpenButtonPressed e' = Monolith.isOpenButtonPressed e.
Proof.
  cbn zeta. unfold Monolith.setDoor. case_decide as Hd.
  - by rewrite <- Hd, putDoor_same.
  - unfold Monolith.publishEvent. by case_match.
Qed.

Lemma monolith_handleArrival_served (f : Z) (e : Monolith.Elevator) :
  monolithServed f e (Monolith.handleArrival f e).
Proof.
  unfold monolithServed, Monolith.handleArrival, Monolith.getFloorConfig.
  fold (openSideAt (FloorConfigs (Monolith.Cfg e)) f).
  set (mask := openSideAt (FloorConfigs (Monolith.Cfg e)) f).
  set (e1 := if hasSide mask Front then _ else e).
  set (e2 := if hasSide mask Rear then _ else e1).
  assert (H1 : Monolith.doors e1
               = mkDoors (if hasSide mask Front then DoorOpening
                          else front (Monolith.doors e))
                   (rear (Monolith.doors e))
               ∧ Monolith.Cfg e1 = Monolith.Cfg e
               ∧ Monolith.callFloors e1 = Monolith.callFloors e
               ∧ Monolith.floor e1 = Monolith.floor e
               ∧ Monolith.direction e1 = Monolith.direction e
               ∧ Monolith.Mode e1 = Monolith.Mode e
               ∧ Monolith.weight e1 = Monolith.weight e).
  { unfold e1. destruct (hasSide mask Front).
    - destruct (monolith_setDoor_facts Front DoorOpening e)
        as (-> & -> & -> & _ & _ & -> & -> & -> & -> & _).
      by destruct (Monolith.doors e).
    - by destruct (Monolith.doors e). }
  destruct H1 as (Hd1 & Hc1 & Hcf1 & Hf1 & Hdir1 & Hm1 & Hw1).
  assert (H2 : Monolith.doors e2 = opened mask (Monolith.doors e)
               ∧ Monolith.Cfg e2 = Monolith.Cfg e
               ∧ Monolith.callFloors e2 = Monolith.callFloors e
               ∧ Monolith.floor e2 = Monolith.floor e
               ∧ Monolith.direction e2 = Monolith.direction e
               ∧ Monolith.Mode e2 = Monolith.Mode e
               ∧ Monolith.weight e2 = Monolith.weight e).
  { unfold e2, opened. destruct (hasSide mask Rear).
    - destruct (monolith_setDoor_facts Rear DoorOpening e1)
        as (-> & -> & -> & _ & _ & -> & -> & -> & -> & _).
      by rewrite Hd1.
    - by rewrite Hd1. }
  destruct H2 as (Hd2 & Hc2 & Hcf2 & Hf2 & Hdir2 & Hm2 & Hw2).
  cbn. rewrite mono_publish_Cfg, mono_publish_calls, mono_publish_doors,
    mono_publish_floor, mono_publish_direction, mono_publish_mode,
    mono_publish_weight. cbn.
  by rewrite Hd2, Hc2, Hcf2, Hf2, Hdir2, Hm2, Hw2.
Qed.

Lemma service_setDoor_facts (side : DoorSide) (st : DoorState)
    (s : Service.Elevator) :
  let s' := Service.setDoor side st s in
  Service.Logic s'
  = Domain.SetDoor side st (Service.Logic s)
  ∧ Service.Cfg s' = Service.Cfg s
  ∧ Service.doorTimer s' = Service.doorTimer s
  ∧ Service.openWaitTime s' = Service.openWaitTime s
  ∧ Service.Mode s' = Service.Mode s
  ∧ Service.isOpenButtonPressed s' = Service.isOpenButtonPressed s.
Proof.
  cbn zeta. unfold Service.setDoor. case_decide as Hd.
  - unfold Domain.SetDoor. rewrite <- Hd, putDoor_same.
    by destruct (Service.Logic s).
  - unfold Service.publishEvent. by case_match.
Qed.

Lemma service_handleArrival_served (f : Z) (s : Service.Elevator) :
  serviceServed f s (Service.handleArrival f s).
Proof.
  unfold serviceServed, Service.handleArrival.
  fold (openSideAt (FloorConfigs (Service.Cfg s)) f).
  set (mask := openSideAt (FloorConfigs (Service.Cfg s)) f).
  set (s1 := if hasSide mask Front then _ else s).
  set (s2 := if hasSide mask Rear then _ else s1).
  assert (H1 : Service.Logic s1
               = Domain.mkElevatorLogic
                   (Domain.LConfig (Service.Logic s))
                   (Domain.Floor (Service.Logic s))
                   (Domain.LDirection (Service.Logic s))
                   (mkDoors (if hasSide mask Front then DoorOpening
                             else front (Domain.LDoors (Service.Logic s)))
                      (rear (Domain.LDoors (Service.Logic s))))
                   (Domain.Weight (Service.Logic s))
                   (Domain.Calls (Service.Logic s))
               ∧ Service.Cfg s1 = Service.Cfg s
               ∧ Service.Mode s1 = Service.Mode s).
  { unfold s1. destruct (hasSide mask Front).
    - destruct (service_setDoor_facts Front DoorOpening s)
        as (-> & -> & _ & _ & -> & _).
      by destruct (Service.Logic s) as [? ? ? [] ? ?].
    - by destruct (Service.Logic s) as [? ? ? [] ? ?]. }
  destruct H1 as (Hl1 & Hc1 & Hm1).
  assert (H2 : Service.Logic s2
               = Domain.mkElevatorLogic
                   (Domain.LConfig (Service.Logic s))
                   (Domain.Floor (Service.Logic s))
                   (Domain.LDirection (Service.Logic s))
                   (opened mask (Domain.LDoors (Service.Logic s)))
                   (Domain.Weight (Service.Logic s))
                   (Domain.Calls (Service.Logic s))
               ∧ Service.Cfg s2 = Service.Cfg s
               ∧ Service.Mode s2 = Service.Mode s).
  { unfold s2, opened. destruct (hasSide mask Rear).
    - destruct (service_setDoor_facts Rear DoorOpening s1)
        as (-> & -> & _ & _ & -> & _).
      by rewrite Hl1.
    - by rewrite Hl1. }
  destruct H2 as (Hl2 & Hc2 & Hm2).
  cbn. rewrite service_cfg_publish, service_publish_Logic,
    service_publish_mode. cbn.
  by rewrite Hl2, Hc2, Hm2.
Qed.

Lemma domain_select_current (order : list Z) (l : Domain.ElevatorLogic) :
  order ≡ₚ elements (Domain.Calls l) →
  floorsFit (Domain.Floor l) (Domain.Calls l) →
  Domain.Floor l ∈ Domain.Calls l →
  Domain.selectNextTarget order l = (Domain.Floor l, true).
Proof.
  intros Hp Hfit Hin.
  assert (Hfall : (∀ f, ¬ domainAhead l f) →
            Domain.selectNextTarget order l = (Domain.Floor l, true)).
  { intros Hno. destruct (domain_schedules order l Hp Hfit) as [_ Hs].
    destruct Hs as (Hfd & _ & Hnear); [set_solver|].
    specialize (Hnear (λ f _, Hno f)).
    destruct (Domain.selectNextTarget order l) as [t fd]. cbn in *. subst fd.
    f_equal. eapply nearestOf_floor; [exact Hin| |exact Hnear]. done. }
  destruct (Domain.LDirection l) eqn:Hdir.
  - destruct (domain_phase1_up order l Hp Hfit Hdir) as [Hiff Hsp].
    assert (Hfound : scanFound (Domain.ahead order l) = true).
    { apply Hiff. exists (Domain.Floor l). split; [done|lia]. }
    destruct (Hsp Hfound) as [Hn ->]. f_equal.
    eapply nearestOf_floor; [exact Hin| |exact Hn]. cbn. lia.
  - destruct (domain_phase1_down order l Hp Hfit Hdir) as [Hiff Hsp].
    assert (Hfound : scanFound (Domain.ahead order l) = true).
    { apply Hiff. exists (Domain.Floor l). split; [done|lia]. }
    destruct (Hsp Hfound) as [Hn ->]. f_equal.
    eapply nearestOf_floor; [exact Hin| |exact Hn]. cbn. lia.
  - apply Hfall. intros f. unfold domainAhead. rewrite Hdir. tauto.
  - apply Hfall. intros f. unfold domainAhead. rewrite Hdir. tauto.
Qed.

Lemma domain_decide_current (order : list Z) (l : Domain.ElevatorLogic) :
  order ≡ₚ elements (Domain.Calls l) →
  floorsFit (Domain.Floor l) (Domain.Calls l) →
  Domain.Floor l ∈ Domain.Calls l →
  Domain.LDoors l = closedDoors →
  Domain.DecideNextStep order l
  = Domain.mkLogicAction Domain.ActionOpenDoor (Domain.Floor l) DirEmpty.
Proof.
  intros Hp Hfit Hin Hd. unfold Domain.DecideNextStep, Domain.AreDoorsClosed.
  rewrite Hd. cbn [allClosed closedDoors front rear negb].
  rewrite bool_decide_eq_false_2 by set_solver.
  rewrite (domain_select_current order l Hp Hfit Hin). cbn [negb].
  by rewrite Z.eqb_refl.
Qed.

Lemma monolith_select_current (order : list Z) (e : Monolith.Elevator) :
  order ≡ₚ elements (Monolith.callFloors e) →
  floorsFit (Monolith.floor e) (Monolith.callFloors e) →
  Monolith.floor e ∈ Monolith.callFloors e →
  (∀ f, f ∈ Monolith.callFloors e → ¬ monolithAhead e f) →
  Monolith.selectNextTarget order e = (Monolith.floor e, true).
Proof.
  intros Hp Hfit Hin Hno.
  destruct (monolith_schedules order e Hp Hfit) as [_ Hs].
  destruct Hs as (Hfd & _ & Hnear); [set_solver|].
  specialize (Hnear Hno).
  destruct (Monolith.selectNextTarget order e) as [t fd]. cbn in *. subst fd.
  f_equal. eapply nearestOf_floor; [exact Hin| |exact Hnear]. done.
Qed.

Lemma monolith_setFloor_frame (f : Z) (e : Monolith.Elevator) :
  Monolith.doors (Monolith.setFloor f e) = Monolith.doors e
  ∧ Monolith.Mode (Monolith.setFloor f e) = Monolith.Mode e
  ∧ Monolith.weight (Monolith.setFloor f e) = Monolith.weight e.
Proof.
  unfold Monolith.setFloor. case_decide; [done|].
  by rewrite mono_publish_doors, mono_publish_mode, mono_publish_weight.
Qed.

Lemma monolith_hop_arrives (order : list Z) (e : Monolith.Elevator) :
  nextFloor (Monolith.direction e) (Monolith.floor e) ∈ Monolith.callFloors e →
  let next := nextFloor (Monolith.direction e) (Monolith.floor e) in
  ∃ e', Monolith.handleMove order e = (false, 0, e')
        ∧ monolithServed next (Monolith.withFloor next e) e'.
Proof.
  intros Hin next. unfold Monolith.handleMove.
  set (e1 := match Monolith.direction e with
             | DirUp => _ | DirDown => _ | _ => _ end).
  assert (H1 : e1 = Monolith.setFloor next e).
  { unfold e1, next, nextFloor, Monolith.setFloor.
    destruct (Monolith.direction e); try done; by rewrite decide_True. }
  destruct (monolith_setFloor_facts next e) as (Hc & Hf & Hcf & Hd).
  destruct (monolith_setFloor_frame next e) as (Hdo & Hm & Hw).
  rewrite <- H1 in Hc, Hf, Hcf, Hd, Hdo, Hm, Hw.
  rewrite bool_decide_eq_true_2 by (by rewrite Hf, Hcf).
  eexists. split; [done|].
  pose proof (monolith_handleArrival_served (Monolith.floor e1) e1) as Hs.
  unfold monolithServed in *.
  rewrite Hf, Hc, Hcf, Hd, Hdo, Hm, Hw in Hs. rewrite Hf. exact Hs.
Qed.

Lemma service_hop_arrives (order : list Z) (s : Service.Elevator) :
  let l := Service.Logic s in
  let next := nextFloor (Domain.LDirection l) (Domain.Floor l) in
  order ≡ₚ elements (Domain.Calls l) →
  floorsFit next (Domain.Calls l) →
  next ∈ Domain.Calls l →
  Domain.LDoors l = closedDoors →
  ∃ s', Service.handleMoveComplete order s = (false, 0, s')
        ∧ serviceServed next
            (Service.withLogic (Domain.SetFloor next (Service.Logic s)) s) s'.
Proof.
  intros l next Hp Hfit Hin Hdoors. unfold Service.handleMoveComplete.
  fold (nextFloor (Domain.LDirection (Service.Logic s))
          (Domain.Floor (Service.Logic s))).
  fold l. fold next.
  set (s1 := Service.setFloor next s).
  assert (H1 : Service.Logic s1 = Domain.SetFloor next l
               ∧ Service.Cfg s1 = Service.Cfg s
               ∧ Service.Mode s1 = Service.Mode s).
  { unfold s1, Service.setFloor. case_decide as Hn.
    - split; [|done]. unfold Domain.SetFloor. rewrite <- Hn.
      unfold l. by destruct (Service.Logic s).
    - by rewrite service_publish_Logic, service_cfg_publish,
        service_publish_mode. }
  destruct H1 as (Hl1 & Hc1 & Hm1).
  rewrite (domain_decide_current order (Service.Logic s1));
    rewrite ?Hl1; try done.
  cbn [Domain.Type_]. eexists. split; [done|].
  pose proof (service_handleArrival_served next s1) as Hs.
  unfold serviceServed in *. rewrite Hl1, Hc1, Hm1 in Hs. exact Hs.
Qed.

(** X11.  The car does not pass a called floor.  When a hop ends at a floor
    with a pending call, the single-file engine stops there: it is no
    longer moving, the travel timer is off, the call is served (removed,
    the doors of the floor opening, the door timer running).  The
    logic-split engine does the same provided its doors are closed, which
    is what its logic checks first. *)
Theorem hop_stops_at_called_floor
    (om os : list Z) (g : Monolith.Engine) (h : Service.Engine) :
  let e := Monolith.elev g in
  let l := Service.Logic (Service.elev h) in
  let nextM := nextFloor (Monolith.direction e) (Monolith.floor e) in
  let nextS := nextFloor (Domain.LDirection l) (Domain.Floor l) in
  Monolith.travelTimer g ≠ None →
  nextM ∈ Monolith.callFloors e →
  Service.travelTimer h ≠ None →
  os ≡ₚ elements (Domain.Calls l) →
  floorsFit nextS (Domain.Calls l) →
  nextS ∈ Domain.Calls l →
  Domain.LDoors l = closedDoors →
  (let g' := Monolith.exec (Monolith.TravelFire om) g in
   Monolith.isMoving g' = false ∧ Monolith.travelTimer g' = None
   ∧ monolithServed nextM (Monolith.withFloor nextM e) (Monolith.elev g'))
  ∧ (let h' := Service.exec (Service.TravelFire os) h in
     Service.isMoving h' = false ∧ Service.travelTimer h' = None
     ∧ serviceServed nextS
         (Service.withLogic (Domain.SetFloor nextS l) (Service.elev h))
         (Service.elev h')).
Proof.
  intros e l nextM nextS Htg Hmin Hth Hp Hfit Hsin Hdoors.
  subst e l nextM nextS. split.
  - cbn zeta. cbn [Monolith.exec].
    destruct (Monolith.travelTimer g); [|done].
    unfold Monolith.travelDone. cbn [Monolith.elev Monolith.isMoving].
    destruct (monolith_hop_arrives om (Monolith.elev g) Hmin)
      as (e' & -> & Hs). done.
  - cbn zeta. cbn [Service.exec].
    destruct (Service.travelTimer h); [|done].
    unfold Service.travelDone. cbn [Service.elev Service.isMoving].
    destruct (service_hop_arrives os (Service.elev h) Hp Hfit Hsin Hdoors)
      as (s' & -> & Hs). done.
Qed.

(** X12.  A call at the floor where the car rests is served in place.  On a
    tick in automatic mode, not moving, doors closed, with a call pending
    at the current floor, the logic-split engine serves it whatever the
    heading left over from the last trip.  The single-file engine serves
    it when no call lies strictly ahead in that heading (otherwise it
    departs and the call stays pending). *)
Theorem call_at_current_floor_is_served
    (om os : list Z) (g : Monolith.Engine) (h : Service.Engine) :
  let e := Monolith.elev g in
  let l := Service.Logic (Service.elev h) in
  Monolith.Mode e = ModeAuto → Monolith.isMoving g = false →
  Monolith.doors e = closedDoors →
  om ≡ₚ elements (Monolith.callFloors e) →
  floorsFit (Monolith.floor e) (Monolith.callFloors e) →
  Monolith.floor e ∈ Monolith.callFloors e →
  (∀ f, f ∈ Monolith.callFloors e → ¬ monolithAhead e f) →
  Service.Mode (Service.elev h) = ModeAuto → Service.isMoving h = false →
  Domain.LDoors l = closedDoors →
  os ≡ₚ elements (Domain.Calls l) →
  floorsFit (Domain.Floor l) (Domain.Calls l) →
  Domain.Floor l ∈ Domain.Calls l →
  (let g' := Monolith.exec (Monolith.Tick om) g in
   Monolith.isMoving g' = false
   ∧ Monolith.travelTimer g' = Monolith.travelTimer g
   ∧ monolithServed (Monolith.floor e) e (Monolith.elev g'))
  ∧ (let h' := Service.exec (Service.Tick os) h in
     Service.isMoving h' = false
     ∧ Service.travelTimer h' = Service.travelTimer h
     ∧ serviceServed (Domain.Floor l) (Service.elev h) (Service.elev h')).
Proof.
  intros e l Hmm Hmv Hmd Hmp Hmf Hmin Hno Hsm Hsv Hsd Hsp Hsf Hsin.
  subst e l. split.
  - cbn zeta. cbn [Monolith.exec]. unfold Monolith.step.
    rewrite Hmm, Hmv, Hmd.
    cbn [Z.eqb ModeAuto negb allClosed closedDoors front rear].
    rewrite (monolith_select_current om _ Hmp Hmf Hmin Hno). cbn [negb].
    rewrite !Z.ltb_irrefl. cbn. split; [done|]. split; [done|].
    apply monolith_handleArrival_served.
  - cbn zeta. cbn [Service.exec]. unfold Service.step.
    rewrite Hsm, Hsv. cbn [Z.eqb ModeAuto negb].
    rewrite (domain_decide_current os _ Hsp Hsf Hsin Hsd).
    cbn. split; [done|]. split; [done|].
    apply service_handleArrival_served.
Qed.

Ltac by_computation := vm_compute; reflexivity.

Ltac small_floorsFit :=
  eapply floorsFit_of_elements;
  [ by_computation
  | apply fits32_small; by_computation
  | repeat (apply List.Forall_cons; [apply fits32_small; by_computation|]);
    apply List.Forall_nil ].

(** The theorem one hop below a call at floor 2: both engines stop. *)
Lemma hop_stops_at_called_floor_witness :
  Monolith.isMoving (Monolith.exec (Monolith.TravelFire [2]) monolithTo2)
  = false
  ∧ Service.isMoving (Service.exec (Service.TravelFire [2]) serviceTo2)
    = false.
Proof.
  destruct (hop_stops_at_called_floor [2] [2] monolithTo2 serviceTo2)
    as [(Hm & _) (Hs & _)].
  - intros H. vm_compute in H. discriminate H.
  - apply elem_of_elements.
    assert (elements (Monolith.callFloors (Monolith.elev monolithTo2)) = [2])
      as -> by by_computation.
    assert (nextFloor (Monolith.direction (Monolith.elev monolithTo2))
              (Monolith.floor (Monolith.elev monolithTo2)) = 2)
      as -> by by_computation.
    by left.
  - intros H. vm_compute in H. discriminate H.
  - assert (elements
              (Domain.Calls (Service.Logic (Service.elev serviceTo2))) = [2])
      as -> by by_computation.
    done.
  - small_floorsFit.
  - apply elem_of_elements.
    assert (elements
              (Domain.Calls (Service.Logic (Service.elev serviceTo2))) = [2])
      as -> by by_computation.
    assert (nextFloor
              (Domain.LDirection (Service.Logic (Service.elev serviceTo2)))
              (Domain.Floor (Service.Logic (Service.elev serviceTo2))) = 2)
      as -> by by_computation.
    by left.
  - by_computation.
  - split; [exact Hm|exact Hs].
Defined.

(** The theorem at rest at floor 1 with a call at floor 1. *)
Lemma call_at_current_floor_is_served_witness :
  monolithServed 1 (Monolith.elev monolithCallHere)
    (Monolith.elev (Monolith.exec (Monolith.Tick [1]) monolithCallHere))
  ∧ serviceServed 1 (Service.elev serviceCallHere)
      (Service.elev (Service.exec (Service.Tick [1]) serviceCallHere)).
Proof.
  assert (Hme : elements
                  (Monolith.callFloors (Monolith.elev monolithCallHere))
                = [1]) by by_computation.
  assert (Hse : elements
                  (Domain.Calls (Service.Logic (Service.elev serviceCallHere)))
                = [1]) by by_computation.
  destruct (call_at_current_floor_is_served [1] [1]
              monolithCallHere serviceCallHere)
    as [(_ & _ & Hm) (_ & _ & Hs)].
  - by_computation.
  - by_computation.
  - by_computation.
  - by rewrite Hme.
  - small_floorsFit.
  - apply elem_of_elements. rewrite Hme. by left.
  - intros f _. unfold monolithAhead.
    assert (Monolith.direction (Monolith.elev monolithCallHere) = DirNone)
      as -> by by_computation.
    tauto.
  - by_computation.
  - by_computation.
  - by_computation.
  - by rewrite Hse.
  - small_floorsFit.
  - apply elem_of_elements. rewrite Hse. by left.
  - split; [exact Hm|exact Hs].
Defined.

(** ** The end of a hop and the mode *)

Lemma domain_decide_moves (order : list Z) (l : Domain.ElevatorLogic) :
  order ≡ₚ elements (Domain.Calls l) →
  floorsFit (Domain.Floor l) (Domain.Calls l) →
  Domain.LDoors l = closedDoors →
  Domain.Calls l ≠ ∅ → Domain.Floor l ∉ Domain.Calls l →
  Domain.Type_ (Domain.DecideNextStep order l) = Domain.ActionMove.
Proof.
  intros Hp Hfit Hd Hne Hnot.
  destruct (domain_schedules order l Hp Hfit) as [_ Hs].
  destruct (Hs Hne) as (Hfd & Hin & _).
  unfold Domain.DecideNextStep, Domain.AreDoorsClosed.
  rewrite Hd. cbn [allClosed closedDoors front rear negb].
  rewrite bool_decide_eq_false_2 by done.
  destruct (Domain.selectNextTarget order l) as [t fd]. cbn in Hfd, Hin.
  subst fd. cbn [negb].
  destruct (Z.eqb_spec t (Domain.Floor l)); [congruence|].
  by destruct (Domain.Floor l <? t).
Qed.

Lemma service_handleMoveComplete_mode
    (order : list Z) (s : Service.Elevator) :
  Service.Mode (snd (Service.handleMoveComplete order s)) = Service.Mode s.
Proof.
  unfold Service.handleMoveComplete.
  set (s1 := Service.setFloor _ s).
  assert (H1 : Service.Mode s1 = Service.Mode s).
  { unfold s1, Service.setFloor. case_decide; [done|].
    by rewrite service_publish_mode. }
  destruct (Domain.Type_ _); cbn [snd];
    rewrite ?service_mode_handleArrival; try done;
    try (by destruct (service_setDirection_keeps DirNone s1) as [-> _]).
  case_decide; [done|].
  by destruct (service_setDirection_keeps
                 (Domain.Dir (Domain.DecideNextStep order (Service.Logic s1)))
                 s1) as [-> _].
Qed.

Lemma service_hop_continues (order : list Z) (s : Service.Elevator) :
  Domain.Type_
    (Domain.DecideNextStep order
       (Service.Logic
          (Service.setFloor
             (nextFloor (Domain.LDirection (Service.Logic s))
                (Domain.Floor (Service.Logic s))) s)))
  = Domain.ActionMove →
  fst (fst (Service.handleMoveComplete order s)) = true.
Proof.
  unfold Service.handleMoveComplete, nextFloor. by intros ->.
Qed.

(** X13.  In the logic-split engine the end of a hop does not look at the mode.
    A car under way that has lost its heading (as it does when the
    emergency mode is selected), with the doors closed and a call pending
    elsewhere, keeps its mode and its floor at the end of the hop but gets
    a heading again and a new hop, and at the end of that one it has moved
    a floor. *)
Theorem service_hop_resumes_whatever_the_mode
    (o1 o2 : list Z) (h : Service.Engine) :
  let l := Service.Logic (Service.elev h) in
  let h1 := Service.exec (Service.TravelFire o1) h in
  let h2 := Service.exec (Service.TravelFire o2) h1 in
  Service.travelTimer h ≠ None →
  Domain.LDirection l = DirNone →
  Domain.LDoors l = closedDoors →
  o1 ≡ₚ elements (Domain.Calls l) →
  floorsFit (Domain.Floor l) (Domain.Calls l) →
  Domain.Calls l ≠ ∅ → Domain.Floor l ∉ Domain.Calls l →
  Service.Mode (Service.elev h1) = Service.Mode (Service.elev h)
  ∧ Domain.Floor (Service.Logic (Service.elev h1)) = Domain.Floor l
  ∧ Service.travelTimer h1 = Some (TravelTime (Service.Cfg (Service.elev h)))
  ∧ (Domain.LDirection (Service.Logic (Service.elev h1)) = DirUp
     ∧ Domain.Floor (Service.Logic (Service.elev h2)) = Domain.Floor l + 1
     ∨ Domain.LDirection (Service.Logic (Service.elev h1)) = DirDown
       ∧ Domain.Floor (Service.Logic (Service.elev h2)) = Domain.Floor l - 1).
Proof.
  intros l h1 h2 Ht Hdir Hdoors Hp Hfit Hne Hnot. subst l.
  assert (Hset : Service.setFloor
                   (nextFloor
                      (Domain.LDirection (Service.Logic (Service.elev h)))
                      (Domain.Floor (Service.Logic (Service.elev h))))
                   (Service.elev h) = Service.elev h).
  { rewrite Hdir. unfold nextFloor, Service.setFloor. by rewrite decide_True. }
  pose proof (service_hop_continues o1 (Service.elev h)) as Hcont.
  rewrite Hset in Hcont.
  specialize (Hcont (domain_decide_moves o1 _ Hp Hfit Hdoors Hne Hnot)).
  pose proof (service_handleMoveComplete_mode o1 (Service.elev h)) as Hmode.
  pose proof (service_handleMoveComplete_facts o1 (Service.elev h))
    as [Hfloor Hhead].
  rewrite Hdir in Hfloor, Hhead.
  pose proof (service_handleMoveComplete_continue o1 (Service.elev h))
    as Hdur.
  assert (H1 : ∃ s1,
            h1 = Service.mkEngine s1 (Service.isMoving h)
                   (Some (TravelTime (Service.Cfg (Service.elev h))))
            ∧ Service.Mode s1 = Service.Mode (Service.elev h)
            ∧ Domain.Floor (Service.Logic s1)
              = Domain.Floor (Service.Logic (Service.elev h))
            ∧ (Domain.LDirection (Service.Logic s1) = DirUp
               ∨ Domain.LDirection (Service.Logic s1) = DirDown)).
  { unfold h1. cbn [Service.exec].
    destruct (Service.travelTimer h); [|done].
    unfold Service.travelDone. cbn [Service.elev Service.isMoving].
    destruct (Service.handleMoveComplete o1 (Service.elev h))
      as [[c d] s1].
    cbn [fst snd] in *. subst c. rewrite (Hdur s1 d eq_refl).
    exists s1. split; [done|]. split; [done|]. split; [done|].
    destruct (Hhead eq_refl) as (t & _ & [[? _]|[? _]]); auto. }
  destruct H1 as (s1 & Hh1 & Hm1 & Hf1 & Hd1).
  pose proof (service_handleMoveComplete_facts o2 s1) as [Hfloor2 _].
  assert (H2 : Domain.Floor (Service.Logic (Service.elev h2))
               = nextFloor (Domain.LDirection (Service.Logic s1))
                   (Domain.Floor (Service.Logic s1))).
  { unfold h2. rewrite Hh1. cbn [Service.exec Service.travelTimer].
    unfold Service.travelDone. cbn [Service.elev Service.isMoving].
    destruct (Service.handleMoveComplete o2 s1) as [[c d] s2].
    cbn [snd] in Hfloor2. unfold nextFloor. by destruct c. }
  rewrite H2, Hh1. cbn [Service.elev Service.travelTimer].
  split; [done|]. split; [done|]. split; [done|].
  destruct Hfit as [Hfl _]. unfold fits32 in Hfl.
  destruct Hd1 as [Hd|Hd]; [left|right]; (split; [done|]);
    rewrite Hd, Hf1; unfold nextFloor; apply wrap64_small; lia.
Qed.

(** The theorem on the car put in emergency mode on its way from floor 1
    to floor 5: after the hop it is in emergency mode with a hop pending,
    and after the next one it is at floor 2. *)
Lemma service_hop_resumes_whatever_the_mode_witness :
  Service.Mode
    (Service.elev
       (Service.exec (Service.TravelFire [5]) serviceStoppedUnderWay))
  = ModeEmergency
  ∧ Domain.Floor
      (Service.Logic
         (Service.elev
            (Service.exec (Service.TravelFire [5])
               (Service.exec (Service.TravelFire [5])
                  serviceStoppedUnderWay))))
    = 2.
Proof.
  assert (Hel : elements
                  (Domain.Calls
                     (Service.Logic (Service.elev serviceStoppedUnderWay)))
                = [5]) by by_computation.
  destruct (service_hop_resumes_whatever_the_mode [5] [5]
              serviceStoppedUnderWay) as (Hmode & _ & _ & Hhop).
  - intros H. vm_compute in H. discriminate H.
  - by_computation.
  - by_computation.
  - by rewrite Hel.
  - small_floorsFit.
  - intros H. rewrite H in Hel. vm_compute in Hel. discriminate Hel.
  - intros H%elem_of_elements. rewrite Hel in H.
    apply list_elem_of_singleton in H. vm_compute in H. discriminate H.
  - split; [rewrite Hmode; by_computation|].
    destruct Hhop as [[_ ->]|[Hd _]]; [by_computation|].
    vm_compute in Hd. discriminate Hd.
Defined.

(** ** The door cycle *)

Lemma monolith_advance_facts (from to : DoorState) (e : Monolith.Elevator) :
  let e1 := if decide (front (Monolith.doors e) = from)
            then Monolith.setDoor Front to e else e in
  let e2 := if decide (rear (Monolith.doors e1) = from)
            then Monolith.setDoor Rear to e1 else e1 in
  monolithDoorStep e e2 (advance from to (Monolith.doors e))
    (Monolith.doorTimer e).
Proof.
  intros e1 e2.
  assert (H1 : monolithDoorStep e e1
                 (mkDoors (if decide (front (Monolith.doors e) = from)
                           then to else front (Monolith.doors e))
                    (rear (Monolith.doors e)))
                 (Monolith.doorTimer e)).
  { unfold e1, monolithDoorStep. case_decide.
    - destruct (monolith_setDoor_facts Front to e)
        as (-> & -> & -> & -> & -> & -> & -> & -> & -> & ->).
      by destruct (Monolith.doors e).
    - by destruct (Monolith.doors e). }
  destruct H1 as (Hd & Ht & Hc & Hcf & Hw & Hf & Hdir & Hm & Hwt & Hb).
  unfold e2, monolithDoorStep, advance. rewrite Hd. cbn [rear].
  destruct (decide (rear (Monolith.doors e) = from)).
  - destruct (monolith_setDoor_facts Rear to e1)
      as (-> & -> & -> & -> & -> & -> & -> & -> & -> & ->).
    by rewrite Hd.
  - by rewrite Hd.
Qed.

Lemma monolith_door_opening (e : Monolith.Elevator) :
  Monolith.activeDoor (Monolith.doors e) = DoorOpening →
  monolithDoorStep e (Monolith.handleDoorTimeout e)
    (advance DoorOpening DoorOpen (Monolith.doors e))
    (Some (Monolith.openWaitTime e)).
Proof.
  intros Hact. unfold Monolith.handleDoorTimeout. rewrite Hact.
  destruct (monolith_advance_facts DoorOpening DoorOpen e)
    as (Hd & Ht & Hc & Hcf & Hw & Hf & Hdir & Hm & Hwt & Hb).
  unfold monolithDoorStep, Monolith.withDoorTimer.
  cbn [Monolith.doors Monolith.doorTimer Monolith.Cfg Monolith.callFloors
       Monolith.openWaitTime Monolith.floor Monolith.direction Monolith.Mode
       Monolith.weight Monolith.isOpenButtonPressed].
  by rewrite Hw.
Qed.

Lemma monolith_door_open (e : Monolith.Elevator) :
  Monolith.activeDoor (Monolith.doors e) = DoorOpen →
  Monolith.isOpenButtonPressed e = false →
  ¬ overloaded (MaxWeight (Monolith.Cfg e)) (Monolith.weight e) →
  monolithDoorStep e (Monolith.handleDoorTimeout e)
    (advance DoorOpen DoorClosing (Monolith.doors e))
    (Some (DoorSpeed (Monolith.Cfg e))).
Proof.
  intros Hact Hb Hno. unfold Monolith.handleDoorTimeout. rewrite Hact, Hb.
  assert ((0 <? MaxWeight (Monolith.Cfg e))
          && (MaxWeight (Monolith.Cfg e) <? Monolith.weight e) = false)
    as ->.
  { unfold overloaded in Hno. apply andb_false_iff. lia. }
  destruct (monolith_advance_facts DoorOpen DoorClosing e)
    as (Hd & Ht & Hc & Hcf & Hw & Hf & Hdir & Hm & Hwt & Hb').
  unfold monolithDoorStep, Monolith.withDoorTimer.
  cbn [Monolith.doors Monolith.doorTimer Monolith.Cfg Monolith.callFloors
       Monolith.openWaitTime Monolith.floor Monolith.direction Monolith.Mode
       Monolith.weight Monolith.isOpenButtonPressed].
  by rewrite Hc.
Qed.

Lemma monolith_door_closing (e : Monolith.Elevator) :
  Monolith.activeDoor (Monolith.doors e) = DoorClosing →
  monolithDoorStep e (Monolith.handleDoorTimeout e)
    (advance DoorClosing DoorClose (Monolith.doors e))
    (Monolith.doorTimer e).
Proof.
  intros Hact. unfold Monolith.handleDoorTimeout. rewrite Hact.
  apply (monolith_advance_facts DoorClosing DoorClose e).
Qed.

Lemma service_advance_facts (from to : DoorState) (s : Service.Elevator) :
  let s1 := if decide (front (Domain.LDoors (Service.Logic s)) = from)
            then Service.setDoor Front to s else s in
  let s2 := if decide (rear (Domain.LDoors (Service.Logic s1)) = from)
            then Service.setDoor Rear to s1 else s1 in
  serviceDoorStep s s2 (advance from to (Domain.LDoors (Service.Logic s)))
    (Service.doorTimer s).
Proof.
  intros s1 s2.
  assert (H1 : serviceDoorStep s s1
                 (mkDoors
                    (if decide (front (Domain.LDoors (Service.Logic s)) = from)
                     then to else front (Domain.LDoors (Service.Logic s)))
                    (rear (Domain.LDoors (Service.Logic s))))
                 (Service.doorTimer s)).
  { unfold s1, serviceDoorStep. case_decide.
    - destruct (service_setDoor_facts Front to s)
        as (-> & -> & -> & -> & -> & ->).
      by destruct (Service.Logic s) as [? ? ? [] ? ?].
    - by destruct (Service.Logic s) as [? ? ? [] ? ?]. }
  destruct H1 as (Hl & Ht & Hc & Hw & Hm & Hb).
  unfold s2, serviceDoorStep, advance. rewrite Hl. cbn [Domain.LDoors rear].
  destruct (decide (rear (Domain.LDoors (Service.Logic s)) = from)).
  - destruct (service_setDoor_facts Rear to s1)
      as (-> & -> & -> & -> & -> & ->).
    by rewrite Hl.
  - by rewrite Hl.
Qed.

Lemma service_door_opening (s : Service.Elevator) :
  Service.activeDoor (Domain.LDoors (Service.Logic s)) = DoorOpening →
  serviceDoorStep s (Service.handleDoorTimeout s)
    (advance DoorOpening DoorOpen (Domain.LDoors (Service.Logic s)))
    (Some (Service.openWaitTime s)).
Proof.
  intros Hact. unfold Service.handleDoorTimeout. rewrite Hact.
  destruct (service_advance_facts DoorOpening DoorOpen s)
    as (Hl & Ht & Hc & Hw & Hm & Hb).
  unfold serviceDoorStep, Service.withDoorTimer.
  cbn [Service.Logic Service.doorTimer Service.Cfg Service.openWaitTime
       Service.Mode Service.isOpenButtonPressed].
  by rewrite Hw.
Qed.

Lemma service_door_open (s : Service.Elevator) :
  Service.activeDoor (Domain.LDoors (Service.Logic s)) = DoorOpen →
  Service.isOpenButtonPressed s = false →
  ¬ overloaded (MaxWeight (Service.Cfg s)) (Domain.Weight (Service.Logic s)) →
  serviceDoorStep s (Service.handleDoorTimeout s)
    (advance DoorOpen DoorClosing (Domain.LDoors (Service.Logic s)))
    (Some (DoorSpeed (Service.Cfg s))).
Proof.
  intros Hact Hb Hno. unfold Service.handleDoorTimeout. rewrite Hact, Hb.
  assert ((0 <? MaxWeight (Service.Cfg s))
          && (MaxWeight (Service.Cfg s) <? Domain.Weight (Service.Logic s))
          = false) as ->.
  { unfold overloaded in Hno. apply andb_false_iff. lia. }
  destruct (service_advance_facts DoorOpen DoorClosing s)
    as (Hl & Ht & Hc & Hw & Hm & Hb').
  unfold serviceDoorStep, Service.withDoorTimer.
  cbn [Service.Logic Service.doorTimer Service.Cfg Service.openWaitTime
       Service.Mode Service.isOpenButtonPressed].
  by rewrite Hc.
Qed.

Lemma service_door_closing (s : Service.Elevator) :
  Service.activeDoor (Domain.LDoors (Service.Logic s)) = DoorClosing →
  serviceDoorStep s (Service.handleDoorTimeout s) closedDoors
    (Service.doorTimer s).
Proof.
  intros Hact. unfold Service.handleDoorTimeout. rewrite Hact.
  destruct (service_setDoor_facts Front DoorClose s)
    as (Hl1 & Hc1 & Ht1 & Hw1 & Hm1 & Hb1).
  unfold serviceDoorStep.
  destruct (service_setDoor_facts Rear DoorClose
              (Service.setDoor Front DoorClose s))
    as (-> & -> & -> & -> & -> & ->).
  rewrite Hl1, Hc1, Ht1, Hw1, Hm1, Hb1.
  by destruct (Service.Logic s) as [? ? ? [] ? ?].
Qed.

Lemma monolith_door_held (e : Monolith.Elevator) :
  Monolith.activeDoor (Monolith.doors e) = DoorOpen →
  Monolith.isOpenButtonPressed e = true →
  Monolith.handleDoorTimeout e
  = Monolith.withDoorTimer (Some (DoorReopenTime (Monolith.Cfg e))) e.
Proof.
  intros Hact Hb. unfold Monolith.handleDoorTimeout. by rewrite Hact, Hb.
Qed.

Lemma service_door_held (s : Service.Elevator) :
  Service.activeDoor (Domain.LDoors (Service.Logic s)) = DoorOpen →
  Service.isOpenButtonPressed s = true →
  ¬ overloaded (MaxWeight (Service.Cfg s)) (Domain.Weight (Service.Logic s)) →
  Service.handleDoorTimeout s
  = Service.withDoorTimer (Some (DoorReopenTime (Service.Cfg s))) s.
Proof.
  intros Hact Hb Hno. unfold Service.handleDoorTimeout. rewrite Hact, Hb.
  assert ((0 <? MaxWeight (Service.Cfg s))
          && (MaxWeight (Service.Cfg s) <? Domain.Weight (Service.Logic s))
          = false) as ->; [|done].
  unfold overloaded in Hno. apply andb_false_iff. lia.
Qed.

(** X14.  The door handler moves the doors under way one stage on and leaves
    configuration, calls, hold time, floor, heading, mode, weight and
    button alone.  Single-file engine: doors
    that are Opening become Open and the timer runs for the hold time;
    doors that are Open become Closing and the timer runs for the door
    travel time, unless the OPEN button is held (then the doors stay and
    the timer runs for the reopen time) or the car is overloaded; doors
    that are Closing become Close and the timer is not started again.  A
    door in another stage than the one under way is not touched, so a
    closed door is never opened.  The logic-split engine does the same,
    except that at the end of closing it sets both doors to Close whatever
    their state. *)
Theorem door_timeout_advances_one_stage
    (e : Monolith.Elevator) (s : Service.Elevator) :
  let d := Monolith.doors e in
  let ds := Domain.LDoors (Service.Logic s) in
  let fits := ¬ overloaded (MaxWeight (Monolith.Cfg e)) (Monolith.weight e) in
  let fitsS :=
    ¬ overloaded (MaxWeight (Service.Cfg s))
        (Domain.Weight (Service.Logic s)) in
  (Monolith.activeDoor d = DoorOpening →
   monolithDoorStep e (Monolith.handleDoorTimeout e)
     (advance DoorOpening DoorOpen d) (Some (Monolith.openWaitTime e)))
  ∧ (Monolith.activeDoor d = DoorOpen →
     Monolith.isOpenButtonPressed e = false → fits →
     monolithDoorStep e (Monolith.handleDoorTimeout e)
       (advance DoorOpen DoorClosing d)
       (Some (DoorSpeed (Monolith.Cfg e))))
  ∧ (Monolith.activeDoor d = DoorOpen →
     Monolith.isOpenButtonPressed e = true →
     Monolith.handleDoorTimeout e
     = Monolith.withDoorTimer (Some (DoorReopenTime (Monolith.Cfg e))) e)
  ∧ (Monolith.activeDoor d = DoorClosing →
     monolithDoorStep e (Monolith.handleDoorTimeout e)
       (advance DoorClosing DoorClose d) (Monolith.doorTimer e))
  ∧ (Service.activeDoor ds = DoorOpening →
     serviceDoorStep s (Service.handleDoorTimeout s)
       (advance DoorOpening DoorOpen ds) (Some (Service.openWaitTime s)))
  ∧ (Service.activeDoor ds = DoorOpen →
     Service.isOpenButtonPressed s = false → fitsS →
     serviceDoorStep s (Service.handleDoorTimeout s)
       (advance DoorOpen DoorClosing ds) (Some (DoorSpeed (Service.Cfg s))))
  ∧ (Service.activeDoor ds = DoorOpen →
     Service.isOpenButtonPressed s = true → fitsS →
     Service.handleDoorTimeout s
     = Service.withDoorTimer (Some (DoorReopenTime (Service.Cfg s))) s)
  ∧ (Service.activeDoor ds = DoorClosing →
     serviceDoorStep s (Service.handleDoorTimeout s) closedDoors
       (Service.doorTimer s)).
Proof.
  cbn zeta.
  split; [apply monolith_door_opening|].
  split; [apply monolith_door_open|].
  split; [apply monolith_door_held|].
  split; [apply monolith_door_closing|].
  split; [apply service_door_opening|].
  split; [apply service_door_open|].
  split; [apply service_door_held|].
  apply service_door_closing.
Qed.

(** The theorem on the engines that have just arrived at floor 2: the
    front door goes from Opening to Open, the rear door stays closed. *)
Lemma door_timeout_advances_one_stage_witness :
  Monolith.doors (Monolith.handleDoorTimeout (Monolith.elev monolithAt2))
  = mkDoors DoorOpen DoorClose
  ∧ Domain.LDoors
      (Service.Logic (Service.handleDoorTimeout (Service.elev serviceAt2)))
    = mkDoors DoorOpen DoorClose.
Proof.
  destruct (door_timeout_advances_one_stage
              (Monolith.elev monolithAt2) (Service.elev serviceAt2))
    as (Hm & _ & _ & _ & Hs & _).
  destruct (Hm ltac:(by_computation)) as (Hd & _).
  destruct (Hs ltac:(by_computation)) as (Hl & _).
  split; [rewrite Hd|rewrite Hl]; by_computation.
Defined.

Lemma activeDoor_doorsAt (mask : Z) (st : DoorState) :
  hasSide mask Front || hasSide mask Rear = true →
  Monolith.activeDoor (doorsAt mask st) = st
  ∧ Service.activeDoor (doorsAt mask st) = st.
Proof.
  unfold doorsAt, Monolith.activeDoor, Service.activeDoor.
  destruct (hasSide mask Front), (hasSide mask Rear), st; done.
Qed.

Lemma advance_doorsAt (mask : Z) (from to : DoorState) :
  from ≠ DoorClose →
  advance from to (doorsAt mask from) = doorsAt mask to.
Proof.
  intros Hne. unfold advance, doorsAt.
  destruct (hasSide mask Front), (hasSide mask Rear); cbn [front rear];
    repeat case_decide; done.
Qed.

Lemma monolith_fire_step (g : Monolith.Engine) :
  Monolith.doorTimer (Monolith.elev g) ≠ None →
  Monolith.exec Monolith.DoorFire g
  = Monolith.onElevator
      (λ e, Monolith.handleDoorTimeout (Monolith.withDoorTimer None e)) g.
Proof.
  intros Ht. cbn [Monolith.exec].
  by destruct (Monolith.doorTimer (Monolith.elev g)).
Qed.

Lemma service_fire_step (h : Service.Engine) :
  Service.doorTimer (Service.elev h) ≠ None →
  Service.exec Service.DoorFire h
  = Service.onElevator
      (λ s, Service.handleDoorTimeout (Service.withDoorTimer None s)) h.
Proof.
  intros Ht. cbn [Service.exec].
  by destruct (Service.doorTimer (Service.elev h)).
Qed.

Lemma monolith_fire_opening (g : Monolith.Engine) :
  Monolith.doorTimer (Monolith.elev g) ≠ None →
  Monolith.activeDoor (Monolith.doors (Monolith.elev g)) = DoorOpening →
  monolithDoorStep (Monolith.elev g)
    (Monolith.elev (Monolith.exec Monolith.DoorFire g))
    (advance DoorOpening DoorOpen (Monolith.doors (Monolith.elev g)))
    (Some (Monolith.openWaitTime (Monolith.elev g))).
Proof.
  intros Ht Hact. rewrite monolith_fire_step by done.
  exact (monolith_door_opening
           (Monolith.withDoorTimer None (Monolith.elev g)) Hact).
Qed.

Lemma monolith_fire_open (g : Monolith.Engine) :
  Monolith.doorTimer (Monolith.elev g) ≠ None →
  Monolith.activeDoor (Monolith.doors (Monolith.elev g)) = DoorOpen →
  Monolith.isOpenButtonPressed (Monolith.elev g) = false →
  ¬ overloaded (MaxWeight (Monolith.Cfg (Monolith.elev g)))
      (Monolith.weight (Monolith.elev g)) →
  monolithDoorStep (Monolith.elev g)
    (Monolith.elev (Monolith.exec Monolith.DoorFire g))
    (advance DoorOpen DoorClosing (Monolith.doors (Monolith.elev g)))
    (Some (DoorSpeed (Monolith.Cfg (Monolith.elev g)))).
Proof.
  intros Ht Hact Hb Hno. rewrite monolith_fire_step by done.
  exact (monolith_door_open
           (Monolith.withDoorTimer None (Monolith.elev g)) Hact Hb Hno).
Qed.

Lemma monolith_fire_closing (g : Monolith.Engine) :
  Monolith.doorTimer (Monolith.elev g) ≠ None →
  Monolith.activeDoor (Monolith.doors (Monolith.elev g)) = DoorClosing →
  monolithDoorStep (Monolith.elev g)
    (Monolith.elev (Monolith.exec Monolith.DoorFire g))
    (advance DoorClosing DoorClose (Monolith.doors (Monolith.elev g))) None.
Proof.
  intros Ht Hact. rewrite monolith_fire_step by done.
  exact (monolith_door_closing
           (Monolith.withDoorTimer None (Monolith.elev g)) Hact).
Qed.

Lemma monolithDoorStep_trans (e e1 e2 : Monolith.Elevator)
    (d1 d2 : Doors) (t1 t2 : Timer) :
  monolithDoorStep e e1 d1 t1 → monolithDoorStep e1 e2 d2 t2 →
  monolithDoorStep e e2 d2 t2.
Proof.
  unfold monolithDoorStep.
  intros (_ & _ & Hc & Hcf & Hw & Hf & Hdir & Hm & Hwt & Hb)
    (Hd2 & Ht2 & Hc2 & Hcf2 & Hw2 & Hf2 & Hdir2 & Hm2 & Hwt2 & Hb2).
  repeat split; congruence.
Qed.

Lemma closed_doorsAt (mask : Z) : doorsAt mask DoorClose = closedDoors.
Proof.
  unfold doorsAt. by destruct (hasSide mask Front), (hasSide mask Rear).
Qed.

Lemma monolith_door_cycle (mask : Z) (g : Monolith.Engine) :
  let e := Monolith.elev g in
  let g1 := Monolith.exec Monolith.DoorFire g in
  let g2 := Monolith.exec Monolith.DoorFire g1 in
  let g3 := Monolith.exec Monolith.DoorFire g2 in
  hasSide mask Front || hasSide mask Rear = true →
  Monolith.doors e = doorsAt mask DoorOpening →
  Monolith.doorTimer e ≠ None →
  Monolith.isOpenButtonPressed e = false →
  ¬ overloaded (MaxWeight (Monolith.Cfg e)) (Monolith.weight e) →
  monolithDoorStep e (Monolith.elev g1) (doorsAt mask DoorOpen)
    (Some (Monolith.openWaitTime e))
  ∧ monolithDoorStep e (Monolith.elev g2) (doorsAt mask DoorClosing)
      (Some (DoorSpeed (Monolith.Cfg e)))
  ∧ monolithDoorStep e (Monolith.elev g3) closedDoors None
  ∧ Monolith.exec Monolith.DoorFire g3 = g3.
Proof.
  intros e g1 g2 g3 Hmask Hd Ht Hb Hno.
  destruct (activeDoor_doorsAt mask DoorOpening Hmask) as [Ha0 _].
  destruct (activeDoor_doorsAt mask DoorOpen Hmask) as [Ha1 _].
  destruct (activeDoor_doorsAt mask DoorClosing Hmask) as [Ha2 _].
  assert (H1 : monolithDoorStep e (Monolith.elev g1) (doorsAt mask DoorOpen)
                 (Some (Monolith.openWaitTime e))).
  { rewrite <- (advance_doorsAt mask DoorOpening DoorOpen) by done.
    rewrite <- Hd. apply monolith_fire_opening; [done|]. fold e.
    by rewrite Hd. }
  pose proof H1 as (Hd1 & Ht1 & Hc1 & Hcf1 & Hw1 & Hf1 & Hdir1 & Hm1 & Hwt1
                    & Hb1).
  assert (H2 : monolithDoorStep e (Monolith.elev g2)
                 (doorsAt mask DoorClosing)
                 (Some (DoorSpeed (Monolith.Cfg e)))).
  { apply (monolithDoorStep_trans _ _ _ _ _ _ _ H1).
    rewrite <- (advance_doorsAt mask DoorOpen DoorClosing) by done.
    rewrite <- Hd1, <- Hc1.
    apply monolith_fire_open;
      rewrite ?Hd1, ?Ht1, ?Hb1, ?Hc1, ?Hwt1; done. }
  pose proof H2 as (Hd2 & Ht2 & Hc2 & Hcf2 & Hw2 & Hf2 & Hdir2 & Hm2 & Hwt2
                    & Hb2).
  assert (H3 : monolithDoorStep e (Monolith.elev g3) closedDoors None).
  { apply (monolithDoorStep_trans _ _ _ _ _ _ _ H2).
    rewrite <- (closed_doorsAt mask).
    rewrite <- (advance_doorsAt mask DoorClosing DoorClose) by done.
    rewrite <- Hd2.
    apply monolith_fire_closing; rewrite ?Hd2, ?Ht2; done. }
  split; [done|]. split; [done|]. split; [done|].
  destruct H3 as (_ & Ht3 & _). cbn [Monolith.exec]. by rewrite Ht3.
Qed.

Lemma service_fire_opening (h : Service.Engine) :
  Service.doorTimer (Service.elev h) ≠ None →
  Service.activeDoor (Domain.LDoors (Service.Logic (Service.elev h)))
  = DoorOpening →
  serviceDoorStep (Service.elev h)
    (Service.elev (Service.exec Service.DoorFire h))
    (advance DoorOpening DoorOpen
       (Domain.LDoors (Service.Logic (Service.elev h))))
    (Some (Service.openWaitTime (Service.elev h))).
Proof.
  intros Ht Hact. rewrite service_fire_step by done.
  exact (service_door_opening
           (Service.withDoorTimer None (Service.elev h)) Hact).
Qed.

Lemma service_fire_open (h : Service.Engine) :
  Service.doorTimer (Service.elev h) ≠ None →
  Service.activeDoor (Domain.LDoors (Service.Logic (Service.elev h)))
  = DoorOpen →
  Service.isOpenButtonPressed (Service.elev h) = false →
  ¬ overloaded (MaxWeight (Service.Cfg (Service.elev h)))
      (Domain.Weight (Service.Logic (Service.elev h))) →
  serviceDoorStep (Service.elev h)
    (Service.elev (Service.exec Service.DoorFire h))
    (advance DoorOpen DoorClosing
       (Domain.LDoors (Service.Logic (Service.elev h))))
    (Some (DoorSpeed (Service.Cfg (Service.elev h)))).
Proof.
  intros Ht Hact Hb Hno. rewrite service_fire_step by done.
  exact (service_door_open
           (Service.withDoorTimer None (Service.elev h)) Hact Hb Hno).
Qed.

Lemma service_fire_closing (h : Service.Engine) :
  Service.doorTimer (Service.elev h) ≠ None →
  Service.activeDoor (Domain.LDoors (Service.Logic (Service.elev h)))
  = DoorClosing →
  serviceDoorStep (Service.elev h)
    (Service.elev (Service.exec Service.DoorFire h)) closedDoors None.
Proof.
  intros Ht Hact. rewrite service_fire_step by done.
  exact (service_door_closing
           (Service.withDoorTimer None (Service.elev h)) Hact).
Qed.

Lemma serviceDoorStep_trans (s s1 s2 : Service.Elevator)
    (d1 d2 : Doors) (t1 t2 : Timer) :
  serviceDoorStep s s1 d1 t1 → serviceDoorStep s1 s2 d2 t2 →
  serviceDoorStep s s2 d2 t2.
Proof.
  unfold serviceDoorStep.
  intros (Hl & _ & Hc & Hw & Hm & Hb) (Hl2 & Ht2 & Hc2 & Hw2 & Hm2 & Hb2).
  rewrite Hl in Hl2. cbn in Hl2.
  repeat split; congruence.
Qed.

Lemma service_door_cycle (mask : Z) (h : Service.Engine) :
  let s := Service.elev h in
  let h1 := Service.exec Service.DoorFire h in
  let h2 := Service.exec Service.DoorFire h1 in
  let h3 := Service.exec Service.DoorFire h2 in
  hasSide mask Front || hasSide mask Rear = true →
  Domain.LDoors (Service.Logic s) = doorsAt mask DoorOpening →
  Service.doorTimer s ≠ None →
  Service.isOpenButtonPressed s = false →
  ¬ overloaded (MaxWeight (Service.Cfg s)) (Domain.Weight (Service.Logic s)) →
  serviceDoorStep s (Service.elev h1) (doorsAt mask DoorOpen)
    (Some (Service.openWaitTime s))
  ∧ serviceDoorStep s (Service.elev h2) (doorsAt mask DoorClosing)
      (Some (DoorSpeed (Service.Cfg s)))
  ∧ serviceDoorStep s (Service.elev h3) closedDoors None
  ∧ Service.exec Service.DoorFire h3 = h3.
Proof.
  intros s h1 h2 h3 Hmask Hd Ht Hb Hno.
  destruct (activeDoor_doorsAt mask DoorOpening Hmask) as [_ Ha0].
  destruct (activeDoor_doorsAt mask DoorOpen Hmask) as [_ Ha1].
  destruct (activeDoor_doorsAt mask DoorClosing Hmask) as [_ Ha2].
  assert (H1 : serviceDoorStep s (Service.elev h1) (doorsAt mask DoorOpen)
                 (Some (Service.openWaitTime s))).
  { rewrite <- (advance_doorsAt mask DoorOpening DoorOpen) by done.
    rewrite <- Hd. apply service_fire_opening; [done|]. fold s.
    by rewrite Hd. }
  pose proof H1 as (Hl1 & Ht1 & Hc1 & Hw1 & Hm1 & Hb1).
  assert (H2 : serviceDoorStep s (Service.elev h2)
                 (doorsAt mask DoorClosing)
                 (Some (DoorSpeed (Service.Cfg s)))).
  { apply (serviceDoorStep_trans _ _ _ _ _ _ _ H1).
    pose proof (service_fire_open h1) as Hs.
    rewrite Hl1, Ht1, Hb1, Hc1 in Hs. cbn [Domain.LDoors Domain.Weight] in Hs.
    rewrite advance_doorsAt in Hs by done.
    apply Hs; done. }
  pose proof H2 as (Hl2 & Ht2 & Hc2 & Hw2 & Hm2 & Hb2).
  assert (H3 : serviceDoorStep s (Service.elev h3) closedDoors None).
  { apply (serviceDoorStep_trans _ _ _ _ _ _ _ H2).
    apply service_fire_closing; rewrite ?Hl2, ?Ht2; done. }
  split; [done|]. split; [done|]. split; [done|].
  destruct H3 as (_ & Ht3 & _). cbn [Service.exec]. by rewrite Ht3.
Qed.

(** X15.  A door cycle runs to its end.  After an arrival (the doors of the
    floor Opening, the others closed, the door timer running), with the
    OPEN button not held and the car not overloaded, three fires of the
    door timer take the doors to Open (timer: the hold time), to Closing
    (timer: the door travel time) and to Close (timer off), in both
    engines; configuration, calls, hold time, floor, heading, mode, weight
    and button stay as they are, and a further fire does nothing. *)
Theorem door_cycle_closes
    (mm ms : Z) (g : Monolith.Engine) (h : Service.Engine) :
  let e := Monolith.elev g in
  let g1 := Monolith.exec Monolith.DoorFire g in
  let g2 := Monolith.exec Monolith.DoorFire g1 in
  let g3 := Monolith.exec Monolith.DoorFire g2 in
  let s := Service.elev h in
  let h1 := Service.exec Service.DoorFire h in
  let h2 := Service.exec Service.DoorFire h1 in
  let h3 := Service.exec Service.DoorFire h2 in
  hasSide mm Front || hasSide mm Rear = true →
  Monolith.doors e = doorsAt mm DoorOpening →
  Monolith.doorTimer e ≠ None →
  Monolith.isOpenButtonPressed e = false →
  ¬ overloaded (MaxWeight (Monolith.Cfg e)) (Monolith.weight e) →
  hasSide ms Front || hasSide ms Rear = true →
  Domain.LDoors (Service.Logic s) = doorsAt ms DoorOpening →
  Service.doorTimer s ≠ None →
  Service.isOpenButtonPressed s = false →
  ¬ overloaded (MaxWeight (Service.Cfg s)) (Domain.Weight (Service.Logic s)) →
  (monolithDoorStep e (Monolith.elev g1) (doorsAt mm DoorOpen)
     (Some (Monolith.openWaitTime e))
   ∧ monolithDoorStep e (Monolith.elev g2) (doorsAt mm DoorClosing)
       (Some (DoorSpeed (Monolith.Cfg e)))
   ∧ monolithDoorStep e (Monolith.elev g3) closedDoors None
   ∧ Monolith.exec Monolith.DoorFire g3 = g3)
  ∧ (serviceDoorStep s (Service.elev h1) (doorsAt ms DoorOpen)
       (Some (Service.openWaitTime s))
     ∧ serviceDoorStep s (Service.elev h2) (doorsAt ms DoorClosing)
         (Some (DoorSpeed (Service.Cfg s)))
     ∧ serviceDoorStep s (Service.elev h3) closedDoors None
     ∧ Service.exec Service.DoorFire h3 = h3).
Proof.
  intros e g1 g2 g3 s h1 h2 h3 ? ? ? ? ? ? ? ? ? ?.
  split; [by apply monolith_door_cycle|by apply service_door_cycle].
Qed.

(** The theorem on the engines that have just arrived at floor 2 with the
    front door opening. *)
Lemma door_cycle_closes_witness :
  Monolith.doors
    (Monolith.elev
       (Monolith.exec Monolith.DoorFire
          (Monolith.exec Monolith.DoorFire
             (Monolith.exec Monolith.DoorFire monolithAt2))))
  = closedDoors
  ∧ Domain.LDoors
      (Service.Logic
         (Service.elev
            (Service.exec Service.DoorFire
               (Service.exec Service.DoorFire
                  (Service.exec Service.DoorFire serviceAt2)))))
    = closedDoors.
Proof.
  destruct (door_cycle_closes (sideBit Front) (sideBit Front)
              monolithAt2 serviceAt2)
    as [(_ & _ & (Hm & _) & _) (_ & _ & (Hs & _) & _)].
  - by_computation.
  - by_computation.
  - intros H. vm_compute in H. discriminate H.
  - by_computation.
  - intros [_ H]. vm_compute in H. discriminate H.
  - by_computation.
  - by_computation.
  - intros H. vm_compute in H. discriminate H.
  - by_computation.
  - intros [_ H]. vm_compute in H. discriminate H.
  - split; [exact Hm|by rewrite Hs].
Defined.

(** ** The door buttons *)

Lemma service_door_held_any (s : Service.Elevator) :
  Service.activeDoor (Domain.LDoors (Service.Logic s)) = DoorOpen →
  Service.isOpenButtonPressed s = true →
  ∃ t, Service.handleDoorTimeout s = Service.withDoorTimer (Some t) s.
Proof.
  intros Hact Hb. unfold Service.handleDoorTimeout. rewrite Hact, Hb.
  destruct (_ && _); eauto.
Qed.

Lemma monolith_button_exec (op : Monolith.Op) (g : Monolith.Engine) :
  monolithWhileButton op → monolithButtonHeld (Monolith.elev g) →
  Monolith.doors (Monolith.elev (Monolith.exec op g))
  = Monolith.doors (Monolith.elev g)
  ∧ Monolith.isOpenButtonPressed (Monolith.elev (Monolith.exec op g)) = true.
Proof.
  intros Hop [Hact Hb].
  destruct op as [o|o| | |fa ca|fr| | |md|wd|sd st| | | |];
    unfold Monolith.exec, Monolith.onElevator; cbn [Monolith.elev].
  - rewrite monolith_step_doors_open; [done|].
    by apply activeDoor_open_not_closed.
  - destruct Hop.
  - destruct (Monolith.doorTimer (Monolith.elev g)); [|done].
    cbn [Monolith.elev]. by rewrite monolith_door_held.
  - by rewrite monolith_door_held.
  - unfold Monolith.AddCall. repeat case_match; done.
  - by cbn.
  - by cbn.
  - destruct Hop.
  - unfold Monolith.SetMode. repeat case_match; mono_simpl; done.
  - by cbn.
  - destruct Hop.
  - unfold Monolith.PressOpenButton. cbn. by rewrite Hact.
  - destruct Hop.
  - unfold Monolith.PressCloseButton. by rewrite Hb.
  - by cbn.
Qed.

Lemma service_button_exec (op : Service.Op) (h : Service.Engine) :
  serviceWhileButton op → serviceButtonHeld (Service.elev h) →
  Domain.LDoors (Service.Logic (Service.elev (Service.exec op h)))
  = Domain.LDoors (Service.Logic (Service.elev h))
  ∧ Service.isOpenButtonPressed (Service.elev (Service.exec op h)) = true.
Proof.
  intros Hop (Hact & Hrear & Hb).
  destruct op as [o|o| | |fa ca|fr| | |md|wd|sd st| | | |];
    unfold Service.exec, Service.onElevator; cbn [Service.elev].
  - rewrite service_step_doors_open; [done|].
    by apply service_activeDoor_open_not_closed.
  - destruct Hop.
  - destruct (Service.doorTimer (Service.elev h)); [|done].
    cbn [Service.elev].
    by destruct (service_door_held_any
                   (Service.withDoorTimer None (Service.elev h)) Hact Hb)
      as [t ->].
  - by destruct (service_door_held_any (Service.elev h) Hact Hb) as [t ->].
  - by destruct (service_AddCall_cases fa ca (Service.elev h))
      as [(err & -> & _)|[_ ->]].
  - by cbn.
  - by cbn.
  - destruct Hop.
  - unfold Service.SetMode, Service.setDirection.
    repeat case_match; service_simpl; done.
  - by cbn.
  - destruct Hop.
  - unfold Service.PressOpenButton. cbn.
    assert (Hfront : front (Domain.LDoors (Service.Logic (Service.elev h)))
                     ≠ DoorClosing).
    { intros Hf. unfold Service.activeDoor in Hact. rewrite Hf in Hact.
      discriminate. }
    rewrite !bool_decide_eq_false_2 by done. cbn.
    by case_bool_decide.
  - destruct Hop.
  - unfold Service.PressCloseButton. rewrite Hb.
    by rewrite andb_false_r.
  - by cbn.
Qed.

(** X16.  The OPEN button holds the doors open.  While the door under way is
    Open and the button is down, a fire of the door timer changes nothing
    but the timer, which is armed again; and over any run of ticks,
    door-timer fires, calls, weight and mode changes and presses of either
    button the doors stay as they are, in both engines, until the button
    is released.  The CLOSE button in particular does nothing then. *)
Theorem open_button_holds_doors
    (g : Monolith.Engine) (h : Service.Engine)
    (ops : list Monolith.Op) (sops : list Service.Op) :
  monolithButtonHeld (Monolith.elev g) →
  serviceButtonHeld (Service.elev h) →
  Forall monolithWhileButton ops →
  Forall serviceWhileButton sops →
  Monolith.handleDoorTimeout (Monolith.elev g)
  = Monolith.withDoorTimer
      (Some (DoorReopenTime (Monolith.Cfg (Monolith.elev g))))
      (Monolith.elev g)
  ∧ (∃ t, Service.handleDoorTimeout (Service.elev h)
          = Service.withDoorTimer (Some t) (Service.elev h))
  ∧ Monolith.PressCloseButton (Monolith.elev g) = Monolith.elev g
  ∧ Service.PressCloseButton (Service.elev h) = Service.elev h
  ∧ Monolith.doors (Monolith.elev (monolithRun ops g))
    = Monolith.doors (Monolith.elev g)
  ∧ monolithButtonHeld (Monolith.elev (monolithRun ops g))
  ∧ Domain.LDoors (Service.Logic (Service.elev (serviceRun sops h)))
    = Domain.LDoors (Service.Logic (Service.elev h))
  ∧ serviceButtonHeld (Service.elev (serviceRun sops h)).
Proof.
  intros Hg Hh Hops Hsops.
  split; [by destruct Hg; apply monolith_door_held|].
  split; [by destruct Hh as (? & _ & ?); apply service_door_held_any|].
  split.
  { destruct Hg as [_ Hb]. unfold Monolith.PressCloseButton.
    by rewrite Hb. }
  split.
  { destruct Hh as (_ & _ & Hb). unfold Service.PressCloseButton.
    by rewrite Hb, andb_false_r. }
  assert (Hm : Monolith.doors (Monolith.elev (monolithRun ops g))
               = Monolith.doors (Monolith.elev g)
               ∧ monolithButtonHeld (Monolith.elev (monolithRun ops g))).
  { clear Hh Hsops. revert g Hg.
    induction ops as [|op rest IH]; intros g Hheld; [done|].
    apply Forall_cons in Hops as [Hop Hall]. cbn [monolithRun].
    destruct (monolith_button_exec op g Hop Hheld) as (Hd & Hb).
    assert (Hheld' : monolithButtonHeld (Monolith.elev (Monolith.exec op g))).
    { destruct Hheld as [Hact _]. split; [by rewrite Hd|done]. }
    destruct (IH Hall _ Hheld') as [IHd IHh]. split; [congruence|done]. }
  assert (Hs : Domain.LDoors (Service.Logic (Service.elev (serviceRun sops h)))
               = Domain.LDoors (Service.Logic (Service.elev h))
               ∧ serviceButtonHeld (Service.elev (serviceRun sops h))).
  { clear Hg Hops Hm. revert h Hh.
    induction sops as [|op rest IH]; intros h Hheld; [done|].
    apply Forall_cons in Hsops as [Hop Hall]. cbn [serviceRun].
    destruct (service_button_exec op h Hop Hheld) as (Hd & Hb).
    assert (Hheld' : serviceButtonHeld (Service.elev (Service.exec op h))).
    { destruct Hheld as (Hact & Hrear & _).
      split; [by rewrite Hd|]. split; [by rewrite Hd|done]. }
    destruct (IH Hall _ Hheld') as [IHd IHh]. split; [congruence|done]. }
  destruct Hm, Hs. done.
Qed.

(** The theorem at floor 2 with the front door open and the button down:
    a fire of the door timer, a tick and the CLOSE button leave the door
    open. *)
Lemma open_button_holds_doors_witness :
  Monolith.doors
    (Monolith.elev
       (monolithRun
          [Monolith.DoorFire; Monolith.Tick []; Monolith.CmdPressClose]
          monolithButton))
  = mkDoors DoorOpen DoorClose
  ∧ Domain.LDoors
      (Service.Logic
         (Service.elev
            (serviceRun
               [Service.DoorFire; Service.Tick []; Service.CmdPressClose]
               serviceButton)))
    = mkDoors DoorOpen DoorClose.
Proof.
  destruct (open_button_holds_doors monolithButton serviceButton
              [Monolith.DoorFire; Monolith.Tick []; Monolith.CmdPressClose]
              [Service.DoorFire; Service.Tick []; Service.CmdPressClose])
    as (_ & _ & _ & _ & Hm & _ & Hs & _).
  - split; by_computation.
  - split; [by_computation|]. split; [|by_computation].
    intros H. vm_compute in H. discriminate H.
  - repeat constructor.
  - repeat constructor.
  - split; [rewrite Hm|rewrite Hs]; by_computation.
Defined.

Lemma monolith_open_sides_facts (mask : Z) (e : Monolith.Elevator) :
  let e1 := if hasSide mask Front
            then Monolith.setDoor Front DoorOpening e else e in
  let e2 := if hasSide mask Rear
            then Monolith.setDoor Rear DoorOpening e1 else e1 in
  monolithDoorStep e e2 (opened mask (Monolith.doors e))
    (Monolith.doorTimer e).
Proof.
  intros e1 e2.
  assert (H1 : monolithDoorStep e e1
                 (mkDoors (if hasSide mask Front then DoorOpening
                           else front (Monolith.doors e))
                    (rear (Monolith.doors e)))
                 (Monolith.doorTimer e)).
  { unfold e1, monolithDoorStep. destruct (hasSide mask Front).
    - destruct (monolith_setDoor_facts Front DoorOpening e)
        as (-> & -> & -> & -> & -> & -> & -> & -> & -> & ->).
      by destruct (Monolith.doors e).
    - by destruct (Monolith.doors e). }
  destruct H1 as (Hd & Ht & Hc & Hcf & Hw & Hf & Hdir & Hm & Hwt & Hb).
  unfold e2, monolithDoorStep, opened.
  destruct (hasSide mask Rear).
  - destruct (monolith_setDoor_facts Rear DoorOpening e1)
      as (-> & -> & -> & -> & -> & -> & -> & -> & -> & ->).
    by rewrite Hd.
  - by rewrite Hd.
Qed.

Lemma monolith_press_closing (e : Monolith.Elevator) :
  Monolith.activeDoor (Monolith.doors e) = DoorClosing →
  monolithDoorStep (monolithPressed e) (Monolith.PressOpenButton e)
    (advance DoorClosing DoorOpening (Monolith.doors e))
    (Some (DoorSpeed (Monolith.Cfg e))).
Proof.
  intros Hact. unfold Monolith.PressOpenButton. cbn zeta.
  change (Monolith.activeDoor
            (Monolith.doors (Monolith.withOpenButton true e)))
    with (Monolith.activeDoor (Monolith.doors e)).
  rewrite Hact.
  destruct (monolith_advance_facts DoorClosing DoorOpening
              (Monolith.withOpenButton true e))
    as (Hd & Ht & Hc & Hcf & Hw & Hf & Hdir & Hm & Hwt & Hb).
  unfold monolithDoorStep, monolithPressed, Monolith.withDoorTimer,
    Monolith.withOpenWaitTime.
  cbn [Monolith.doors Monolith.doorTimer Monolith.Cfg Monolith.callFloors
       Monolith.openWaitTime Monolith.floor Monolith.direction Monolith.Mode
       Monolith.weight Monolith.isOpenButtonPressed].
  rewrite Hd, Hc, Hcf, Hf, Hdir, Hm, Hwt, Hb. done.
Qed.

Lemma monolith_press_at_rest (e : Monolith.Elevator) :
  Monolith.doors e = closedDoors → Monolith.direction e = DirNone →
  monolithDoorStep (monolithPressed e) (Monolith.PressOpenButton e)
    (opened (openSideAt (FloorConfigs (Monolith.Cfg e)) (Monolith.floor e))
       closedDoors)
    (Some (DoorSpeed (Monolith.Cfg e))).
Proof.
  intros Hd0 Hdir0. unfold Monolith.PressOpenButton. cbn zeta.
  change (Monolith.activeDoor
            (Monolith.doors (Monolith.withOpenButton true e)))
    with (Monolith.activeDoor (Monolith.doors e)).
  change (Monolith.direction (Monolith.withOpenButton true e))
    with (Monolith.direction e).
  rewrite Hd0, Hdir0. cbn [Monolith.activeDoor closedDoors front rear].
  rewrite bool_decide_eq_true_2 by done.
  change (Monolith.Cfg (Monolith.withOpenButton true e))
    with (Monolith.Cfg e).
  change (Monolith.floor (Monolith.withOpenButton true e))
    with (Monolith.floor e).
  fold (openSideAt (FloorConfigs (Monolith.Cfg e)) (Monolith.floor e)).
  destruct (monolith_open_sides_facts
              (openSideAt (FloorConfigs (Monolith.Cfg e)) (Monolith.floor e))
              (Monolith.withOpenButton true e))
    as (Hd & Ht & Hc & Hcf & Hw & Hf & Hdir & Hm & Hwt & Hb).
  unfold monolithDoorStep, monolithPressed, Monolith.withDoorTimer,
    Monolith.withOpenWaitTime.
  cbn [Monolith.doors Monolith.doorTimer Monolith.Cfg Monolith.callFloors
       Monolith.openWaitTime Monolith.floor Monolith.direction Monolith.Mode
       Monolith.weight Monolith.isOpenButtonPressed].
  rewrite Hd, Hc, Hcf, Hf, Hdir, Hm, Hwt, Hb.
  cbn [Monolith.doors Monolith.withOpenButton]. by rewrite Hd0.
Qed.

Lemma service_press_closing (s : Service.Elevator) :
  front (Domain.LDoors (Service.Logic s)) = DoorClosing
  ∨ rear (Domain.LDoors (Service.Logic s)) = DoorClosing →
  serviceDoorStep (Service.withOpenButton true s) (Service.PressOpenButton s)
    (mkDoors DoorOpening DoorOpening) (Some (DoorSpeed (Service.Cfg s))).
Proof.
  intros Hcl. unfold Service.PressOpenButton. cbn zeta.
  change (Service.Logic (Service.withOpenButton true s))
    with (Service.Logic s).
  assert (bool_decide (front (Domain.LDoors (Service.Logic s)) = DoorClosing)
          || bool_decide (rear (Domain.LDoors (Service.Logic s)) = DoorClosing)
          = true) as ->.
  { apply orb_true_iff. destruct Hcl; [left|right];
      by apply bool_decide_eq_true. }
  destruct (service_setDoor_facts Front DoorOpening
              (Service.withOpenButton true s))
    as (Hl1 & Hc1 & Ht1 & Hw1 & Hm1 & Hb1).
  destruct (service_setDoor_facts Rear DoorOpening
              (Service.setDoor Front DoorOpening
                 (Service.withOpenButton true s)))
    as (Hl2 & Hc2 & Ht2 & Hw2 & Hm2 & Hb2).
  unfold serviceDoorStep, Service.withDoorTimer.
  cbn [Service.Logic Service.doorTimer Service.Cfg Service.openWaitTime
       Service.Mode Service.isOpenButtonPressed].
  rewrite Hl2, Hc2, Hw2, Hm2, Hb2, Hl1, Hc1, Hw1, Hm1, Hb1.
  cbn. by destruct (Service.Logic s) as [? ? ? [] ? ?].
Qed.

(** X17.  What the OPEN button does besides being held.  While the doors are
    closing, the single-file engine turns the doors that are Closing back
    to Opening and the logic-split engine sets both doors to Opening, a
    closed one included; the door timer runs for the door travel time.
    While the door under way is Open the timer is started again with the
    reopen time.  With the doors closed, the single-file engine opens the
    doors of the current floor when the car has no heading, and only
    notes the button otherwise; the logic-split engine only notes the
    button, so that it never opens the doors of a resting car. *)
Theorem open_button_reopens
    (e : Monolith.Elevator) (s : Service.Elevator) :
  let d := Monolith.doors e in
  let ds := Domain.LDoors (Service.Logic s) in
  (Monolith.activeDoor d = DoorClosing →
   monolithDoorStep (monolithPressed e) (Monolith.PressOpenButton e)
     (advance DoorClosing DoorOpening d)
     (Some (DoorSpeed (Monolith.Cfg e))))
  ∧ (Monolith.activeDoor d = DoorOpen →
     Monolith.PressOpenButton e
     = Monolith.withDoorTimer (Some (DoorReopenTime (Monolith.Cfg e)))
         (monolithPressed e))
  ∧ (d = closedDoors → Monolith.direction e = DirNone →
     monolithDoorStep (monolithPressed e) (Monolith.PressOpenButton e)
       (opened
          (openSideAt (FloorConfigs (Monolith.Cfg e)) (Monolith.floor e))
          closedDoors)
       (Some (DoorSpeed (Monolith.Cfg e))))
  ∧ (d = closedDoors → Monolith.direction e ≠ DirNone →
     Monolith.PressOpenButton e = Monolith.withOpenButton true e)
  ∧ (front ds = DoorClosing ∨ rear ds = DoorClosing →
     serviceDoorStep (Service.withOpenButton true s)
       (Service.PressOpenButton s)
       (mkDoors DoorOpening DoorOpening) (Some (DoorSpeed (Service.Cfg s))))
  ∧ (front ds = DoorOpen → rear ds ≠ DoorClosing →
     Service.PressOpenButton s
     = Service.withDoorTimer (Some (DoorReopenTime (Service.Cfg s)))
         (Service.withOpenButton true s))
  ∧ (ds = closedDoors →
     Service.PressOpenButton s = Service.withOpenButton true s).
Proof.
  cbn zeta.
  split; [apply monolith_press_closing|].
  split.
  { intros Hact. unfold Monolith.PressOpenButton. cbn zeta.
    change (Monolith.activeDoor
              (Monolith.doors (Monolith.withOpenButton true e)))
      with (Monolith.activeDoor (Monolith.doors e)).
    by rewrite Hact. }
  split; [apply monolith_press_at_rest|].
  split.
  { intros Hd Hdir. unfold Monolith.PressOpenButton. cbn zeta.
    change (Monolith.activeDoor
              (Monolith.doors (Monolith.withOpenButton true e)))
      with (Monolith.activeDoor (Monolith.doors e)).
    change (Monolith.direction (Monolith.withOpenButton true e))
      with (Monolith.direction e).
    rewrite Hd. cbn [Monolith.activeDoor closedDoors front rear].
    by rewrite bool_decide_eq_false_2. }
  split; [apply service_press_closing|].
  split.
  { intros Hf Hr. unfold Service.PressOpenButton. cbn zeta.
    change (Service.Logic (Service.withOpenButton true s))
      with (Service.Logic s).
    rewrite Hf. rewrite (bool_decide_eq_false_2 (rear _ = _)) by done.
    by rewrite bool_decide_eq_false_2, bool_decide_eq_true_2. }
  intros Hd. unfold Service.PressOpenButton. cbn zeta.
  change (Service.Logic (Service.withOpenButton true s))
    with (Service.Logic s).
  by rewrite Hd.
Qed.

(** The theorem at floor 2 with the front door closing: the single-file
    engine reopens the front door, the logic-split engine opens both. *)
Lemma open_button_reopens_witness :
  Monolith.doors (Monolith.PressOpenButton (Monolith.elev monolithClosing))
  = mkDoors DoorOpening DoorClose
  ∧ Domain.LDoors
      (Service.Logic (Service.PressOpenButton (Service.elev serviceClosing)))
    = mkDoors DoorOpening DoorOpening.
Proof.
  destruct (open_button_reopens
              (Monolith.elev monolithClosing) (Service.elev serviceClosing))
    as (Hm & _ & _ & _ & Hs & _).
  destruct (Hm ltac:(by_computation)) as (Hd & _).
  destruct (Hs ltac:(left; by_computation)) as (Hl & _).
  split; [rewrite Hd|rewrite Hl]; by_computation.
Defined.

Lemma monolith_press_close (e : Monolith.Elevator) :
  front (Monolith.doors e) = DoorOpen →
  Monolith.isOpenButtonPressed e = false →
  Monolith.PressCloseButton e = Monolith.withDoorTimer (Some 0) e.
Proof.
  intros Hf Hb. unfold Monolith.PressCloseButton.
  by rewrite Hb, decide_True.
Qed.

Lemma service_press_close (s : Service.Elevator) :
  front (Domain.LDoors (Service.Logic s)) = DoorOpen
  ∨ rear (Domain.LDoors (Service.Logic s)) = DoorOpen →
  Service.isOpenButtonPressed s = false →
  Service.PressCloseButton s
  = Service.withDoorTimer (Some Service.Millisecond) s.
Proof.
  intros Ho Hb. unfold Service.PressCloseButton. rewrite Hb. cbn zeta.
  assert (bool_decide (front (Domain.LDoors (Service.Logic s)) = DoorOpen)
          || bool_decide (rear (Domain.LDoors (Service.Logic s)) = DoorOpen)
          = true) as ->; [|done].
  apply orb_true_iff. destruct Ho; [left|right]; by apply bool_decide_eq_true.
Qed.

(** X18.  The CLOSE button ends the hold.  With an open door, the OPEN button
    up and the car not overloaded, the button sets the door timer to fire
    at once (0 in the single-file engine, 1 ms in the logic-split one),
    and that fire starts the closing: the open doors are Closing and the
    timer runs for the door travel time.  The single-file engine looks at
    the front door only: when that one is not Open the button does
    nothing, even with the rear door open.  The logic-split engine ignores
    the button only when neither door is Open. *)
Theorem close_button_ends_hold (g : Monolith.Engine) (h : Service.Engine) :
  let e := Monolith.elev g in
  let s := Service.elev h in
  (front (Monolith.doors e) = DoorOpen →
   Monolith.isOpenButtonPressed e = false →
   ¬ overloaded (MaxWeight (Monolith.Cfg e)) (Monolith.weight e) →
   Monolith.doorTimer (Monolith.PressCloseButton e) = Some 0
   ∧ monolithDoorStep e
       (Monolith.elev
          (Monolith.exec Monolith.DoorFire
             (Monolith.exec Monolith.CmdPressClose g)))
       (advance DoorOpen DoorClosing (Monolith.doors e))
       (Some (DoorSpeed (Monolith.Cfg e))))
  ∧ (front (Monolith.doors e) ≠ DoorOpen → Monolith.PressCloseButton e = e)
  ∧ (Service.activeDoor (Domain.LDoors (Service.Logic s)) = DoorOpen →
     Service.isOpenButtonPressed s = false →
     ¬ overloaded (MaxWeight (Service.Cfg s))
         (Domain.Weight (Service.Logic s)) →
     Service.doorTimer (Service.PressCloseButton s)
     = Some Service.Millisecond
     ∧ serviceDoorStep s
         (Service.elev
            (Service.exec Service.DoorFire
               (Service.exec Service.CmdPressClose h)))
         (advance DoorOpen DoorClosing (Domain.LDoors (Service.Logic s)))
         (Some (DoorSpeed (Service.Cfg s))))
  ∧ (front (Domain.LDoors (Service.Logic s)) ≠ DoorOpen →
     rear (Domain.LDoors (Service.Logic s)) ≠ DoorOpen →
     Service.PressCloseButton s = s).
Proof.
  cbn zeta. split; [|split; [|split]].
  - intros Hf Hb Hno.
    rewrite (monolith_press_close _ Hf Hb). split; [done|].
    assert (Monolith.exec Monolith.CmdPressClose g
            = Monolith.mkEngine
                (Monolith.withDoorTimer (Some 0) (Monolith.elev g))
                (Monolith.isMoving g) (Monolith.travelTimer g)) as ->.
    { cbn [Monolith.exec]. unfold Monolith.onElevator.
      by rewrite (monolith_press_close _ Hf Hb). }
    apply (monolith_fire_open
             (Monolith.mkEngine
                (Monolith.withDoorTimer (Some 0) (Monolith.elev g))
                (Monolith.isMoving g) (Monolith.travelTimer g)));
      cbn; try done.
    unfold Monolith.activeDoor. by rewrite Hf.
  - intros Hf. unfold Monolith.PressCloseButton.
    rewrite decide_False by done. by case_match.
  - intros Hact Hb Hno.
    assert (Ho : front (Domain.LDoors (Service.Logic (Service.elev h)))
                 = DoorOpen
                 ∨ rear (Domain.LDoors (Service.Logic (Service.elev h)))
                   = DoorOpen).
    { unfold Service.activeDoor in Hact.
      destruct (front (Domain.LDoors (Service.Logic (Service.elev h))));
        auto; discriminate. }
    rewrite (service_press_close _ Ho Hb). split; [done|].
    assert (Service.exec Service.CmdPressClose h
            = Service.mkEngine
                (Service.withDoorTimer (Some Service.Millisecond)
                   (Service.elev h))
                (Service.isMoving h) (Service.travelTimer h)) as ->.
    { cbn [Service.exec]. unfold Service.onElevator.
      by rewrite (service_press_close _ Ho Hb). }
    apply (service_fire_open
             (Service.mkEngine
                (Service.withDoorTimer (Some Service.Millisecond)
                   (Service.elev h))
                (Service.isMoving h) (Service.travelTimer h)));
      cbn; done.
  - intros Hf Hr. unfold Service.PressCloseButton. cbn zeta.
    by rewrite !bool_decide_eq_false_2.
Qed.

(** The theorem at floor 2 with the front door open. *)
Lemma close_button_ends_hold_witness :
  Monolith.doors
    (Monolith.elev
       (Monolith.exec Monolith.DoorFire
          (Monolith.exec Monolith.CmdPressClose
             (Monolith.exec Monolith.DoorFire monolithAt2))))
  = mkDoors DoorClosing DoorClose
  ∧ Domain.LDoors
      (Service.Logic
         (Service.elev
            (Service.exec Service.DoorFire
               (Service.exec Service.CmdPressClose
                  (Service.exec Service.DoorFire serviceAt2)))))
    = mkDoors DoorClosing DoorClose.
Proof.
  destruct (close_button_ends_hold
              (Monolith.exec Monolith.DoorFire monolithAt2)
              (Service.exec Service.DoorFire serviceAt2))
    as (Hm & _ & Hs & _).
  destruct Hm as (_ & Hd & _).
  { by_computation. }
  { by_computation. }
  { intros [_ H]. vm_compute in H. discriminate H. }
  destruct Hs as (_ & Hl & _).
  { by_computation. }
  { by_computation. }
  { intros [_ H]. vm_compute in H. discriminate H. }
  split; [rewrite Hd|rewrite Hl]; by_computation.
Defined.

(** ** An undisturbed trip *)

Lemma monolith_select_single (e : Monolith.Elevator) (t : Z) :
  Monolith.callFloors e = {[t]} → fits32 (Monolith.floor e) → fits32 t →
  Monolith.selectNextTarget [t] e = (t, true).
Proof.
  intros Hc Hf Ht.
  destruct (monolith_schedules [t] e) as [_ Hs].
  - by rewrite Hc, elements_singleton.
  - split; [done|]. intros f. rewrite Hc. by intros ->%elem_of_singleton.
  - destruct Hs as (Hfd & Hin & _); [rewrite Hc; set_solver|].
    destruct (Monolith.selectNextTarget [t] e) as [x fd]. cbn in *.
    rewrite Hc in Hin. apply elem_of_singleton in Hin. by subst.
Qed.

Lemma domain_select_single (l : Domain.ElevatorLogic) (t : Z) :
  Domain.Calls l = {[t]} → fits32 (Domain.Floor l) → fits32 t →
  Domain.selectNextTarget [t] l = (t, true).
Proof.
  intros Hc Hf Ht.
  destruct (domain_schedules [t] l) as [_ Hs].
  - by rewrite Hc, elements_singleton.
  - split; [done|]. intros f. rewrite Hc. by intros ->%elem_of_singleton.
  - destruct Hs as (Hfd & Hin & _); [rewrite Hc; set_solver|].
    destruct (Domain.selectNextTarget [t] l) as [x fd]. cbn in *.
    rewrite Hc in Hin. apply elem_of_singleton in Hin. by subst.
Qed.

Lemma nextFloor_before (dir : Direction) (t : Z) (k : nat) :
  dir = DirUp ∨ dir = DirDown →
  fits32 t → fits32 (floorsBefore dir t (S k)) →
  nextFloor dir (floorsBefore dir t (S k)) = floorsBefore dir t k
  ∧ fits32 (floorsBefore dir t k).
Proof.
  intros [-> | ->]; unfold fits32, nextFloor, floorsBefore; intros Ht Hf;
    (split; [rewrite wrap64_small|]); lia.
Qed.

Lemma monolith_trip_hop (cfg : Config) (dir : Direction) (t : Z) (k : nat)
    (g : Monolith.Engine) :
  monolithOnTrip cfg dir t (S (S k)) g →
  monolithOnTrip cfg dir t (S k) (Monolith.exec (Monolith.TravelFire [t]) g).
Proof.
  intros (Hdir & Ht & Hf & Htt & Hd & Hfl & Hc & Hdo & Hcfg).
  cbn [Monolith.exec]. destruct (Monolith.travelTimer g); [|done].
  unfold Monolith.travelDone. cbn [Monolith.elev Monolith.isMoving].
  set (e := Monolith.elev g) in *.
  rewrite Hfl in Hf.
  destruct (nextFloor_before dir t (S k) Hdir Ht Hf) as [Hnext Hfn].
  unfold Monolith.handleMove.
  set (e1 := match Monolith.direction e with
             | DirUp => _ | DirDown => _ | _ => _ end).
  assert (H1 : e1 = Monolith.setFloor (floorsBefore dir t (S k)) e).
  { rewrite <- Hnext, <- Hfl, <- Hd. unfold e1, nextFloor.
    destruct Hdir as [Hu|Hu]; rewrite Hu in Hd; by rewrite Hd. }
  destruct (monolith_setFloor_facts (floorsBefore dir t (S k)) e)
    as (Hc1 & Hf1 & Hcf1 & Hd1).
  destruct (monolith_setFloor_frame (floorsBefore dir t (S k)) e)
    as (Hdo1 & _ & _).
  rewrite <- H1 in Hc1, Hf1, Hcf1, Hd1, Hdo1.
  assert (Hpos : floorsBefore dir t (S k) ≠ t
                 ∧ (dir = DirUp ∧ floorsBefore dir t (S k) < t
                    ∨ dir = DirDown ∧ t < floorsBefore dir t (S k))).
  { clear -Hdir. destruct Hdir as [-> | ->]; unfold floorsBefore;
      (split; [lia|]); [left|right]; (split; [done|lia]). }
  destruct Hpos as [Hne Hside].
  rewrite bool_decide_eq_false_2
    by (rewrite Hf1, Hcf1, Hc; by intros ?%elem_of_singleton).
  rewrite (monolith_select_single e1 t)
    by (rewrite ?Hcf1, ?Hf1; done).
  cbn [negb]. rewrite Hd1, Hd, Hf1.
  assert (bool_decide (dir = DirUp) && (floorsBefore dir t (S k) <? t)
          || bool_decide (dir = DirDown) && (t <? floorsBefore dir t (S k))
          = true) as ->.
  { destruct Hside as [[-> Hlt]|[-> Hlt]]; apply Z.ltb_lt in Hlt;
      rewrite Hlt.
    - by rewrite (bool_decide_eq_true_2 (DirUp = DirUp)).
    - rewrite (bool_decide_eq_false_2 (DirDown = DirUp)) by done.
      by rewrite (bool_decide_eq_true_2 (DirDown = DirDown)). }
  unfold monolithOnTrip. cbn [Monolith.elev Monolith.travelTimer].
  rewrite Hc1, Hf1, Hcf1, Hd1, Hdo1. done.
Qed.

Lemma monolith_trip_last (cfg : Config) (dir : Direction) (t : Z)
    (g : Monolith.Engine) :
  monolithOnTrip cfg dir t 1 g →
  monolithArrived cfg dir t (Monolith.exec (Monolith.TravelFire [t]) g).
Proof.
  intros (Hdir & Ht & Hf & Htt & Hd & Hfl & Hc & Hdo & Hcfg).
  rewrite Hfl in Hf.
  destruct (nextFloor_before dir t 0 Hdir Ht Hf) as [Hnext _].
  assert (Hn : nextFloor (Monolith.direction (Monolith.elev g))
                 (Monolith.floor (Monolith.elev g)) = t).
  { rewrite Hd, Hfl, Hnext. unfold floorsBefore.
    destruct Hdir as [-> | ->]; lia. }
  cbn [Monolith.exec]. destruct (Monolith.travelTimer g); [|done].
  unfold Monolith.travelDone. cbn [Monolith.elev Monolith.isMoving].
  pose proof (monolith_handleMove_shrinks [t] (Monolith.elev g)) as [Hk _].
  destruct (monolith_hop_arrives [t] (Monolith.elev g)) as (e' & He & Hs).
  { rewrite Hn, Hc. set_solver. }
  rewrite He in Hk |- *. cbn [snd] in Hk.
  rewrite Hn in Hs.
  destruct Hs as (Hs1 & Hs2 & Hs3 & Hs4 & Hs5 & Hs6 & Hs7 & Hs8).
  cbn in Hs1, Hs2, Hs3, Hs4, Hs5, Hs6.
  unfold monolithArrived. cbn [Monolith.elev Monolith.isMoving
    Monolith.travelTimer].
  rewrite Hs1, Hs2, Hs3, Hs5, Hs6, Hc, Hdo, Hcfg, Hd.
  split; [done|]. split; [done|]. split; [done|]. split; [done|].
  split; [set_solver|]. split; [done|]. split; [done|]. congruence.
Qed.

Lemma monolith_trip_run (cfg : Config) (dir : Direction) (t : Z) (k : nat)
    (g : Monolith.Engine) :
  monolithOnTrip cfg dir t (S k) g →
  monolithArrived cfg dir t
    (Nat.iter (S k) (Monolith.exec (Monolith.TravelFire [t])) g).
Proof.
  revert g. induction k as [|k IH]; intros g Htrip.
  - by apply monolith_trip_last.
  - rewrite Nat.iter_succ_r. apply IH. by apply monolith_trip_hop.
Qed.

Lemma towards_before (floor t : Z) :
  t ≠ floor →
  (towards floor t = DirUp ∨ towards floor t = DirDown)
  ∧ floor = floorsBefore (towards floor t) t (Z.to_nat (Z.abs (t - floor)))
  ∧ (towards floor t = DirUp → floor < t)
  ∧ (towards floor t = DirDown → t < floor)
  ∧ ∃ k, Z.to_nat (Z.abs (t - floor)) = S k.
Proof.
  intros Hne. unfold towards, floorsBefore.
  destruct (Z.ltb_spec floor t).
  - split; [auto|]. split; [lia|]. split; [done|]. split; [done|].
    exists (Nat.pred (Z.to_nat (Z.abs (t - floor)))). lia.
  - split; [auto|]. split; [lia|]. split; [done|]. split; [lia|].
    exists (Nat.pred (Z.to_nat (Z.abs (t - floor)))). lia.
Qed.

Lemma monolith_trip_start (g : Monolith.Engine) (t : Z) :
  let e := Monolith.elev g in
  Monolith.Mode e = ModeAuto → Monolith.isMoving g = false →
  Monolith.doors e = closedDoors → Monolith.callFloors e = {[t]} →
  fits32 (Monolith.floor e) → fits32 t → t ≠ Monolith.floor e →
  monolithOnTrip (Monolith.Cfg e) (towards (Monolith.floor e) t) t
    (Z.to_nat (Z.abs (t - Monolith.floor e)))
    (Monolith.exec (Monolith.Tick [t]) g).
Proof.
  intros e Hm Hmv Hd Hc Hf Ht Hne. subst e.
  destruct (towards_before _ _ Hne) as (Hdir & Hpos & Hup & Hdown & _).
  cbn [Monolith.exec]. unfold Monolith.step.
  rewrite Hm, Hmv, Hd.
  assert (allClosed closedDoors = true) as -> by done.
  cbn [Z.eqb ModeAuto negb].
  rewrite (monolith_select_single _ t Hc Hf Ht). cbn [negb].
  set (e := Monolith.elev g) in *.
  assert (Hgo : (if Monolith.floor e <? t
                 then Monolith.mkEngine (Monolith.setDirection DirUp e) true
                        (Some (Monolith.getNextMoveDuration t e))
                 else if t <? Monolith.floor e
                 then Monolith.mkEngine (Monolith.setDirection DirDown e) true
                        (Some (Monolith.getNextMoveDuration t e))
                 else Monolith.onElevator (Monolith.handleArrival t) g)
                = Monolith.mkEngine
                    (Monolith.setDirection (towards (Monolith.floor e) t) e)
                    true (Some (Monolith.getNextMoveDuration t e))).
  { unfold towards. destruct (Z.ltb_spec (Monolith.floor e) t); [done|].
    destruct (Z.ltb_spec t (Monolith.floor e)); [done|lia]. }
  rewrite Hgo.
  destruct (monolith_setDirection_facts (towards (Monolith.floor e) t) e)
    as (Hc1 & Hf1 & Hcf1 & Hd1).
  unfold monolithOnTrip. cbn [Monolith.elev Monolith.travelTimer].
  rewrite Hc1, Hf1, Hcf1, Hd1.
  repeat (split; [done|]).
  unfold Monolith.setDirection. case_decide; [done|].
  by rewrite mono_publish_doors.
Qed.

Lemma service_cfg_handleArrival (f : Z) (s : Service.Elevator) :
  Service.Cfg (Service.handleArrival f s) = Service.Cfg s.
Proof. service_unfold. service_simpl. repeat (case_match; service_simpl); done. Qed.

Lemma service_handleMoveComplete_cfg (order : list Z) (s : Service.Elevator) :
  Service.Cfg (snd (Service.handleMoveComplete order s)) = Service.Cfg s.
Proof.
  unfold Service.handleMoveComplete.
  destruct (Domain.Type_ _); cbn [snd];
    rewrite ?service_cfg_handleArrival, ?service_cfg_setDirection,
      ?service_cfg_setFloor; try done.
  case_decide; by rewrite ?service_cfg_setDirection, ?service_cfg_setFloor.
Qed.

Lemma domain_decide_single (l : Domain.ElevatorLogic) (t : Z) :
  Domain.Calls l = {[t]} → Domain.LDoors l = closedDoors →
  fits32 (Domain.Floor l) → fits32 t → t ≠ Domain.Floor l →
  Domain.DecideNextStep [t] l
  = Domain.mkLogicAction Domain.ActionMove t (towards (Domain.Floor l) t).
Proof.
  intros Hc Hd Hf Ht Hne.
  unfold Domain.DecideNextStep, Domain.AreDoorsClosed.
  rewrite Hd. assert (allClosed closedDoors = true) as -> by done.
  cbn [negb].
  rewrite bool_decide_eq_false_2 by (rewrite Hc; set_solver).
  rewrite (domain_select_single l t Hc Hf Ht). cbn [negb].
  destruct (Z.eqb_spec t (Domain.Floor l)); [done|].
  unfold towards. by destruct (Domain.Floor l <? t).
Qed.

Lemma service_setFloor_logic (f : Z) (s : Service.Elevator) :
  Service.Logic (Service.setFloor f s) = Domain.SetFloor f (Service.Logic s)
  ∧ Service.Cfg (Service.setFloor f s) = Service.Cfg s.
Proof.
  unfold Service.setFloor. case_decide as Hn.
  - split; [|done]. unfold Domain.SetFloor. rewrite <- Hn.
    by destruct (Service.Logic s).
  - by rewrite service_publish_Logic, service_cfg_publish.
Qed.

Lemma service_trip_hop (cfg : Config) (dir : Direction) (t : Z) (k : nat)
    (h : Service.Engine) :
  serviceOnTrip cfg dir t (S (S k)) h →
  serviceOnTrip cfg dir t (S k) (Service.exec (Service.TravelFire [t]) h).
Proof.
  intros (Hdir & Ht & Hf & Htt & Hd & Hfl & Hc & Hdo & Hcfg).
  cbn [Service.exec]. destruct (Service.travelTimer h); [|done].
  unfold Service.travelDone. cbn [Service.elev Service.isMoving].
  set (s := Service.elev h) in *.
  rewrite Hfl in Hf.
  destruct (nextFloor_before dir t (S k) Hdir Ht Hf) as [Hnext Hfn].
  unfold Service.handleMoveComplete.
  fold (nextFloor (Domain.LDirection (Service.Logic s))
          (Domain.Floor (Service.Logic s))).
  rewrite Hd, Hfl, Hnext.
  destruct (service_setFloor_logic (floorsBefore dir t (S k)) s)
    as [Hl1 Hc1].
  assert (Hpos : t ≠ floorsBefore dir t (S k)
                 ∧ towards (floorsBefore dir t (S k)) t = dir).
  { clear -Hdir. destruct Hdir as [-> | ->]; unfold floorsBefore, towards;
      (split; [lia|]).
    - destruct (Z.ltb_spec (t - Z.of_nat (S k)) t); [done|lia].
    - destruct (Z.ltb_spec (t + Z.of_nat (S k)) t); [lia|done]. }
  destruct Hpos as [Hne Htow].
  rewrite (domain_decide_single
             (Service.Logic (Service.setFloor (floorsBefore dir t (S k)) s))
             t); rewrite ?Hl1; cbn [Domain.SetFloor Domain.Calls
               Domain.LDoors Domain.Floor]; try done.
  cbn [Domain.Type_ Domain.Dir]. rewrite Htow.
  destruct (decide (dir = Domain.LDirection
                           (Domain.SetFloor (floorsBefore dir t (S k))
                              (Service.Logic s)))) as [_|Hn];
    [|destruct Hn; symmetry; exact Hd].
  unfold serviceOnTrip. cbn [Service.elev Service.travelTimer].
  rewrite Hl1, Hc1. cbn [Domain.SetFloor Domain.Calls Domain.LDoors
    Domain.Floor Domain.LDirection]. done.
Qed.

Lemma service_trip_last (cfg : Config) (dir : Direction) (t : Z)
    (h : Service.Engine) :
  serviceOnTrip cfg dir t 1 h →
  serviceArrived cfg dir t (Service.exec (Service.TravelFire [t]) h).
Proof.
  intros (Hdir & Ht & Hf & Htt & Hd & Hfl & Hc & Hdo & Hcfg).
  rewrite Hfl in Hf.
  destruct (nextFloor_before dir t 0 Hdir Ht Hf) as [Hnext _].
  assert (Hn : nextFloor (Domain.LDirection (Service.Logic (Service.elev h)))
                 (Domain.Floor (Service.Logic (Service.elev h))) = t).
  { rewrite Hd, Hfl, Hnext. unfold floorsBefore.
    destruct Hdir as [-> | ->]; lia. }
  cbn [Service.exec]. destruct (Service.travelTimer h); [|done].
  unfold Service.travelDone. cbn [Service.elev Service.isMoving].
  pose proof (service_handleMoveComplete_cfg [t] (Service.elev h)) as Hk.
  destruct (service_hop_arrives [t] (Service.elev h)) as (s' & He & Hs).
  { by rewrite Hc, elements_singleton. }
  { rewrite Hn. split; [done|]. intros f. rewrite Hc.
    by intros ->%elem_of_singleton. }
  { rewrite Hn, Hc. set_solver. }
  { done. }
  rewrite He in Hk |- *. cbn [snd] in Hk.
  rewrite Hn in Hs.
  destruct Hs as (Hs1 & Hs2 & Hs3 & Hs4 & Hs5 & Hs6 & Hs7 & Hs8).
  cbn in Hs1, Hs2, Hs3, Hs4, Hs5, Hs6.
  unfold serviceArrived. cbn [Service.elev Service.isMoving
    Service.travelTimer].
  rewrite Hs1, Hs2, Hs3, Hs5, Hs6, Hc, Hdo, Hcfg, Hd.
  split; [done|]. split; [done|]. split; [done|]. split; [done|].
  split; [set_solver|]. split; [done|]. split; [done|]. congruence.
Qed.

Lemma service_trip_run (cfg : Config) (dir : Direction) (t : Z) (k : nat)
    (h : Service.Engine) :
  serviceOnTrip cfg dir t (S k) h →
  serviceArrived cfg dir t
    (Nat.iter (S k) (Service.exec (Service.TravelFire [t])) h).
Proof.
  revert h. induction k as [|k IH]; intros h Htrip.
  - by apply service_trip_last.
  - rewrite Nat.iter_succ_r. apply IH. by apply service_trip_hop.
Qed.

Lemma service_trip_start (h : Service.Engine) (t : Z) :
  let s := Service.elev h in
  let l := Service.Logic s in
  Service.Mode s = ModeAuto → Service.isMoving h = false →
  Domain.LDoors l = closedDoors → Domain.Calls l = {[t]} →
  fits32 (Domain.Floor l) → fits32 t → t ≠ Domain.Floor l →
  serviceOnTrip (Service.Cfg s) (towards (Domain.Floor l) t) t
    (Z.to_nat (Z.abs (t - Domain.Floor l)))
    (Service.exec (Service.Tick [t]) h).
Proof.
  intros s l Hm Hmv Hd Hc Hf Ht Hne. subst s l.
  destruct (towards_before _ _ Hne) as (Hdir & Hpos & Hup & Hdown & _).
  cbn [Service.exec]. unfold Service.step.
  rewrite Hm, Hmv. cbn [Z.eqb ModeAuto negb].
  rewrite (domain_decide_single _ t Hc Hd Hf Ht Hne).
  cbn [Domain.Type_ Domain.Dir].
  destruct (service_setDirection_facts
              (towards (Domain.Floor (Service.Logic (Service.elev h))) t)
              (Service.elev h)) as (Hc1 & Hf1 & Hcf1 & Hd1).
  unfold serviceOnTrip. cbn [Service.elev Service.travelTimer].
  rewrite Hf1, Hcf1, Hd1, service_cfg_setDirection.
  repeat (split; [done|]).
  split; [|done].
  by rewrite service_setDirection_doors.
Qed.

(** X19.  An undisturbed trip ends at the call.  From rest in automatic mode
    with the doors closed and a single call pending at another floor [t],
    a tick starts the car towards [t], and after as many hops as there are
    floors in between the car stands at [t]: not moving, the travel timer
    off, the call served, the doors of the floor opening.  Both engines do
    the same. *)
Theorem undisturbed_trip_serves_call
    (g : Monolith.Engine) (h : Service.Engine) (tm ts : Z) :
  let e := Monolith.elev g in
  let s := Service.elev h in
  let l := Service.Logic s in
  Monolith.Mode e = ModeAuto → Monolith.isMoving g = false →
  Monolith.doors e = closedDoors → Monolith.callFloors e = {[tm]} →
  fits32 (Monolith.floor e) → fits32 tm → tm ≠ Monolith.floor e →
  Service.Mode s = ModeAuto → Service.isMoving h = false →
  Domain.LDoors l = closedDoors → Domain.Calls l = {[ts]} →
  fits32 (Domain.Floor l) → fits32 ts → ts ≠ Domain.Floor l →
  monolithArrived (Monolith.Cfg e) (towards (Monolith.floor e) tm) tm
    (Nat.iter (Z.to_nat (Z.abs (tm - Monolith.floor e)))
       (Monolith.exec (Monolith.TravelFire [tm]))
       (Monolith.exec (Monolith.Tick [tm]) g))
  ∧ serviceArrived (Service.Cfg s) (towards (Domain.Floor l) ts) ts
      (Nat.iter (Z.to_nat (Z.abs (ts - Domain.Floor l)))
         (Service.exec (Service.TravelFire [ts]))
         (Service.exec (Service.Tick [ts]) h)).
Proof.
  intros e s l Hm1 Hm2 Hm3 Hm4 Hm5 Hm6 Hm7 Hs1 Hs2 Hs3 Hs4 Hs5 Hs6 Hs7.
  subst e s l. split.
  - pose proof (monolith_trip_start g tm Hm1 Hm2 Hm3 Hm4 Hm5 Hm6 Hm7)
      as Hstart.
    destruct (towards_before _ _ Hm7) as (_ & _ & _ & _ & k & Hk).
    cbn zeta in Hstart. rewrite Hk in Hstart |- *.
    by apply monolith_trip_run.
  - pose proof (service_trip_start h ts Hs1 Hs2 Hs3 Hs4 Hs5 Hs6 Hs7)
      as Hstart.
    destruct (towards_before _ _ Hs7) as (_ & _ & _ & _ & k & Hk).
    cbn zeta in Hstart. rewrite Hk in Hstart |- *.
    by apply service_trip_run.
Qed.

(** The theorem from floor 1 to a call at floor 5: four hops. *)
Lemma undisturbed_trip_serves_call_witness :
  Monolith.floor
    (Monolith.elev
       (Nat.iter 4 (Monolith.exec (Monolith.TravelFire [5]))
          (Monolith.exec (Monolith.Tick [5]) monolithCall5)))
  = 5
  ∧ Domain.Floor
      (Service.Logic
         (Service.elev
            (Nat.iter 4 (Service.exec (Service.TravelFire [5]))
               (Service.exec (Service.Tick [5]) serviceCall5))))
    = 5.
Proof.
  assert (Hnm : Z.to_nat
                  (Z.abs (5 - Monolith.floor (Monolith.elev monolithCall5)))
                = 4%nat) by by_computation.
  assert (Hns : Z.to_nat
                  (Z.abs
                     (5 - Domain.Floor
                            (Service.Logic (Service.elev serviceCall5))))
                = 4%nat) by by_computation.
  destruct (undisturbed_trip_serves_call monolithCall5 serviceCall5 5 5)
    as [Hm Hs].
  - by_computation.
  - by_computation.
  - by_computation.
  - by_computation.
  - apply fits32_small. by_computation.
  - apply fits32_small. by_computation.
  - intros H. vm_compute in H. discriminate H.
  - by_computation.
  - by_computation.
  - by_computation.
  - by_computation.
  - apply fits32_small. by_computation.
  - apply fits32_small. by_computation.
  - intros H. vm_compute in H. discriminate H.
  - rewrite Hnm in Hm. rewrite Hns in Hs.
    destruct Hm as (_ & _ & Hfm & _). destruct Hs as (_ & _ & Hfs & _).
    split; [exact Hfm|exact Hfs].
Defined.

(** ** A tick with nothing to do *)

(** X20.  The heading left over from a trip is cleared by the first tick that
    finds the doors closed and no call pending (automatic mode, not
    moving).  The single-file engine writes the field and queues no
    event; the logic-split engine goes through [setDirection], which
    queues a direction event when the heading changes.  Nothing else
    changes in either engine. *)
Theorem idle_tick_clears_heading
    (om os : list Z) (g : Monolith.Engine) (h : Service.Engine) :
  let e := Monolith.elev g in
  let s := Service.elev h in
  Monolith.Mode e = ModeAuto → Monolith.isMoving g = false →
  Monolith.doors e = closedDoors → Monolith.callFloors e = ∅ →
  Service.Mode s = ModeAuto → Service.isMoving h = false →
  Domain.LDoors (Service.Logic s) = closedDoors →
  Domain.Calls (Service.Logic s) = ∅ →
  Monolith.exec (Monolith.Tick om) g
  = Monolith.onElevator (Monolith.withDirection DirNone) g
  ∧ Monolith.eventCh (Monolith.elev (Monolith.exec (Monolith.Tick om) g))
    = Monolith.eventCh e
  ∧ Service.exec (Service.Tick os) h
    = Service.onElevator (Service.setDirection DirNone) h
  ∧ (Domain.LDirection (Service.Logic s) ≠ DirNone →
     length (Service.eventCh s) < eventCapacity →
     Service.eventCh (Service.elev (Service.exec (Service.Tick os) h))
     = Service.eventCh s ++ [EventDirectionChange DirNone])%nat.
Proof.
  intros e s Hm1 Hm2 Hm3 Hm4 Hs1 Hs2 Hs3 Hs4. subst e s.
  assert (Hmt : Monolith.exec (Monolith.Tick om) g
                = Monolith.onElevator (Monolith.withDirection DirNone) g).
  { cbn [Monolith.exec]. unfold Monolith.step, Monolith.selectNextTarget.
    rewrite Hm1, Hm2, Hm3, bool_decide_eq_true_2 by done.
    assert (allClosed closedDoors = true) as -> by done.
    cbn [Z.eqb ModeAuto negb]. case_decide as Hd; [|done].
    destruct g as [[] ? ?]. cbn in *. by subst. }
  assert (Hst : Service.exec (Service.Tick os) h
                = Service.onElevator (Service.setDirection DirNone) h).
  { cbn [Service.exec]. unfold Service.step, Domain.DecideNextStep,
      Domain.AreDoorsClosed.
    rewrite Hs1, Hs2, Hs3, bool_decide_eq_true_2 by done.
    assert (allClosed closedDoors = true) as -> by done.
    cbn [Z.eqb ModeAuto negb].
    unfold Service.onElevator, Service.setDirection.
    destruct (decide (Domain.LDirection (Service.Logic (Service.elev h))
                      = DirNone)) as [Hd|Hd]; cbn [Domain.Type_].
    - by destruct h.
    - done. }
  split; [done|]. split; [by rewrite Hmt|]. split; [done|].
  intros Hd Hroom. rewrite Hst. cbn [Service.onElevator Service.elev].
  unfold Service.setDirection. rewrite decide_False by done.
  unfold Service.publishEvent. cbn [Service.eventCh Service.withLogic].
  apply Nat.ltb_lt in Hroom. by rewrite Hroom.
Qed.

(** The theorem on the engines back at rest at floor 2 with the heading
    of the trip still set. *)
Lemma idle_tick_clears_heading_witness :
  Monolith.direction
    (Monolith.elev
       (Monolith.exec (Monolith.Tick [])
          (Monolith.exec Monolith.DoorFire monolithClosing)))
  = DirNone
  ∧ Domain.LDirection
      (Service.Logic
         (Service.elev
            (Service.exec (Service.Tick [])
               (Service.exec Service.DoorFire serviceClosing))))
    = DirNone.
Proof.
  destruct (idle_tick_clears_heading [] []
              (Monolith.exec Monolith.DoorFire monolithClosing)
              (Service.exec Service.DoorFire serviceClosing))
    as (Hm & _ & Hs & _); try by_computation.
  rewrite Hm, Hs. split; by_computation.
Defined.

(** ** Releasing the OPEN button *)

(** X21.  Releasing the OPEN button lets the doors close.  With the door under
    way Open, the door timer running and the car not overloaded, the
    release followed by a fire of the door timer starts the closing in
    both engines.  The release itself clears the flag; the single-file
    engine also restarts the timer and sets the hold time to the reopen
    time when the front door is Open, the logic-split engine leaves the
    timer as the hold left it. *)
Theorem release_lets_doors_close (g : Monolith.Engine) (h : Service.Engine) :
  let e := Monolith.elev g in
  let s := Service.elev h in
  Monolith.activeDoor (Monolith.doors e) = DoorOpen →
  Monolith.doorTimer e ≠ None →
  ¬ overloaded (MaxWeight (Monolith.Cfg e)) (Monolith.weight e) →
  Service.activeDoor (Domain.LDoors (Service.Logic s)) = DoorOpen →
  Service.doorTimer s ≠ None →
  ¬ overloaded (MaxWeight (Service.Cfg s)) (Domain.Weight (Service.Logic s)) →
  Monolith.doors
    (Monolith.elev
       (Monolith.exec Monolith.DoorFire
          (Monolith.exec Monolith.CmdReleaseOpen g)))
  = advance DoorOpen DoorClosing (Monolith.doors e)
  ∧ Monolith.doorTimer
      (Monolith.elev
         (Monolith.exec Monolith.DoorFire
            (Monolith.exec Monolith.CmdReleaseOpen g)))
    = Some (DoorSpeed (Monolith.Cfg e))
  ∧ (front (Monolith.doors e) = DoorOpen →
     Monolith.ReleaseOpenButton e
     = Monolith.withDoorTimer (Some (DoorReopenTime (Monolith.Cfg e)))
         (Monolith.withOpenWaitTime (DoorReopenTime (Monolith.Cfg e))
            (Monolith.withOpenButton false e)))
  ∧ Domain.LDoors
      (Service.Logic
         (Service.elev
            (Service.exec Service.DoorFire
               (Service.exec Service.CmdReleaseOpen h))))
    = advance DoorOpen DoorClosing (Domain.LDoors (Service.Logic s))
  ∧ Service.doorTimer
      (Service.elev
         (Service.exec Service.DoorFire
            (Service.exec Service.CmdReleaseOpen h)))
    = Some (DoorSpeed (Service.Cfg s))
  ∧ Service.ReleaseOpenButton s = Service.withOpenButton false s.
Proof.
  intros e s Hm1 Hm2 Hm3 Hs1 Hs2 Hs3. subst e s.
  assert (Hrel : Monolith.doors
                   (Monolith.ReleaseOpenButton (Monolith.elev g))
                 = Monolith.doors (Monolith.elev g)
                 ∧ Monolith.doorTimer
                     (Monolith.ReleaseOpenButton (Monolith.elev g)) ≠ None
                 ∧ Monolith.isOpenButtonPressed
                     (Monolith.ReleaseOpenButton (Monolith.elev g)) = false
                 ∧ Monolith.Cfg (Monolith.ReleaseOpenButton (Monolith.elev g))
                   = Monolith.Cfg (Monolith.elev g)
                 ∧ Monolith.weight
                     (Monolith.ReleaseOpenButton (Monolith.elev g))
                   = Monolith.weight (Monolith.elev g)).
  { unfold Monolith.ReleaseOpenButton. cbn zeta. by case_decide. }
  destruct Hrel as (Hr1 & Hr2 & Hr3 & Hr4 & Hr5).
  destruct (monolith_fire_open (Monolith.exec Monolith.CmdReleaseOpen g))
    as (Hd & Ht & _).
  { done. }
  { cbn [Monolith.exec Monolith.onElevator Monolith.elev]. by rewrite Hr1. }
  { done. }
  { cbn [Monolith.exec Monolith.onElevator Monolith.elev].
    by rewrite Hr4, Hr5. }
  change (Monolith.elev (Monolith.exec Monolith.CmdReleaseOpen g))
    with (Monolith.ReleaseOpenButton (Monolith.elev g)) in Hd, Ht.
  rewrite Hr1 in Hd. rewrite Hr4 in Ht.
  destruct (service_fire_open (Service.exec Service.CmdReleaseOpen h))
    as (Hl & Hts & _); try done.
  split; [exact Hd|]. split; [exact Ht|].
  split.
  { intros Hf. unfold Monolith.ReleaseOpenButton. cbn zeta.
    by rewrite decide_True. }
  split; [by rewrite Hl|]. split; [exact Hts|done].
Qed.

(** The theorem at floor 2 with the front door open and the button held:
    after the release the door timer starts the closing. *)
Lemma release_lets_doors_close_witness :
  Monolith.doors
    (Monolith.elev
       (Monolith.exec Monolith.DoorFire
          (Monolith.exec Monolith.CmdReleaseOpen monolithButton)))
  = mkDoors DoorClosing DoorClose
  ∧ Domain.LDoors
      (Service.Logic
         (Service.elev
            (Service.exec Service.DoorFire
               (Service.exec Service.CmdReleaseOpen serviceButton))))
    = mkDoors DoorClosing DoorClose.
Proof.
  destruct (release_lets_doors_close monolithButton serviceButton)
    as (Hm & _ & _ & Hs & _).
  - by_computation.
  - intros H. vm_compute in H. discriminate H.
  - intros [_ H]. vm_compute in H. discriminate H.
  - by_computation.
  - intros H. vm_compute in H. discriminate H.
  - intros [_ H]. vm_compute in H. discriminate H.
  - split; [rewrite Hm|rewrite Hs]; by_computation.
Defined.

(** ** The decisions of the logic *)

(** X22.  What [DecideNextStep] can answer.  It never answers
    [ActionCloseDoor].  With a door not closed it answers [ActionNone].
    With the doors closed and no call it answers [ActionStop] when the
    car has a heading and [ActionNone] when it has none.  With the doors
    closed and a call pending it always acts: the target is a pending
    call, the answer is [ActionOpenDoor] when the target is the current
    floor and [ActionMove] towards the target otherwise; the branch for a
    scheduler that finds nothing is never taken. *)
Theorem decide_next_step_answers (order : list Z) (l : Domain.ElevatorLogic) :
  let a := Domain.DecideNextStep order l in
  Domain.Type_ a ≠ Domain.ActionCloseDoor
  ∧ (Domain.LDoors l ≠ closedDoors →
     a = Domain.mkLogicAction Domain.ActionNone 0 DirEmpty)
  ∧ (Domain.LDoors l = closedDoors → Domain.Calls l = ∅ →
     a = if decide (Domain.LDirection l = DirNone)
         then Domain.mkLogicAction Domain.ActionNone 0 DirEmpty
         else Domain.mkLogicAction Domain.ActionStop 0 DirNone)
  ∧ (Domain.LDoors l = closedDoors → Domain.Calls l ≠ ∅ →
     order ≡ₚ elements (Domain.Calls l) →
     floorsFit (Domain.Floor l) (Domain.Calls l) →
     Domain.Target a ∈ Domain.Calls l
     ∧ (Domain.Target a = Domain.Floor l →
        a = Domain.mkLogicAction Domain.ActionOpenDoor (Domain.Floor l)
              DirEmpty)
     ∧ (Domain.Target a ≠ Domain.Floor l →
        a = Domain.mkLogicAction Domain.ActionMove (Domain.Target a)
              (towards (Domain.Floor l) (Domain.Target a)))).
Proof.
  cbn zeta. split; [|split; [|split]].
  - unfold Domain.DecideNextStep.
    destruct (Domain.selectNextTarget order l) as [t fd].
    repeat case_match; done.
  - intros Hd. unfold Domain.DecideNextStep, Domain.AreDoorsClosed.
    assert (allClosed (Domain.LDoors l) = false) as ->; [|done].
    destruct (allClosed (Domain.LDoors l)) eqn:Hc; [|done].
    by apply allClosed_true in Hc.
  - intros Hd He. unfold Domain.DecideNextStep, Domain.AreDoorsClosed.
    rewrite Hd. assert (allClosed closedDoors = true) as -> by done.
    cbn [negb]. by rewrite bool_decide_eq_true_2.
  - intros Hd Hne Hp Hfit.
    destruct (domain_schedules order l Hp Hfit) as [_ Hs].
    destruct (Hs Hne) as (Hfd & Hin & _).
    unfold Domain.DecideNextStep, Domain.AreDoorsClosed.
    rewrite Hd. assert (allClosed closedDoors = true) as -> by done.
    cbn [negb]. rewrite bool_decide_eq_false_2 by done.
    destruct (Domain.selectNextTarget order l) as [t fd].
    cbn in Hfd, Hin. subst fd. cbn [negb].
    destruct (Z.eqb_spec t (Domain.Floor l)) as [->|Hn].
    + cbn. split; [done|]. split; [done|]. by intros [].
    + unfold towards.
      destruct (Domain.Floor l <? t) eqn:Hlt; cbn; rewrite Hlt;
        (split; [done|]); (split; [by intros ?|done]).
Qed.

(** The theorem on the logic at floor 5 with calls at 3 and 7. *)
Lemma decide_next_step_answers_witness :
  Domain.Target (Domain.DecideNextStep [7; 3] logicAt5Idle)
  ∈ Domain.Calls logicAt5Idle.
Proof.
  destruct (decide_next_step_answers [7; 3] logicAt5Idle)
    as (_ & _ & _ & Hact).
  destruct Hact as (Hin & _).
  - by_computation.
  - intros H. pose proof logicAt5Idle_calls as Hel. rewrite H in Hel.
    vm_compute in Hel. discriminate Hel.
  - by rewrite logicAt5Idle_calls.
  - solve_floorsFit logicAt5Idle_calls.
  - exact Hin.
Defined.

(** ** The heading is a named one *)

Lemma named_stays (d d' : Direction) :
  named d → d' = d ∨ d' = DirNone → named d'.
Proof. unfold named. intros Hn [-> | ->]; auto. Qed.

Lemma monolith_handleMove_direction (order : list Z) (e : Monolith.Elevator) :
  Monolith.direction (snd (Monolith.handleMove order e))
  = Monolith.direction e
  ∨ Monolith.direction (snd (Monolith.handleMove order e)) = DirNone.
Proof.
  unfold Monolith.handleMove.
  set (e1 := match Monolith.direction e with
             | DirUp => _ | DirDown => _ | _ => _ end).
  assert (H1 : Monolith.direction e1 = Monolith.direction e).
  { unfold e1, Monolith.setFloor.
    repeat case_match; rewrite ?mono_publish_direction; done. }
  rewrite <- H1.
  destruct (bool_decide _).
  { cbn [snd]. left.
    by destruct (monolith_handleArrival_served (Monolith.floor e1) e1)
      as (_ & _ & _ & _ & _ & -> & _). }
  destruct (Monolith.selectNextTarget order e1) as [t fd].
  destruct (monolith_setDirection_facts DirNone e1) as (_ & _ & _ & Hd).
  destruct fd; cbn [negb snd]; [|by right].
  destruct (_ || _); cbn [snd]; [by left|by right].
Qed.

Lemma monolith_exec_named (op : Monolith.Op) (g : Monolith.Engine) :
  named (Monolith.direction (Monolith.elev g)) →
  named (Monolith.direction (Monolith.elev (Monolith.exec op g))).
Proof.
  intros Hn.
  assert (Hst : ∀ f, monolithStays f →
            named (Monolith.direction
                     (Monolith.elev (Monolith.onElevator f g)))).
  { intros f Hf. destruct (Hf (Monolith.elev g)) as [_ Hd].
    by eapply named_stays. }
  destruct op as [o|o| | |fa ca|fr| | |md|wd|sd st| | | |];
    cbn [Monolith.exec].
  - unfold Monolith.step.
    destruct (Monolith.selectNextTarget o (Monolith.elev g)) as [t fd].
    repeat case_match; try done; cbn [Monolith.elev Monolith.onElevator];
      try (by right; right);
      try (destruct (monolith_setDirection_facts DirUp (Monolith.elev g))
             as (_ & _ & _ & ->); by left);
      try (destruct (monolith_setDirection_facts DirDown (Monolith.elev g))
             as (_ & _ & _ & ->); by right; left).
    apply (Hst (Monolith.handleArrival t)), monolith_stays_handleArrival.
  - destruct (Monolith.travelTimer g); [|done].
    unfold Monolith.travelDone. cbn [Monolith.elev Monolith.isMoving].
    pose proof (monolith_handleMove_direction o (Monolith.elev g)) as Hd.
    destruct (Monolith.handleMove o (Monolith.elev g)) as [[c d] e'].
    cbn [snd] in Hd. destruct c; cbn [Monolith.elev];
      by eapply named_stays.
  - destruct (Monolith.doorTimer (Monolith.elev g)); [|done].
    apply Hst. intros e.
    apply (monolith_stays_handleDoorTimeout (Monolith.withDoorTimer None e)).
  - apply Hst, monolith_stays_handleDoorTimeout.
  - apply Hst. intros e. unfold Monolith.AddCall.
    repeat case_match; cbn; auto.
  - apply Hst, monolith_stays_RemoveCall.
  - apply Hst, monolith_stays_ClearCalls.
  - apply Hst, monolith_stays_Reset.
  - apply Hst, monolith_stays_SetMode.
  - apply Hst, monolith_stays_AddWeight.
  - apply Hst, monolith_stays_SetDoor.
  - apply Hst, monolith_stays_PressOpenButton.
  - apply Hst, monolith_stays_ReleaseOpenButton.
  - apply Hst, monolith_stays_PressCloseButton.
  - apply Hst. intros e. cbn. auto.
Qed.

Lemma service_handleMoveComplete_direction
    (order : list Z) (s : Service.Elevator) :
  named (Domain.LDirection (Service.Logic s)) →
  named (Domain.LDirection
           (Service.Logic (snd (Service.handleMoveComplete order s)))).
Proof.
  intros Hn. unfold Service.handleMoveComplete.
  set (s1 := Service.setFloor _ s).
  assert (H1 : Domain.LDirection (Service.Logic s1)
               = Domain.LDirection (Service.Logic s)).
  { apply service_setFloor_facts. }
  pose proof (domain_decide_move order (Service.Logic s1)) as Hmove.
  destruct (service_setDirection_facts DirNone s1) as (_ & _ & _ & HdN).
  destruct (Domain.Type_ _); cbn [snd]; try (rewrite HdN; by right; right).
  - destruct (Hmove eq_refl) as [_ Hhead].
    case_decide as Hd.
    + rewrite <- Hd. destruct Hhead as [[-> _]|[-> _]]; [by left|by right; left].
    + destruct (service_setDirection_facts
                  (Domain.Dir
                     (Domain.DecideNextStep order (Service.Logic s1))) s1)
        as (_ & _ & _ & ->).
      destruct Hhead as [[-> _]|[-> _]]; [by left|by right; left].
  - destruct (service_stays_handleArrival
                (Domain.Floor (Service.Logic s1)) s1) as [_ Hd].
    eapply named_stays; [exact Hn|]. by rewrite <- H1.
Qed.

Lemma service_exec_named (op : Service.Op) (h : Service.Engine) :
  named (Domain.LDirection (Service.Logic (Service.elev h))) →
  named (Domain.LDirection
           (Service.Logic (Service.elev (Service.exec op h)))).
Proof.
  intros Hn.
  assert (Hst : ∀ f, serviceStays f →
            named (Domain.LDirection
                     (Service.Logic
                        (Service.elev (Service.onElevator f h))))).
  { intros f Hf. destruct (Hf (Service.elev h)) as [_ Hd].
    by eapply named_stays. }
  destruct op as [o|o| | |fa ca|fr| | |md|wd|sd st| | | |];
    cbn [Service.exec].
  - unfold Service.step.
    destruct (negb (Service.Mode (Service.elev h) =? ModeAuto)); [done|].
    destruct (Service.isMoving h); [done|].
    pose proof (domain_decide_move o (Service.Logic (Service.elev h)))
      as Hmove.
    destruct (Domain.Type_ _); try done.
    + destruct (Hmove eq_refl) as [_ Hhead]. cbn [Service.elev].
      destruct (service_setDirection_facts
                  (Domain.Dir
                     (Domain.DecideNextStep o
                        (Service.Logic (Service.elev h))))
                  (Service.elev h)) as (_ & _ & _ & ->).
      destruct Hhead as [[-> _]|[-> _]]; [by left|by right; left].
    + by apply Hst, service_stays_handleArrival.
    + case_decide; [done|]. cbn [Service.elev Service.onElevator].
      destruct (service_setDirection_facts DirNone (Service.elev h))
        as (_ & _ & _ & ->).
      by right; right.
  - destruct (Service.travelTimer h); [|done].
    unfold Service.travelDone. cbn [Service.elev Service.isMoving].
    pose proof (service_handleMoveComplete_direction o (Service.elev h) Hn)
      as Hd.
    destruct (Service.handleMoveComplete o (Service.elev h)) as [[c d] e'].
    cbn [snd] in Hd. by destruct c.
  - destruct (Service.doorTimer (Service.elev h)); [|done].
    apply Hst. intros s.
    apply (service_stays_handleDoorTimeout (Service.withDoorTimer None s)).
  - apply Hst, service_stays_handleDoorTimeout.
  - apply Hst. intros s. unfold Service.AddCall, Domain.AddCall.
    repeat case_match; simplify_eq/=; auto.
  - apply Hst, service_stays_RemoveCall.
  - apply Hst, service_stays_ClearCalls.
  - cbn [Service.onElevator Service.elev].
    destruct (service_reset_post (Service.elev h)) as (-> & _).
    by right; right.
  - apply Hst, service_stays_SetMode.
  - apply Hst, service_stays_AddWeight.
  - apply Hst, service_stays_SetDoor.
  - apply Hst, service_stays_PressOpenButton.
  - apply Hst, service_stays_ReleaseOpenButton.
  - apply Hst, service_stays_PressCloseButton.
  - apply Hst. intros s. cbn. auto.
Qed.

(** X23.  The heading of an engine built by [New] is always Up, Down or None,
    whatever happens afterwards.  The empty string, which is what the
    [Dir] of an action of the logic holds when no direction was set, never
    reaches the state. *)
Theorem heading_is_named
    (config : Config) (e0 : Monolith.Elevator) (g : Monolith.Engine)
    (s0 : Service.Elevator) (h : Service.Engine) :
  Monolith.New config = inr e0 →
  Service.New config = inr s0 →
  Monolith.reachable (Monolith.start e0) g →
  Service.reachable (Service.start s0) h →
  named (Monolith.direction (Monolith.elev g))
  ∧ named (Domain.LDirection (Service.Logic (Service.elev h))).
Proof.
  intros Hme Hse Hg Hh. split.
  - induction Hg as [|g1 op _ IH _ _]; [|by apply monolith_exec_named].
    unfold Monolith.New in Hme.
    destruct (MaxFloor config <? MinFloor config); [discriminate|].
    injection Hme as <-. by right; right.
  - induction Hh as [|h1 op _ IH _ _]; [|by apply service_exec_named].
    unfold Service.New in Hse.
    destruct (MaxFloor config <? MinFloor config); [discriminate|].
    injection Hse as <-. by right; right.
Qed.

(** The theorem on the engines on their way from floor 1 to floor 5. *)
Lemma heading_is_named_witness :
  named (Monolith.direction (Monolith.elev monolithMoving))
  ∧ named (Domain.LDirection (Service.Logic (Service.elev serviceMoving))).
Proof.
  apply (heading_is_named scenarioConfig monolith0 monolithMoving
           service0 serviceMoving).
  - reflexivity.
  - reflexivity.
  - eapply reachableBy_weaken_monolith, monolithMoving_reachable.
  - eapply reachableBy_weaken_service, serviceMoving_reachable.
Defined.

(** ** Resetting twice *)

Lemma service_publish_room (ev : Event) (s : Service.Elevator) :
  (length (Service.eventCh s) < eventCapacity)%nat →
  Service.eventCh (Service.publishEvent ev s) = Service.eventCh s ++ [ev].
Proof.
  intros H%Nat.ltb_lt. unfold Service.publishEvent. by rewrite H.
Qed.

(** X24.  A second [Reset] changes nothing in the single-file engine: it
    publishes only what changes, and after a reset nothing does.  The
    logic-split engine rebuilds its logic and always announces floor,
    direction and both doors, so the second reset leaves the logic as it
    is but queues its four events again. *)
Theorem reset_twice (e : Monolith.Elevator) (s : Service.Elevator) :
  Monolith.Reset (Monolith.Reset e) = Monolith.Reset e
  ∧ Service.Logic (Service.Reset (Service.Reset s))
    = Service.Logic (Service.Reset s)
  ∧ ((length (Service.eventCh s) + 4 <= eventCapacity)%nat →
     Service.eventCh (Service.Reset s)
     = Service.eventCh s
       ++ [EventFloorChange
             (Domain.InitialFloor (Domain.LConfig (Service.Logic s)));
           EventDirectionChange DirNone;
           EventDoorChange Front DoorClose;
           EventDoorChange Rear DoorClose]).
Proof.
  split; [|split].
  - destruct (monolith_reset_post e) as (Hd & Hdo & Hc & _).
    set (e' := Monolith.Reset e) in *.
    unfold Monolith.Reset at 1.
    rewrite (monolith_withCallFloors_same e' ∅) by done.
    assert (Hsd : ∀ side, Monolith.setDoor side DoorClose e' = e').
    { intros side. unfold Monolith.setDoor. rewrite Hdo.
      rewrite decide_True; [done|by destruct side]. }
    unfold Monolith.setDirection. rewrite decide_True by done.
    by rewrite !Hsd.
  - unfold Service.Reset.
    repeat (rewrite ?service_publish_Logic;
            cbn [Service.Logic Service.withLogic Domain.NewElevatorLogic
                 Domain.LConfig Domain.MinFloor Domain.MaxFloor
                 Domain.FloorConfigs Domain.InitialFloor Domain.MaxWeight]).
    unfold Domain.NewElevatorLogic.
    cbn [Domain.MinFloor Domain.MaxFloor Domain.FloorConfigs
         Domain.InitialFloor Domain.MaxWeight].
    by rewrite fillDefaults_idem.
  - intros Hroom. unfold Service.Reset. cbn zeta.
    rewrite !service_publish_Logic.
    cbn [Service.Logic Service.withLogic Domain.NewElevatorLogic
         Domain.Floor Domain.LDirection Domain.InitialFloor].
    set (s0 := Service.withLogic _ s).
    set (ev1 := EventFloorChange _).
    assert (H1 : Service.eventCh (Service.publishEvent ev1 s0)
                 = Service.eventCh s ++ [ev1]).
    { rewrite service_publish_room; [done|]. cbn. lia. }
    assert (H2 : Service.eventCh
                   (Service.publishEvent (EventDirectionChange DirNone)
                      (Service.publishEvent ev1 s0))
                 = (Service.eventCh s ++ [ev1])
                   ++ [EventDirectionChange DirNone]).
    { rewrite service_publish_room; rewrite H1; [done|].
      rewrite length_app. cbn. lia. }
    assert (H3 : Service.eventCh
                   (Service.publishEvent (EventDoorChange Front DoorClose)
                      (Service.publishEvent (EventDirectionChange DirNone)
                         (Service.publishEvent ev1 s0)))
                 = ((Service.eventCh s ++ [ev1])
                    ++ [EventDirectionChange DirNone])
                   ++ [EventDoorChange Front DoorClose]).
    { rewrite service_publish_room; rewrite H2; [done|].
      rewrite !length_app. cbn. lia. }
    rewrite service_publish_room; rewrite H3.
    + by rewrite <- !app_assoc.
    + rewrite !length_app. cbn. lia.
Qed.
